(* ===== verification/_CoqProject ===== *)
-Q . S2P
Prelude.v
State.v
Tables.v
Memory.v
Stacks.v
Regs.v
Alu.v
Mac.v
Shift.v
Exec.v
Api.v
Effects.v
EffectsOps.v
EffectsExec.v
Invariants.v
Safety.v
Coherence.v
Passive.v
Transparent.v
CoreTest.v
MemorySpec.v
RegsSpec.v
ApiSpec.v
StacksSpec.v
LoopSpec.v
AluSpec.v
MacSpec.v
ShiftSpec.v
Dasm.v
DasmSpec.v
Ham.v
HamSpec.v
Ring.v
Bridge.v
BridgeSpec.v
BridgeSession.v
Probe.v
ProbeSpec.v
StreamBridge.v
CLib.v
Pipes.v
Pm3.v
Pm3Spec.v
Runner.v
RunnerSpec.v
Tools.v
