(* ===== verification/Prelude.v ===== *)
(** * Verification of the modem DSP emulator and its tools

    ** The program

    [src/tools/] holds the tools that run the firmware of soft-modem cards.
    Their core is an ADSP-2181 emulator derived from MAME's ADSP-21xx core,
    [src/tools/adsp2181emu/]: [adsp2181_core.c] (the state, memory with its
    instrumentation, the execution loop, interrupts, and the exported
    functions) textually includes [2100ops.inc] (registers, stacks, address
    generators, ALU, MAC, shifter). Around it:

    - [eicon_adsp_run.c] loads memory dumps into the emulator and runs them,
      its SPORTs connected to sample files;
    - [dasm/2100dasm.c] with [dasm/dasm_main.cpp] is the disassembler and its
      stand-alone listing program;
    - [v90_digital_phase3_event_bridge.c] and [v90a_phase3_bridge_probe.c] are
      child processes that join the digital and the analogue end of a V.90
      connection to a stream of PCM frames, with a library of signal
      processing; [v90_stream_event_bridge.c] is a library between that one's
      demodulator and a media process;
    - [pm3_z180_harness.c] runs the firmware of a modem controller on a Z180
      emulator and a board of two FIFOs;
    - [ambient_ham_probe/ambient_ham_probe.c] is a Linux PCI driver that brings
      up a real card's DSP and serves it overlays;
    - [p3_segment_probe.c] and [v34_b1_reference.c] are small programs around
      the same signal-processing libraries;
    - [adsp2181_core_test.c] is the emulator's regression test.

    The emulator's core knows nothing of the others: a host program calls its
    exported functions, and it calls back through three function pointers.

    ** The model

    A C function is a command of a state monad or a pure function. The
    emulator's monad is [State.M], whose state is every member of [struct
    adsp2181]; the driver's is [Ham.H], whose state is an arbitrary device and
    the log of accesses to it; the two V.90 bridges have theirs ([Bridge.B],
    [Probe.P]) over the bridge's own variables and the state of the library;
    the runner's [Runner.X] adds exit codes to [State.M]. Members have their
    declared C type: an assignment converts ([Prelude.conv]), and arithmetic is
    done at the width C does it. An array access of the emulator is checked:
    outside the bounds it sets the ghost member [FAULT], which
    [Safety.session_safe] shows stays clear. Names are those of the source.

    Libraries that are not in the repository are type classes: [Bridge.Sibling],
    [Probe.Engine], [StreamBridge.Demod], [Pm3.Z180], [Tools.V34],
    [Ham.Device], [State.Host]. Where a library calls back, its function
    returns the tree of the calls it makes before it returns ([Bridge.calls],
    [Probe.asks], [Pm3.bus]), and the theorems hold for every tree.

    - [Prelude]: C integer types, conversions and operators, their arithmetic,
      shared tactics and the [adsp] hint database.
    - [State]: the members of [struct adsp2181], the monad, the environment
      ([Host]: the callbacks, the process environment, undefined shifts).
    - [Tables]: [create_tables]'s three tables, the ASTAT flags.
    - [Memory]: [RWORD_DATA], [WWORD_DATA], [RWORD_PGM], [WWORD_PGM],
      [RWORD_IO], [WWORD_IO]: overlay selection, watches, pins, forced
      fetches, the transmit latch, stop-on-publish, the write census.
    - [Stacks]: [update_mstat] and the register banks, the PC, counter, loop
      and status stacks with SSTAT, [CONDITION], [check_irqs].
    - [Regs]: the [wr_reg]/[rd_reg] tables, [setup_register_maps], the two
      data address generators.
    - [Alu], [Mac], [Shift]: the computational units ([alu_op_*], [mac_op_*],
      [shift_op*], the divide primitives).
    - [Exec]: [execute]: fetch, zero-overhead loop test, the 256-way decode, the
      loop on [icount].
    - [Api]: every exported function of [adsp2181_core.h], among them IDMA and
      the host port, injected calls, the SPORT frame entry points, and the
      pointers to the memories ([pointer]: an array, a base and a length).
    - [CoreTest]: the regression test, a program over [Api] that a failed
      [assert] stops.
    - [Dasm]: [disassemble] with its tables and a printf model, the
      stand-alone listing.
    - [Ham]: the driver, from [ham_probe] and [ham_remove] down to the register
      accessors; the card is an instance of the class [Ham.Device].
    - [Ring]: the bit ring two of the bridge's queues share, as a bounded list.
    - [Bridge]: the digital bridge: bit rings, the callbacks of the library,
      the event table, the CP recovery worker with its mailbox, the
      transmitter, initialisation, reset and the main loop. The worker runs
      between the critical sections of the main thread as a schedule says.
    - [Probe]: the analogue bridge: u-law encoding, the bit source, packets,
      creation and reset of the engine, the frame loop and the offline mode.
      Doubles are the standard library's [spec_float].
    - [StreamBridge]: create, reset, process and segments of the event library.
    - [CLib]: [strtoul], [strtol], [atoi] and the number conversions of
      [fscanf], for the programs that read numbers from text.
    - [Pipes]: [main] of the two bridges as processes: the command lines, the
      requests in the octets of standard input ([next_request]), the answers on
      standard output ([written]), the files of offline mode, the exit codes.
    - [Pm3]: the harness: the four callbacks, arguments, the run with its three
      interrupt sources, the report.
    - [Runner]: the runner: SPORT callbacks, images, word maps, scripts,
      address lists, staging, the word loop, tracing, the dump. What the
      callbacks keep in static variables is a fold over the calls they log in
      the emulator's event list.
    - [Tools]: the two small programs and the [main] of the listing program.

    ** What is proved

    Two program logics carry the proofs about the core. [Effects] defines
    well-formedness [Wf] (every member in the range the code keeps it in) and a
    Hoare-style judgement [ok]: a command has only the elementary effects
    [micro], keeps [Wf], faults never. [EffectsOps] and [EffectsExec] prove it
    for every operation and opcode. [Invariants] then derives each invariant
    by cases on the elementary effects alone. [Passive] is the relational
    counterpart: [eqv] relates states equal up to instrumentation, and every
    operation respects it.

    - [Safety]: any sequence of exported calls, with any arguments and any
      program in memory, and of a host's stores through the memory pointers
      that stay inside them, keeps [Wf] and never leaves an array.
    - [CoreTest.core_test_passes]: no assertion of the program's own regression
      test fails on the model, whatever an undefined shift computes.
    - [Invariants]: [execute] terminates; [adsp2181_run] stops within its
      budget; the status bits agree with the stacks, circular-buffer masks
      with lengths, MR with its sign extension; configuration and pins hold.
    - [Coherence]: in a session of exported calls in which no injected call is
      abandoned, and whose timer callback leaves the stacks alone, SSTAT and the
      loop registers agree with the stacks; and a session that abandons one and
      loses this.
    - [Transparent]: observing calls do not change what the program does.
    - [MemorySpec]: paged memories behave as arrays; latch-on-publish and
      stop-on-publish see the stores they promise.
    - [RegsSpec]: circular and linear buffers are walked as the address
      generators promise.
    - [ApiSpec]: an image downloaded through the IDMA port of a held core is
      what it fetches, and only location 0 releases it.
    - [StacksSpec]: the PC stack refines a bounded list; interrupt arbitration,
      entry and return; register banks.
    - [LoopSpec]: a DO UNTIL CE instruction in program memory runs the
      straight-line code behind it as often as CNTR says, instruction by
      instruction, and leaves the stacks as they were.
    - [AluSpec], [MacSpec], [ShiftSpec]: the units compute the exact results,
      flags, rounding and saturation of integer arithmetic; comparisons branch
      right; divide steps divide; and exactly when V of X + Y + C is wrong.
    - [DasmSpec]: the disassembler is total and free of undefined behaviour,
      numbers printed after a dollar sign by printf can be read back from the
      text, and where it is wrong or ambiguous.
    - [HamSpec]: the order of accesses that publish a command, delivery of
      overlays, what precedes the release of the DSP, the line after a call, and
      the line, the DSP and the PCI command word after a removal and after a
      probe that failed, which differ by whether BAR0 had been mapped.
    - [BridgeSpec]: the bit rings refine bounded lists; when the data receiver
      starts.
    - [BridgeSession]: in any session, under any schedule of the worker, every
      frame is answered in full and no table, ring or mailbox overflows; a
      result taken was asked for in the state that still holds; stopping joins.
    - [ProbeSpec]: the payload of one bridge arrives at the other bit for bit
      (this joins [Bridge] and [Probe]); how far the u-law code moves a sample
      between them, at any gain; what the header counts; what a new engine loses.
    - [Pipes]: what one bridge process writes the other reads as exactly the
      frames and packets written; which requests each process answers and how
      its exit status follows from that, a failed reset included; the options the command lines accept.
    - [StreamBridge.symbols_emitted_once], [Pm3Spec], [RunnerSpec], [Tools]:
      clients see each symbol once; the board is the abstract FIFO device and
      the report counts and ranks executed addresses; the runner keeps the
      emulator safe (through [Safety]'s judgement), and its images, dumps, word
      maps and sample files carry their words unchanged.

    ** Bounds and fuel

    [Exec.run_loop] takes [max 1 icount] passes as fuel;
    [Invariants.execute_terminates] proves that the loop ends by its own test
    within it. [Api]'s bounded loops ([for_upto]) have the bounds of the
    source. In [Dasm], [digits] gets 10 decimal or 8 hexadecimal digits, all a
    32-bit number has. In [Ham], [wait_response] and [observe_until] can run
    for as long as the device keeps talking, so fuel is an argument of the
    functions that reach them; running out gives [None], and
    [HamSpec.chatty_device_holds_line] shows a device for which no fuel is
    enough. [send_chunks], [service_records] and [load_records] take the size
    of their data as fuel, and each pass consumes some of it.

    In [Bridge], [v34_rx_chunks] gets as many passes as there are samples, and
    each takes one at least; [join_worker] runs the worker for the two steps it
    can have left. In [Probe], [find_exponent] gets the seven passes its
    counter allows and [offline_loop] the length of the capture. In [Pipes],
    [requests_of] gets more passes than there are octets, and each takes at
    least one ([Pipes.requests_read]: what is left holds no request). [Pm3]'s
    [parse_bytes] gets the length of its text ([Pm3Spec.parse_bytes_total]:
    always enough), [run_steps] the number of steps asked for. [Runner]'s
    parsing loops get the length of the file, of which each pass takes a
    character at least; its other loops have the bounds of the source.

    ** What is not modelled

    What the signal-processing library does with null handles: after a reset
    that failed before it had made both, the digital bridge's final report
    passes them on, and how the process then ends is the parameter
    [Pipes.b_null_status]. Null-pointer arguments of the emulator's exported functions, and failing
    allocations of [adsp2181_create]; [adsp2181_destroy] and
    [v90_stream_bridge_destroy], which only free. The text of log messages (the
    events are logged, or messages are values), and output that cannot be
    written. The Python harnesses, protocol stacks and tests under [src/tools/]
    and [src/tests/], and the vendored sources under [src/docs/]. *)

From stdpp Require Export base decidable option list gmap numbers.
From Stdlib Require Export ZArith Lia Bool.
#[export] Set Default Proof Using "Type*".
Open Scope Z_scope.

(** ** C integer types

    Every object of the emulator has one of the fixed-width C types below.
    A C assignment converts the value to the type of the left-hand side:
    reduction modulo [2^w] for the unsigned types, two's complement
    reinterpretation for the signed ones (what every compiler this code is
    built with does for the implementation-defined signed case). *)
Inductive cty := U8 | S8 | U16 | S16 | U32 | S32 | U64 | S64.

Definition cbits (t : cty) : Z :=
  match t with
  | U8 | S8 => 8 | U16 | S16 => 16 | U32 | S32 => 32 | U64 | S64 => 64
  end.

Definition csigned (t : cty) : bool :=
  match t with S8 | S16 | S32 | S64 => true | _ => false end.

(** Wrap-around of an unsigned, and of a signed, [w]-bit integer. *)
Definition wrapu (w z : Z) : Z := z mod 2 ^ w.
Definition wraps (w z : Z) : Z := (z + 2 ^ (w - 1)) mod 2 ^ w - 2 ^ (w - 1).

Definition conv (t : cty) (z : Z) : Z :=
  if csigned t then wraps (cbits t) z else wrapu (cbits t) z.

Definition cmin (t : cty) : Z := if csigned t then - 2 ^ (cbits t - 1) else 0.
Definition cmax (t : cty) : Z :=
  if csigned t then 2 ^ (cbits t - 1) - 1 else 2 ^ cbits t - 1.

Notation u8 := (conv U8).
Notation s8 := (conv S8).
Notation u16 := (conv U16).
Notation s16 := (conv S16).
Notation u32 := (conv U32).
Notation s32 := (conv S32).
Notation u64 := (conv U64).
Notation s64 := (conv S64).

(** ** C expression notations *)
Declare Scope c_scope.
Delimit Scope c_scope with C.
Infix "&&&" := Z.land (at level 40, left associativity) : c_scope.
Infix "|||" := Z.lor (at level 50, left associativity) : c_scope.
Infix "^^^" := Z.lxor (at level 50, left associativity) : c_scope.
Infix "<<<" := Z.shiftl (at level 45, left associativity) : c_scope.
Infix ">>>" := Z.shiftr (at level 45, left associativity) : c_scope.
Notation "~~~ x" := (Z.lnot x) (at level 35, right associativity) : c_scope.
Open Scope c_scope.

(** C truth: an integer used as a condition, and a condition used as one. *)
Definition nz (z : Z) : bool := negb (z =? 0).
Definition b2z (b : bool) : Z := if b then 1 else 0.
(** [if (op & mask)] *)
Definition tst (z mask : Z) : bool := nz (z &&& mask).

(** ** Range lemmas *)
Lemma wrapu_range w z : 0 <= w -> 0 <= wrapu w z <= 2 ^ w - 1.
Proof. intros Hw. unfold wrapu. pose proof (Z.mod_pos_bound z (2 ^ w)). lia. Qed.

Lemma wraps_range w z :
  0 < w -> - 2 ^ (w - 1) <= wraps w z <= 2 ^ (w - 1) - 1.
Proof.
  intros Hw. unfold wraps.
  assert (2 ^ w = 2 * 2 ^ (w - 1)) as E
    by (rewrite <- Z.pow_succ_r by lia; f_equal; lia).
  pose proof (Z.mod_pos_bound (z + 2 ^ (w - 1)) (2 ^ w)). lia.
Qed.

Lemma conv_range t z : cmin t <= conv t z <= cmax t.
Proof.
  unfold conv, cmin, cmax. destruct (csigned t) eqn:E.
  - apply wraps_range. destruct t; simpl; lia.
  - apply wrapu_range. destruct t; simpl; lia.
Qed.

Lemma conv_id t z : cmin t <= z <= cmax t -> conv t z = z.
Proof.
  unfold conv, cmin, cmax, wraps, wrapu. intros H. destruct (csigned t) eqn:E.
  - assert (2 ^ cbits t = 2 * 2 ^ (cbits t - 1)) as E2
      by (rewrite <- Z.pow_succ_r by (destruct t; simpl; lia); f_equal; lia).
    rewrite Z.mod_small; lia.
  - apply Z.mod_small. lia.
Qed.

Lemma conv_conv t z : conv t (conv t z) = conv t z.
Proof. apply conv_id, conv_range. Qed.

Lemma conv_unsigned t z : csigned t = false -> conv t z = z mod 2 ^ cbits t.
Proof. intros H. unfold conv. by rewrite H. Qed.

(** Conversion only depends on the value modulo [2^w]. *)
Lemma conv_mod t z : conv t (z mod 2 ^ cbits t) = conv t z.
Proof.
  unfold conv, wraps, wrapu. destruct (csigned t).
  - f_equal. rewrite Zplus_mod_idemp_l. done.
  - by rewrite Z.mod_mod by (destruct t; simpl; lia).
Qed.

Lemma conv_eq_mod t x y :
  x mod 2 ^ cbits t = y mod 2 ^ cbits t -> conv t x = conv t y.
Proof. intros H. rewrite <- (conv_mod t x), <- (conv_mod t y). by rewrite H. Qed.

(** Conversion keeps the low bits. *)
Lemma conv_low t z : conv t z mod 2 ^ cbits t = z mod 2 ^ cbits t.
Proof.
  unfold conv, wraps, wrapu. destruct (csigned t).
  - rewrite Zminus_mod, Zmod_mod, <- Zminus_mod. f_equal. lia.
  - by rewrite Zmod_mod.
Qed.
Lemma conv_testbit t z j : j < cbits t -> Z.testbit (conv t z) j = Z.testbit z j.
Proof.
  intros Hj. destruct (Z.lt_ge_cases j 0); [by rewrite !Z.testbit_neg_r|].
  rewrite <- (Z.mod_pow2_bits_low (conv t z) (cbits t)) by lia.
  rewrite <- (Z.mod_pow2_bits_low z (cbits t)) by lia. by rewrite conv_low.
Qed.

(** ** Masks

    [Z.land_ones] in the forms the emulator's masks take. *)
Lemma land_mask_mod z n : 0 <= n -> z &&& (2 ^ n - 1) = z mod 2 ^ n.
Proof. intros Hn. rewrite <- Z.land_ones by done. by rewrite Z.ones_equiv. Qed.

Lemma land_range_r z m : 0 <= m -> 0 <= z &&& m <= m.
Proof.
  intros Hm. split; [apply Z.land_nonneg; lia|].
  assert (z &&& m = m - Z.ldiff m z) as ->.
  - assert (m - Z.ldiff m z = Z.ldiff m (Z.ldiff m z)) as ->.
    + apply Z.sub_nocarry_ldiff, Z.bits_inj'. intros n Hn.
      rewrite !Z.ldiff_spec, Z.bits_0. by destruct (Z.testbit z n), (Z.testbit m n).
    + apply Z.bits_inj'. intros n Hn.
      rewrite Z.land_spec, !Z.ldiff_spec.
      by destruct (Z.testbit z n), (Z.testbit m n).
  - pose proof (proj2 (Z.ldiff_nonneg m z) (or_introl Hm)). lia.
Qed.

Lemma land_range_l z m : 0 <= z -> 0 <= z &&& m <= z.
Proof. rewrite Z.land_comm. apply land_range_r. Qed.

Lemma bits_high_0 z w n : 0 <= z < 2 ^ w -> w <= n -> Z.testbit z n = false.
Proof.
  intros Hz Hn. destruct (Z.le_gt_cases 0 w).
  - rewrite <- (Z.mod_small z (2 ^ w)) by done. by apply Z.mod_pow2_bits_high.
  - rewrite Z.pow_neg_r in Hz by done. lia.
Qed.

Lemma range_of_bits z w :
  0 <= w -> 0 <= z -> (forall n, w <= n -> Z.testbit z n = false) -> z < 2 ^ w.
Proof.
  intros Hw Hz H. destruct (Z.eq_dec z 0) as [->|]; [lia|].
  apply Z.log2_lt_pow2; [lia|].
  destruct (Z.le_gt_cases w (Z.log2 z)) as [Hl|]; [|done].
  specialize (H _ Hl). rewrite Z.bit_log2 in H by lia. done.
Qed.

Lemma lor_range a b w : 0 <= w ->
  0 <= a <= 2 ^ w - 1 -> 0 <= b <= 2 ^ w - 1 -> 0 <= a ||| b <= 2 ^ w - 1.
Proof.
  intros Hw Ha Hb.
  assert (0 <= a ||| b) by (apply Z.lor_nonneg; lia).
  split; [done|].
  enough (a ||| b < 2 ^ w) by lia.
  apply range_of_bits; [done..|]. intros n Hn.
  rewrite Z.lor_spec, (bits_high_0 a w), (bits_high_0 b w) by lia. done.
Qed.

Lemma tst_pow2 z k : 0 <= k -> tst z (2 ^ k) = Z.testbit z k.
Proof.
  intros Hk. unfold tst, nz. destruct (Z.testbit z k) eqn:E.
  - assert (z &&& 2 ^ k <> 0) as Hn; [|by apply Z.eqb_neq in Hn as ->].
    intros H0. assert (Z.testbit (z &&& 2 ^ k) k = false) as Hb by (by rewrite H0, Z.bits_0).
    by rewrite Z.land_spec, E, Z.pow2_bits_true in Hb by done.
  - assert (z &&& 2 ^ k = 0) as ->; [|done]. apply Z.bits_inj'. intros n Hn.
    rewrite Z.land_spec, Z.bits_0, Z.pow2_bits_eqb by done.
    destruct (Z.eqb_spec k n) as [->|]; [by rewrite E|by rewrite andb_false_r].
Qed.

(** Or-ing in a value whose low bits are free is addition. *)
Lemma lor_add x y n : 0 <= n -> 0 <= x < 2 ^ n -> x ||| y * 2 ^ n = x + y * 2 ^ n.
Proof.
  intros Hn Hx.
  assert (x &&& (y * 2 ^ n) = 0) as Hd.
  { apply Z.bits_inj'; intros k Hk. rewrite Z.land_spec, Z.bits_0.
    destruct (Z.lt_ge_cases k n).
    - rewrite Z.mul_pow2_bits_low by done. apply andb_false_r.
    - by rewrite (bits_high_0 x n) by done. }
  rewrite <- Z.lxor_lor by done. symmetry. by apply Z.add_nocarry_lxor.
Qed.

(** Single bits of flag words. *)
Lemma tst_set z a b : 0 <= a -> 0 <= b ->
  tst (z ||| 2 ^ a) (2 ^ b) = (a =? b) || tst z (2 ^ b).
Proof.
  intros Ha Hb. rewrite !tst_pow2, Z.lor_spec, Z.pow2_bits_eqb by done. apply orb_comm.
Qed.
Lemma tst_clr z a b : 0 <= a -> 0 <= b ->
  tst (z &&& ~~~(2 ^ a)) (2 ^ b) = negb (a =? b) && tst z (2 ^ b).
Proof.
  intros Ha Hb. rewrite !tst_pow2, Z.land_spec, Z.lnot_spec, Z.pow2_bits_eqb by done.
  apply andb_comm.
Qed.
Lemma tst_conv t z b : 0 <= b < cbits t -> tst (conv t z) (2 ^ b) = tst z (2 ^ b).
Proof. intros Hb. rewrite !tst_pow2, conv_testbit by lia. done. Qed.

(** ** Concrete arithmetic side conditions *)
Create HintDb adsp discriminated.

(** Fold the powers of two a [conv] hides into literals, for [lia]. *)
Ltac conv_lits :=
  repeat match goal with
  | H : context [2 ^ ?n] |- _ =>
      let v := eval vm_compute in (2 ^ n) in progress change (2 ^ n) with v in H
  | |- context [2 ^ ?n] =>
      let v := eval vm_compute in (2 ^ n) in progress change (2 ^ n) with v
  end.

Ltac unfold_conv := unfold conv, wraps, wrapu, cmin, cmax in *; cbn [csigned cbits] in *.

Lemma nz_false z : nz z = false <-> z = 0.
Proof. unfold nz. rewrite negb_false_iff, Z.eqb_eq. done. Qed.
Lemma nz_true z : nz z = true <-> z <> 0.
Proof. unfold nz. rewrite negb_true_iff, Z.eqb_neq. done. Qed.
Lemma b2z_range b : 0 <= b2z b <= 1.
Proof. destruct b; simpl; lia. Qed.
#[export] Hint Resolve b2z_range : adsp.

(** ** Exhaustive checks over a range of integers *)
Fixpoint all_from (n : nat) (z : Z) (P : Z -> bool) : bool :=
  match n with
  | O => true
  | S k => P z && all_from k (z + 1) P
  end.

Lemma all_from_spec n z P :
  all_from n z P = true -> forall x, z <= x < z + Z.of_nat n -> P x = true.
Proof.
  revert z; induction n as [|n IH]; simpl all_from; intros z; [lia|].
  intros [H1 H2]%andb_true_iff x Hx.
  destruct (Z.eq_dec x z) as [->|]; [done|]. apply (IH (z + 1)); [done|lia].
Qed.

Definition all_below (n : Z) (P : Z -> bool) : bool := all_from (Z.to_nat n) 0 P.

Lemma all_below_spec n P :
  all_below n P = true -> forall x, 0 <= x < n -> P x = true.
Proof. intros H x Hx. apply (all_from_spec _ _ _ H). lia. Qed.
