(* ===== verification/State.v ===== *)
(** * The emulator's state

    [struct adsp2181] of [src/tools/adsp2181emu/adsp2181_core.c] (with its
    nested [ADSPCORE] banks) as a finite map from member names to integers:
    [field] names the scalar members, [arr] the array members; [fty], [aty]
    and [alen] give their declared C types and lengths. A write converts the
    value to the member's type, as a C assignment does. The file-scope
    variables of the "Y - 1" diagnostic are members as well.

    The two-dimensional members are flattened: [program_overlay[o][x]] and
    [data_overlay[o][x]] are elements [0x2000 * o + x], and the three columns
    of [stat_stack] are three arrays. [FAULT] is the one member the struct
    does not have: it records that an array was indexed outside its bounds,
    which is undefined behaviour in C and which no element of the model stands
    for. [Safety.session_safe] proves that it stays 0. *)
From S2P Require Import Prelude.

(** ** Member names *)

(** The two core-register banks hold the same registers ([ADSPCORE]). *)
Inductive creg :=
  | AX0 | AX1 | AY0 | AY1 | AR | AF | MX0 | MX1 | MY0 | MY1 | MR | MF | SI | SE | SB
  | SR | ZERO.

Inductive field :=
  | Core (r : creg) | Alt (r : creg)
  | PX | PC | PPC | LOOP | LOOP_CONDITION | CNTR | CNTR_VALID | ASTAT | SSTAT | MSTAT
  | MSTAT_PREV | ASTAT_CLEAR | IDLE | PC_SP | CNTR_SP | STAT_SP | LOOP_SP
  | INJECT_PC_SP | INJECT_CNTR_SP | INJECT_STAT_SP | INJECT_LOOP_SP | INJECT_RETURN
  | INJECT_VALID | STACK_OVER_WARNED | FLAGOUT | FLAGIN | FL0 | FL1 | FL2 | IDMA_ADDR
  | IDMA_CACHE | IDMA_OFFS | IDMA_PENDING_WRITE | IDMA_BOOT_HOLD | IDMA_BOOT_MODE
  | IMASK | ICNTL | IFC | PMOVLAY | DMOVLAY | INTERRUPTS_ENABLED | ICOUNT | CHIP_TYPE
  | MSTAT_MASK | IMASK_MASK | PCSP_WINDOW_MIN | PCSP_WINDOW_MAX | WATCH_GATE
  | STOP_DM_ADDR | STOP_DM_ARMED | STOP_DM_HIT | STOP_DM_LEFT | STOP_DM_GROUP
  | LATCH_DM_ADDR | LATCH_DM_ARMED | LATCH_DM_HAVE | LATCH_DM_VALUE | LATCH_DM_COUNT
  | YIELD_ON_STOP | CONTINUE_NON_IDLE | EXEC_HISTORY_POS | EXEC_HISTORY_ENABLED
  | WATCH_IRQS | DM_CENSUS_ON | CYCLES | COVERAGE_ON | TRACE_BUDGET | YM1_MAME_ALL
  | YM1_LOG_BUDGET | FAULT.

Inductive arr :=
  | RI | RM | RL | RLMASK | RBASE | LOOP_STACK | CNTR_STACK | PC_STACK
  | STAT_STACK_MSTAT | STAT_STACK_IMASK | STAT_STACK_ASTAT | SPORT_RX | SPORT_TX
  | SPORT_TX_WRITTEN | IRQ_STATE | IRQ_LATCH | PROGRAM | DATA | PROGRAM_OVERLAY
  | DATA_OVERLAY | IO | WATCH_DM | WATCH_DM_LEFT | WATCH_DM_WONLY | WATCH_PM | PIN_PM
  | PIN_PM_VALUE | PIN_PM_HITS | FORCE_PM_FETCH | FORCE_PM_FETCH_VALUE | PIN_DM
  | PIN_DM_VALUE | PIN_DM_HITS | SPORT_ENTRY_SNAPSHOT | SPORT_RETURN_SNAPSHOT
  | WATCH_EXEC | WATCH_EXEC_LEFT | EXEC_HISTORY | DM_CENSUS | COVERAGE | YM1_MAME_PC.

(** The declared C type of each register, member and array element. *)
Definition creg_ty (x : creg) : cty :=
  match x with
  | MR => U64
  | SR => U32
  | _ => U16
  end.

Definition fty (x : field) : cty :=
  match x with
  | Core r | Alt r => creg_ty r
  | PC | PPC | LOOP | LOOP_CONDITION | CNTR | ASTAT | SSTAT | MSTAT | MSTAT_PREV
  | ASTAT_CLEAR | IDLE | LATCH_DM_COUNT => U32
  | PC_SP | CNTR_SP | STAT_SP | LOOP_SP | INJECT_PC_SP | INJECT_CNTR_SP
  | INJECT_STAT_SP | INJECT_LOOP_SP | ICOUNT | CHIP_TYPE | MSTAT_MASK | IMASK_MASK
  | YM1_MAME_ALL => S32
  | INJECT_RETURN | IDMA_ADDR | IDMA_CACHE | IMASK | IFC | PMOVLAY | DMOVLAY
  | STOP_DM_ADDR | STOP_DM_LEFT | STOP_DM_GROUP | LATCH_DM_ADDR | LATCH_DM_VALUE => U16
  | CYCLES => U64
  | TRACE_BUDGET | YM1_LOG_BUDGET => S64
  | _ => U8
  end.

Definition aty (x : arr) : cty :=
  match x with
  | RI | RL | RLMASK | RBASE | LOOP_STACK | CNTR_STACK | PC_STACK | SPORT_TX_WRITTEN
  | PROGRAM | PROGRAM_OVERLAY | WATCH_DM_LEFT | PIN_PM_VALUE | PIN_PM_HITS
  | FORCE_PM_FETCH_VALUE | PIN_DM_HITS | SPORT_ENTRY_SNAPSHOT | SPORT_RETURN_SNAPSHOT
  | WATCH_EXEC_LEFT => U32
  | RM => S32
  | STAT_STACK_MSTAT | STAT_STACK_IMASK | STAT_STACK_ASTAT | SPORT_RX | SPORT_TX
  | DATA | DATA_OVERLAY | IO | PIN_DM_VALUE | EXEC_HISTORY => U16
  | DM_CENSUS | COVERAGE => U64
  | _ => U8
  end.

(** The declared length of each array. *)
Definition alen (x : arr) : Z :=
  match x with
  | RI | RM | RL | RLMASK | RBASE => 8
  | LOOP_STACK | CNTR_STACK | STAT_STACK_MSTAT | STAT_STACK_IMASK | STAT_STACK_ASTAT => 4
  | PC_STACK => 16
  | SPORT_RX | SPORT_TX | SPORT_TX_WRITTEN => 2
  | IRQ_STATE | IRQ_LATCH => 9
  | IO => 0x800
  | SPORT_ENTRY_SNAPSHOT | SPORT_RETURN_SNAPSHOT => 21
  | EXEC_HISTORY => 64
  | _ => 0x4000
  end.

(** Injective codes: they make equality of member names compute. *)
Definition creg_code (x : creg) : Z :=
  match x with
  | AX0 => 0 | AX1 => 1 | AY0 => 2 | AY1 => 3 | AR => 4 | AF => 5 | MX0 => 6
  | MX1 => 7 | MY0 => 8 | MY1 => 9 | MR => 10 | MF => 11 | SI => 12 | SE => 13
  | SB => 14 | SR => 15 | ZERO => 16
  end.

Definition field_code (x : field) : Z :=
  match x with
  | Core r => creg_code r | Alt r => 20 + creg_code r
  | PX => 40 | PC => 41 | PPC => 42 | LOOP => 43 | LOOP_CONDITION => 44 | CNTR => 45
  | CNTR_VALID => 46 | ASTAT => 47 | SSTAT => 48 | MSTAT => 49 | MSTAT_PREV => 50
  | ASTAT_CLEAR => 51 | IDLE => 52 | PC_SP => 53 | CNTR_SP => 54 | STAT_SP => 55
  | LOOP_SP => 56 | INJECT_PC_SP => 57 | INJECT_CNTR_SP => 58 | INJECT_STAT_SP => 59
  | INJECT_LOOP_SP => 60 | INJECT_RETURN => 61 | INJECT_VALID => 62
  | STACK_OVER_WARNED => 63 | FLAGOUT => 64 | FLAGIN => 65 | FL0 => 66 | FL1 => 67
  | FL2 => 68 | IDMA_ADDR => 69 | IDMA_CACHE => 70 | IDMA_OFFS => 71
  | IDMA_PENDING_WRITE => 72 | IDMA_BOOT_HOLD => 73 | IDMA_BOOT_MODE => 74
  | IMASK => 75 | ICNTL => 76 | IFC => 77 | PMOVLAY => 78 | DMOVLAY => 79
  | INTERRUPTS_ENABLED => 80 | ICOUNT => 81 | CHIP_TYPE => 82 | MSTAT_MASK => 83
  | IMASK_MASK => 84 | PCSP_WINDOW_MIN => 85 | PCSP_WINDOW_MAX => 86
  | WATCH_GATE => 87 | STOP_DM_ADDR => 88 | STOP_DM_ARMED => 89 | STOP_DM_HIT => 90
  | STOP_DM_LEFT => 91 | STOP_DM_GROUP => 92 | LATCH_DM_ADDR => 93
  | LATCH_DM_ARMED => 94 | LATCH_DM_HAVE => 95 | LATCH_DM_VALUE => 96
  | LATCH_DM_COUNT => 97 | YIELD_ON_STOP => 98 | CONTINUE_NON_IDLE => 99
  | EXEC_HISTORY_POS => 100 | EXEC_HISTORY_ENABLED => 101 | WATCH_IRQS => 102
  | DM_CENSUS_ON => 103 | CYCLES => 104 | COVERAGE_ON => 105 | TRACE_BUDGET => 106
  | YM1_MAME_ALL => 107 | YM1_LOG_BUDGET => 108 | FAULT => 109
  end.

Definition arr_code (x : arr) : Z :=
  match x with
  | RI => 0 | RM => 1 | RL => 2 | RLMASK => 3 | RBASE => 4 | LOOP_STACK => 5
  | CNTR_STACK => 6 | PC_STACK => 7 | STAT_STACK_MSTAT => 8 | STAT_STACK_IMASK => 9
  | STAT_STACK_ASTAT => 10 | SPORT_RX => 11 | SPORT_TX => 12 | SPORT_TX_WRITTEN => 13
  | IRQ_STATE => 14 | IRQ_LATCH => 15 | PROGRAM => 16 | DATA => 17
  | PROGRAM_OVERLAY => 18 | DATA_OVERLAY => 19 | IO => 20 | WATCH_DM => 21
  | WATCH_DM_LEFT => 22 | WATCH_DM_WONLY => 23 | WATCH_PM => 24 | PIN_PM => 25
  | PIN_PM_VALUE => 26 | PIN_PM_HITS => 27 | FORCE_PM_FETCH => 28
  | FORCE_PM_FETCH_VALUE => 29 | PIN_DM => 30 | PIN_DM_VALUE => 31
  | PIN_DM_HITS => 32 | SPORT_ENTRY_SNAPSHOT => 33 | SPORT_RETURN_SNAPSHOT => 34
  | WATCH_EXEC => 35 | WATCH_EXEC_LEFT => 36 | EXEC_HISTORY => 37 | DM_CENSUS => 38
  | COVERAGE => 39 | YM1_MAME_PC => 40
  end.

Definition all_cregs : list creg :=
  [AX0; AX1; AY0; AY1; AR; AF; MX0; MX1; MY0; MY1; MR; MF; SI; SE; SB; SR; ZERO].

Definition all_fields : list field :=
  (Core <$> all_cregs) ++ (Alt <$> all_cregs) ++
  [PX; PC; PPC; LOOP; LOOP_CONDITION; CNTR; CNTR_VALID; ASTAT; SSTAT; MSTAT;
   MSTAT_PREV; ASTAT_CLEAR; IDLE; PC_SP; CNTR_SP; STAT_SP; LOOP_SP; INJECT_PC_SP;
   INJECT_CNTR_SP; INJECT_STAT_SP; INJECT_LOOP_SP; INJECT_RETURN; INJECT_VALID;
   STACK_OVER_WARNED; FLAGOUT; FLAGIN; FL0; FL1; FL2; IDMA_ADDR; IDMA_CACHE;
   IDMA_OFFS; IDMA_PENDING_WRITE; IDMA_BOOT_HOLD; IDMA_BOOT_MODE; IMASK; ICNTL; IFC;
   PMOVLAY; DMOVLAY; INTERRUPTS_ENABLED; ICOUNT; CHIP_TYPE; MSTAT_MASK; IMASK_MASK;
   PCSP_WINDOW_MIN; PCSP_WINDOW_MAX; WATCH_GATE; STOP_DM_ADDR; STOP_DM_ARMED;
   STOP_DM_HIT; STOP_DM_LEFT; STOP_DM_GROUP; LATCH_DM_ADDR; LATCH_DM_ARMED;
   LATCH_DM_HAVE; LATCH_DM_VALUE; LATCH_DM_COUNT; YIELD_ON_STOP; CONTINUE_NON_IDLE;
   EXEC_HISTORY_POS; EXEC_HISTORY_ENABLED; WATCH_IRQS; DM_CENSUS_ON; CYCLES;
   COVERAGE_ON; TRACE_BUDGET; YM1_MAME_ALL; YM1_LOG_BUDGET; FAULT].

Definition all_arrs : list arr :=
  [RI; RM; RL; RLMASK; RBASE; LOOP_STACK; CNTR_STACK; PC_STACK; STAT_STACK_MSTAT;
   STAT_STACK_IMASK; STAT_STACK_ASTAT; SPORT_RX; SPORT_TX; SPORT_TX_WRITTEN;
   IRQ_STATE; IRQ_LATCH; PROGRAM; DATA; PROGRAM_OVERLAY; DATA_OVERLAY; IO; WATCH_DM;
   WATCH_DM_LEFT; WATCH_DM_WONLY; WATCH_PM; PIN_PM; PIN_PM_VALUE; PIN_PM_HITS;
   FORCE_PM_FETCH; FORCE_PM_FETCH_VALUE; PIN_DM; PIN_DM_VALUE; PIN_DM_HITS;
   SPORT_ENTRY_SNAPSHOT; SPORT_RETURN_SNAPSHOT; WATCH_EXEC; WATCH_EXEC_LEFT;
   EXEC_HISTORY; DM_CENSUS; COVERAGE; YM1_MAME_PC].


(** The range the emulator keeps each member in (a subrange of its C type). *)
Definition frange (x : field) : Z * Z :=
  match x with
  | Core ZERO | Alt ZERO => (0, 0)
  | LOOP_CONDITION => (0, 15)
  | CNTR_VALID => (0, 1)
  | ASTAT => (0, 0xff)
  | SSTAT => (0, 0xff)
  | MSTAT => (0, 0x7f)
  | MSTAT_PREV => (0, 0x7f)
  | IDLE => (0, 1)
  | PC_SP => (0, 16)
  | CNTR_SP => (0, 4)
  | STAT_SP => (0, 4)
  | LOOP_SP => (0, 4)
  | INJECT_PC_SP => (0, 16)
  | INJECT_CNTR_SP => (0, 4)
  | INJECT_STAT_SP => (0, 4)
  | INJECT_LOOP_SP => (0, 4)
  | FLAGOUT => (0, 1)
  | FLAGIN => (0, 1)
  | FL0 => (0, 1)
  | FL1 => (0, 1)
  | FL2 => (0, 1)
  | IDMA_OFFS => (0, 1)
  | IDMA_PENDING_WRITE => (0, 1)
  | IDMA_BOOT_HOLD => (0, 1)
  | IDMA_BOOT_MODE => (0, 1)
  | IMASK => (0, 0x3ff)
  | ICNTL => (0, 31)
  | PMOVLAY => (0, 3)
  | DMOVLAY => (0, 3)
  | INTERRUPTS_ENABLED => (0, 1)
  | CHIP_TYPE => (5, 5)
  | MSTAT_MASK => (127, 0x7f)
  | IMASK_MASK => (1023, 0x3ff)
  | WATCH_GATE => (0, 1)
  | STOP_DM_ADDR => (0, 0x3fff)
  | STOP_DM_ARMED => (0, 1)
  | STOP_DM_HIT => (0, 1)
  | LATCH_DM_ADDR => (0, 0x3fff)
  | LATCH_DM_ARMED => (0, 1)
  | LATCH_DM_HAVE => (0, 1)
  | YIELD_ON_STOP => (0, 1)
  | CONTINUE_NON_IDLE => (0, 1)
  | EXEC_HISTORY_ENABLED => (0, 1)
  | WATCH_IRQS => (0, 1)
  | DM_CENSUS_ON => (0, 1)
  | COVERAGE_ON => (0, 1)
  | FAULT => (0, 0)
  | F => (cmin (fty F), cmax (fty F))
  end.

(** The range of the elements of each array. *)
Definition arange (x : arr) : Z * Z :=
  match x with
  | RI => (0, 0x3fff)
  | RM => (-8192, 0x1fff)
  | RL => (0, 0x3fff)
  | RLMASK => (0, 0x3fff)
  | RBASE => (0, 0x3fff)
  | LOOP_STACK => (0, 0x3ffff)
  | STAT_STACK_MSTAT => (0, 0x7f)
  | STAT_STACK_IMASK => (0, 0x3ff)
  | STAT_STACK_ASTAT => (0, 0xff)
  | PROGRAM => (0, 0xffffff)
  | PROGRAM_OVERLAY => (0, 0xffffff)
  | A => (cmin (aty A), cmax (aty A))
  end.

(** ** Decidable equality of names *)
Definition creg_eqb (r q : creg) : bool := creg_code r =? creg_code q.
Definition field_eqb (f g : field) : bool := field_code f =? field_code g.
Definition arr_eqb (a b : arr) : bool := arr_code a =? arr_code b.

Lemma creg_find r : find (fun q => creg_eqb q r) all_cregs = Some r.
Proof. by destruct r. Qed.
Lemma field_find f : find (fun g => field_eqb g f) all_fields = Some f.
Proof. destruct f; try done; match goal with r : creg |- _ => by destruct r end. Qed.
Lemma arr_find a : find (fun b => arr_eqb b a) all_arrs = Some a.
Proof. by destruct a. Qed.

Lemma field_eqb_eq f g : field_eqb f g = true <-> f = g.
Proof.
  split; [|intros ->; apply Z.eqb_refl].
  unfold field_eqb. intros H%Z.eqb_eq.
  assert (Some f = Some g) as [= ->]; [|done].
  rewrite <- (field_find f), <- (field_find g). unfold field_eqb. by rewrite H.
Qed.
Lemma arr_eqb_eq a b : arr_eqb a b = true <-> a = b.
Proof.
  split; [|intros ->; apply Z.eqb_refl].
  unfold arr_eqb. intros H%Z.eqb_eq.
  assert (Some a = Some b) as [= ->]; [|done].
  rewrite <- (arr_find a), <- (arr_find b). unfold arr_eqb. by rewrite H.
Qed.

#[export] Instance creg_eq_dec : EqDecision creg.
Proof. solve_decision. Defined.
#[export] Instance field_eq_dec : EqDecision field.
Proof.
  intros f g. destruct (field_eqb f g) eqn:E; [left|right].
  - by apply field_eqb_eq.
  - intros ->. by rewrite (proj2 (field_eqb_eq g g)) in E.
Defined.
#[export] Instance arr_eq_dec : EqDecision arr.
Proof.
  intros f g. destruct (arr_eqb f g) eqn:E; [left|right].
  - by apply arr_eqb_eq.
  - intros ->. by rewrite (proj2 (arr_eqb_eq g g)) in E.
Defined.

(** ** States *)

(** What [logerror] prints: one constructor per message, with the values that
    identify it. (The messages also dump registers; that text is not kept.) *)
Inductive event :=
  | EvDmRead (x v : Z) | EvDmWrite (x v : Z)
  | EvPmRead (x v : Z) | EvPmWrite (x v : Z)
  | EvPinDm (x v : Z) | EvPinPm (x v : Z)
  | EvExec (pc : Z) | EvExecSpent (pc : Z) | EvTrace (pc op : Z)
  | EvStackOver (bit : Z) | EvIrq (which priority : Z)
  | EvYm1 (ppc y : Z) | EvInvalidReg (ppc : Z)
  (** a host's callbacks, for a host that keeps a log of them *)
  | EvSportRx (port : Z) | EvSportTx (port value : Z) | EvTimer (enabled : Z).

(** Members, array members, and the log, newest message first. An array is a
    finite map from index to element; an absent element is the 0 of [calloc]. *)
Record state := mkState {
  sc : field -> Z;
  ars : arr -> gmap Z Z;
  events : list event;
}.

Definition aelem (m : gmap Z Z) (k : Z) : Z := default 0 (m !! k).
Definition aget (a : arr) (k : Z) (s : state) : Z := aelem (ars s a) k.

Definition set (f : field) (v : Z) (s : state) : state :=
  mkState (fun g => if field_eqb g f then v else sc s g) (ars s) (events s).
Definition aput (a : arr) (m : gmap Z Z) (s : state) : state :=
  mkState (sc s) (fun b => if arr_eqb b a then m else ars s b) (events s).
Definition aset (a : arr) (k v : Z) (s : state) : state :=
  aput a (<[k := v]> (ars s a)) s.
Definition add_event (e : event) (s : state) : state :=
  mkState (sc s) (ars s) (e :: events s).

Notation "s .[ f ]" := (sc s f) (at level 2, left associativity, format "s .[ f ]") : c_scope.
Notation "s .{ a , k }" := (aget a k s)
  (at level 2, a at level 99, k at level 99, left associativity, format "s .{ a ,  k }") : c_scope.

(** ** The state monad of the C functions *)
Definition M (A : Type) : Type := state -> A * state.
#[export] Instance M_ret : MRet M := fun _ x s => (x, s).
#[export] Instance M_bind : MBind M := fun _ _ f m s => let '(x, s') := m s in f x s'.

(** Statements: [adsp->f], [adsp->f = v], and the same for array elements. *)
Definition rd (f : field) : M Z := fun s => (s.[f], s).
Definition wr (f : field) (v : Z) : M unit := fun s => (tt, set f (conv (fty f) v) s).

Definition in_bounds (a : arr) (k : Z) : bool := (0 <=? k) && (k <? alen a).
Definition ard (a : arr) (k : Z) : M Z := fun s =>
  if in_bounds a k then (s.{a, k}, s) else (0, set FAULT 1 s).
Definition awr (a : arr) (k v : Z) : M unit := fun s =>
  if in_bounds a k then (tt, aset a k (conv (aty a) v) s) else (tt, set FAULT 1 s).

(** [memset(a, 0, sizeof a)] *)
Definition aclear (a : arr) : M unit := fun s => (tt, aput a ∅ s).

Definition logerror (e : event) : M unit := fun s => (tt, add_event e s).
Definition skip : M unit := mret tt.
Definition when (b : bool) (m : M unit) : M unit := if b then m else skip.

(** [for (n = 0; n < k; n++) body(n)] *)
Fixpoint for_upto (k : nat) (n : Z) (body : Z -> M unit) : M unit :=
  match k with
  | O => skip
  | S k => body n ;; for_upto k (n + 1) body
  end.

(** Running a command. *)
Definition exec {A} (m : M A) (s : state) : state := snd (m s).
Definition eval {A} (m : M A) (s : state) : A := fst (m s).

(** ** The environment

    Code that is not in the repository: the callbacks a host installs with
    [adsp2181_set_callbacks] (a null pointer is [None]), the process
    environment the diagnostics read (already split into numbers by
    [strtol]), and the value the compiled code computes for a right shift by
    32 or more, which C leaves undefined. *)
Class Host := {
  sport_rx_callback : option (Z -> M Z);
  sport_tx_callback : option (Z -> Z -> M unit);
  timer_fired : option (Z -> M unit);
  env_ym1_mame_all : bool;
  env_ym1_mame_pcs : list (Z * Z);
  env_ym1_log : Z;
  env_sport_full_tdm : bool;
  undefined_shift : Z -> Z -> Z;
}.

(** A host with no callbacks and an empty environment. *)
Definition null_host : Host := {|
  sport_rx_callback := None;
  sport_tx_callback := None;
  timer_fired := None;
  env_ym1_mame_all := false;
  env_ym1_mame_pcs := [];
  env_ym1_log := 0;
  env_sport_full_tdm := false;
  undefined_shift := fun x n => x >>> n mod 32;
|}.

(** ** Member lemmas *)
Lemma get_set f g v s : (set g v s).[f] = if field_eqb f g then v else s.[f].
Proof. done. Qed.
Lemma get_set_eq f v s : (set f v s).[f] = v.
Proof. rewrite get_set. by rewrite (proj2 (field_eqb_eq f f)). Qed.
Lemma get_set_ne f g v s : f <> g -> (set g v s).[f] = s.[f].
Proof.
  intros Hne. rewrite get_set. destruct (field_eqb f g) eqn:E; [|done].
  by apply field_eqb_eq in E.
Qed.
Lemma ars_set g v s : ars (set g v s) = ars s.
Proof. done. Qed.
Lemma ars_aput a b m s : ars (aput a m s) b = if arr_eqb b a then m else ars s b.
Proof. done. Qed.
Lemma ars_aput_eq a m s : ars (aput a m s) a = m.
Proof. rewrite ars_aput. by rewrite (proj2 (arr_eqb_eq a a)). Qed.
Lemma ars_aput_ne a b m s : b <> a -> ars (aput a m s) b = ars s b.
Proof.
  intros Hne. rewrite ars_aput. destruct (arr_eqb b a) eqn:E; [|done].
  by apply arr_eqb_eq in E.
Qed.
Lemma aelem_insert m j k v : aelem (<[j := v]> m) k = if decide (j = k) then v else aelem m k.
Proof. unfold aelem. rewrite lookup_insert. by case_decide. Qed.
Lemma aget_aset_eq a k v s : (aset a k v s).{a, k} = v.
Proof. unfold aget, aset. rewrite ars_aput_eq, aelem_insert. by rewrite decide_True. Qed.
Lemma aget_aset_ne a k j v s : j <> k -> (aset a k v s).{a, j} = s.{a, j}.
Proof.
  intros Hne. unfold aget, aset. rewrite ars_aput_eq, aelem_insert.
  by rewrite decide_False by congruence.
Qed.
Lemma aget_aset_arr a b k j v s : b <> a -> (aset a k v s).{b, j} = s.{b, j}.
Proof. intros Hne. unfold aget, aset. by rewrite ars_aput_ne. Qed.
Lemma aget_set f v a k s : (set f v s).{a, k} = s.{a, k}.
Proof. done. Qed.

Lemma in_bounds_spec a k : in_bounds a k = true <-> 0 <= k < alen a.
Proof. unfold in_bounds. rewrite andb_true_iff, Z.leb_le, Z.ltb_lt. done. Qed.
Lemma ard_in a k s : 0 <= k < alen a -> ard a k s = (s.{a, k}, s).
Proof. intros H. unfold ard. by rewrite (proj2 (in_bounds_spec a k) H). Qed.
Lemma awr_in a k v s : 0 <= k < alen a -> awr a k v s = (tt, aset a k (conv (aty a) v) s).
Proof. intros H. unfold awr. by rewrite (proj2 (in_bounds_spec a k) H). Qed.

#[global] Arguments set : simpl never.
#[global] Arguments aput : simpl never.
#[global] Arguments aset : simpl never.
#[global] Arguments add_event : simpl never.
Arguments M_ret /.
Arguments M_bind /.

(** Unfold the sequencing of commands applied to a state. *)
Lemma bind_eq {A B} (f : A -> M B) (m : M A) s :
  (m ≫= f) s = let '(x, s') := m s in f x s'.
Proof. done. Qed.
Lemma exec_bind {A B} (f : A -> M B) (m : M A) s :
  exec (m ≫= f) s = exec (f (eval m s)) (exec m s).
Proof. unfold exec, eval. rewrite bind_eq. by destruct (m s). Qed.
Lemma eval_bind {A B} (f : A -> M B) (m : M A) s :
  eval (m ≫= f) s = eval (f (eval m s)) (exec m s).
Proof. unfold exec, eval. rewrite bind_eq. by destruct (m s). Qed.

(** ** Computing with commands

    [run] rewrites the execution of a command on a state to the resulting
    state; [gets] evaluates member reads of updated states. *)
Lemma exec_rd f s : exec (rd f) s = s.
Proof. done. Qed.
Lemma eval_rd f s : eval (rd f) s = s.[f].
Proof. done. Qed.
Lemma exec_wr f v s : exec (wr f v) s = set f (conv (fty f) v) s.
Proof. done. Qed.
Lemma exec_ret {A} (x : A) s : exec (mret x : M A) s = s.
Proof. done. Qed.
Lemma eval_ret {A} (x : A) s : eval (mret x : M A) s = x.
Proof. done. Qed.
Lemma exec_skip s : exec skip s = s.
Proof. done. Qed.
Lemma exec_logerror e s : exec (logerror e) s = add_event e s.
Proof. done. Qed.
Lemma exec_when b m s : exec (when b m) s = if b then exec m s else s.
Proof. by destruct b. Qed.
Lemma exec_if {A} (b : bool) (m m' : M A) s :
  exec (if b then m else m') s = if b then exec m s else exec m' s.
Proof. by destruct b. Qed.
Lemma eval_if {A} (b : bool) (m m' : M A) s :
  eval (if b then m else m') s = if b then eval m s else eval m' s.
Proof. by destruct b. Qed.
Lemma exec_ard a k s : 0 <= k < alen a -> exec (ard a k) s = s.
Proof. intros H. unfold exec. by rewrite ard_in. Qed.
Lemma eval_ard a k s : 0 <= k < alen a -> eval (ard a k) s = s.{a, k}.
Proof. intros H. unfold eval. by rewrite ard_in. Qed.
Lemma exec_awr a k v s :
  0 <= k < alen a -> exec (awr a k v) s = aset a k (conv (aty a) v) s.
Proof. intros H. unfold exec. by rewrite awr_in. Qed.
Lemma get_aset f a k v s : (aset a k v s).[f] = s.[f].
Proof. done. Qed.
Lemma get_event f e s : (add_event e s).[f] = s.[f].
Proof. done. Qed.
Lemma aget_event a k e s : (add_event e s).{a, k} = s.{a, k}.
Proof. done. Qed.
Lemma exec_eval {A} (m : M A) s : m s = (eval m s, exec m s).
Proof. unfold eval, exec. by destruct (m s). Qed.

#[export] Hint Rewrite @exec_bind @eval_bind exec_rd eval_rd exec_wr @exec_ret @eval_ret
  exec_skip exec_logerror exec_when @exec_if @eval_if : run.
#[export] Hint Rewrite exec_ard eval_ard exec_awr using (cbn [alen]; lia) : run.
#[export] Hint Rewrite get_set_eq get_aset get_event aget_set aget_event aget_aset_eq : gets.
#[export] Hint Rewrite get_set_ne aget_aset_ne aget_aset_arr using
  first [done | congruence | lia] : gets.
Ltac run := repeat (autorewrite with run; cbv beta zeta).
Ltac gets := autorewrite with gets.
Tactic Notation "run" "in" hyp(H) := repeat (autorewrite with run in H; cbv beta zeta in H).
Tactic Notation "gets" "in" hyp(H) := autorewrite with gets in H.
