(* ===== verification/Tables.v ===== *)
(** * Lookup tables

    The three tables [create_tables] fills, as functions of the index: the
    14-bit address reversal of the bit-reverse mode, the circular-buffer base
    mask, and the condition codes. *)
From S2P Require Import Prelude.

(** ** ASTAT flags *)
Definition SSFLAG : Z := 0x80.
Definition MVFLAG : Z := 0x40.
Definition QFLAG : Z := 0x20.
Definition SFLAG : Z := 0x10.
Definition CFLAG : Z := 0x08.
Definition VFLAG : Z := 0x04.
Definition NFLAG : Z := 0x02.
Definition ZFLAG : Z := 0x01.

(** ** The tables *)

(** [for (b = 0; b < 14; b++) r |= ((i >> b) & 1) << (13-b);] *)
Definition reverse_table (i : Z) : Z :=
  foldl (fun r b => r ||| (((i >>> b) &&& 1) <<< (13 - b))) 0
    [0; 1; 2; 3; 4; 5; 6; 7; 8; 9; 10; 11; 12; 13].

Definition mask_table (i : Z) : Z :=
  if i >? 0x2000 then 0x0000
  else if i >? 0x1000 then 0x2000
  else if i >? 0x0800 then 0x3000
  else if i >? 0x0400 then 0x3800
  else if i >? 0x0200 then 0x3c00
  else if i >? 0x0100 then 0x3e00
  else if i >? 0x0080 then 0x3f00
  else if i >? 0x0040 then 0x3f80
  else if i >? 0x0020 then 0x3fc0
  else if i >? 0x0010 then 0x3fe0
  else if i >? 0x0008 then 0x3ff0
  else if i >? 0x0004 then 0x3ff8
  else if i >? 0x0002 then 0x3ffc
  else if i >? 0x0001 then 0x3ffe
  else 0x3fff.

(** [condition_table[idx]] for [idx = (c << 8) | astat]; row 14 is never
    filled and keeps the 0 of [calloc]. *)
Definition condition_table (idx : Z) : Z :=
  let i := idx &&& 0xff in
  let az := tst i ZFLAG in let an := tst i NFLAG in let av := tst i VFLAG in
  let ac := tst i CFLAG in let mv := tst i MVFLAG in let as_ := tst i SFLAG in
  b2z (match idx >>> 8 with
       | 0x0 => az
       | 0x1 => negb az
       | 0x2 => negb (xorb an av || az)
       | 0x3 => xorb an av || az
       | 0x4 => xorb an av
       | 0x5 => negb (xorb an av)
       | 0x6 => av
       | 0x7 => negb av
       | 0x8 => ac
       | 0x9 => negb ac
       | 0xa => as_
       | 0xb => negb as_
       | 0xc => mv
       | 0xd => negb mv
       | 0xf => true
       | _ => false
       end).

(** ** Properties *)

Lemma reverse_table_range i : 0 <= reverse_table i <= 0x3fff.
Proof.
  unfold reverse_table. cbn [foldl].
  assert (forall b, In b [0;1;2;3;4;5;6;7;8;9;10;11;12;13] ->
    0 <= ((i >>> b) &&& 1) <<< (13 - b) <= 2 ^ 14 - 1) as H.
  { intros b Hb. pose proof (land_range_r (i >>> b) 1 ltac:(lia)).
    assert (((i >>> b) &&& 1) = 0 \/ ((i >>> b) &&& 1) = 1) as [-> | ->] by lia;
      repeat (destruct Hb as [<-|Hb]; [vm_compute; split; congruence|]); destruct Hb. }
  change 0x3fff with (2 ^ 14 - 1).
  repeat (apply lor_range; [lia| |apply H; simpl; tauto]). lia.
Qed.

(** The bit-reversed address of a bit-reversed address is the address. *)
Lemma reverse_table_involutive i :
  0 <= i < 0x4000 -> reverse_table (reverse_table i) = i.
Proof.
  intros Hi. apply Z.eqb_eq.
  refine (all_below_spec 0x4000
    (fun i => reverse_table (reverse_table i) =? i) _ i _); [vm_compute; done|lia].
Qed.

(** For a buffer of length [l] the mask clears the low [ceil (log2 l)] bits. *)
Lemma mask_table_spec l :
  1 <= l < 0x4000 -> mask_table l = 0x4000 - 2 ^ Z.log2_up l.
Proof.
  intros Hl.
  assert ((l =? 0) || (mask_table l =? 0x4000 - 2 ^ Z.log2_up l) = true) as H.
  { refine (all_below_spec 0x4000
      (fun l => (l =? 0) || (mask_table l =? 0x4000 - 2 ^ Z.log2_up l)) _ l _);
      [vm_compute; done|lia]. }
  apply orb_true_iff in H as [?%Z.eqb_eq|?%Z.eqb_eq]; [lia|done].
Qed.

Lemma mask_table_range l : 0 <= mask_table l <= 0x3fff.
Proof. unfold mask_table. repeat case_match; lia. Qed.
#[export] Hint Resolve reverse_table_range mask_table_range : adsp.

Lemma condition_table_range idx : 0 <= condition_table idx <= 1.
Proof. apply b2z_range. Qed.
