(* ===== verification/Memory.v ===== *)
(** * Data, program and I/O memory

    The memory accessors of [adsp2181_core.c]: overlay selection, and the
    instrumentation they carry (watches, pins, the transmit latch, the
    stop-on-publish pacing and the write census). *)
From S2P Require Import Prelude State.

(** ** Definitions *)

(** Spend one event of a limited watch; the last one disarms it. *)
Definition watch_dm_charge (x : Z) : M bool :=
  left ← ard WATCH_DM_LEFT x;
  (if nz left then
     awr WATCH_DM_LEFT x (left - 1) ;;
     left' ← ard WATCH_DM_LEFT x;
     when (left' =? 0) (awr WATCH_DM x 0)
   else skip) ;;
  mret true.

(** Is [ov] one of the two overlay pages? *)
Definition overlay_on (ov : Z) : bool := (1 <=? ov) && (ov <=? 2).

Definition RWORD_DATA (x : Z) : M Z :=
  let x := x &&& 0x3fff in
  ov ← rd DMOVLAY;
  v ← (if (x <? 0x2000) && overlay_on ov
       then ard DATA_OVERLAY (0x2000 * (ov - 1) + x)
       else ard DATA x);
  gate ← rd WATCH_GATE;
  w ← ard WATCH_DM x;
  wonly ← ard WATCH_DM_WONLY x;
  (if nz gate && nz w && negb (nz wonly) then
     c ← watch_dm_charge x;
     when c (logerror (EvDmRead x v))
   else skip) ;;
  mret v.

(** A pinned word takes the store and has it undone: the value stored is the
    pinned one, and the first eight undone stores are counted. *)
Definition pin_dm_value (x v : Z) : M Z :=
  p ← ard PIN_DM x;
  if nz p then
    pv ← ard PIN_DM_VALUE x;
    hits ← ard PIN_DM_HITS x;
    (if negb (v =? pv) && (hits <? 8) then
       awr PIN_DM_HITS x (hits + 1) ;;
       logerror (EvPinDm x v)
     else skip) ;;
    mret pv
  else mret v.

(** Latch-on-publish: the first value of the tick, and the number of writes. *)
Definition latch_dm_store (x v : Z) : M unit :=
  armed ← rd LATCH_DM_ARMED;
  addr ← rd LATCH_DM_ADDR;
  if nz armed && (x =? addr) then
    have ← rd LATCH_DM_HAVE;
    (if nz have then skip
     else wr LATCH_DM_VALUE v ;; wr LATCH_DM_HAVE 1) ;;
    n ← rd LATCH_DM_COUNT;
    wr LATCH_DM_COUNT (n + 1)
  else skip.

(** Stop-on-publish: the run ends with the last write of the group. *)
Definition stop_dm_store (x : Z) : M unit :=
  armed ← rd STOP_DM_ARMED;
  addr ← rd STOP_DM_ADDR;
  if nz armed && (x =? addr) then
    left ← rd STOP_DM_LEFT;
    if left >? 1 then wr STOP_DM_LEFT (left - 1)
    else wr STOP_DM_HIT 1 ;; wr ICOUNT 0
  else skip.

(** Write census and write watch. *)
Definition census_dm_store (x v : Z) : M unit :=
  on ← rd DM_CENSUS_ON;
  (if nz on then n ← ard DM_CENSUS x; awr DM_CENSUS x (n + 1) else skip) ;;
  gate ← rd WATCH_GATE;
  w ← ard WATCH_DM x;
  if nz gate && nz w then
    c ← watch_dm_charge x;
    when c (logerror (EvDmWrite x v))
  else skip.

Definition WWORD_DATA (x v : Z) : M unit :=
  let x := x &&& 0x3fff in
  let v := u16 v in
  v ← pin_dm_value x v;
  latch_dm_store x v ;;
  stop_dm_store x ;;
  census_dm_store x v ;;
  ov ← rd DMOVLAY;
  if (x <? 0x2000) && overlay_on ov
  then awr DATA_OVERLAY (0x2000 * (ov - 1) + x) v
  else awr DATA x v.

Definition RWORD_IO (x : Z) : M Z := ard IO (x &&& 0x7ff).
Definition WWORD_IO (x v : Z) : M unit := awr IO (x &&& 0x7ff) v.

(** The word in memory, after overlay selection and before [force_pm_fetch]. *)
Definition pgm_word (x : Z) : M Z :=
  ov ← rd PMOVLAY;
  v ← (if (x >=? 0x2000) && overlay_on ov
       then ard PROGRAM_OVERLAY (0x2000 * (ov - 1) + (x - 0x2000))
       else ard PROGRAM x);
  mret (v &&& 0xffffff).

Definition RWORD_PGM (x : Z) : M Z :=
  let x := x &&& 0x3fff in
  f ← ard FORCE_PM_FETCH x;
  if nz f then
    v ← ard FORCE_PM_FETCH_VALUE x;
    mret (v &&& 0xffffff)
  else pgm_word x.

Definition pin_pm_value (x v : Z) : M Z :=
  p ← ard PIN_PM x;
  if nz p then
    pv ← ard PIN_PM_VALUE x;
    let pinned := pv &&& 0xffffff in
    hits ← ard PIN_PM_HITS x;
    (if negb ((v &&& 0xffffff) =? pinned) && (hits <? 8) then
       awr PIN_PM_HITS x (hits + 1) ;;
       logerror (EvPinPm x (v &&& 0xffffff))
     else skip) ;;
    mret pinned
  else mret v.

Definition WWORD_PGM (x v : Z) : M unit :=
  let x := x &&& 0x3fff in
  let v := u32 v in
  gate ← rd WATCH_GATE;
  w ← ard WATCH_PM x;
  (if nz gate && nz w then
     old ← pgm_word x;
     when (negb (old =? (v &&& 0xffffff))) (logerror (EvPmWrite x (v &&& 0xffffff)))
   else skip) ;;
  v ← pin_pm_value x v;
  ov ← rd PMOVLAY;
  if (x >=? 0x2000) && overlay_on ov
  then awr PROGRAM_OVERLAY (0x2000 * (ov - 1) + (x - 0x2000)) (v &&& 0xffffff)
  else awr PROGRAM x (v &&& 0xffffff).
