(* ===== verification/Stacks.v ===== *)
(** * Mode and status registers, hardware stacks and interrupts

    [update_mstat], the four hardware stacks with their SSTAT bits, and
    [check_irqs], of [2100ops.inc] and [adsp2181_core.c]. Popping the status
    stack re-evaluates the pending interrupts, so they are one component. *)
From S2P Require Import Prelude State Tables.

(** ** Definitions *)
Definition PC_STACK_DEPTH : Z := 16.
Definition CNTR_STACK_DEPTH : Z := 4.
Definition STAT_STACK_DEPTH : Z := 4.
Definition LOOP_STACK_DEPTH : Z := 4.

Definition MSTAT_BANK : Z := 0x01.
Definition MSTAT_REVERSE : Z := 0x02.
Definition MSTAT_STICKYV : Z := 0x04.
Definition MSTAT_SATURATE : Z := 0x08.
Definition MSTAT_INTEGER : Z := 0x10.
Definition MSTAT_TIMER : Z := 0x20.
Definition MSTAT_GOMODE : Z := 0x40.

Definition PC_EMPTY : Z := 0x01.
Definition PC_OVER : Z := 0x02.
Definition COUNT_EMPTY : Z := 0x04.
Definition COUNT_OVER : Z := 0x08.
Definition STATUS_EMPTY : Z := 0x10.
Definition STATUS_OVER : Z := 0x20.
Definition LOOP_EMPTY : Z := 0x40.
Definition LOOP_OVER : Z := 0x80.

(** Interrupt numbers of [adsp2181_core.h]. *)
Definition ADSP2181_IRQ0 : Z := 0.
Definition ADSP2181_SPORT1_RX : Z := 0.
Definition ADSP2181_IRQ1 : Z := 1.
Definition ADSP2181_SPORT1_TX : Z := 1.
Definition ADSP2181_IRQ2 : Z := 2.
Definition ADSP2181_SPORT0_RX : Z := 3.
Definition ADSP2181_SPORT0_TX : Z := 4.
Definition ADSP2181_TIMER : Z := 5.
Definition ADSP2181_IRQE : Z := 6.
Definition ADSP2181_IRQL1 : Z := 7.
Definition ADSP2181_IRQL2 : Z := 8.
Definition ADSP2181_IRQ_COUNT : Z := 9.

(** [adsp->sstat |= bit] and [adsp->sstat &= ~bit] *)
Definition sstat_or (bit : Z) : M unit := s ← rd SSTAT; wr SSTAT (s ||| bit).
Definition sstat_clr (bit : Z) : M unit := s ← rd SSTAT; wr SSTAT (s &&& ~~~bit).

(** [ADSPCORE temp = adsp->core; adsp->core = adsp->alt; adsp->alt = temp;] *)
Definition swap_banks : M unit := fun s =>
  (tt, mkState (fun f => match f with
                         | Core r => s.[Alt r]
                         | Alt r => s.[Core r]
                         | _ => s.[f]
                         end) (ars s) (events s)).

(** One line per stack per card. *)
Definition warn_stack_over (bit : Z) : M unit :=
  w ← rd STACK_OVER_WARNED;
  if tst w bit then skip
  else wr STACK_OVER_WARNED (w ||| bit) ;; logerror (EvStackOver bit).

Section Stacks.
Context {host : Host}.

Definition update_mstat : M unit :=
  mstat ← rd MSTAT;
  prev ← rd MSTAT_PREV;
  when (tst (mstat ^^^ prev) MSTAT_BANK) swap_banks ;;
  (if tst (mstat ^^^ prev) MSTAT_TIMER then
     match timer_fired with
     | Some f => f (b2z (nz (mstat &&& MSTAT_TIMER)))
     | None => skip
     end
   else skip) ;;
  mstat ← rd MSTAT;
  (if tst mstat MSTAT_STICKYV
   then wr ASTAT_CLEAR (~~~(CFLAG ||| NFLAG ||| ZFLAG))
   else wr ASTAT_CLEAR (~~~(CFLAG ||| VFLAG ||| NFLAG ||| ZFLAG))) ;;
  mstat ← rd MSTAT;
  wr MSTAT_PREV mstat.

(** *** PC stack *)
Definition pc_stack_top : M Z :=
  sp ← rd PC_SP;
  if sp >? 0 then ard PC_STACK (sp - 1) else ard PC_STACK 0.

Definition set_pc_stack_top (top : Z) : M unit :=
  sp ← rd PC_SP;
  if sp >? 0 then awr PC_STACK (sp - 1) top else awr PC_STACK 0 top.

Definition note_pcsp : M unit :=
  sp ← rd PC_SP;
  mx ← rd PCSP_WINDOW_MAX;
  when (sp >? mx) (wr PCSP_WINDOW_MAX sp) ;;
  mn ← rd PCSP_WINDOW_MIN;
  when (sp <? mn) (wr PCSP_WINDOW_MIN sp).

Definition pc_stack_push_val (val : Z) : M unit :=
  note_pcsp ;;
  sp ← rd PC_SP;
  if sp <? PC_STACK_DEPTH then
    awr PC_STACK sp val ;;
    wr PC_SP (sp + 1) ;;
    sstat_clr PC_EMPTY
  else
    sstat_or PC_OVER ;;
    warn_stack_over PC_OVER.

Definition pc_stack_push : M unit :=
  note_pcsp ;;
  sp ← rd PC_SP;
  if sp <? PC_STACK_DEPTH then
    pc ← rd PC;
    awr PC_STACK sp pc ;;
    wr PC_SP (sp + 1) ;;
    sstat_clr PC_EMPTY
  else
    sstat_or PC_OVER ;;
    warn_stack_over PC_OVER.

Definition pc_stack_pop : M unit :=
  note_pcsp ;;
  sp ← rd PC_SP;
  if sp >? 0 then
    wr PC_SP (sp - 1) ;;
    sp ← rd PC_SP;
    when (sp =? 0) (sstat_or PC_EMPTY) ;;
    v ← ard PC_STACK sp;
    wr PC v
  else sstat_or PC_EMPTY.

Definition pc_stack_pop_val : M Z :=
  note_pcsp ;;
  sp ← rd PC_SP;
  if sp >? 0 then
    wr PC_SP (sp - 1) ;;
    sp ← rd PC_SP;
    when (sp =? 0) (sstat_or PC_EMPTY) ;;
    ard PC_STACK sp
  else
    sstat_or PC_EMPTY ;;
    mret 0.

(** *** Counter stack *)
Definition cntr_stack_top : M Z :=
  sp ← rd CNTR_SP;
  if sp >? 0 then ard CNTR_STACK (sp - 1) else ard CNTR_STACK 0.

Definition cntr_stack_push : M unit :=
  sp ← rd CNTR_SP;
  if sp <? CNTR_STACK_DEPTH then
    c ← rd CNTR;
    awr CNTR_STACK sp c ;;
    wr CNTR_SP (sp + 1) ;;
    sstat_clr COUNT_EMPTY
  else
    sstat_or COUNT_OVER ;;
    warn_stack_over COUNT_OVER.

Definition cntr_stack_pop : M unit :=
  sp ← rd CNTR_SP;
  if sp >? 0 then
    wr CNTR_SP (sp - 1) ;;
    sp ← rd CNTR_SP;
    when (sp =? 0) (sstat_or COUNT_EMPTY) ;;
    v ← ard CNTR_STACK sp;
    wr CNTR v ;;
    wr CNTR_VALID 1
  else
    sstat_or COUNT_EMPTY ;;
    wr CNTR_VALID 0.

(** *** Loop stack *)
Definition loop_stack_top : M Z :=
  sp ← rd LOOP_SP;
  if sp >? 0 then ard LOOP_STACK (sp - 1) else ard LOOP_STACK 0.

Definition loop_stack_push (value : Z) : M unit :=
  sp ← rd LOOP_SP;
  if sp <? LOOP_STACK_DEPTH then
    awr LOOP_STACK sp value ;;
    wr LOOP_SP (sp + 1) ;;
    wr LOOP (value >>> 4) ;;
    wr LOOP_CONDITION (value &&& 15) ;;
    sstat_clr LOOP_EMPTY
  else
    sstat_or LOOP_OVER ;;
    warn_stack_over LOOP_OVER.

Definition loop_stack_pop : M unit :=
  sp ← rd LOOP_SP;
  if sp >? 0 then
    wr LOOP_SP (sp - 1) ;;
    sp ← rd LOOP_SP;
    if sp =? 0 then
      wr LOOP 0xffff ;;
      wr LOOP_CONDITION 0 ;;
      sstat_or LOOP_EMPTY
    else
      v ← ard LOOP_STACK (sp - 1);
      wr LOOP (v >>> 4) ;;
      v ← ard LOOP_STACK (sp - 1);
      wr LOOP_CONDITION (v &&& 15)
  else skip.

(** *** Status stack and interrupts *)
Definition stat_stack_push : M unit :=
  sp ← rd STAT_SP;
  if sp <? STAT_STACK_DEPTH then
    m ← rd MSTAT; awr STAT_STACK_MSTAT sp m ;;
    i ← rd IMASK; awr STAT_STACK_IMASK sp i ;;
    a ← rd ASTAT; awr STAT_STACK_ASTAT sp a ;;
    wr STAT_SP (sp + 1) ;;
    sstat_clr STATUS_EMPTY
  else
    sstat_or STATUS_OVER ;;
    warn_stack_over STATUS_OVER.

Definition generate_irq (which priority : Z) : M bool :=
  imask ← rd IMASK;
  if negb (tst imask (0x200 >>> priority)) then mret false
  else
    w ← rd WATCH_IRQS;
    when (nz w) (logerror (EvIrq which priority)) ;;
    awr IRQ_LATCH which 0 ;;
    pc_stack_push ;;
    stat_stack_push ;;
    wr PC (0x04 + priority * 4) ;;
    wr IDLE 0 ;;
    icntl ← rd ICNTL;
    imask ← rd IMASK;
    (if tst icntl 0x10
     then wr IMASK (imask &&& ~~~(0x3ff >>> priority))
     else wr IMASK (imask &&& ~~~0x3ff)) ;;
    mret true.

(** [TRY_IRQ(which, priority, expression)]: the rest runs only when this
    interrupt is not taken. *)
Definition try_irq (which priority : Z) (expression : M Z) (rest : M unit) : M unit :=
  check ← expression;
  if nz check then
    taken ← generate_irq which priority;
    if (taken : bool) then skip else rest
  else rest.

(** [(adsp->icntl & bit) ? irq_latch[which] : irq_state[which]] *)
Definition edge_or_level (bit which : Z) : M Z :=
  icntl ← rd ICNTL;
  if tst icntl bit then ard IRQ_LATCH which else ard IRQ_STATE which.

Definition check_irqs : M unit :=
  en ← rd INTERRUPTS_ENABLED;
  if negb (nz en) then skip else
  try_irq ADSP2181_IRQ2      0 (edge_or_level 4 ADSP2181_IRQ2) (
  try_irq ADSP2181_IRQL1     1 (ard IRQ_STATE ADSP2181_IRQL1) (
  try_irq ADSP2181_IRQL2     2 (ard IRQ_STATE ADSP2181_IRQL2) (
  try_irq ADSP2181_SPORT0_TX 3 (ard IRQ_LATCH ADSP2181_SPORT0_TX) (
  try_irq ADSP2181_SPORT0_RX 4 (ard IRQ_LATCH ADSP2181_SPORT0_RX) (
  try_irq ADSP2181_IRQE      5 (ard IRQ_LATCH ADSP2181_IRQE) (
  try_irq ADSP2181_IRQ1      7 (edge_or_level 2 ADSP2181_IRQ1) (
  try_irq ADSP2181_IRQ0      8 (edge_or_level 1 ADSP2181_IRQ0) (
  try_irq ADSP2181_TIMER     9 (ard IRQ_LATCH ADSP2181_TIMER) skip)))))))).

Definition stat_stack_pop : M unit :=
  sp ← rd STAT_SP;
  if sp >? 0 then
    wr STAT_SP (sp - 1) ;;
    sp ← rd STAT_SP;
    when (sp =? 0) (sstat_or STATUS_EMPTY) ;;
    m ← ard STAT_STACK_MSTAT sp; wr MSTAT m ;;
    update_mstat ;;
    sp ← rd STAT_SP;
    i ← ard STAT_STACK_IMASK sp; wr IMASK i ;;
    sp ← rd STAT_SP;
    a ← ard STAT_STACK_ASTAT sp; wr ASTAT a ;;
    check_irqs
  else sstat_or STATUS_EMPTY.

(** *** Condition codes *)
Definition CONDITION (c : Z) : M bool :=
  if negb (c =? 14) then
    astat ← rd ASTAT;
    let idx := (c <<< 8) ||| astat in
    if idx <? 0x1000 then mret (nz (condition_table idx))
    else (fun s => (false, set FAULT 1 s))
  else
    cntr ← rd CNTR;
    wr CNTR (cntr - 1) ;;
    cntr ← rd CNTR;
    if s32 cntr >? 0 then mret true
    else cntr_stack_pop ;; mret false.

End Stacks.
