(* ===== verification/Regs.v ===== *)
(** * Register access and address generation

    The register-write and register-read tables of [2100ops.inc] ([wr_reg],
    [rd_reg]), the operand maps [setup_register_maps] installs, and the two
    data address generators with their memory accessors. *)
From S2P Require Import Prelude State Tables Memory Stacks.

(** ** Definitions *)

(** *** Sub-registers

    [MR] is one 64-bit member whose 16-bit pieces are [mr0], [mr1], [mr2] (and
    padding); [SR] is a 32-bit member with pieces [sr0] and [sr1]. *)
Definition piece16 (k v : Z) : Z := (v >>> (16 * k)) &&& 0xffff.
Definition set_piece16 (k v x : Z) : Z :=
  (v &&& ~~~(0xffff <<< (16 * k))) ||| ((x &&& 0xffff) <<< (16 * k)).

(** A 16-bit register operand: a whole core register or a piece of one. *)
Inductive rref := Full (r : creg) | MR0 | MR1 | MR2 | SR0 | SR1.

Definition rd_u (x : rref) : M Z :=
  match x with
  | Full r => rd (Core r)
  | MR0 => v ← rd (Core MR); mret (piece16 0 v)
  | MR1 => v ← rd (Core MR); mret (piece16 1 v)
  | MR2 => v ← rd (Core MR); mret (piece16 2 v)
  | SR0 => v ← rd (Core SR); mret (piece16 0 v)
  | SR1 => v ← rd (Core SR); mret (piece16 1 v)
  end.
Definition rd_s (x : rref) : M Z := v ← rd_u x; mret (s16 v).

Definition wr_r (x : rref) (val : Z) : M unit :=
  match x with
  | Full r => wr (Core r) val
  | MR0 => v ← rd (Core MR); wr (Core MR) (set_piece16 0 v val)
  | MR1 => v ← rd (Core MR); wr (Core MR) (set_piece16 1 v val)
  | MR2 => v ← rd (Core MR); wr (Core MR) (set_piece16 2 v val)
  | SR0 => v ← rd (Core SR); wr (Core SR) (set_piece16 0 v val)
  | SR1 => v ← rd (Core SR); wr (Core SR) (set_piece16 1 v val)
  end.

(** *** Operand maps ([setup_register_maps]) *)
Definition alu_xregs (x : Z) : rref :=
  match x with
  | 0 => Full AX0 | 1 => Full AX1 | 2 => Full AR
  | 3 => MR0 | 4 => MR1 | 5 => MR2 | 6 => SR0 | _ => SR1
  end.
Definition alu_yregs (y : Z) : rref :=
  match y with 0 => Full AY0 | 1 => Full AY1 | 2 => Full AF | _ => Full ZERO end.
Definition mac_xregs (x : Z) : rref :=
  match x with
  | 0 => Full MX0 | 1 => Full MX1 | 2 => Full AR
  | 3 => MR0 | 4 => MR1 | 5 => MR2 | 6 => SR0 | _ => SR1
  end.
Definition mac_yregs (y : Z) : rref :=
  match y with 0 => Full MY0 | 1 => Full MY1 | 2 => Full MF | _ => Full ZERO end.
Definition shift_xregs (x : Z) : rref :=
  match x with
  | 0 => Full SI | 1 => Full SI | 2 => Full AR
  | 3 => MR0 | 4 => MR1 | 5 => MR2 | 6 => SR0 | _ => SR1
  end.

Definition ALU_GETXREG_UNSIGNED (x : Z) : M Z := rd_u (alu_xregs x).
Definition ALU_GETYREG_UNSIGNED (y : Z) : M Z := rd_u (alu_yregs y).
Definition MAC_GETXREG_UNSIGNED (x : Z) : M Z := rd_u (mac_xregs x).
Definition MAC_GETXREG_SIGNED (x : Z) : M Z := rd_s (mac_xregs x).
Definition MAC_GETYREG_UNSIGNED (y : Z) : M Z := rd_u (mac_yregs y).
Definition MAC_GETYREG_SIGNED (y : Z) : M Z := rd_s (mac_yregs y).
Definition SHIFT_GETXREG_UNSIGNED (x : Z) : M Z := rd_u (shift_xregs x).
Definition SHIFT_GETXREG_SIGNED (x : Z) : M Z := rd_s (shift_xregs x).

(** *** MR is 40 bits wide, kept sign-extended to 64 *)
Definition sign_extend_mr40 (val : Z) : Z :=
  let mask := (1 <<< 40) - 1 in
  let val := u64 val &&& mask in
  let val := if tst val (1 <<< 39) then val ||| u64 (~~~mask) else val in
  s64 val.
Definition normalize_mr : M unit :=
  v ← rd (Core MR); wr (Core MR) (u64 (sign_extend_mr40 v)).

(** *** Register writing *)
Definition update_i (which : Z) : M unit :=
  i ← ard RI which; lm ← ard RLMASK which; awr RBASE which (i &&& lm).
Definition update_l (which : Z) : M unit :=
  l ← ard RL which;
  awr RLMASK which (mask_table (l &&& 0x3fff)) ;;
  i ← ard RI which; lm ← ard RLMASK which; awr RBASE which (i &&& lm).

Definition sign_extend_14 (val : Z) : Z :=
  let val := val &&& 0x3fff in
  if tst val 0x2000 then val - 0x4000 else val.

Definition wr_inval (val : Z) : M unit := ppc ← rd PPC; logerror (EvInvalidReg ppc).
Definition wr_ax0 (val : Z) : M unit := wr (Core AX0) val.
Definition wr_ax1 (val : Z) : M unit := wr (Core AX1) val.
Definition wr_mx0 (val : Z) : M unit := wr (Core MX0) val.
Definition wr_mx1 (val : Z) : M unit := wr (Core MX1) val.
Definition wr_ay0 (val : Z) : M unit := wr (Core AY0) val.
Definition wr_ay1 (val : Z) : M unit := wr (Core AY1) val.
Definition wr_my0 (val : Z) : M unit := wr (Core MY0) val.
Definition wr_my1 (val : Z) : M unit := wr (Core MY1) val.
Definition wr_si (val : Z) : M unit := wr (Core SI) val.
Definition wr_se (val : Z) : M unit := wr (Core SE) (s8 val).
Definition wr_ar (val : Z) : M unit := wr (Core AR) val.
Definition wr_mr0 (val : Z) : M unit := wr_r MR0 val.
Definition wr_mr1 (val : Z) : M unit :=
  wr_r MR1 val ;; wr_r MR2 (s16 val >>> 15) ;; normalize_mr.
Definition wr_mr2 (val : Z) : M unit := wr_r MR2 (s8 val) ;; normalize_mr.
Definition wr_sr0 (val : Z) : M unit := wr_r SR0 val.
Definition wr_sr1 (val : Z) : M unit := wr_r SR1 val.
(** [wr_i0] .. [wr_i7], [wr_m0] .. [wr_m7], [wr_l0] .. [wr_l7] *)
Definition wr_i (k val : Z) : M unit := awr RI k (val &&& 0x3fff) ;; update_i k.
Definition wr_m (k val : Z) : M unit := awr RM k (sign_extend_14 val).
Definition wr_l (k val : Z) : M unit := awr RL k (val &&& 0x3fff) ;; update_l k.
Definition wr_pmovlay (val : Z) : M unit := wr PMOVLAY (val &&& 3).
Definition wr_dmovlay (val : Z) : M unit := wr DMOVLAY (val &&& 3).
Definition wr_astat (val : Z) : M unit := wr ASTAT (val &&& 0x00ff).
Definition wr_imask (val : Z) : M unit :=
  mask ← rd IMASK_MASK; wr IMASK (val &&& mask) ;; check_irqs.
Definition wr_icntl (val : Z) : M unit := wr ICNTL (val &&& 0x001f) ;; check_irqs.
(** A load pushes only a valid current count. *)
Definition wr_cntr (val : Z) : M unit :=
  valid ← rd CNTR_VALID;
  when (nz valid) cntr_stack_push ;;
  wr CNTR (val &&& 0x3fff) ;;
  wr CNTR_VALID 1.
Definition wr_sb (val : Z) : M unit :=
  let val := val &&& 0x1f in
  wr (Core SB) (s8 (if tst val 0x10 then val - 0x20 else val)).
Definition wr_px (val : Z) : M unit := wr PX (val &&& 0xff).

Definition CHIP_TYPE_ADSP2101 : Z := 1.
Definition CHIP_TYPE_ADSP2181 : Z := 5.

(** [if (val & bit) adsp->irq_latch[which] = v;] *)
Definition latch_if (val bit which v : Z) : M unit :=
  when (tst val bit) (awr IRQ_LATCH which v).

Definition wr_ifc (val : Z) : M unit :=
  wr IFC val ;;
  chip ← rd CHIP_TYPE;
  (if chip >=? CHIP_TYPE_ADSP2181 then
     latch_if val 0x0002 ADSP2181_IRQ0 0 ;;
     latch_if val 0x0004 ADSP2181_IRQ1 0 ;;
     latch_if val 0x0010 ADSP2181_IRQE 0 ;;
     latch_if val 0x0020 ADSP2181_SPORT0_RX 0 ;;
     latch_if val 0x0040 ADSP2181_SPORT0_TX 0 ;;
     latch_if val 0x0080 ADSP2181_IRQ2 0 ;;
     latch_if val 0x0200 ADSP2181_IRQ0 1 ;;
     latch_if val 0x0400 ADSP2181_IRQ1 1 ;;
     latch_if val 0x1000 ADSP2181_IRQE 1 ;;
     latch_if val 0x2000 ADSP2181_SPORT0_RX 1 ;;
     latch_if val 0x4000 ADSP2181_SPORT0_TX 1 ;;
     latch_if val 0x8000 ADSP2181_IRQ2 1
   else
     latch_if val 0x002 ADSP2181_IRQ0 0 ;;
     latch_if val 0x004 ADSP2181_IRQ1 0 ;;
     latch_if val 0x008 ADSP2181_SPORT0_RX 0 ;;
     latch_if val 0x010 ADSP2181_SPORT0_TX 0 ;;
     latch_if val 0x020 ADSP2181_IRQ2 0 ;;
     latch_if val 0x080 ADSP2181_IRQ0 1 ;;
     latch_if val 0x100 ADSP2181_IRQ1 1 ;;
     latch_if val 0x200 ADSP2181_SPORT0_RX 1 ;;
     latch_if val 0x400 ADSP2181_SPORT0_TX 1 ;;
     latch_if val 0x800 ADSP2181_IRQ2 1) ;;
  check_irqs.

Definition wr_rx (port val : Z) : M unit := awr SPORT_RX port val.
Definition wr_owrctr (val : Z) : M unit := wr CNTR (val &&& 0x3fff).
Definition wr_topstack (val : Z) : M unit := pc_stack_push_val (val &&& 0x3fff).

Section Regs.
Context {host : Host}.

Definition wr_mstat (val : Z) : M unit :=
  mask ← rd MSTAT_MASK; wr MSTAT (val &&& mask) ;; update_mstat.

Definition wr_tx (port val : Z) : M unit :=
  awr SPORT_TX port val ;;
  n ← ard SPORT_TX_WRITTEN port; awr SPORT_TX_WRITTEN port (n + 1) ;;
  match sport_tx_callback with
  | Some f => f port val
  | None => skip
  end.

(** [( *wr_reg[grp][reg])(adsp, val)] *)
Definition WRITE_REG (grp reg val : Z) : M unit :=
  let val := s32 val in
  match grp with
  | 0 =>
    match reg with
    | 0 => wr_ax0 val | 1 => wr_ax1 val | 2 => wr_mx0 val | 3 => wr_mx1 val
    | 4 => wr_ay0 val | 5 => wr_ay1 val | 6 => wr_my0 val | 7 => wr_my1 val
    | 8 => wr_si val | 9 => wr_se val | 10 => wr_ar val | 11 => wr_mr0 val
    | 12 => wr_mr1 val | 13 => wr_mr2 val | 14 => wr_sr0 val | _ => wr_sr1 val
    end
  | 1 =>
    match reg with
    | 0 => wr_i 0 val | 1 => wr_i 1 val | 2 => wr_i 2 val | 3 => wr_i 3 val
    | 4 => wr_m 0 val | 5 => wr_m 1 val | 6 => wr_m 2 val | 7 => wr_m 3 val
    | 8 => wr_l 0 val | 9 => wr_l 1 val | 10 => wr_l 2 val | 11 => wr_l 3 val
    | 12 => wr_inval val | 13 => wr_inval val | 14 => wr_pmovlay val | _ => wr_dmovlay val
    end
  | 2 =>
    match reg with
    | 0 => wr_i 4 val | 1 => wr_i 5 val | 2 => wr_i 6 val | 3 => wr_i 7 val
    | 4 => wr_m 4 val | 5 => wr_m 5 val | 6 => wr_m 6 val | 7 => wr_m 7 val
    | 8 => wr_l 4 val | 9 => wr_l 5 val | 10 => wr_l 6 val | 11 => wr_l 7 val
    | 12 => wr_inval val | 13 => wr_inval val | 14 => wr_inval val | _ => wr_inval val
    end
  | _ =>
    match reg with
    | 0 => wr_astat val | 1 => wr_mstat val | 2 => wr_inval val | 3 => wr_imask val
    | 4 => wr_icntl val | 5 => wr_cntr val | 6 => wr_sb val | 7 => wr_px val
    | 8 => wr_rx 0 val | 9 => wr_tx 0 val | 10 => wr_rx 1 val | 11 => wr_tx 1 val
    | 12 => wr_ifc val | 13 => wr_owrctr val | 14 => wr_inval val | _ => wr_topstack val
    end
  end.

End Regs.

(** *** Register reading *)
Definition rd_inval : M Z := ppc ← rd PPC; logerror (EvInvalidReg ppc) ;; mret 0.
Definition rd_stacktop : M Z := pc_stack_pop_val.

(** [( *rd_reg[grp][reg])(adsp)], an [INT32]. *)
Definition READ_REG (grp reg : Z) : M Z :=
  v ← match grp with
      | 0 =>
        match reg with
        | 0 => rd_s (Full AX0) | 1 => rd_s (Full AX1) | 2 => rd_s (Full MX0) | 3 => rd_s (Full MX1)
        | 4 => rd_s (Full AY0) | 5 => rd_s (Full AY1) | 6 => rd_s (Full MY0) | 7 => rd_s (Full MY1)
        | 8 => rd_s (Full SI) | 9 => rd_s (Full SE) | 10 => rd_s (Full AR) | 11 => rd_s MR0
        | 12 => rd_s MR1 | 13 => rd_s MR2 | 14 => rd_s SR0 | _ => rd_s SR1
        end
      | 1 =>
        match reg with
        | 0 => ard RI 0 | 1 => ard RI 1 | 2 => ard RI 2 | 3 => ard RI 3
        | 4 => ard RM 0 | 5 => ard RM 1 | 6 => ard RM 2 | 7 => ard RM 3
        | 8 => ard RL 0 | 9 => ard RL 1 | 10 => ard RL 2 | 11 => ard RL 3
        | 12 => rd_inval | 13 => rd_inval | 14 => rd PMOVLAY | _ => rd DMOVLAY
        end
      | 2 =>
        match reg with
        | 0 => ard RI 4 | 1 => ard RI 5 | 2 => ard RI 6 | 3 => ard RI 7
        | 4 => ard RM 4 | 5 => ard RM 5 | 6 => ard RM 6 | 7 => ard RM 7
        | 8 => ard RL 4 | 9 => ard RL 5 | 10 => ard RL 6 | 11 => ard RL 7
        | 12 => rd_inval | 13 => rd_inval | 14 => rd_inval | _ => rd_inval
        end
      | _ =>
        match reg with
        | 0 => rd ASTAT | 1 => rd MSTAT | 2 => rd SSTAT | 3 => rd IMASK
        | 4 => rd ICNTL | 5 => rd CNTR | 6 => rd_s (Full SB) | 7 => rd PX
        | 8 => ard SPORT_RX 0 | 9 => ard SPORT_TX 0 | 10 => ard SPORT_RX 1 | 11 => ard SPORT_TX 1
        | 12 => rd_inval | 13 => rd_inval | 14 => rd_inval | _ => rd_stacktop
        end
      end;
  mret (s32 v).

(** *** Data address generators *)
Definition modified_address (ireg mreg : Z) : M Z :=
  i0 ← ard RI ireg; m ← ard RM mreg;
  let i := i0 + m in
  l ← ard RL ireg;
  if negb (l =? 0) then
    base ← ard RBASE ireg;
    let i := if i <? base then i + l
             else if i >=? base + l then i - l else i in
    mret (i &&& 0x3fff)
  else mret (i &&& 0x3fff).

Definition modify_address (ireg mreg : Z) : M unit :=
  a ← modified_address ireg mreg; awr RI ireg a.

Definition data_write_dag1 (op val : Z) : M unit :=
  let ireg := (op >>> 2) &&& 3 in
  let mreg := op &&& 3 in
  i ← ard RI ireg;
  mstat ← rd MSTAT;
  (if tst mstat MSTAT_REVERSE
   then WWORD_DATA (reverse_table (i &&& 0x3fff)) val
   else WWORD_DATA i val) ;;
  modify_address ireg mreg.

Definition data_read_dag1 (op : Z) : M Z :=
  let ireg := (op >>> 2) &&& 3 in
  let mreg := op &&& 3 in
  i ← ard RI ireg;
  mstat ← rd MSTAT;
  res ← (if tst mstat MSTAT_REVERSE
         then RWORD_DATA (reverse_table (i &&& 0x3fff))
         else RWORD_DATA i);
  modify_address ireg mreg ;;
  mret res.

Definition data_write_dag2 (op val : Z) : M unit :=
  let ireg := 4 + ((op >>> 2) &&& 3) in
  let mreg := 4 + (op &&& 3) in
  i ← ard RI ireg;
  WWORD_DATA i val ;;
  modify_address ireg mreg.

Definition data_read_dag2 (op : Z) : M Z :=
  let ireg := 4 + ((op >>> 2) &&& 3) in
  let mreg := 4 + (op &&& 3) in
  i ← ard RI ireg;
  res ← RWORD_DATA i;
  modify_address ireg mreg ;;
  mret res.

Definition pgm_write_dag2 (op val : Z) : M unit :=
  let ireg := 4 + ((op >>> 2) &&& 3) in
  let mreg := 4 + (op &&& 3) in
  i ← ard RI ireg;
  px ← rd PX;
  let word := (u32 val <<< 8) ||| (px &&& 0xff) in
  gate ← rd WATCH_GATE;
  w ← ard WATCH_PM (i &&& 0x3fff);
  when (nz gate && nz w) (logerror (EvPmWrite (i &&& 0x3fff) (word &&& 0xffffff))) ;;
  WWORD_PGM i word ;;
  modify_address ireg mreg.

Definition pgm_read_dag2 (op : Z) : M Z :=
  let ireg := 4 + ((op >>> 2) &&& 3) in
  let mreg := 4 + (op &&& 3) in
  i ← ard RI ireg;
  res ← RWORD_PGM i;
  gate ← rd WATCH_GATE;
  w ← ard WATCH_PM (i &&& 0x3fff);
  when (nz gate && nz w) (logerror (EvPmRead (i &&& 0x3fff) (res &&& 0xffffff))) ;;
  wr PX (res &&& 0xff) ;;
  let res := res >>> 8 in
  modify_address ireg mreg ;;
  mret res.
