(* ===== verification/Alu.v ===== *)
(** * Arithmetic and logic unit

    [alu_op_ar], [alu_op_ar_const], [alu_op_af], [alu_op_af_const] and
    [alu_op_none] of [2100ops.inc], with the ASTAT flag macros and the
    "Y - 1" carry diagnostic of [adsp2181_core.c]. *)
From S2P Require Import Prelude State Tables Stacks Regs.

(** ** Definitions *)

(** *** Flag macros *)
Definition GET_C : M Z := a ← rd ASTAT; mret (a &&& CFLAG).
Definition GET_V : M Z := a ← rd ASTAT; mret (a &&& VFLAG).
Definition GET_Q : M Z := a ← rd ASTAT; mret (a &&& QFLAG).
Definition GET_SS : M Z := a ← rd ASTAT; mret (a &&& SSFLAG).
Definition GET_MV : M Z := a ← rd ASTAT; mret (a &&& MVFLAG).
(** [SET_x] and [CLR_x] *)
Definition SET_F (flag : Z) : M unit := a ← rd ASTAT; wr ASTAT (a ||| flag).
Definition CLR_F (flag : Z) : M unit := a ← rd ASTAT; wr ASTAT (a &&& ~~~flag).

Definition CLR_FLAGS : M unit :=
  a ← rd ASTAT; c ← rd ASTAT_CLEAR; wr ASTAT (a &&& c).
Definition CALC_Z (r : Z) : M unit := SET_F (b2z (r &&& 0xffff =? 0)).
Definition CALC_N (r : Z) : M unit := SET_F ((r >>> 14) &&& 0x02).
Definition CALC_V (s d r : Z) : M unit :=
  SET_F (((s ^^^ d ^^^ r ^^^ (r >>> 1)) >>> 13) &&& 0x04).
Definition CALC_C (r : Z) : M unit := SET_F ((r >>> 13) &&& 0x08).
Definition CALC_C_SUB (r : Z) : M unit := SET_F ((~~~r >>> 13) &&& 0x08).
Definition CALC_NZ (r : Z) : M unit := CLR_FLAGS ;; CALC_N r ;; CALC_Z r.
Definition CALC_NZV (s d r : Z) : M unit :=
  CLR_FLAGS ;; CALC_N r ;; CALC_Z r ;; CALC_V s d r.
Definition CALC_NZVC (s d r : Z) : M unit :=
  CLR_FLAGS ;; CALC_N r ;; CALC_Z r ;; CALC_V s d r ;; CALC_C r.
Definition CALC_NZVC_SUB (s d r : Z) : M unit :=
  CLR_FLAGS ;; CALC_N r ;; CALC_Z r ;; CALC_V s d r ;; CALC_C_SUB r.

(** ADSP-218x ALU constants. *)
Definition constants : list Z :=
  [0x0001; 0xfffe; 0x0002; 0xfffd; 0x0004; 0xfffb; 0x0008; 0xfff7;
   0x0010; 0xffef; 0x0020; 0xffdf; 0x0040; 0xffbf; 0x0080; 0xff7f;
   0x0100; 0xfeff; 0x0200; 0xfdff; 0x0400; 0xfbff; 0x0800; 0xf7ff;
   0x1000; 0xefff; 0x2000; 0xdfff; 0x4000; 0xbfff; 0x8000; 0x7fff].
Definition constant_of (op : Z) : Z :=
  nth (Z.to_nat (((op >>> 5) &&& 0x07) ||| ((op >>> 8) &&& 0x18))) constants 0.

Section Alu.
Context {host : Host}.

(** *** The "Y - 1" carry rule *)

(** [for (; lo <= hi; lo++) ym1_mame_pc[lo] = 1;] after clamping both ends. *)
Definition ym1_mark (r : Z * Z) : M unit :=
  let lo := if r.1 <? 0 then 0 else r.1 in
  let hi := if r.2 >? 0x3fff then 0x3fff else r.2 in
  for_upto (Z.to_nat (hi + 1 - lo)) lo (fun k => awr YM1_MAME_PC k 1).

Fixpoint ym1_mark_all (l : list (Z * Z)) : M unit :=
  match l with
  | [] => skip
  | r :: l => ym1_mark r ;; ym1_mark_all l
  end.

Definition ym1_env_init : M unit :=
  all ← rd YM1_MAME_ALL;
  if all >=? 0 then skip
  else
    wr YM1_MAME_ALL 0 ;;
    when env_ym1_mame_all (wr YM1_MAME_ALL 1) ;;
    ym1_mark_all env_ym1_mame_pcs ;;
    wr YM1_LOG_BUDGET env_ym1_log.

Definition YM1_CARRY (y r : Z) : M unit :=
  ym1_env_init ;;
  budget ← rd YM1_LOG_BUDGET;
  ppc ← rd PPC;
  (if budget >? 0 then
     wr YM1_LOG_BUDGET (budget - 1) ;;
     logerror (EvYm1 (ppc &&& 0x3fff) (y &&& 0xffff))
   else skip) ;;
  all ← rd YM1_MAME_ALL;
  pcs ← ard YM1_MAME_PC (ppc &&& 0x3fff);
  if nz all || nz pcs then when (y =? 0x0000) (SET_F CFLAG)
  else CALC_C_SUB r.

(** *** The operation switch

    The five functions share one switch on [op & (15<<13)]; they differ in
    where Y comes from and where the result goes. *)
Definition alu_switch (op : Z) (getx gety : M Z) : M Z :=
  match (op >>> 13) &&& 15 with
  | 0x00 => (* Y *)
      res ← gety; CALC_NZ res ;; mret res
  | 0x01 => (* Y + 1 *)
      yop ← gety;
      let res := yop + 1 in
      CALC_NZ res ;;
      (if yop =? 0x7fff then SET_F VFLAG
       else when (yop =? 0xffff) (SET_F CFLAG)) ;;
      mret res
  | 0x02 => (* X + Y + C *)
      xop ← getx; yop ← gety; c ← GET_C;
      let yop := yop + (c >>> 3) in
      let res := xop + yop in
      CALC_NZVC xop yop res ;; mret res
  | 0x03 => (* X + Y *)
      xop ← getx; yop ← gety;
      let res := xop + yop in
      CALC_NZVC xop yop res ;; mret res
  | 0x04 => (* NOT Y *)
      yop ← gety;
      let res := yop ^^^ 0xffff in
      CALC_NZ res ;; mret res
  | 0x05 => (* -Y *)
      yop ← gety;
      let res := - yop in
      CALC_NZ res ;;
      when (yop =? 0x8000) (SET_F VFLAG) ;;
      when (yop =? 0x0000) (SET_F CFLAG) ;;
      mret res
  | 0x06 => (* X - Y + C - 1 *)
      xop ← getx; yop ← gety; c ← GET_C;
      let res := xop - yop + (c >>> 3) - 1 in
      CALC_NZVC_SUB xop yop res ;; mret res
  | 0x07 => (* X - Y *)
      xop ← getx; yop ← gety;
      let res := xop - yop in
      CALC_NZVC_SUB xop yop res ;; mret res
  | 0x08 => (* Y - 1 *)
      yop ← gety;
      let res := yop - 1 in
      CALC_NZ res ;;
      when (yop =? 0x8000) (SET_F VFLAG) ;;
      YM1_CARRY yop res ;;
      mret res
  | 0x09 => (* Y - X *)
      xop ← getx; yop ← gety;
      let res := yop - xop in
      CALC_NZVC_SUB yop xop res ;; mret res
  | 0x0a => (* Y - X + C - 1 *)
      xop ← getx; yop ← gety; c ← GET_C;
      let res := yop - xop + (c >>> 3) - 1 in
      CALC_NZVC_SUB yop xop res ;; mret res
  | 0x0b => (* NOT X *)
      xop ← getx;
      let res := xop ^^^ 0xffff in
      CALC_NZ res ;; mret res
  | 0x0c => (* X AND Y *)
      xop ← getx; yop ← gety;
      let res := xop &&& yop in
      CALC_NZ res ;; mret res
  | 0x0d => (* X OR Y *)
      xop ← getx; yop ← gety;
      let res := xop ||| yop in
      CALC_NZ res ;; mret res
  | 0x0e => (* X XOR Y *)
      xop ← getx; yop ← gety;
      let res := xop ^^^ yop in
      CALC_NZ res ;; mret res
  | _ => (* ABS X *)
      xop ← getx;
      let res := if tst xop 0x8000 then - xop else xop in
      CALC_NZ res ;;
      (if xop =? 0x8000 then SET_F NFLAG ;; SET_F VFLAG else skip) ;;
      CLR_F SFLAG ;;
      when (tst xop 0x8000) (SET_F SFLAG) ;;
      mret res
  end.

Definition alu_get_x (op : Z) : M Z := ALU_GETXREG_UNSIGNED ((op >>> 8) &&& 7).
Definition alu_get_y (op : Z) : M Z := ALU_GETYREG_UNSIGNED ((op >>> 11) &&& 3).
Definition alu_get_const (op : Z) : M Z := mret (constant_of op).

(** AR saturation *)
Definition alu_saturate (res : Z) : M Z :=
  mstat ← rd MSTAT; v ← GET_V; c ← GET_C;
  mret (if tst mstat MSTAT_SATURATE && nz v
        then if nz c then -32768 else 32767
        else res).

Definition alu_op_ar (op : Z) : M unit :=
  res ← alu_switch op (alu_get_x op) (alu_get_y op);
  res ← alu_saturate res;
  wr (Core AR) res.

Definition alu_op_ar_const (op : Z) : M unit :=
  res ← alu_switch op (alu_get_x op) (alu_get_const op);
  res ← alu_saturate res;
  wr (Core AR) res.

Definition alu_op_af (op : Z) : M unit :=
  res ← alu_switch op (alu_get_x op) (alu_get_y op);
  wr (Core AF) res.

Definition alu_op_af_const (op : Z) : M unit :=
  res ← alu_switch op (alu_get_x op) (alu_get_const op);
  wr (Core AF) res.

Definition alu_op_none (op : Z) : M unit :=
  alu_switch op (alu_get_x op) (alu_get_y op) ;; skip.

(** *** Divide primitives (opcodes 0x06 and 0x07) *)
Definition divs (op : Z) : M unit :=
  xop ← ALU_GETXREG_UNSIGNED ((op >>> 8) &&& 7);
  yop ← ALU_GETYREG_UNSIGNED ((op >>> 11) &&& 3);
  let temp := xop ^^^ yop in
  astat ← rd ASTAT;
  wr ASTAT ((astat &&& ~~~QFLAG) ||| ((temp >>> 10) &&& QFLAG)) ;;
  ay0 ← rd (Core AY0);
  wr (Core AF) ((yop <<< 1) ||| (ay0 >>> 15)) ;;
  ay0 ← rd (Core AY0);
  wr (Core AY0) ((ay0 <<< 1) ||| (temp >>> 15)).

Definition divq (op : Z) : M unit :=
  xop ← ALU_GETXREG_UNSIGNED ((op >>> 8) &&& 7);
  q ← GET_Q;
  af ← rd (Core AF);
  let res := if nz q then af + xop else af - xop in
  let temp := u32 (res ^^^ xop) in
  astat ← rd ASTAT;
  wr ASTAT ((astat &&& ~~~QFLAG) ||| ((temp >>> 10) &&& QFLAG)) ;;
  ay0 ← rd (Core AY0);
  wr (Core AF) ((u32 res <<< 1) ||| (ay0 >>> 15)) ;;
  ay0 ← rd (Core AY0);
  wr (Core AY0) ((ay0 <<< 1) ||| ((~~~temp >>> 15) &&& 0x0001)).

End Alu.
