(* ===== verification/Mac.v ===== *)
(** * Multiplier/accumulator

    [mac_op_mr], [mac_op_mr_xop], [mac_op_mf], [mac_op_mf_xop] and
    [mac_round_mode] of [2100ops.inc]. The accumulator arithmetic is done in
    64-bit two's complement, as in the source. *)
From S2P Require Import Prelude State Tables Stacks Regs Alu.

(** ** Definitions *)

(** Rounding: biased when BIASRND, bit 14 of DM(0x3ff3), is set. *)
Definition mac_round_mode (res : Z) : M Z :=
  let low := res &&& 0xffff in
  let res := s64 (res + 0x8000) in
  ctl ← ard DATA 0x3ff3;
  mret (if negb (tst ctl 0x4000) && (low =? 0x8000)
        then res &&& ~~~0x10000 else res).

(** [INT8 shift = ((adsp->mstat & MSTAT_INTEGER) >> 4) ^ 1;] *)
Definition mac_shift : M Z :=
  mstat ← rd MSTAT; mret (((mstat &&& MSTAT_INTEGER) >>> 4) ^^^ 1).

(** [temp = (INT64)xop * yop * ((INT64)1 << shift)] *)
Definition mac_product (x y shift : Z) : Z := x * y * (1 <<< shift).

(** [res = adsp->core.mr.mr + temp]: unsigned 64-bit, stored in an [INT64]. *)
Definition mr_plus (temp : Z) : M Z := mr ← rd (Core MR); mret (s64 (mr + temp)).
Definition mr_minus (temp : Z) : M Z := mr ← rd (Core MR); mret (s64 (mr - temp)).

(** The switch on [op & (15<<13)]: [None] is the no-op that returns early.
    [xs], [xu], [ys], [yu] read the operands signed and unsigned. *)
Definition mac_switch (op : Z) (xs xu ys yu : M Z) : M (option Z) :=
  shift ← mac_shift;
  let prod (gx gy : M Z) := x ← gx; y ← gy; mret (mac_product x y shift) in
  match (op >>> 13) &&& 15 with
  | 0x00 => mret None
  | 0x01 => temp ← prod xs ys; res ← mac_round_mode temp; mret (Some res)
  | 0x02 => temp ← prod xs ys; res ← mr_plus temp; res ← mac_round_mode res; mret (Some res)
  | 0x03 => temp ← prod xs ys; res ← mr_minus temp; res ← mac_round_mode res; mret (Some res)
  | 0x04 => temp ← prod xs ys; mret (Some temp)
  | 0x05 => temp ← prod xs yu; mret (Some temp)
  | 0x06 => temp ← prod xu ys; mret (Some temp)
  | 0x07 => temp ← prod xu yu; mret (Some temp)
  | 0x08 => temp ← prod xs ys; res ← mr_plus temp; mret (Some res)
  | 0x09 => temp ← prod xs yu; res ← mr_plus temp; mret (Some res)
  | 0x0a => temp ← prod xu ys; res ← mr_plus temp; mret (Some res)
  | 0x0b => temp ← prod xu yu; res ← mr_plus temp; mret (Some res)
  | 0x0c => temp ← prod xs ys; res ← mr_minus temp; mret (Some res)
  | 0x0d => temp ← prod xs yu; res ← mr_minus temp; mret (Some res)
  | 0x0e => temp ← prod xu ys; res ← mr_minus temp; mret (Some res)
  | _ => temp ← prod xu yu; res ← mr_minus temp; mret (Some res)
  end.

(** MV is set when bits 39..31 of the result are not all equal. *)
Definition mac_set_mv (res : Z) : M unit :=
  let temp := (res >>> 31) &&& 0x1ff in
  CLR_F MVFLAG ;;
  when (negb (temp =? 0x000) && negb (temp =? 0x1ff)) (SET_F MVFLAG).

Definition mac_to_mr (r : option Z) : M unit :=
  match r with
  | None => skip
  | Some res => mac_set_mv res ;; wr (Core MR) (u64 (sign_extend_mr40 (u64 res)))
  end.

Definition mac_to_mf (r : option Z) : M unit :=
  match r with
  | None => skip
  | Some res => mac_set_mv res ;; wr (Core MF) (u32 res >>> 16)
  end.

Definition mac_op_mr (op : Z) : M unit :=
  let x := (op >>> 8) &&& 7 in
  let y := (op >>> 11) &&& 3 in
  r ← mac_switch op (MAC_GETXREG_SIGNED x) (MAC_GETXREG_UNSIGNED x)
                    (MAC_GETYREG_SIGNED y) (MAC_GETYREG_UNSIGNED y);
  mac_to_mr r.

Definition mac_op_mf (op : Z) : M unit :=
  let x := (op >>> 8) &&& 7 in
  let y := (op >>> 11) &&& 3 in
  r ← mac_switch op (MAC_GETXREG_SIGNED x) (MAC_GETXREG_UNSIGNED x)
                    (MAC_GETYREG_SIGNED y) (MAC_GETYREG_UNSIGNED y);
  mac_to_mf r.

(** The [xop] variants multiply X by itself, read once: the SU and US forms
    use the signedness of the first operand for both. *)
Definition mac_switch_xop (op : Z) (xs xu : M Z) : M (option Z) :=
  shift ← mac_shift;
  let sq (gx : M Z) := x ← gx; mret (mac_product x x shift) in
  match (op >>> 13) &&& 15 with
  | 0x00 => mret None
  | 0x01 => temp ← sq xs; res ← mac_round_mode temp; mret (Some res)
  | 0x02 => temp ← sq xs; res ← mr_plus temp; res ← mac_round_mode res; mret (Some res)
  | 0x03 => temp ← sq xs; res ← mr_minus temp; res ← mac_round_mode res; mret (Some res)
  | 0x04 => temp ← sq xs; mret (Some temp)
  | 0x05 => temp ← sq xs; mret (Some temp)
  | 0x06 => temp ← sq xu; mret (Some temp)
  | 0x07 => temp ← sq xu; mret (Some temp)
  | 0x08 => temp ← sq xs; res ← mr_plus temp; mret (Some res)
  | 0x09 => temp ← sq xs; res ← mr_plus temp; mret (Some res)
  | 0x0a => temp ← sq xu; res ← mr_plus temp; mret (Some res)
  | 0x0b => temp ← sq xu; res ← mr_plus temp; mret (Some res)
  | 0x0c => temp ← sq xs; res ← mr_minus temp; mret (Some res)
  | 0x0d => temp ← sq xs; res ← mr_minus temp; mret (Some res)
  | 0x0e => temp ← sq xu; res ← mr_minus temp; mret (Some res)
  | _ => temp ← sq xu; res ← mr_minus temp; mret (Some res)
  end.

Definition mac_op_mr_xop (op : Z) : M unit :=
  let x := (op >>> 8) &&& 7 in
  r ← mac_switch_xop op (MAC_GETXREG_SIGNED x) (MAC_GETXREG_UNSIGNED x);
  mac_to_mr r.

Definition mac_op_mf_xop (op : Z) : M unit :=
  let x := (op >>> 8) &&& 7 in
  r ← mac_switch_xop op (MAC_GETXREG_SIGNED x) (MAC_GETXREG_UNSIGNED x);
  mac_to_mf r.

(** Opcode 0x05: saturate MR *)
Definition saturate_mr : M unit :=
  mv ← GET_MV;
  if nz mv then
    mr ← rd (Core MR);
    (if tst (piece16 2 mr) 0x80 then
       wr_r MR2 0xffff ;; wr_r MR1 0x8000 ;; wr_r MR0 0x0000
     else
       wr_r MR2 0x0000 ;; wr_r MR1 0x7fff ;; wr_r MR0 0xffff) ;;
    normalize_mr
  else skip.

(** ** The 40-bit accumulator *)

(** Sign extension is two's complement reinterpretation at 40 bits. *)
Lemma sign_extend_mr40_wraps v : sign_extend_mr40 v = wraps 40 v.
Proof.
  unfold sign_extend_mr40. change ((1 <<< 40) - 1) with (2 ^ 40 - 1).
  change (1 <<< 39) with (2 ^ 39). rewrite land_mask_mod by lia.
  assert (u64 v mod 2 ^ 40 = v mod 2 ^ 40) as ->.
  { rewrite (conv_unsigned U64) by done. cbn [cbits].
    symmetry. apply Znumtheory.Zmod_div_mod; [lia|lia|]. by exists (2 ^ 24). }
  assert (wraps 40 v = wraps 40 (v mod 2 ^ 40)) as ->
    by (unfold wraps; by rewrite Zplus_mod_idemp_l).
  pose proof (Z.mod_pos_bound v (2 ^ 40) ltac:(lia)) as Hv. cbv zeta.
  generalize dependent (v mod 2 ^ 40). intros x Hx. rewrite tst_pow2 by lia.
  assert (x = x mod 2 ^ 39 + 2 ^ 39 * (x / 2 ^ 39)) as Ed by (rewrite (Z.add_comm _ (_ * _)); by apply Z.div_mod).
  assert (0 <= x / 2 ^ 39 < 2) as Hq
    by (split; [apply Z.div_pos; lia|apply Z.div_lt_upper_bound; lia]).
  pose proof (Z.mod_pos_bound x (2 ^ 39) ltac:(lia)) as Hm.
  rewrite Z.testbit_eqb by lia. unfold wraps. change (40 - 1) with 39.
  assert (x / 2 ^ 39 = 0 \/ x / 2 ^ 39 = 1) as [E|E] by lia; rewrite E in *; simpl (_ =? 1).
  - cbv iota. rewrite Z.mod_small by lia. unfold conv. cbn [csigned cbits]. unfold wraps.
    rewrite Z.mod_small; lia.
  - cbv iota.
    assert (x ||| u64 (~~~(2 ^ 40 - 1)) = x + (2 ^ 64 - 2 ^ 40)) as ->.
    { change (u64 (~~~(2 ^ 40 - 1))) with ((2 ^ 24 - 1) * 2 ^ 40). rewrite lor_add; lia. }
    unfold conv. cbn [csigned cbits]. unfold wraps.
    replace (x + 2 ^ 39) with (x - 2 ^ 39 + 1 * 2 ^ 40) by lia.
    replace (x + (2 ^ 64 - 2 ^ 40) + 2 ^ (64 - 1)) with (x - 2 ^ 40 + 2 ^ 63 + 1 * 2 ^ 64) by lia.
    rewrite !Z.mod_add, !Z.mod_small by lia. lia.
Qed.
