(* ===== verification/Shift.v ===== *)
(** * Barrel shifter

    [shift_op] and [shift_op_imm] of [2100ops.inc]: logical, arithmetic and
    normalising shifts into SR, exponent detection into SE and SB. Both
    functions have the same first twelve cases; [shift_op] adds the exponent
    operations. *)
From S2P Require Import Prelude State Tables Stacks Regs Alu.

(** ** Definitions *)

(** The scaled operand: 16 bits in the high half of a 32-bit word. *)
Definition shift_hi_u (v : Z) : Z := s32 (u32 v <<< 16).
Definition shift_hi_s (v : Z) : Z := s32 (u32 (u16 v) <<< 16).

(** LSHIFT: [sc > 0 ? (sc < 32 ? (UINT32)xop << sc : 0)
                    : (sc > -32 ? (UINT32)xop >> -sc : 0)] *)
Definition lshift (xop sc : Z) : Z :=
  if sc >? 0 then (if sc <? 32 then u32 (u32 xop <<< sc) else 0)
  else (if sc >? -32 then u32 xop >>> (- sc) else 0).

(** ASHIFT: right shifts keep the sign. *)
Definition ashift (xop sc : Z) : Z :=
  if sc >? 0 then (if sc <? 32 then u32 (u32 xop <<< sc) else 0)
  else (if sc >? -32 then u32 (xop >>> (- sc)) else u32 (xop >>> 31)).

(** NORM (LO): the shift count is negated. *)
Definition norm_lo (xop sc : Z) : Z :=
  if sc >? 0 then (if sc <? 32 then xop >>> sc else 0)
  else (if sc >? -32 then u32 (u32 xop <<< (- sc)) else 0).

(** The exponent loops [while ((xop & mask) != 0) res++, xop <<= 1;] (with
    [set]) and [while ((xop & mask) == 0) ...]; [None] is running out of
    fuel, which [exp_loop_hi_neg], [exp_loop_hi_pos] and their companions
    show does not happen with the fuel given below. *)
Fixpoint exp_loop (fuel : nat) (mask : Z) (set : bool) (res xop : Z) : option Z :=
  match fuel with
  | O => None
  | S fuel =>
      if Bool.eqb (tst xop mask) set
      then exp_loop fuel mask set (u32 (res + 1)) (s32 (u32 xop <<< 1))
      else Some res
  end.

(** The exponent of a scaled operand (EXP HI, HIX and EXPADJ). *)
Definition exp_hi (xop : Z) : option Z :=
  if xop <? 0 then exp_loop 32 0x40000000 true 0 xop
  else exp_loop 32 0x40000000 false 0 (xop ||| 0x8000).

(** The exponent of the low word (EXP LO), counting on from 15. *)
Definition exp_lo (ss : bool) (xop : Z) : option Z :=
  if ss then exp_loop 32 0x8000 true 15 xop
  else exp_loop 32 0x10000 false 15 (s32 ((u32 xop <<< 1) ||| 1)).

(** A loop count as a value; running out of fuel is a fault. *)
Definition loop_result (r : option Z) : M Z :=
  match r with
  | Some n => mret n
  | None => fun s => (0, set FAULT 1 s)
  end.

Section Shift.
Context {host : Host}.

(** NORM (HI): the carry enters at the top; a count above 32 shifts a 32-bit
    operand by 32 or more, which C does not define. *)
Definition norm_hi (xop astat sc : Z) : Z :=
  if sc >? 0 then
    let xop := s32 ((u32 xop >>> 1) ||| ((astat &&& CFLAG) <<< 28)) in
    if sc - 1 <? 32 then u32 (xop >>> (sc - 1)) else u32 (undefined_shift xop (sc - 1))
  else (if sc >? -32 then u32 (u32 xop <<< (- sc)) else 0).

Definition sr_set (res : Z) : M unit := wr (Core SR) res.
Definition sr_or (res : Z) : M unit := sr ← rd (Core SR); wr (Core SR) (sr ||| res).

(** The cases [0x00] to [0x0b] of the switch on [op & (15<<11)]. *)
Definition shift_into_sr (op sc : Z) : M unit :=
  let x := (op >>> 8) &&& 7 in
  match (op >>> 11) &&& 15 with
  | 0x00 => v ← SHIFT_GETXREG_UNSIGNED x; sr_set (lshift (shift_hi_u v) sc)
  | 0x01 => v ← SHIFT_GETXREG_UNSIGNED x; sr_or (lshift (shift_hi_u v) sc)
  | 0x02 => v ← SHIFT_GETXREG_UNSIGNED x; sr_set (lshift v sc)
  | 0x03 => v ← SHIFT_GETXREG_UNSIGNED x; sr_or (lshift v sc)
  | 0x04 => v ← SHIFT_GETXREG_SIGNED x; sr_set (ashift (shift_hi_s v) sc)
  | 0x05 => v ← SHIFT_GETXREG_SIGNED x; sr_or (ashift (shift_hi_s v) sc)
  | 0x06 => v ← SHIFT_GETXREG_SIGNED x; sr_set (ashift v sc)
  | 0x07 => v ← SHIFT_GETXREG_SIGNED x; sr_or (ashift v sc)
  | 0x08 => v ← SHIFT_GETXREG_SIGNED x; a ← rd ASTAT; sr_set (norm_hi (shift_hi_s v) a sc)
  | 0x09 => v ← SHIFT_GETXREG_SIGNED x; a ← rd ASTAT; sr_or (norm_hi (shift_hi_s v) a sc)
  | 0x0a => v ← SHIFT_GETXREG_UNSIGNED x; sr_set (norm_lo v sc)
  | 0x0b => v ← SHIFT_GETXREG_UNSIGNED x; sr_or (norm_lo v sc)
  | _ => skip
  end.

(** EXP (HI) *)
Definition exp_hi_op (x : Z) : M unit :=
  v ← SHIFT_GETXREG_SIGNED x;
  let xop := shift_hi_s v in
  (if xop <? 0 then SET_F SSFLAG else CLR_F SSFLAG) ;;
  res ← loop_result (exp_hi xop);
  wr (Core SE) (u32 (- res)).

(** EXP (HIX): an overflowed ALU result has one bit more than the word. *)
Definition exp_hix_op (x : Z) : M unit :=
  v ← SHIFT_GETXREG_SIGNED x;
  let xop := shift_hi_s v in
  ov ← GET_V;
  if nz ov then
    wr (Core SE) 1 ;;
    (if xop <? 0 then CLR_F SSFLAG else SET_F SSFLAG)
  else
    (if xop <? 0 then SET_F SSFLAG else CLR_F SSFLAG) ;;
    res ← loop_result (exp_hi xop);
    wr (Core SE) (u32 (- res)).

(** EXP (LO): continues the count of a high word that was all sign bits. *)
Definition exp_lo_op (x : Z) : M unit :=
  se ← rd_s (Full SE);
  if se =? -15 then
    v ← SHIFT_GETXREG_SIGNED x;
    ss ← GET_SS;
    res ← loop_result (exp_lo (nz ss) v);
    wr (Core SE) (u32 (- res))
  else skip.

(** EXPADJ: keep the smallest exponent of a block in SB. *)
Definition expadj_op (x : Z) : M unit :=
  v ← SHIFT_GETXREG_SIGNED x;
  res ← loop_result (exp_hi (shift_hi_s v));
  sb ← rd_s (Full SB);
  when (res <? u32 (- sb)) (wr (Core SB) (u32 (- res))).

Definition shift_op (op : Z) : M unit :=
  se ← rd_s (Full SE);
  let sc := s8 se in
  let x := (op >>> 8) &&& 7 in
  match (op >>> 11) &&& 15 with
  | 0x0c => exp_hi_op x
  | 0x0d => exp_hix_op x
  | 0x0e => exp_lo_op x
  | 0x0f => expadj_op x
  | _ => shift_into_sr op sc
  end.

Definition shift_op_imm (op : Z) : M unit := shift_into_sr op (s8 op).

End Shift.

(** ** Exponents *)

(** Reference: the number of redundant sign bits of a 16-bit word. *)
Definition sign_bits16 (v : Z) : Z :=
  let m := if v <? 0 then ~~~v else v in if m =? 0 then 15 else 14 - Z.log2 m.

(** Reference: the exponent of a double word whose high word is all sign bits
    ([ss] is the sign) and whose low word is [v]. *)
Definition low_sign_bits (ss : bool) (v : Z) : Z :=
  let m := if ss then 0xffff - u16 v else u16 v in if m =? 0 then 31 else 30 - Z.log2 m.

Lemma u16_s16 v : u16 (s16 v) = u16 v.
Proof. rewrite !(conv_unsigned U16) by done. apply (conv_low S16). Qed.

(** One doubling in the C types moves every bit up. *)
Lemma double_testbit x j : j <= 31 -> Z.testbit (s32 (u32 x <<< 1)) j = Z.testbit x (j - 1).
Proof.
  intros Hj. rewrite conv_testbit by (cbn; lia).
  destruct (Z.lt_ge_cases j 0); [by rewrite !Z.testbit_neg_r by lia|].
  rewrite Z.shiftl_spec, conv_testbit by (cbn; lia). done.
Qed.

(** The loops count the bits from position [k] down that equal [set]. *)
Lemma exp_loop_bits fuel k set r x n :
  0 <= k <= 30 -> 0 <= n < Z.of_nat fuel -> 0 <= r -> r + n < 2 ^ 32 ->
  (forall i, 0 <= i < n -> Z.testbit x (k - i) = set) ->
  Z.testbit x (k - n) = negb set ->
  exp_loop fuel (2 ^ k) set r x = Some (r + n).
Proof.
  intros Hk. revert r x n. induction fuel as [|fuel IH]; intros r x n Hn Hr Hrn Hset Hend; [lia|].
  cbn [exp_loop]. rewrite tst_pow2 by lia.
  destruct (Z.eq_dec n 0) as [->|Hne].
  - rewrite Z.sub_0_r in Hend. rewrite Hend, Z.add_0_r. by destruct set.
  - rewrite <- (Z.sub_0_r k) at 1. rewrite Hset, eqb_reflx by lia.
    assert (u32 (r + 1) = r + 1) as ->
      by (apply conv_id; cbv [cmin cmax cbits csigned]; lia).
    rewrite (IH (r + 1) _ (n - 1)); [f_equal; lia|lia..| |].
    + intros i Hi. rewrite double_testbit by lia.
      replace (k - i - 1) with (k - (i + 1)) by lia. apply Hset. lia.
    + rewrite double_testbit by lia. replace (k - (n - 1) - 1) with (k - n) by lia. done.
Qed.

(** Bits of a nonnegative [m] around its leading one. *)
Lemma above_log2 m j : 0 <= m -> j > Z.log2 m -> Z.testbit m j = false.
Proof. intros. apply Z.bits_above_log2; lia. Qed.

Lemma hi_testbit v j : j <= 31 -> Z.testbit (shift_hi_s v) j = Z.testbit (u16 v) (j - 16).
Proof.
  intros Hj. unfold shift_hi_s. rewrite conv_testbit by (cbn; lia).
  destruct (Z.lt_ge_cases j 0); [by rewrite !Z.testbit_neg_r by lia|].
  rewrite Z.shiftl_spec by lia. destruct (Z.lt_ge_cases (j - 16) 0).
  - by rewrite !Z.testbit_neg_r by lia.
  - rewrite conv_testbit by (cbn; lia). done.
Qed.

Lemma s16_range v : -32768 <= s16 v <= 32767.
Proof. pose proof (conv_range S16 v). cbv [cmin cmax cbits csigned] in *. conv_lits. lia. Qed.

Lemma shift_hi_s_eq v : -32768 <= v <= 32767 -> shift_hi_s v = v * 65536.
Proof.
  intros Hv. unfold shift_hi_s.
  rewrite (conv_id U32 (u16 v)) by (pose proof (conv_range U16 v);
    cbv [cmin cmax cbits csigned] in *; conv_lits; lia).
  rewrite Z.shiftl_mul_pow2 by lia. unfold_conv. conv_lits.
  destruct (Z.lt_ge_cases v 0).
  - assert (v mod 65536 = v + 65536) as -> by (rewrite <- (Z.mod_add v 1), Z.mod_small; lia).
    replace ((v + 65536) * 65536 + 2147483648)
      with (v * 65536 + 2147483648 + 1 * 4294967296) by lia.
    rewrite Z.mod_add, Z.mod_small; lia.
  - rewrite (Z.mod_small v) by lia. rewrite Z.mod_small; lia.
Qed.

Lemma log2_lt16 m : 0 < m < 65536 -> 0 <= Z.log2 m <= 15.
Proof.
  intros Hm. split; [apply Z.log2_nonneg|].
  assert (Z.log2 m < 16); [apply Z.log2_lt_pow2; lia|lia].
Qed.
Lemma log2_lt15 m : 0 < m < 32768 -> 0 <= Z.log2 m <= 14.
Proof.
  intros Hm. split; [apply Z.log2_nonneg|].
  assert (Z.log2 m < 15); [apply Z.log2_lt_pow2; lia|lia].
Qed.

(** The loops end before the fuel does, with the redundant sign bits. *)
Lemma exp_hi_spec v : -32768 <= v <= 32767 ->
  exp_hi (shift_hi_s v) = Some (sign_bits16 v).
Proof.
  intros Hv. pose proof (hi_testbit v) as Hb. unfold exp_hi, sign_bits16.
  rewrite (shift_hi_s_eq v Hv) at 1.
  assert (forall j, j < 16 -> Z.testbit (u16 v) j = Z.testbit v j) as Hu
    by (intros j Hj; by apply conv_testbit).
  destruct (Z.ltb_spec v 0).
  - assert (v * 65536 <? 0 = true) as -> by lia.
    assert (0 <= ~~~v < 32768) as Hm by (unfold Z.lnot; lia).
    assert (forall j, 0 <= j -> Z.testbit v j = negb (Z.testbit (~~~v) j)) as Hn
      by (intros j Hj; by rewrite Z.lnot_spec, negb_involutive).
    change 0x40000000 with (2 ^ 30). destruct (Z.eqb_spec (~~~v) 0) as [E|E].
    + rewrite (exp_loop_bits _ _ _ _ _ 15); [done|lia..| |].
      * intros i Hi. rewrite Hb, Hu, Hn, E, Z.bits_0 by lia. done.
      * rewrite Hb, Z.testbit_neg_r by lia. done.
    + pose proof (log2_lt15 (~~~v) ltac:(lia)).
      rewrite (exp_loop_bits _ _ _ _ _ (14 - Z.log2 (~~~v))); [f_equal; lia|lia..| |].
      * intros i Hi. rewrite Hb, Hu, Hn, above_log2 by lia. done.
      * rewrite Hb, Hu, Hn by lia.
        replace (30 - (14 - Z.log2 (~~~v)) - 16) with (Z.log2 (~~~v)) by lia.
        rewrite Z.bit_log2 by lia. done.
  - assert (v * 65536 <? 0 = false) as -> by lia.
    assert (forall j, j <= 31 -> Z.testbit (shift_hi_s v ||| 0x8000) j =
      Z.testbit (u16 v) (j - 16) || (j =? 15)) as Hb'.
    { intros j Hj. rewrite Z.lor_spec, Hb by done. f_equal.
      destruct (Z.lt_ge_cases j 0); [rewrite Z.testbit_neg_r by lia; lia|].
      rewrite (Z.pow2_bits_eqb 15) by lia. apply Z.eqb_sym. }
    change 0x40000000 with (2 ^ 30). destruct (Z.eqb_spec v 0) as [E|E].
    + rewrite (exp_loop_bits _ _ _ _ _ 15); [done|lia..| |].
      * intros i Hi. rewrite Hb', Hu, E, Z.bits_0 by lia. lia.
      * rewrite Hb' by lia. by rewrite orb_true_r.
    + pose proof (log2_lt15 v ltac:(lia)).
      rewrite (exp_loop_bits _ _ _ _ _ (14 - Z.log2 v)); [f_equal; lia|lia..| |].
      * intros i Hi. rewrite Hb', Hu, above_log2 by lia. lia.
      * rewrite Hb', Hu by lia.
        replace (30 - (14 - Z.log2 v) - 16) with (Z.log2 v) by lia.
        rewrite Z.bit_log2 by lia. done.
Qed.

Lemma exp_lo_spec ss v : -32768 <= v <= 32767 -> exp_lo ss v = Some (low_sign_bits ss v).
Proof.
  intros Hv. unfold exp_lo, low_sign_bits.
  assert (forall j, j < 16 -> Z.testbit (u16 v) j = Z.testbit v j) as Hu
    by (intros j Hj; by apply conv_testbit).
  pose proof (conv_range U16 v) as Hr. cbv [cmin cmax cbits csigned] in Hr. conv_lits.
  destruct ss; cbv zeta.
  - assert (forall j, 0 <= j < 16 -> Z.testbit v j = negb (Z.testbit (0xffff - u16 v) j)) as Hn.
    { intros j Hj. rewrite <- Hu by lia.
      assert (0xffff - u16 v = Z.lnot (u16 v) + 65536) as -> by (unfold Z.lnot; lia).
      rewrite <- (Z.mod_pow2_bits_low (Z.lnot (u16 v) + 65536) 16) by lia.
      replace (Z.lnot (u16 v) + 65536) with (Z.lnot (u16 v) + 1 * 2 ^ 16) by lia.
      rewrite Z.mod_add, Z.mod_pow2_bits_low, Z.lnot_spec by lia. by rewrite negb_involutive. }
    change 0x8000 with (2 ^ 15). destruct (Z.eqb_spec (0xffff - u16 v) 0) as [E|E].
    + rewrite (exp_loop_bits _ _ _ _ _ 16); [done|lia..| |].
      * intros i Hi. rewrite Hn, E, Z.bits_0 by lia. done.
      * by rewrite Z.testbit_neg_r by lia.
    + pose proof (log2_lt16 (0xffff - u16 v) ltac:(lia)).
      rewrite (exp_loop_bits _ _ _ _ _ (15 - Z.log2 (0xffff - u16 v))); [f_equal; lia|lia..| |].
      * intros i Hi. rewrite Hn, above_log2 by lia. done.
      * rewrite Hn by lia.
        replace (15 - (15 - Z.log2 (0xffff - u16 v))) with (Z.log2 (0xffff - u16 v)) by lia.
        rewrite Z.bit_log2 by lia. done.
  - set (x := s32 ((u32 v <<< 1) ||| 1)).
    assert (forall j, j <= 16 -> Z.testbit x j = Z.testbit (u16 v) (j - 1) || (j =? 0)) as Hb.
    { intros j Hj. unfold x. rewrite conv_testbit, Z.lor_spec by (cbn; lia).
      destruct (Z.lt_ge_cases j 0); [rewrite !Z.testbit_neg_r by lia; lia|].
      by rewrite Z.shiftl_spec, conv_testbit, Hu by (cbn; lia). }
    change 0x10000 with (2 ^ 16). destruct (Z.eqb_spec (u16 v) 0) as [E|E].
    + rewrite (exp_loop_bits _ _ _ _ _ 16); [done|lia..| |].
      * intros i Hi. rewrite Hb, E, Z.bits_0 by lia. lia.
      * by rewrite Hb, orb_true_r by lia.
    + pose proof (log2_lt16 (u16 v) ltac:(lia)).
      rewrite (exp_loop_bits _ _ _ _ _ (15 - Z.log2 (u16 v))); [f_equal; lia|lia..| |].
      * intros i Hi. rewrite Hb, above_log2 by lia. lia.
      * rewrite Hb by lia.
        replace (16 - (15 - Z.log2 (u16 v)) - 1) with (Z.log2 (u16 v)) by lia.
        rewrite Z.bit_log2 by lia. done.
Qed.
