(* ===== verification/Exec.v ===== *)
(** * Instruction decode and the execution loop

    [execute] of [adsp2181_core.c]: the fetch with its instrumentation, the
    zero-overhead loop test, the 256-way opcode switch (one definition per
    high nibble here), and the loop on [icount]. *)
From S2P Require Import Prelude State Tables Memory Stacks Regs Alu Mac Shift.

(** ** Definitions *)
Section Exec.
Context {host : Host}.

(** [if (CONDITION(adsp, op & 15)) body] *)
Definition if_cond (op : Z) (body : M unit) : M unit :=
  c ← CONDITION (op &&& 15); if (c : bool) then body else skip.

(** *** Opcodes 0x00-0x0f *)

(** [dst = IO(x)] and [IO(x) = dst] *)
Definition io_op (op : Z) : M unit :=
  chip ← rd CHIP_TYPE;
  if chip >=? CHIP_TYPE_ADSP2181 then
    if op &&& 0x008000 =? 0x000000 then
      v ← RWORD_IO ((op >>> 4) &&& 0x7ff); WRITE_REG 0 (op &&& 15) v
    else
      v ← READ_REG 0 (op &&& 15); WWORD_IO ((op >>> 4) &&& 0x7ff) v
  else skip.

(** [if (op & clr) f = 0; if (op & tog) f ^= 1;] *)
Definition flag_out (op clr tog : Z) (f : field) : M unit :=
  when (tst op clr) (wr f 0) ;;
  when (tst op tog) (v ← rd f; wr f (v ^^^ 1)).

(** idle, or modify flag out *)
Definition idle_or_flags (op : Z) : M unit :=
  if tst op 0x008000 then wr IDLE 1 ;; wr ICOUNT 0
  else
    if_cond op (
      flag_out op 0x020 0x010 FLAGOUT ;;
      chip ← rd CHIP_TYPE;
      if chip >=? CHIP_TYPE_ADSP2101 then
        flag_out op 0x080 0x040 FL0 ;;
        flag_out op 0x200 0x100 FL1 ;;
        flag_out op 0x800 0x400 FL2
      else skip).

(** call or jump on flag in *)
Definition flagin_target (op : Z) : Z :=
  ((op >>> 4) &&& 0x0fff) ||| (u32 (op <<< 10) &&& 0x3000).
Definition flagin_op (op : Z) : M unit :=
  fi ← rd FLAGIN;
  when (Bool.eqb (tst op 0x000002) (nz fi)) (
    when (tst op 0x000001) pc_stack_push ;;
    wr PC (flagin_target op)).

(** global interrupt control and stack control *)
Definition stack_control (op : Z) : M unit :=
  if op &&& 0x00ffff =? 0x0040 then wr INTERRUPTS_ENABLED 0
  else if op &&& 0x00ffff =? 0x0060 then wr INTERRUPTS_ENABLED 1 ;; check_irqs
  else
    (if tst op 0x000010 then pc_stack_pop_val ;; skip else skip) ;;
    when (tst op 0x000008) loop_stack_pop ;;
    when (tst op 0x000004) cntr_stack_pop ;;
    when (tst op 0x000002) (
      if tst op 0x000001 then stat_stack_pop else stat_stack_push).

(** conditional return; [op & 0x10] is RTI *)
Definition return_op (op : Z) : M unit :=
  if_cond op (pc_stack_pop ;; when (tst op 0x000010) stat_stack_pop).

(** conditional jump or call, indirect through I4-I7 *)
Definition jump_indirect (op : Z) : M unit :=
  if_cond op (
    when (tst op 0x000010) pc_stack_push ;;
    i ← ard RI (4 + ((op >>> 6) &&& 3));
    wr PC (i &&& 0x3fff)).

(** [if (op & en) mstat = (mstat & ~flag) | (shifted & flag);] *)
Definition mode_bit (op en shifted flag : Z) : M unit :=
  when (tst op en) (
    m ← rd MSTAT; wr MSTAT ((m &&& ~~~flag) ||| (u32 shifted &&& flag))).

Definition mode_control (op : Z) : M unit :=
  chip ← rd CHIP_TYPE;
  when (chip >=? CHIP_TYPE_ADSP2101) (
    mode_bit op 0x000008 (op <<< 5) MSTAT_GOMODE ;;
    mode_bit op 0x002000 (op >>> 8) MSTAT_INTEGER ;;
    mode_bit op 0x008000 (op >>> 9) MSTAT_TIMER) ;;
  mode_bit op 0x000020 (op >>> 4) MSTAT_BANK ;;
  mode_bit op 0x000080 (op >>> 5) MSTAT_REVERSE ;;
  mode_bit op 0x000200 (op >>> 6) MSTAT_STICKYV ;;
  mode_bit op 0x000800 (op >>> 7) MSTAT_SATURATE ;;
  update_mstat.

Definition exec_0x (op : Z) : M unit :=
  match op >>> 16 with
  | 0x00 => skip
  | 0x01 => io_op op
  | 0x02 => idle_or_flags op
  | 0x03 => flagin_op op
  | 0x04 => stack_control op
  | 0x05 => saturate_mr
  | 0x06 => divs op
  | 0x07 => divq op
  | 0x08 => skip
  | 0x09 => let temp := (op >>> 2) &&& 4 in
            modify_address (temp + ((op >>> 2) &&& 3)) (temp + (op &&& 3))
  | 0x0a => return_op op
  | 0x0b => jump_indirect op
  | 0x0c => mode_control op
  | 0x0d => v ← READ_REG ((op >>> 8) &&& 3) (op &&& 15);
            WRITE_REG ((op >>> 10) &&& 3) ((op >>> 4) &&& 15) v
  | 0x0e => if_cond op (shift_op op)
  | _ => shift_op_imm op
  end.

(** *** Combinations with a move

    The three shapes of a computation [f] paired with a data move. *)

(** with an internal register move: the source is sampled first *)
Definition with_move (f : Z -> M unit) (op : Z) : M unit :=
  temp ← READ_REG 0 (op &&& 15);
  f op ;;
  WRITE_REG 0 ((op >>> 4) &&& 15) (u32 temp).

(** with a memory read: the computation first *)
Definition with_read (read : Z -> M Z) (f : Z -> M unit) (op : Z) : M unit :=
  f op ;;
  v ← read op;
  WRITE_REG 0 ((op >>> 4) &&& 15) v.

(** with a memory write: the store first *)
Definition with_write (write : Z -> Z -> M unit) (f : Z -> M unit) (op : Z) : M unit :=
  v ← READ_REG 0 ((op >>> 4) &&& 15);
  write op v ;;
  f op.

(** *** Opcodes 0x10-0x1f *)
Definition do_until (op : Z) : M unit :=
  loop_stack_push (op &&& 0x3ffff) ;; pc_stack_push.

Definition jump_immediate (op : Z) : M unit :=
  if_cond op (
    wr PC ((op >>> 4) &&& 0x3fff) ;;
    pc ← rd PC; ppc ← rd PPC;
    when (pc =? ppc) (wr ICOUNT 0)).

Definition call_immediate (op : Z) : M unit :=
  if_cond op (pc_stack_push ;; wr PC ((op >>> 4) &&& 0x3fff)).

Definition exec_1x (op : Z) : M unit :=
  match op >>> 16 with
  | 0x10 => with_move shift_op op
  | 0x11 => if tst op 0x8000 then with_write pgm_write_dag2 shift_op op
            else with_read pgm_read_dag2 shift_op op
  | 0x12 => if tst op 0x8000 then with_write data_write_dag1 shift_op op
            else with_read data_read_dag1 shift_op op
  | 0x13 => if tst op 0x8000 then with_write data_write_dag2 shift_op op
            else with_read data_read_dag2 shift_op op
  | 0x14 | 0x15 | 0x16 | 0x17 => do_until op
  | 0x18 | 0x19 | 0x1a | 0x1b => jump_immediate op
  | _ => call_immediate op
  end.

(** *** Opcodes 0x20-0x2f *)

(** [chip_type >= CHIP_TYPE_ADSP2181 && (op & mask) == pat] *)
Definition on_2181 (op mask pat : Z) (a b : M unit) : M unit :=
  chip ← rd CHIP_TYPE;
  if (chip >=? CHIP_TYPE_ADSP2181) && (op &&& mask =? pat) then a else b.

Definition exec_2x (op : Z) : M unit :=
  match op >>> 16 with
  | 0x20 | 0x21 => if_cond op (on_2181 op 0x0018f0 0x000010 (mac_op_mr_xop op) (mac_op_mr op))
  | 0x22 | 0x23 => if_cond op (on_2181 op 0x000010 0x000010 (alu_op_ar_const op) (alu_op_ar op))
  | 0x24 | 0x25 => if_cond op (on_2181 op 0x0018f0 0x000010 (mac_op_mf_xop op) (mac_op_mf op))
  | 0x26 | 0x27 => if_cond op (on_2181 op 0x000010 0x000010 (alu_op_af_const op) (alu_op_af op))
  | 0x28 | 0x29 => with_move mac_op_mr op
  | 0x2a | 0x2b => on_2181 op 0x0000ff 0x0000aa (alu_op_none op) (with_move alu_op_ar op)
  | 0x2c | 0x2d => with_move mac_op_mf op
  | _ => with_move alu_op_af op
  end.

(** *** Opcodes 0x30-0x4f: immediate loads *)

(** [(INT32)(op << 14) >> 18] *)
Definition immediate14 (op : Z) : Z := s32 (u32 (op <<< 14)) >>> 18.

Definition exec_3x (op : Z) : M unit :=
  match op >>> 16 with
  | 0x30 | 0x31 | 0x32 | 0x33 => WRITE_REG 0 (op &&& 15) (immediate14 op)
  | 0x34 | 0x35 | 0x36 | 0x37 => WRITE_REG 1 (op &&& 15) (immediate14 op)
  | 0x38 | 0x39 | 0x3a | 0x3b => WRITE_REG 2 (op &&& 15) (immediate14 op)
  | _ => WRITE_REG 3 (op &&& 15) (immediate14 op)
  end.

Definition exec_4x (op : Z) : M unit :=
  WRITE_REG 0 (op &&& 15) ((op >>> 4) &&& 0xffff).

(** *** Opcodes 0x50-0x7f: computation with a memory access *)
Definition exec_5x (op : Z) : M unit :=
  match op >>> 16 with
  | 0x50 | 0x51 => with_read pgm_read_dag2 mac_op_mr op
  | 0x52 | 0x53 => with_read pgm_read_dag2 alu_op_ar op
  | 0x54 | 0x55 => with_read pgm_read_dag2 mac_op_mf op
  | 0x56 | 0x57 => with_read pgm_read_dag2 alu_op_af op
  | 0x58 | 0x59 => with_write pgm_write_dag2 mac_op_mr op
  | 0x5a | 0x5b => with_write pgm_write_dag2 alu_op_ar op
  | 0x5c | 0x5d => with_write pgm_write_dag2 mac_op_mf op
  | _ => with_write pgm_write_dag2 alu_op_af op
  end.

Definition exec_6x (op : Z) : M unit :=
  match op >>> 16 with
  | 0x60 | 0x61 => with_read data_read_dag1 mac_op_mr op
  | 0x62 | 0x63 => with_read data_read_dag1 alu_op_ar op
  | 0x64 | 0x65 => with_read data_read_dag1 mac_op_mf op
  | 0x66 | 0x67 => with_read data_read_dag1 alu_op_af op
  | 0x68 | 0x69 => with_write data_write_dag1 mac_op_mr op
  | 0x6a | 0x6b => with_write data_write_dag1 alu_op_ar op
  | 0x6c | 0x6d => with_write data_write_dag1 mac_op_mf op
  | _ => with_write data_write_dag1 alu_op_af op
  end.

Definition exec_7x (op : Z) : M unit :=
  match op >>> 16 with
  | 0x70 | 0x71 => with_read data_read_dag2 mac_op_mr op
  | 0x72 | 0x73 => with_read data_read_dag2 alu_op_ar op
  | 0x74 | 0x75 => with_read data_read_dag2 mac_op_mf op
  | 0x76 | 0x77 => with_read data_read_dag2 alu_op_af op
  | 0x78 | 0x79 => with_write data_write_dag2 mac_op_mr op
  | 0x7a | 0x7b => with_write data_write_dag2 alu_op_ar op
  | 0x7c | 0x7d => with_write data_write_dag2 mac_op_mf op
  | _ => with_write data_write_dag2 alu_op_af op
  end.

(** *** Opcodes 0x80-0xbf: data memory at an immediate address, and immediate
    stores through a DAG *)
Definition load_dm (grp op : Z) : M unit :=
  v ← RWORD_DATA ((op >>> 4) &&& 0x3fff); WRITE_REG grp (op &&& 15) v.
Definition store_dm (grp op : Z) : M unit :=
  v ← READ_REG grp (op &&& 15); WWORD_DATA ((op >>> 4) &&& 0x3fff) v.

Definition exec_8x (op : Z) : M unit :=
  match op >>> 16 with
  | 0x80 | 0x81 | 0x82 | 0x83 => load_dm 0 op
  | 0x84 | 0x85 | 0x86 | 0x87 => load_dm 1 op
  | 0x88 | 0x89 | 0x8a | 0x8b => load_dm 2 op
  | _ => load_dm 3 op
  end.

Definition exec_9x (op : Z) : M unit :=
  match op >>> 16 with
  | 0x90 | 0x91 | 0x92 | 0x93 => store_dm 0 op
  | 0x94 | 0x95 | 0x96 | 0x97 => store_dm 1 op
  | 0x98 | 0x99 | 0x9a | 0x9b => store_dm 2 op
  | _ => store_dm 3 op
  end.

Definition exec_ax (op : Z) : M unit := data_write_dag1 op ((op >>> 4) &&& 0xffff).
Definition exec_bx (op : Z) : M unit := data_write_dag2 op ((op >>> 4) &&& 0xffff).

(** *** Opcodes 0xc0-0xff: computation with a dual read *)
Definition dual_read (f : Z -> M unit) (x y : creg) (op : Z) : M unit :=
  f op ;;
  v ← data_read_dag1 op; wr (Core x) v ;;
  v ← pgm_read_dag2 (op >>> 4); wr (Core y) v.

Definition exec_cf (op : Z) : M unit :=
  match op >>> 16 with
  | 0xc0 | 0xc1 => dual_read mac_op_mr AX0 AY0 op
  | 0xc2 | 0xc3 => dual_read alu_op_ar AX0 AY0 op
  | 0xc4 | 0xc5 => dual_read mac_op_mr AX1 AY0 op
  | 0xc6 | 0xc7 => dual_read alu_op_ar AX1 AY0 op
  | 0xc8 | 0xc9 => dual_read mac_op_mr MX0 AY0 op
  | 0xca | 0xcb => dual_read alu_op_ar MX0 AY0 op
  | 0xcc | 0xcd => dual_read mac_op_mr MX1 AY0 op
  | 0xce | 0xcf => dual_read alu_op_ar MX1 AY0 op
  | 0xd0 | 0xd1 => dual_read mac_op_mr AX0 AY1 op
  | 0xd2 | 0xd3 => dual_read alu_op_ar AX0 AY1 op
  | 0xd4 | 0xd5 => dual_read mac_op_mr AX1 AY1 op
  | 0xd6 | 0xd7 => dual_read alu_op_ar AX1 AY1 op
  | 0xd8 | 0xd9 => dual_read mac_op_mr MX0 AY1 op
  | 0xda | 0xdb => dual_read alu_op_ar MX0 AY1 op
  | 0xdc | 0xdd => dual_read mac_op_mr MX1 AY1 op
  | 0xde | 0xdf => dual_read alu_op_ar MX1 AY1 op
  | 0xe0 | 0xe1 => dual_read mac_op_mr AX0 MY0 op
  | 0xe2 | 0xe3 => dual_read alu_op_ar AX0 MY0 op
  | 0xe4 | 0xe5 => dual_read mac_op_mr AX1 MY0 op
  | 0xe6 | 0xe7 => dual_read alu_op_ar AX1 MY0 op
  | 0xe8 | 0xe9 => dual_read mac_op_mr MX0 MY0 op
  | 0xea | 0xeb => dual_read alu_op_ar MX0 MY0 op
  | 0xec | 0xed => dual_read mac_op_mr MX1 MY0 op
  | 0xee | 0xef => dual_read alu_op_ar MX1 MY0 op
  | 0xf0 | 0xf1 => dual_read mac_op_mr AX0 MY1 op
  | 0xf2 | 0xf3 => dual_read alu_op_ar AX0 MY1 op
  | 0xf4 | 0xf5 => dual_read mac_op_mr AX1 MY1 op
  | 0xf6 | 0xf7 => dual_read alu_op_ar AX1 MY1 op
  | 0xf8 | 0xf9 => dual_read mac_op_mr MX0 MY1 op
  | 0xfa | 0xfb => dual_read alu_op_ar MX0 MY1 op
  | 0xfc | 0xfd => dual_read mac_op_mr MX1 MY1 op
  | _ => dual_read alu_op_ar MX1 MY1 op
  end.

(** [switch (op >> 16)] *)
Definition exec_op (op : Z) : M unit :=
  match op >>> 20 with
  | 0x0 => exec_0x op
  | 0x1 => exec_1x op
  | 0x2 => exec_2x op
  | 0x3 => exec_3x op
  | 0x4 => exec_4x op
  | 0x5 => exec_5x op
  | 0x6 => exec_6x op
  | 0x7 => exec_7x op
  | 0x8 => exec_8x op
  | 0x9 => exec_9x op
  | 0xa => exec_ax op
  | 0xb => exec_bx op
  | _ => exec_cf op
  end.

(** *** Fetch *)
Definition ROPCODE : M Z := pc ← rd PC; RWORD_PGM pc.

Definition note_history : M unit :=
  on ← rd EXEC_HISTORY_ENABLED;
  if nz on then
    pos ← rd EXEC_HISTORY_POS;
    pc ← rd PC;
    awr EXEC_HISTORY (pos &&& 63) (pc &&& 0x3fff) ;;
    wr EXEC_HISTORY_POS (pos + 1)
  else skip.

Definition note_coverage : M unit :=
  on ← rd COVERAGE_ON;
  if nz on then
    pc ← rd PC;
    n ← ard COVERAGE (pc &&& 0x3fff);
    awr COVERAGE (pc &&& 0x3fff) (n + 1)
  else skip.

(** A limited execution watch disarms itself on its last logged execution. *)
Definition note_exec : M unit :=
  gate ← rd WATCH_GATE;
  pc ← rd PC;
  let a := pc &&& 0x3fff in
  w ← ard WATCH_EXEC a;
  if nz gate && nz w then
    left ← ard WATCH_EXEC_LEFT a;
    (if nz left then
       awr WATCH_EXEC_LEFT a (left - 1) ;;
       left' ← ard WATCH_EXEC_LEFT a;
       when (left' =? 0) (awr WATCH_EXEC a 0 ;; logerror (EvExecSpent a))
     else skip) ;;
    logerror (EvExec a)
  else skip.

Definition note_trace (op : Z) : M unit :=
  budget ← rd TRACE_BUDGET;
  if budget >? 0 then
    wr TRACE_BUDGET (budget - 1) ;;
    pc ← rd PC;
    logerror (EvTrace (pc &&& 0x3fff) op)
  else skip.

(** Advance to the next instruction, handling looping. *)
Definition advance_pc : M unit :=
  pc ← rd PC; lp ← rd LOOP;
  if negb (pc =? lp) then wr PC (pc + 1)
  else
    cond ← rd LOOP_CONDITION;
    again ← CONDITION cond;
    if (again : bool) then top ← pc_stack_top; wr PC top
    else
      loop_stack_pop ;;
      pc_stack_pop_val ;;
      pc ← rd PC; wr PC (pc + 1).

(** One pass of [execute]'s [do] loop. *)
Definition step : M unit :=
  pc ← rd PC; wr PPC pc ;;
  op ← ROPCODE;
  note_history ;;
  note_coverage ;;
  note_exec ;;
  note_trace op ;;
  advance_pc ;;
  exec_op op ;;
  n ← rd ICOUNT; wr ICOUNT (n - 1) ;;
  c ← rd CYCLES; wr CYCLES (c + 1).

(** [do step while (adsp->icount > 0)]. The first argument bounds the number
    of passes; [execute_terminates] shows that [icount] passes are enough. *)
Fixpoint run_loop (fuel : nat) : M unit :=
  match fuel with
  | O => skip
  | S fuel =>
      step ;;
      n ← rd ICOUNT;
      if n >? 0 then run_loop fuel else skip
  end.

Definition execute : M unit :=
  check_irqs ;;
  n ← rd ICOUNT;
  run_loop (Z.to_nat (Z.max 1 n)).

End Exec.
