(* ===== verification/Api.v ===== *)
(** * The emulator's public interface

    The exported functions of [adsp2181_core.c] declared in
    [adsp2181_core.h]: creation, reset and running, the IDMA and host ports,
    the instrumentation setters, injected calls, interrupts, and the SPORT
    frame entry points, and the pointers to the memories. The state stands for
    a non-null [adsp2181_t *]; the null-pointer returns are not modelled, and
    [adsp2181_set_callbacks] is the choice of the [Host]. *)
From S2P Require Import Prelude State Tables Memory Stacks Regs Alu Mac Shift Exec.

(** ** Definitions *)

(** [calloc] of the state; the "Y - 1" diagnostic starts uninitialised. *)
Definition calloc_state : state :=
  mkState (fun f => match f with YM1_MAME_ALL | YM1_LOG_BUDGET => -1 | _ => 0 end) (fun _ => ∅) [].

(** The state as a value, for code that copies members out and back. *)
Definition get_state : M state := fun s => (s, s).
Definition restore_field (saved : state) (f : field) : M unit := wr f (saved.[f]).
Definition restore_array (saved : state) (a : arr) : M unit :=
  fun s => (tt, aput a (ars saved a) s).
Fixpoint for_each {A} (l : list A) (body : A -> M unit) : M unit :=
  match l with
  | [] => skip
  | x :: l => body x ;; for_each l body
  end.

(** *** Pointers to the memories

    A pointer into an array member: the array, the first element and the
    number of elements from there to the end of the C object it points into.
    An access past either end is recorded in [FAULT], as one of [ard] is. *)
Record pointer := Ptr { p_arr : arr; p_base : Z; p_len : Z }.
Definition p_in (p : pointer) (k : Z) : bool := (0 <=? k) && (k <? p_len p).
(** [p[k]] and [p[k] = v] *)
Definition p_rd (p : pointer) (k : Z) : M Z :=
  if p_in p k then ard (p_arr p) (p_base p + k) else fun s => (0, set FAULT 1 s).
Definition p_wr (p : pointer) (k v : Z) : M unit :=
  if p_in p k then awr (p_arr p) (p_base p + k) v else fun s => (tt, set FAULT 1 s).

Definition adsp2181_pm : pointer := Ptr PROGRAM 0 0x4000.
Definition adsp2181_dm : pointer := Ptr DATA 0 0x4000.
Definition adsp2181_io : pointer := Ptr IO 0 0x800.
(** [NULL] is [None]. *)
Definition adsp2181_pm_overlay (overlay : Z) : option pointer :=
  if (overlay >=? 1) && (overlay <=? 2)
  then Some (Ptr PROGRAM_OVERLAY (0x2000 * (overlay - 1)) 0x2000) else None.
Definition adsp2181_dm_overlay (overlay : Z) : option pointer :=
  if (overlay >=? 1) && (overlay <=? 2)
  then Some (Ptr DATA_OVERLAY (0x2000 * (overlay - 1)) 0x2000) else None.

Section Api.
Context {host : Host}.

(** *** Creation, reset, running *)

(** [wr_l<k>(a, a->l[k]); wr_i<k>(a, a->i[k]);] *)
Definition reset_dag (k : Z) : M unit :=
  l ← ard RL k; wr_l k l ;;
  i ← ard RI k; wr_i k i.

Definition adsp2181_reset : M unit :=
  wr (Alt ZERO) 0 ;; wr (Core ZERO) 0 ;;
  for_upto 8 0 reset_dag ;;
  wr PC 0 ;; wr PPC 0xffffffff ;; wr CNTR_VALID 0 ;; wr LOOP 0xffff ;; wr LOOP_CONDITION 0 ;;
  wr ASTAT_CLEAR (~~~(CFLAG ||| VFLAG ||| NFLAG ||| ZFLAG)) ;;
  wr MSTAT 0 ;; wr SSTAT 0x55 ;; wr IDLE 0 ;;
  wr PMOVLAY 0 ;; wr DMOVLAY 0 ;;
  aclear SPORT_RX ;; aclear SPORT_TX ;; aclear SPORT_TX_WRITTEN ;;
  wr STOP_DM_ARMED 0 ;; wr STOP_DM_HIT 0 ;; wr STOP_DM_GROUP 1 ;; wr STOP_DM_LEFT 1 ;;
  wr LATCH_DM_ARMED 0 ;; wr LATCH_DM_HAVE 0 ;; wr LATCH_DM_COUNT 0 ;;
  wr YIELD_ON_STOP 0 ;; wr CONTINUE_NON_IDLE 0 ;;
  update_mstat ;;
  wr LOOP_SP 0 ;; wr STAT_SP 0 ;; wr CNTR_SP 0 ;; wr PC_SP 0 ;;
  wr INJECT_VALID 0 ;; wr IMASK 0 ;; wr ICNTL 0 ;; wr INTERRUPTS_ENABLED 1 ;;
  wr PCSP_WINDOW_MIN 0xff ;; wr PCSP_WINDOW_MAX 0 ;; wr WATCH_GATE 1 ;;
  wr STACK_OVER_WARNED 0 ;;
  wr COVERAGE_ON 1 ;;
  aclear IRQ_STATE ;; aclear IRQ_LATCH.

(** [adsp2181_create], when its allocations succeed. *)
Definition create_setup : M unit :=
  wr CHIP_TYPE CHIP_TYPE_ADSP2181 ;; wr MSTAT_MASK 0x7f ;; wr IMASK_MASK 0x3ff ;;
  adsp2181_reset.
Definition adsp2181_create : state := exec create_setup calloc_state.

Definition adsp2181_run (cycles : Z) : M Z :=
  hold ← rd IDMA_BOOT_HOLD;
  if (cycles <=? 0) || nz hold then mret 0
  else
    wr ICOUNT cycles ;;
    execute ;;
    n ← rd ICOUNT;
    mret (s32 (cycles - n)).

Definition adsp2181_set_idma_boot_hold (on : Z) : M unit :=
  wr IDMA_BOOT_HOLD (b2z (nz on)) ;;
  when (nz on) (wr IDMA_BOOT_MODE 1).
Definition adsp2181_idma_boot_held : M Z := rd IDMA_BOOT_HOLD.

(** *** IDMA port *)
Definition adsp2181_idma_addr_write (address : Z) : M unit :=
  addr ← rd IDMA_ADDR; offs ← rd IDMA_OFFS; pend ← rd IDMA_PENDING_WRITE;
  (if negb (tst addr 0x4000) && nz offs && nz pend then
     cache ← rd IDMA_CACHE;
     WWORD_PGM (addr &&& 0x3fff) (u32 cache <<< 8)
   else skip) ;;
  wr IDMA_ADDR address ;; wr IDMA_OFFS 0 ;; wr IDMA_PENDING_WRITE 0.
Definition adsp2181_idma_addr_read : M Z := rd IDMA_ADDR.

(** Boot hold: only a write of PM 0 releases the core, and any other PM write
    re-arms the hold. *)
Definition idma_boot_step (pm_addr : Z) : M unit :=
  mode ← rd IDMA_BOOT_MODE;
  if nz mode then
    if pm_addr =? 0 then
      hold ← rd IDMA_BOOT_HOLD;
      when (nz hold) (wr IDMA_BOOT_HOLD 0 ;; wr PC 0 ;; wr PPC 0xffffffff)
    else wr IDMA_BOOT_HOLD 1
  else skip.

Definition adsp2181_idma_data_write (value : Z) : M unit :=
  let value := u16 value in
  addr ← rd IDMA_ADDR; offs ← rd IDMA_OFFS;
  if tst addr 0x4000 then
    wr IDMA_ADDR (addr + 1) ;;
    WWORD_DATA (addr &&& 0x3fff) value
  else if negb (nz offs) then
    wr IDMA_CACHE value ;; wr IDMA_OFFS 1 ;; wr IDMA_PENDING_WRITE 1
  else
    let pm_addr := addr &&& 0x3fff in
    cache ← rd IDMA_CACHE;
    WWORD_PGM pm_addr ((cache <<< 8) ||| (value &&& 0xff)) ;;
    addr ← rd IDMA_ADDR;
    wr IDMA_ADDR (addr + 1) ;;
    wr IDMA_OFFS 0 ;; wr IDMA_PENDING_WRITE 0 ;;
    idma_boot_step pm_addr.

Definition adsp2181_idma_data_read : M Z :=
  addr ← rd IDMA_ADDR; offs ← rd IDMA_OFFS;
  if tst addr 0x4000 then
    wr IDMA_ADDR (addr + 1) ;;
    r ← RWORD_DATA (addr &&& 0x3fff);
    mret (u16 r)
  else if negb (nz offs) then
    w ← RWORD_PGM (addr &&& 0x3fff);
    wr IDMA_OFFS 1 ;; wr IDMA_PENDING_WRITE 0 ;;
    mret (u16 (w >>> 8))
  else
    wr IDMA_ADDR (addr + 1) ;;
    w ← RWORD_PGM (addr &&& 0x3fff);
    wr IDMA_OFFS 0 ;;
    mret (u16 (w &&& 0xff)).

(** *** Whole-word host port *)
Definition adsp2181_host_write (addr value : Z) : M unit :=
  if tst addr 0x4000 then WWORD_DATA (addr &&& 0x3fff) value
  else WWORD_PGM (addr &&& 0x3fff) (u32 (u16 value) <<< 8).
Definition adsp2181_host_read (addr : Z) : M Z :=
  if tst addr 0x4000 then RWORD_DATA (addr &&& 0x3fff)
  else w ← RWORD_PGM (addr &&& 0x3fff); mret (u16 (w >>> 8)).

(** *** Watches, pins and counters *)
Definition adsp2181_watch_dm_limited (addr limit : Z) : M unit :=
  awr WATCH_DM (addr &&& 0x3fff) 1 ;;
  awr WATCH_DM_LEFT (addr &&& 0x3fff) limit ;;
  awr WATCH_DM_WONLY (addr &&& 0x3fff) 0 ;;
  wr EXEC_HISTORY_ENABLED 1.
Definition adsp2181_watch_dm_writes (addr limit : Z) : M unit :=
  awr WATCH_DM (addr &&& 0x3fff) 1 ;;
  awr WATCH_DM_LEFT (addr &&& 0x3fff) limit ;;
  awr WATCH_DM_WONLY (addr &&& 0x3fff) 1 ;;
  wr EXEC_HISTORY_ENABLED 1.
Definition adsp2181_watch_dm (addr on : Z) : M unit :=
  awr WATCH_DM (addr &&& 0x3fff) (b2z (nz on)) ;;
  awr WATCH_DM_LEFT (addr &&& 0x3fff) 0 ;;
  awr WATCH_DM_WONLY (addr &&& 0x3fff) 0 ;;
  when (nz on) (wr EXEC_HISTORY_ENABLED 1).
Definition adsp2181_watch_pm (addr on : Z) : M unit :=
  awr WATCH_PM (addr &&& 0x3fff) (b2z (nz on)).
Definition adsp2181_watch_gate (on : Z) : M unit := wr WATCH_GATE (b2z (nz on)).

Definition adsp2181_pcsp_window : M Z :=
  note_pcsp ;;
  lo ← rd PCSP_WINDOW_MIN; hi ← rd PCSP_WINDOW_MAX;
  sp ← rd PC_SP;
  wr PCSP_WINDOW_MAX sp ;; wr PCSP_WINDOW_MIN sp ;;
  mret ((lo <<< 8) ||| hi).

Definition adsp2181_pin_pm (addr value on : Z) : M unit :=
  awr PIN_PM (addr &&& 0x3fff) (b2z (nz on)) ;;
  awr PIN_PM_VALUE (addr &&& 0x3fff) (value &&& 0xffffff) ;;
  awr PIN_PM_HITS (addr &&& 0x3fff) 0.
Definition adsp2181_force_pm_fetch (addr value on : Z) : M unit :=
  awr FORCE_PM_FETCH (addr &&& 0x3fff) (b2z (nz on)) ;;
  awr FORCE_PM_FETCH_VALUE (addr &&& 0x3fff) (value &&& 0xffffff).
Definition adsp2181_pin_dm (addr value on : Z) : M unit :=
  awr PIN_DM (addr &&& 0x3fff) (b2z (nz on)) ;;
  awr PIN_DM_VALUE (addr &&& 0x3fff) value ;;
  awr PIN_DM_HITS (addr &&& 0x3fff) 0.
Definition adsp2181_pin_dm_hits (addr : Z) : M Z := ard PIN_DM_HITS (addr &&& 0x3fff).
Definition adsp2181_pin_pm_hits (addr : Z) : M Z := ard PIN_PM_HITS (addr &&& 0x3fff).

Definition adsp2181_stop_on_dm_write_n (addr group on : Z) : M unit :=
  wr STOP_DM_ADDR (addr &&& 0x3fff) ;;
  wr STOP_DM_GROUP (if group >? 0 then group else 1) ;;
  g ← rd STOP_DM_GROUP; wr STOP_DM_LEFT g ;;
  wr STOP_DM_ARMED (b2z (nz on)) ;;
  wr STOP_DM_HIT 0.
Definition adsp2181_stop_on_dm_write (addr on : Z) : M unit :=
  adsp2181_stop_on_dm_write_n addr 1 on.
Definition adsp2181_yield_on_stop (on : Z) : M unit := wr YIELD_ON_STOP (b2z (nz on)).
Definition adsp2181_continue_non_idle (on : Z) : M unit := wr CONTINUE_NON_IDLE (b2z (nz on)).
Definition adsp2181_latch_dm_write (addr on : Z) : M unit :=
  wr LATCH_DM_ADDR (addr &&& 0x3fff) ;;
  wr LATCH_DM_ARMED (b2z (nz on)) ;;
  wr LATCH_DM_HAVE 0 ;;
  wr LATCH_DM_COUNT 0.
Definition adsp2181_latched_dm_writes : M Z := rd LATCH_DM_COUNT.
Definition adsp2181_latched_dm_write : M Z :=
  have ← rd LATCH_DM_HAVE;
  if nz have then rd LATCH_DM_VALUE else mret (-1).
Definition adsp2181_stop_dm_hit : M Z :=
  hit ← rd STOP_DM_HIT; wr STOP_DM_HIT 0 ;; mret hit.

Definition adsp2181_watch_exec (addr on : Z) : M unit :=
  awr WATCH_EXEC (addr &&& 0x3fff) (b2z (nz on)) ;;
  awr WATCH_EXEC_LEFT (addr &&& 0x3fff) 0 ;;
  when (nz on) (wr EXEC_HISTORY_ENABLED 1).
Definition adsp2181_watch_exec_limited (addr limit : Z) : M unit :=
  awr WATCH_EXEC (addr &&& 0x3fff) 1 ;;
  awr WATCH_EXEC_LEFT (addr &&& 0x3fff) limit ;;
  wr EXEC_HISTORY_ENABLED 1.
Definition adsp2181_watch_irqs (on : Z) : M unit := wr WATCH_IRQS (b2z (nz on)).
Definition adsp2181_sport0_tx_written : M Z :=
  n ← ard SPORT_TX_WRITTEN 0; mret (b2z (nz n)).
Definition adsp2181_sport0_tx_writes : M Z := ard SPORT_TX_WRITTEN 0.
Definition adsp2181_pmovlay : M Z := rd PMOVLAY.
Definition adsp2181_dmovlay : M Z := rd DMOVLAY.
Definition adsp2181_read_pm (addr : Z) : M Z := RWORD_PGM addr.
Definition adsp2181_cycles : M Z := rd CYCLES.

(** *** SPORT snapshots *)
Definition SPORT_SNAPSHOT_WORDS : Z := 21.

(** [for (n = 0; n < 9; ++n) bits |= (irq[n] != 0) << n;] *)
Fixpoint irq_bits (a : arr) (k : nat) (n : Z) (bits : Z) : M Z :=
  match k with
  | O => mret bits
  | S k => v ← ard a n; irq_bits a k (n + 1) (bits ||| (b2z (nz v) <<< n))
  end.

Definition take_sport_snapshot (out : arr) : M unit :=
  state ← irq_bits IRQ_STATE 9 0 0;
  latch ← irq_bits IRQ_LATCH 9 0 0;
  v ← rd PC; awr out 0 (v &&& 0x3fff) ;;
  v ← rd PPC; awr out 1 (v &&& 0x3fff) ;;
  v ← rd IDLE; awr out 2 (b2z (nz v)) ;;
  v ← rd CYCLES; awr out 3 v ;;
  awr out 4 (v >>> 32) ;;
  awr out 5 state ;;
  awr out 6 latch ;;
  v ← rd IMASK; awr out 7 v ;;
  v ← rd ICNTL; awr out 8 v ;;
  v ← rd INTERRUPTS_ENABLED; awr out 9 (b2z (nz v)) ;;
  v ← rd PC_SP; awr out 10 v ;;
  v ← rd STAT_SP; awr out 11 v ;;
  v ← rd LOOP_SP; awr out 12 v ;;
  v ← rd CNTR_SP; awr out 13 v ;;
  v ← rd ASTAT; awr out 14 v ;;
  v ← rd MSTAT; awr out 15 v ;;
  v ← rd SSTAT; awr out 16 v ;;
  v ← rd ICOUNT; awr out 17 v ;;
  v ← ard SPORT_RX 0; awr out 18 v ;;
  v ← ard SPORT_TX 0; awr out 19 v ;;
  v ← ard SPORT_TX_WRITTEN 0; awr out 20 (b2z (nz v)).

(** The words copied out; [None] is the return value 0 (nothing copied). *)
Fixpoint read_words (a : arr) (k : nat) (n : Z) : M (list Z) :=
  match k with
  | O => mret []
  | S k => v ← ard a n; vs ← read_words a k (n + 1); mret (v :: vs)
  end.
Definition adsp2181_sport_snapshot (after words : Z) : M (option (list Z)) :=
  if words <? SPORT_SNAPSHOT_WORDS then mret None
  else
    vs ← read_words (if nz after then SPORT_RETURN_SNAPSHOT else SPORT_ENTRY_SNAPSHOT) 21 0;
    mret (Some vs).

Definition adsp2181_coverage_clear : M unit := aclear COVERAGE.
Definition adsp2181_coverage_gate (on : Z) : M unit := wr COVERAGE_ON (b2z (nz on)).
Definition adsp2181_coverage_count (pc : Z) : M Z := ard COVERAGE (pc &&& 0x3fff).
Definition adsp2181_dm_census (on : Z) : M unit := wr DM_CENSUS_ON (b2z (nz on)).
Definition adsp2181_dm_census_clear : M unit := aclear DM_CENSUS.
Definition adsp2181_dm_census_count (addr : Z) : M Z := ard DM_CENSUS (addr &&& 0x3fff).
Definition adsp2181_trace_budget (n : Z) : M unit := wr TRACE_BUDGET n.
Definition adsp2181_pc : M Z := pc ← rd PC; mret (pc &&& 0x3fff).
Definition adsp2181_i (index : Z) : M Z :=
  if (index >=? 0) && (index <? 8) then i ← ard RI index; mret (i &&& 0x3fff) else mret 0.
Definition adsp2181_set_pc (pc : Z) : M unit := wr PC (pc &&& 0x3fff) ;; wr IDLE 0.

(** *** Injected calls *)

(** [if (a->sp > a->inject_sp) a->sp = a->inject_sp;] *)
Definition unwind_to (sp inject : field) : M unit :=
  v ← rd sp; i ← rd inject; when (v >? i) (wr sp i).

Definition discard_stale_synthetic_returns (return_pc : Z) : M unit :=
  idle ← rd IDLE; valid ← rd INJECT_VALID;
  if negb (nz idle) || negb (nz valid) then skip else
  inject ← rd INJECT_PC_SP; sp ← rd PC_SP;
  if (inject <? 0) || (sp <=? inject) then skip else
  top ← ard PC_STACK inject;
  if negb ((top &&& 0x3fff) =? (return_pc &&& 0x3fff)) then skip else
  wr PC_SP inject ;;
  unwind_to CNTR_SP INJECT_CNTR_SP ;;
  unwind_to STAT_SP INJECT_STAT_SP ;;
  unwind_to LOOP_SP INJECT_LOOP_SP ;;
  sp ← rd PC_SP;
  when (sp =? 0) (sstat_or PC_EMPTY) ;;
  sstat_clr PC_OVER ;;
  wr STACK_OVER_WARNED 0.

Definition adsp2181_call (entry return_pc : Z) : M unit :=
  discard_stale_synthetic_returns return_pc ;;
  v ← rd PC_SP; wr INJECT_PC_SP v ;;
  v ← rd CNTR_SP; wr INJECT_CNTR_SP v ;;
  v ← rd STAT_SP; wr INJECT_STAT_SP v ;;
  v ← rd LOOP_SP; wr INJECT_LOOP_SP v ;;
  wr INJECT_RETURN (return_pc &&& 0x3fff) ;;
  wr INJECT_VALID 1 ;;
  pc_stack_push_val (return_pc &&& 0x3fff) ;;
  wr PC (entry &&& 0x3fff) ;;
  wr IDLE 0.

(** *** Interrupts and SPORT frames *)
Definition adsp2181_set_irq (irq asserted : Z) : M unit :=
  if (irq <? 0) || (irq >=? ADSP2181_IRQ_COUNT) then skip else
  st ← ard IRQ_STATE irq;
  (if nz asserted && negb (nz st) then
     awr IRQ_LATCH irq 1 ;;
     match sport_rx_callback with
     | Some f =>
         if irq =? ADSP2181_SPORT0_RX then w ← f 0; awr SPORT_RX 0 w
         else if (irq =? ADSP2181_SPORT1_RX) || (irq =? ADSP2181_SPORT1_TX)
         then w ← f 1; awr SPORT_RX 1 w
         else skip
     | None => skip
     end
   else skip) ;;
  awr IRQ_STATE irq (b2z (nz asserted)) ;;
  check_irqs.

Definition adsp2181_sport1_frame (receive_word cycles : Z) : M Z :=
  if cycles <=? 0 then mret 0 else
  awr SPORT_RX 1 receive_word ;;
  awr SPORT_TX_WRITTEN 1 0 ;;
  adsp2181_set_irq ADSP2181_SPORT1_TX 1 ;;
  adsp2181_set_irq ADSP2181_SPORT1_TX 0 ;;
  adsp2181_run cycles ;;
  tx ← ard SPORT_TX 1; n ← ard SPORT_TX_WRITTEN 1;
  mret ((tx &&& 0xffff) ||| (if nz n then 0x10000 else 0)).

(** One SPORT0 receive interrupt and the run that follows it. *)
Definition sport0_interrupt (cycles_per_slot : Z) : M unit :=
  awr IRQ_LATCH ADSP2181_SPORT0_RX 1 ;;
  awr IRQ_STATE ADSP2181_SPORT0_RX 1 ;;
  check_irqs ;;
  awr IRQ_STATE ADSP2181_SPORT0_RX 0 ;;
  wr ICOUNT cycles_per_slot ;;
  execute.

(** The full-frame variant: 31 idle slots, then the selected one. *)
Fixpoint full_tdm_passes (k : nat) (pass : Z) (active_slot dispatch_slot active_word
    idle_word cycles_per_slot task_dispatch task_isr selected_tx : Z) : M Z :=
  match k with
  | O => mret selected_tx
  | S k =>
      let slot := (dispatch_slot + pass) &&& 31 in
      let selected := slot =? dispatch_slot in
      WWORD_PGM 0x02b9 (if selected then task_dispatch else 0x000000) ;;
      WWORD_PGM 0x00b5 task_isr ;;
      awr SPORT_RX 0 (if slot =? active_slot then active_word else idle_word) ;;
      when selected (awr SPORT_TX_WRITTEN 0 0 ;; take_sport_snapshot SPORT_ENTRY_SNAPSHOT) ;;
      sport0_interrupt cycles_per_slot ;;
      tx ← (if selected then take_sport_snapshot SPORT_RETURN_SNAPSHOT ;; ard SPORT_TX 0
            else mret selected_tx);
      full_tdm_passes k (pass + 1) active_slot dispatch_slot active_word idle_word
        cycles_per_slot task_dispatch task_isr tx
  end.

Definition adsp2181_sport0_tdm_frame (active_slot dispatch_slot active_word idle_word
    cycles_per_slot : Z) : M Z :=
  if (active_slot <? 0) || (active_slot >=? 32) || (dispatch_slot <? 0) ||
     (dispatch_slot >=? 32) || (cycles_per_slot <=? 0)
  then mret 0
  else
    task_dispatch ← RWORD_PGM 0x02b9;
    task_isr ← RWORD_PGM 0x00b5;
    WWORD_PGM 0x02b9 task_dispatch ;;
    WWORD_PGM 0x00b5 task_isr ;;
    awr SPORT_RX 0 active_word ;;
    awr SPORT_TX_WRITTEN 0 0 ;;
    selected_tx ←
      (if env_sport_full_tdm then
         full_tdm_passes 32 1 active_slot dispatch_slot active_word idle_word
           cycles_per_slot task_dispatch task_isr 0
       else
         for_upto 0x40 0x2e00 (fun address => WWORD_DATA address active_word) ;;
         take_sport_snapshot SPORT_ENTRY_SNAPSHOT ;;
         sport0_interrupt cycles_per_slot ;;
         take_sport_snapshot SPORT_RETURN_SNAPSHOT ;;
         ard SPORT_TX 0);
    WWORD_PGM 0x02b9 task_dispatch ;;
    WWORD_PGM 0x00b5 task_isr ;;
    mret selected_tx.

(** The members [adsp2181_modem_sample] copies before the injected
    continuation and copies back after it. *)
Definition volatile_fields : list field :=
  (Core <$> all_cregs) ++ (Alt <$> all_cregs) ++
  [LOOP; LOOP_CONDITION; CNTR; CNTR_VALID; ASTAT; SSTAT; MSTAT; MSTAT_PREV; PPC; PX;
   PC_SP; CNTR_SP; STAT_SP; LOOP_SP].
Definition volatile_arrays : list arr :=
  [RI; RM; RL; RLMASK; RBASE; LOOP_STACK; CNTR_STACK; PC_STACK;
   STAT_STACK_MSTAT; STAT_STACK_IMASK; STAT_STACK_ASTAT].

(** The continuation injected into a frame that has not finished. *)
Definition inject_continuation (continuation return_pc cycles_per_pass : Z) : M unit :=
  saved ← get_state;
  let resume := u16 (saved.[PC]) in
  let armed := saved.[STOP_DM_ARMED] in
  wr STOP_DM_ARMED 0 ;;
  pc_stack_push_val (return_pc &&& 0x3fff) ;;
  wr PC (continuation &&& 0x3fff) ;;
  wr ICOUNT cycles_per_pass ;;
  execute ;;
  for_each volatile_arrays (restore_array saved) ;;
  for_each volatile_fields (restore_field saved) ;;
  wr STOP_DM_ARMED armed ;;
  wr PC resume ;;
  wr IDLE 0.

Definition adsp2181_modem_sample (active_word idle_word cycles_per_pass continuation
    return_pc : Z) : M Z :=
  tx ← adsp2181_sport0_tdm_frame 0 0 active_word idle_word cycles_per_pass;
  idle ← rd IDLE; yield ← rd YIELD_ON_STOP; hit ← rd STOP_DM_HIT; cont ← rd CONTINUE_NON_IDLE;
  (if nz idle then
     discard_stale_synthetic_returns return_pc ;;
     pc_stack_push_val (return_pc &&& 0x3fff) ;;
     wr PC (continuation &&& 0x3fff) ;;
     wr IDLE 0 ;;
     wr ICOUNT cycles_per_pass ;;
     execute
   else if (nz yield && nz hit) || nz cont then
     inject_continuation continuation return_pc cycles_per_pass
   else skip) ;;
  mret tx.

(** *** G.711 block *)

(** Reverse the bits of an octet. *)
Definition g711_reverse (value : Z) : Z :=
  let value := u8 value in
  let value := u8 (((value &&& 0x55) <<< 1) ||| ((value >>> 1) &&& 0x55)) in
  let value := u8 (((value &&& 0x33) <<< 2) ||| ((value >>> 2) &&& 0x33)) in
  u8 ((value <<< 4) ||| (value >>> 4)).

Definition g711_encode_one (sample entry return_pc cycles_per_sample : Z) : M Z :=
  wr (Core AR) (u16 sample) ;;
  pc_stack_push_val (return_pc &&& 0x3fff) ;;
  wr PC (entry &&& 0x3fff) ;;
  wr IDLE 0 ;;
  wr ICOUNT cycles_per_sample ;;
  execute ;;
  sr1 ← rd_u SR1;
  mret (g711_reverse sr1).

Fixpoint g711_encode_all (samples : list Z) (entry return_pc cycles_per_sample : Z)
    : M (list Z) :=
  match samples with
  | [] => mret []
  | x :: samples =>
      c ← g711_encode_one x entry return_pc cycles_per_sample;
      cs ← g711_encode_all samples entry return_pc cycles_per_sample;
      mret (c :: cs)
  end.

(** The codes written; [None] is the return value -1. *)
Definition adsp2181_g711_encode_block (samples : list Z)
    (entry return_pc cycles_per_sample : Z) : M (option (list Z)) :=
  hold ← rd IDMA_BOOT_HOLD;
  if (cycles_per_sample <=? 0) || nz hold then mret None
  else
    cs ← g711_encode_all samples entry return_pc cycles_per_sample;
    mret (Some cs).

(** *** Register accessors *)
Definition adsp2181_imask : M Z := rd IMASK.
Definition adsp2181_set_imask (imask : Z) : M unit := wr IMASK (imask &&& 0x3ff).
Definition adsp2181_set_flagin (asserted : Z) : M unit := wr FLAGIN (b2z (nz asserted)).
Definition adsp2181_flagin : M Z := rd FLAGIN.
Definition adsp2181_icntl : M Z := rd ICNTL.
Definition adsp2181_idle : M Z := v ← rd IDLE; mret (b2z (nz v)).
Definition adsp2181_set_ar (value : Z) : M unit := wr (Core AR) value.
Definition adsp2181_set_sr1 (value : Z) : M unit := wr_r SR1 value.
Definition adsp2181_sr0 : M Z := rd_u SR0.
Definition adsp2181_sr1 : M Z := rd_u SR1.

End Api.
