(* ===== verification/Effects.v ===== *)
(** * Effects of running code

    [Wf] says that every member and every array element is in the range the
    emulator keeps it in, and that no array was ever indexed out of bounds.
    [micro] lists the elementary effects the running processor has on the
    state; [ok m Q] says that a command only has such effects, never faults,
    and returns a value in [Q]. The rules below and the [ok_auto] tactic prove
    [ok] for a command by following its text. Invariants are then proved once,
    by cases on [micro], for everything that is built from the commands. *)
From S2P Require Import Prelude State Tables Memory Stacks Regs Alu Mac Shift Exec.

(** ** Definitions *)
Definition in_frange (f : field) (v : Z) : Prop := fst (frange f) <= v <= snd (frange f).
Definition in_arange (a : arr) (v : Z) : Prop := fst (arange a) <= v <= snd (arange a).

Record Wf (s : state) : Prop := {
  wf_field f : in_frange f (s.[f]);
  wf_elem a k : in_arange a (s.{a, k});
}.

(** Members the processor writes one at a time, with no coherence to keep. *)
Definition plain_field (f : field) : bool :=
  match f with
  | Core MR | Core ZERO | Alt _ => false
  | Core _ => true
  | PX | PC | PPC | CNTR | CNTR_VALID | ASTAT | MSTAT | MSTAT_PREV | ASTAT_CLEAR | IDLE
  | STACK_OVER_WARNED | FLAGOUT | FL0 | FL1 | FL2 | IMASK | ICNTL | IFC | PMOVLAY
  | DMOVLAY | INTERRUPTS_ENABLED | PCSP_WINDOW_MIN | PCSP_WINDOW_MAX | STOP_DM_HIT
  | STOP_DM_LEFT | LATCH_DM_HAVE | LATCH_DM_VALUE | LATCH_DM_COUNT | EXEC_HISTORY_POS
  | TRACE_BUDGET | YM1_MAME_ALL | YM1_LOG_BUDGET => true
  | _ => false
  end.

Definition plain_arr (a : arr) : bool :=
  match a with
  | RI | RM | RBASE | SPORT_RX | SPORT_TX | SPORT_TX_WRITTEN | IRQ_LATCH | IO | WATCH_DM
  | WATCH_DM_LEFT | PIN_PM_HITS | PIN_DM_HITS | WATCH_EXEC | WATCH_EXEC_LEFT
  | EXEC_HISTORY | DM_CENSUS | COVERAGE | YM1_MAME_PC => true
  | _ => false
  end.

(** The element of data (program) memory an address selects. *)
Definition dm_cell (s : state) (x : Z) : arr * Z :=
  if (x <? 0x2000) && overlay_on (s.[DMOVLAY])
  then (DATA_OVERLAY, 0x2000 * (s.[DMOVLAY] - 1) + x) else (DATA, x).
Definition pm_cell (s : state) (x : Z) : arr * Z :=
  if (x >=? 0x2000) && overlay_on (s.[PMOVLAY])
  then (PROGRAM_OVERLAY, 0x2000 * (s.[PMOVLAY] - 1) + (x - 0x2000)) else (PROGRAM, x).

(** What a pin makes of a value stored at [x]. *)
Definition pinned_dm (s : state) (x v : Z) : Z :=
  if nz (s.{PIN_DM, x}) then s.{PIN_DM_VALUE, x} else v.
Definition pinned_pm (s : state) (x v : Z) : Z :=
  if nz (s.{PIN_PM, x}) then s.{PIN_PM_VALUE, x} &&& 0xffffff else v.

Inductive micro (s : state) : state -> Prop :=
  | micro_field f v :
      plain_field f = true -> in_frange f v -> micro s (set f v s)
  | micro_elem a k v :
      plain_arr a = true -> 0 <= k < alen a -> in_arange a v -> micro s (aset a k v s)
  | micro_event e : micro s (add_event e s)
  | micro_swap : micro s (exec swap_banks s)
  | micro_mr v s' :
      s'.[Core MR] = u64 (sign_extend_mr40 v) ->
      (forall f, f <> Core MR -> s'.[f] = s.[f]) -> ars s' = ars s -> micro s s'
  | micro_mr0 v : micro s (exec (wr_r MR0 v) s)
  | micro_rl k val : 0 <= k < 8 -> micro s (exec (wr_l k val) s)
  | micro_pc_push val : micro s (exec (pc_stack_push_val val) s)
  | micro_pc_pop : micro s (exec pc_stack_pop_val s)
  | micro_cntr_push : micro s (exec cntr_stack_push s)
  | micro_cntr_pop : micro s (exec cntr_stack_pop s)
  | micro_loop_push val : 0 <= val <= 0x3ffff -> micro s (exec (loop_stack_push val) s)
  | micro_loop_pop : micro s (exec loop_stack_pop s)
  | micro_stat_push : micro s (exec stat_stack_push s)
  | micro_stat_drop : s.[STAT_SP] > 0 ->
      micro s (exec (wr STAT_SP (s.[STAT_SP] - 1) ;;
                     when (s.[STAT_SP] - 1 =? 0) (sstat_or STATUS_EMPTY)) s)
  | micro_stat_empty : s.[STAT_SP] = 0 -> micro s (exec (sstat_or STATUS_EMPTY) s)
  | micro_dm x v : 0 <= x < 0x4000 -> 0 <= v <= 0xffff ->
      micro s (aset (fst (dm_cell s x)) (snd (dm_cell s x)) (pinned_dm s x v) s)
  | micro_pm x v : 0 <= x < 0x4000 ->
      micro s (aset (fst (pm_cell s x)) (snd (pm_cell s x))
                 (pinned_pm s x v &&& 0xffffff) s)
  | micro_halt : micro s (set ICOUNT 0 s).

Definition micros : relation state := rtc micro.

(** A relation between states that counts as an effect: it composes, it
    preserves well-formedness, and logging is one. [kept] is the coarsest. *)
Class Effect (R : relation state) : Prop := {
  eff_preorder :: PreOrder R;
  eff_wf s s' : Wf s -> R s s' -> Wf s';
  eff_event e s : R s (add_event e s);
}.
Class CanSet (R : relation state) (f : field) : Prop :=
  can_set s v : Wf s -> in_frange f v -> R s (set f v s).
Class CanPut (R : relation state) (a : arr) : Prop :=
  can_put s k v : Wf s -> 0 <= k < alen a -> in_arange a v -> R s (aset a k v s).

Definition kept : relation state := fun s s' => Wf s -> Wf s'.

(** Only the members and arrays the two predicates select may change. *)
Definition touches (pf : field -> bool) (pa : arr -> bool) : relation state := fun s s' =>
  (Wf s -> Wf s') /\
  (forall f, pf f = false -> s'.[f] = s.[f]) /\
  (forall a, pa a = false -> ars s' a = ars s a).

(** What the stack operations may change. *)
Definition atom_f (f : field) : bool :=
  match f with
  | CNTR | CNTR_VALID | LOOP | LOOP_CONDITION | SSTAT | PC_SP | CNTR_SP
  | STAT_SP | LOOP_SP | STACK_OVER_WARNED | PCSP_WINDOW_MIN | PCSP_WINDOW_MAX => true
  | _ => false
  end.
Definition atom_a (a : arr) : bool :=
  match a with
  | PC_STACK | CNTR_STACK | LOOP_STACK | STAT_STACK_MSTAT | STAT_STACK_IMASK
  | STAT_STACK_ASTAT => true
  | _ => false
  end.
Notation atom := (touches atom_f atom_a).

(** [m] has effect [R] and returns a value in [Q]. *)
Definition hoare {A} (R : relation state) (m : M A) (Q : A -> Prop) : Prop :=
  forall s, Wf s -> R s (exec m s) /\ Q (eval m s).
Notation any := (fun _ => True).
Notation ok := (hoare micros).

(** What a host promises: its callbacks have no other effects than running
    code could have, and the timer callback, which can be called in the middle
    of a status-stack pop, does not push or pop that stack. *)
Class HostOk (host : Host) : Prop := {
  host_rx f port : sport_rx_callback = Some f -> ok (f port) any;
  host_tx f port v : sport_tx_callback = Some f -> ok (f port v) any;
  host_timer f on : timer_fired = Some f -> ok (f on) any;
  host_timer_sp f on s : timer_fired = Some f -> (exec (f on) s).[STAT_SP] = s.[STAT_SP];
}.

(** ** Bounds

    [bnd] closes [lo <= e <= hi] for the masked expressions of the emulator. *)
Lemma land_le_l a b n : 0 <= a <= n -> 0 <= a &&& b <= n.
Proof. intros H. pose proof (land_range_l a b). lia. Qed.
Lemma land_le_r a b n : 0 <= b <= n -> 0 <= a &&& b <= n.
Proof. intros H. pose proof (land_range_r a b). lia. Qed.
Lemma lor_le a b w n :
  0 <= w -> n = 2 ^ w - 1 -> 0 <= a <= n -> 0 <= b <= n -> 0 <= a ||| b <= n.
Proof. intros Hw ->. by apply lor_range. Qed.
Lemma lxor_le a b w n :
  0 <= w -> n = 2 ^ w - 1 -> 0 <= a <= n -> 0 <= b <= n -> 0 <= a ^^^ b <= n.
Proof.
  intros Hw -> Ha Hb.
  assert (0 <= a ^^^ b) by (apply Z.lxor_nonneg; lia). split; [done|].
  enough (a ^^^ b < 2 ^ w) by lia.
  apply range_of_bits; [done..|]. intros n Hn.
  rewrite Z.lxor_spec, (bits_high_0 a w), (bits_high_0 b w) by lia. done.
Qed.
Lemma shr_le a k m n : 0 <= k -> 0 <= a <= n -> n / 2 ^ k <= m -> 0 <= a >>> k <= m.
Proof.
  intros Hk Ha Hm. rewrite Z.shiftr_div_pow2 by done.
  assert (0 < 2 ^ k) by lia. split; [apply Z.div_pos; lia|].
  transitivity (n / 2 ^ k); [apply Z.div_le_mono; lia|done].
Qed.

Ltac log2_of n := let w := eval vm_compute in (Z.log2 (n + 1)) in w.
Ltac bnd :=
  match goal with
  | |- _ <= b2z ?b <= _ => pose proof (b2z_range b); lia
  | |- 0 <= _ &&& ?c <= ?n => first
      [ apply land_le_r; solve [lia]
      | apply land_le_l; bnd | apply land_le_r; bnd ]
  | |- 0 <= _ ||| _ <= ?n =>
      let w := log2_of n in apply (lor_le _ _ w); [lia|reflexivity|bnd|bnd]
  | |- 0 <= _ ^^^ _ <= ?n =>
      let w := log2_of n in apply (lxor_le _ _ w); [lia|reflexivity|bnd|bnd]
  | |- _ <= conv ?t ?v <= _ =>
      first [ let H := fresh in assert (H := conv_range t v);
              cbv [cmin cmax cbits csigned] in H; conv_lits; lia
            | rewrite (conv_id t v); [bnd | cbv [cmin cmax cbits csigned]; conv_lits; bnd_wide v] ]
  | |- _ <= reverse_table ?i <= _ => pose proof (reverse_table_range i); lia
  | |- _ <= mask_table ?i <= _ => pose proof (mask_table_range i); lia
  | |- _ <= (if ?b then _ else _) <= _ => destruct b eqn:?; bnd
  | |- _ => lia
  end
with bnd_wide v :=
  match goal with
  | |- ?lo <= v <= ?hi => first [ bnd | lia ]
  end.

(** ** Well-formedness *)
Lemma wf_set f v s : Wf s -> in_frange f v -> Wf (set f v s).
Proof.
  intros [Hf Ha] Hv. constructor.
  - intros g. rewrite get_set. destruct (field_eqb g f) eqn:E; [|done].
    apply field_eqb_eq in E as ->. done.
  - intros a k. rewrite aget_set. done.
Qed.

Lemma wf_aset a k v s : Wf s -> in_arange a v -> Wf (aset a k v s).
Proof.
  intros [Hf Ha] Hv. constructor; [done|].
  intros b j. destruct (decide (b = a)) as [->|]; [|by rewrite aget_aset_arr].
  destruct (decide (j = k)) as [->|]; [by rewrite aget_aset_eq|by rewrite aget_aset_ne].
Qed.

Lemma in_arange_0 a : in_arange a 0.
Proof. destruct a; vm_compute; split; discriminate. Qed.

Lemma wf_aput_empty a s : Wf s -> Wf (aput a ∅ s).
Proof.
  intros [Hf Ha]. constructor; [done|]. intros b k. unfold aget. rewrite ars_aput.
  destruct (arr_eqb b a); [apply in_arange_0|apply Ha].
Qed.

Lemma wf_event e s : Wf s -> Wf (add_event e s).
Proof. intros [Hf Ha]. by constructor. Qed.

Lemma wf_fault s : Wf s -> s.[FAULT] = 0.
Proof. intros [Hf _]. pose proof (Hf FAULT) as H. unfold in_frange in H. simpl in H. lia. Qed.

Lemma wf_swap s : Wf s -> Wf (exec swap_banks s).
Proof.
  intros [Hf Ha]. constructor; [|done].
  intros f; destruct f; try apply Hf; cbn;
    [pose proof (Hf (Alt r)) as H|pose proof (Hf (Core r)) as H];
    unfold in_frange in *; by destruct r.
Qed.

(** A conversion to the member's own type is always in range, unless the
    range was refined. *)
Definition ffull (f : field) : bool :=
  (fst (frange f) =? cmin (fty f)) && (snd (frange f) =? cmax (fty f)).
Definition afull (a : arr) : bool :=
  (fst (arange a) =? cmin (aty a)) && (snd (arange a) =? cmax (aty a)).

Lemma ffull_ok f v : ffull f = true -> in_frange f (conv (fty f) v).
Proof.
  unfold ffull, in_frange. intros [H1%Z.eqb_eq H2%Z.eqb_eq]%andb_true_iff.
  rewrite H1, H2. apply conv_range.
Qed.
Lemma afull_ok a v : afull a = true -> in_arange a (conv (aty a) v).
Proof.
  unfold afull, in_arange. intros [H1%Z.eqb_eq H2%Z.eqb_eq]%andb_true_iff.
  rewrite H1, H2. apply conv_range.
Qed.

(** Every refined range is inside the C type. *)
Lemma frange_sub f : cmin (fty f) <= fst (frange f) /\ snd (frange f) <= cmax (fty f).
Proof.
  destruct f; try match goal with r : creg |- _ => destruct r end;
    vm_compute; split; discriminate.
Qed.
Lemma arange_sub a : cmin (aty a) <= fst (arange a) /\ snd (arange a) <= cmax (aty a).
Proof. destruct a; vm_compute; split; discriminate. Qed.

Lemma in_frange_conv f v : in_frange f v -> conv (fty f) v = v.
Proof. intros H. apply conv_id. pose proof (frange_sub f). unfold in_frange in H. lia. Qed.
Lemma in_arange_conv a v : in_arange a v -> conv (aty a) v = v.
Proof. intros H. apply conv_id. pose proof (arange_sub a). unfold in_arange in H. lia. Qed.

(** ** Rules *)
Create HintDb hoare_db discriminated.
#[export] Instance kept_effect : Effect kept.
Proof.
  split.
  - split; [by intros s H|intros s1 s2 s3 H1 H2 H; auto].
  - auto.
  - intros e s H. by apply wf_event.
Qed.
#[export] Instance kept_set f : CanSet kept f.
Proof. intros s v H Hv _. by apply wf_set. Qed.
#[export] Instance kept_put a : CanPut kept a.
Proof. intros s k v H Hk Hv _. by apply wf_aset. Qed.

#[export] Instance touches_effect pf pa : Effect (touches pf pa).
Proof.
  split.
  - split; [intros s; by split|]. intros s1 s2 s3 (H1 & H2 & H3) (H1' & H2' & H3').
    split; [by auto|split].
    + intros f Hf. by rewrite H2', H2.
    + intros a Ha. by rewrite H3', H3.
  - intros s s' Hs (H & _ & _). auto.
  - intros e s. split; [apply wf_event|done].
Qed.
#[export] Instance touches_set pf pa f : TCEq (pf f) true -> CanSet (touches pf pa) f.
Proof.
  intros E%TCEq_eq s v Hs Hv. split; [by intros; apply wf_set|]. split; [|done].
  intros g Hg. apply get_set_ne. intros ->. congruence.
Qed.
#[export] Instance touches_put pf pa a : TCEq (pa a) true -> CanPut (touches pf pa) a.
Proof.
  intros E%TCEq_eq s k v Hs Hk Hv. split; [by intros; apply wf_aset|]. split; [done|].
  intros b Hb. unfold aset. apply ars_aput_ne. intros ->. congruence.
Qed.

Section Rules.
Context {R : relation state} {HR : Effect R}.

Lemma hoare_ret {A} (x : A) (Q : A -> Prop) : Q x -> hoare R (mret x) Q.
Proof. intros H s _. split; [reflexivity|done]. Qed.

Lemma hoare_bind {A B} (m : M A) (f : A -> M B) (Q : A -> Prop) (Q' : B -> Prop) :
  hoare R m Q -> (forall x, Q x -> hoare R (f x) Q') -> hoare R (m ≫= f) Q'.
Proof.
  intros Hm Hf s Hs. rewrite exec_bind, eval_bind.
  destruct (Hm s Hs) as [Hr Hq]. destruct (Hf _ Hq _ (eff_wf _ _ Hs Hr)) as [Hr' Hq'].
  split; [by transitivity (exec m s)|done].
Qed.

Lemma hoare_weaken {A} (m : M A) (Q Q' : A -> Prop) :
  hoare R m Q -> (forall x, Q x -> Q' x) -> hoare R m Q'.
Proof. intros H Hq s Hs. destruct (H s Hs). auto. Qed.

Lemma hoare_rd f : hoare R (rd f) (fun v => fst (frange f) <= v <= snd (frange f)).
Proof. intros s Hs. split; [reflexivity|apply Hs]. Qed.

Lemma hoare_wr f v `{!CanSet R f} :
  in_frange f (conv (fty f) v) -> hoare R (wr f v) any.
Proof. intros Hv s Hs. split; [by apply can_set|done]. Qed.

Lemma hoare_wr_full f v `{!CanSet R f} : ffull f = true -> hoare R (wr f v) any.
Proof. intros H. by apply hoare_wr, ffull_ok. Qed.

Lemma hoare_wr_in f v `{!CanSet R f} :
  fst (frange f) <= v <= snd (frange f) -> hoare R (wr f v) any.
Proof. intros H. apply hoare_wr; [done|]. by rewrite in_frange_conv. Qed.

Lemma hoare_ard a k :
  0 <= k < alen a -> hoare R (ard a k) (fun v => fst (arange a) <= v <= snd (arange a)).
Proof.
  intros Hk s Hs. unfold exec, eval. rewrite ard_in by done. simpl.
  split; [reflexivity|apply Hs].
Qed.

Lemma hoare_awr a k v `{!CanPut R a} :
  0 <= k < alen a -> in_arange a (conv (aty a) v) -> hoare R (awr a k v) any.
Proof.
  intros Hk Hv s Hs. unfold exec. rewrite awr_in by done. simpl.
  split; [by apply can_put|done].
Qed.
Lemma hoare_awr_full a k v `{!CanPut R a} :
  0 <= k < alen a -> afull a = true -> hoare R (awr a k v) any.
Proof. intros Hk H. apply hoare_awr; [done..|by apply afull_ok]. Qed.
Lemma hoare_awr_in a k v `{!CanPut R a} :
  0 <= k < alen a -> fst (arange a) <= v <= snd (arange a) -> hoare R (awr a k v) any.
Proof. intros Hk H. apply hoare_awr; [done..|]. by rewrite in_arange_conv. Qed.

Lemma hoare_logerror e : hoare R (logerror e) any.
Proof. intros s Hs. split; [apply eff_event|done]. Qed.
Lemma hoare_skip : hoare R skip any.
Proof. by apply hoare_ret. Qed.
Lemma hoare_when b m : (b = true -> hoare R m any) -> hoare R (when b m) any.
Proof. intros H. destruct b; [by apply H|apply hoare_skip]. Qed.

Lemma hoare_for_upto k n body :
  (forall i, n <= i < n + Z.of_nat k -> hoare R (body i) any) ->
  hoare R (for_upto k n body) any.
Proof.
  revert n. induction k as [|k IH]; intros n H; [apply hoare_skip|]. simpl.
  eapply hoare_bind; [apply H; lia|]. intros _ _. apply IH. intros i Hi. apply H. lia.
Qed.
End Rules.

(** Reading back the member just written. *)
Lemma wr_rd {B} f v (k : Z -> M B) s :
  (wr f v ;; x ← rd f; k x) s = (wr f v ;; k (conv (fty f) v)) s.
Proof. unfold wr, rd, mbind, M_bind. by rewrite get_set_eq. Qed.

Lemma hoare_wr_rd {B} R `{!Effect R} f v (k : Z -> M B) Q :
  fst (frange f) <= v <= snd (frange f) ->
  hoare R (wr f v ;; k v) Q -> hoare R (wr f v ;; x ← rd f; k x) Q.
Proof.
  intros Hv H s Hs. specialize (H s Hs). unfold exec, eval in *.
  by rewrite wr_rd, in_frange_conv.
Qed.

(** Prove [hoare R m Q] by following the text of [m]. The hint database holds
    the lemmas about named commands. *)
Ltac hoare_ranges :=
  cbn [frange arange fst snd fty aty creg_ty alen] in *;
  cbv [cmin cmax cbits csigned] in *; conv_lits.
Ltac mask_facts :=
  repeat match goal with
  | |- context [?x &&& ?c] =>
      lazymatch goal with
      | _ : 0 <= x &&& c <= c |- _ => fail
      | _ => pose proof (land_range_r x c ltac:(lia))
      end
  end.
Ltac hoare_side := solve
  [ reflexivity | hoare_ranges; bnd | hoare_ranges; mask_facts; lia
  | match goal with
    | |- _ <= ?k < _ => is_const k; unfold k
    | |- _ <= ?k <= _ => is_const k; unfold k
    end; hoare_ranges; lia ].
Ltac hoare_step :=
  match goal with
  | |- forall _, _ => intro
  | |- hoare _ (wr ?f _ ≫= (fun _ => rd ?f ≫= _)) _ =>
      apply hoare_wr_rd; [typeclasses eauto|hoare_side|]
  | |- hoare _ (@mbind _ _ unit _ _ _) _ =>
      eapply (hoare_bind _ _ any); [|intros ? ?; cbv beta in *]
  | |- hoare _ (_ ≫= _) _ => first
      [ eapply hoare_bind;
        [first [apply hoare_rd | apply hoare_ard; hoare_side | solve [eauto with hoare_db nocore]]
        |intros ? ?; cbv beta in *]
      | eapply (hoare_bind _ _ any); [|intros ? ?; cbv beta in *] ]
  | |- hoare _ (mret _) _ => apply hoare_ret; first [exact I|hoare_side|idtac]
  | |- hoare _ (rd _) _ =>
      first [apply hoare_rd | eapply hoare_weaken; [apply hoare_rd|cbv beta; intros; hoare_ranges; first [done|lia]]]
  | |- hoare _ (ard _ _) _ =>
      first [apply hoare_ard; hoare_side
            | eapply hoare_weaken; [apply hoare_ard; hoare_side
                                   |cbv beta; intros; hoare_ranges; first [done|lia]]]
  | |- hoare _ (wr _ _) _ =>
      first [ eapply hoare_wr_full; [typeclasses eauto|reflexivity]
            | eapply hoare_wr_in; [typeclasses eauto|hoare_side] ]
  | |- hoare _ (awr _ _ _) _ =>
      first [ eapply hoare_awr_full; [typeclasses eauto|hoare_side|reflexivity]
            | eapply hoare_awr_in; [typeclasses eauto|hoare_side|hoare_side] ]
  | |- hoare _ (logerror _) _ => apply hoare_logerror
  | |- hoare _ skip _ => apply hoare_skip
  | |- hoare _ (when _ _) _ => apply hoare_when; intros ?
  | |- hoare _ (let _ := _ in _) _ => cbv zeta
  | |- hoare _ (if ?b then _ else _) _ => destruct b eqn:?
  | |- hoare _ (match ?x with Some _ => _ | None => _ end) _ => destruct x eqn:?
  | |- hoare _ _ _ =>
      first [ solve [eauto with hoare_db nocore]
            | eapply hoare_weaken; [solve [eauto with hoare_db nocore]
                                   |cbv beta; intros; first [exact I|hoare_ranges; first [done|lia]]] ]
  end.
(** Case analysis on the literal patterns of a C switch. *)
Ltac switch_cases :=
  repeat match goal with
  | |- hoare _ (match ?x with _ => _ end) _ => is_var x; destruct x
  end.
Ltac hoare_auto := intros; repeat (cbv beta zeta; hoare_step).

Lemma touches_weaken {A} pf pa pf' pa' (m : M A) Q :
  (forall f, pf f = true -> pf' f = true) -> (forall a, pa a = true -> pa' a = true) ->
  hoare (touches pf pa) m Q -> hoare (touches pf' pa') m Q.
Proof.
  intros Hf Ha H s Hs. destruct (H s Hs) as [(Hw & H1 & H2) Hq]. split; [split; [done|]|done].
  split.
  - intros f E. apply H1. destruct (pf f) eqn:E'; [|done]. by rewrite Hf in E.
  - intros a E. apply H2. destruct (pa a) eqn:E'; [|done]. by rewrite Ha in E.
Qed.

(** *** The stack operations stay within their members *)
Lemma atom_sstat_or bit : 0 <= bit <= 0xff -> hoare atom (sstat_or bit) any.
Proof. intros. unfold sstat_or. hoare_auto. Qed.
Lemma atom_sstat_clr bit : hoare atom (sstat_clr bit) any.
Proof. unfold sstat_clr. hoare_auto. Qed.
#[export] Hint Extern 1 (hoare atom (sstat_or _) _) =>
  apply atom_sstat_or; vm_compute; split; discriminate : hoare_db.
#[export] Hint Resolve atom_sstat_clr : hoare_db.

Lemma hoare_warn_stack_over R `{!Effect R, !CanSet R STACK_OVER_WARNED} bit :
  0 <= bit <= 0xff -> hoare R (warn_stack_over bit) any.
Proof. intros. unfold warn_stack_over. hoare_auto. Qed.
#[export] Hint Extern 1 (hoare _ (warn_stack_over _) _) =>
  apply hoare_warn_stack_over; [typeclasses eauto..|vm_compute; split; discriminate] : hoare_db.

Lemma hoare_note_pcsp R `{!Effect R, !CanSet R PCSP_WINDOW_MIN, !CanSet R PCSP_WINDOW_MAX} :
  hoare R note_pcsp any.
Proof. unfold note_pcsp. hoare_auto. Qed.
#[export] Hint Extern 1 (hoare _ note_pcsp _) =>
  apply hoare_note_pcsp; typeclasses eauto : hoare_db.

Lemma atom_pc_stack_push_val val : hoare atom (pc_stack_push_val val) any.
Proof. unfold pc_stack_push_val, PC_STACK_DEPTH. hoare_auto. Qed.
Lemma atom_cntr_stack_push : hoare atom cntr_stack_push any.
Proof. unfold cntr_stack_push, CNTR_STACK_DEPTH. hoare_auto. Qed.
Lemma atom_loop_stack_push value : 0 <= value <= 0x3ffff -> hoare atom (loop_stack_push value) any.
Proof. intros. unfold loop_stack_push, LOOP_STACK_DEPTH. hoare_auto. Qed.
Lemma atom_stat_stack_push : hoare atom stat_stack_push any.
Proof. unfold stat_stack_push, STAT_STACK_DEPTH. hoare_auto. Qed.

Lemma atom_pc_stack_pop_val : hoare atom pc_stack_pop_val any.
Proof. unfold pc_stack_pop_val. hoare_auto.  Qed.
Lemma atom_cntr_stack_pop : hoare atom cntr_stack_pop any.
Proof. unfold cntr_stack_pop. hoare_auto. Qed.
Lemma atom_loop_stack_pop : hoare atom loop_stack_pop any.
Proof. unfold loop_stack_pop. hoare_auto. Qed.

(** *** MR pieces and circular-buffer lengths *)
Definition wr_l_a (a : arr) : bool := match a with RL | RLMASK | RBASE => true | _ => false end.
Definition mr_f (f : field) : bool := match f with Core MR => true | _ => false end.
Lemma touches_wr_l k val : 0 <= k < 8 ->
  hoare (touches (fun _ => false) wr_l_a) (wr_l k val) any.
Proof. intros Hk. unfold wr_l, update_l. hoare_auto. Qed.
Lemma touches_wr_mr0 v : hoare (touches mr_f (fun _ => false)) (wr_r MR0 v) any.
Proof. unfold wr_r. hoare_auto. Qed.
Lemma atom_stat_drop v : 1 <= v <= 4 ->
  hoare atom (wr STAT_SP (v - 1) ;; when (v - 1 =? 0) (sstat_or STATUS_EMPTY)) any.
Proof. hoare_auto. Qed.

(** ** Memory cells *)
Lemma overlay_on_spec ov : overlay_on ov = true -> 1 <= ov <= 2.
Proof. unfold overlay_on. lia. Qed.

Lemma dm_cell_ok s x : 0 <= x < 0x4000 ->
  let c := dm_cell s x in
  (c.1 = DATA \/ c.1 = DATA_OVERLAY) /\ 0 <= c.2 < alen c.1.
Proof.
  intros Hx. unfold dm_cell.
  destruct ((x <? 0x2000) && overlay_on (s.[DMOVLAY])) eqn:E; simpl; [|auto].
  apply andb_true_iff in E as [E1 E2%overlay_on_spec]. split; [by right|lia].
Qed.
Lemma pm_cell_ok s x : 0 <= x < 0x4000 ->
  let c := pm_cell s x in
  (c.1 = PROGRAM \/ c.1 = PROGRAM_OVERLAY) /\ 0 <= c.2 < alen c.1.
Proof.
  intros Hx. unfold pm_cell.
  destruct ((x >=? 0x2000) && overlay_on (s.[PMOVLAY])) eqn:E; simpl; [|auto].
  apply andb_true_iff in E as [E1 E2%overlay_on_spec]. split; [by right|lia].
Qed.

Lemma wf_range_elem s a k : Wf s -> fst (arange a) <= s.{a, k} <= snd (arange a).
Proof. intros H. apply H. Qed.

Lemma pinned_dm_range s x v : Wf s -> 0 <= v <= 0xffff -> 0 <= pinned_dm s x v <= 0xffff.
Proof.
  intros Hs Hv. unfold pinned_dm. pose proof (wf_range_elem s PIN_DM_VALUE x Hs).
  hoare_ranges. destruct (nz _); lia.
Qed.

(** ** Every elementary effect preserves well-formedness *)
Lemma micro_wf s s' : Wf s -> micro s s' -> Wf s'.
Proof.
  intros Hs Hm; destruct Hm.
  - by apply wf_set.
  - by apply wf_aset.
  - by apply wf_event.
  - by apply wf_swap.
  - destruct Hs as [Hf Ha]. constructor.
    + intros f. destruct (decide (f = Core MR)) as [->|Hne]; [|by rewrite H0].
      rewrite H. by apply (ffull_ok (Core MR)).
    + intros a k. unfold aget. rewrite H1. apply Ha.
  - by apply (touches_wr_mr0 v s Hs).
  - by apply (touches_wr_l k val H s Hs).
  - by apply (atom_pc_stack_push_val val s Hs).
  - by apply (atom_pc_stack_pop_val s Hs).
  - by apply (atom_cntr_stack_push s Hs).
  - by apply (atom_cntr_stack_pop s Hs).
  - by apply (atom_loop_stack_push val H s Hs).
  - by apply (atom_loop_stack_pop s Hs).
  - by apply (atom_stat_stack_push s Hs).
  - pose proof (wf_field s Hs STAT_SP) as Hr. unfold in_frange in Hr. hoare_ranges.
    refine (proj1 (proj1 (atom_stat_drop _ _ s Hs)) Hs). lia.
  - by apply (atom_sstat_or STATUS_EMPTY ltac:(vm_compute; split; discriminate) s Hs).
  - apply wf_aset; [done|]. pose proof (pinned_dm_range s x v Hs H0).
    destruct (dm_cell_ok s x H) as [[-> | ->] _]; unfold in_arange; hoare_ranges; lia.
  - apply wf_aset; [done|].
    destruct (pm_cell_ok s x H) as [[-> | ->] _]; unfold in_arange; hoare_ranges; bnd.
  - apply wf_set; [done|]. by vm_compute.
Qed.

Lemma micros_wf s s' : Wf s -> micros s s' -> Wf s'.
Proof. intros Hs Hm; induction Hm; [done|]. eauto using micro_wf. Qed.

#[export] Instance micros_effect : Effect micros.
Proof.
  split; [apply _|apply micros_wf|].
  intros e s. apply rtc_once. constructor.
Qed.
#[export] Instance micros_set f : TCEq (plain_field f) true -> CanSet micros f.
Proof. intros H%TCEq_eq s v _ Hv. apply rtc_once. by constructor. Qed.
#[export] Instance micros_put a : TCEq (plain_arr a) true -> CanPut micros a.
Proof. intros H%TCEq_eq s k v _ Hk Hv. apply rtc_once. by constructor. Qed.

(** ** Proving that a property is preserved

    Most properties do not look at the stacks, or do not look at memory: this
    collects the ten stack operations into one case. *)
Lemma micro_ind_by (I : state -> Prop) s s' : Wf s -> micro s s' ->
  (forall t, atom s t -> I t) ->
  (forall f v, plain_field f = true -> in_frange f v -> I (set f v s)) ->
  (forall a k v, plain_arr a = true -> I (aset a k v s)) ->
  (forall e, I (add_event e s)) ->
  I (exec swap_banks s) ->
  (forall t v, t.[Core MR] = u64 (sign_extend_mr40 v) ->
     (forall f, f <> Core MR -> t.[f] = s.[f]) -> ars t = ars s -> I t) ->
  (forall v, I (exec (wr_r MR0 v) s)) ->
  (forall k val, 0 <= k < 8 -> I (exec (wr_l k val) s)) ->
  (forall x v, 0 <= x < 0x4000 -> 0 <= v <= 0xffff ->
     I (aset (dm_cell s x).1 (dm_cell s x).2 (pinned_dm s x v) s)) ->
  (forall x v, 0 <= x < 0x4000 ->
     I (aset (pm_cell s x).1 (pm_cell s x).2 (pinned_pm s x v &&& 0xffffff) s)) ->
  I (set ICOUNT 0 s) -> I s'.
Proof.
  intros Hs Hm Hstk Hf Ha He Hsw Hmr Hmr0 Hrl Hdm Hpm Hh. destruct Hm; eauto.
  - apply Hstk. by apply (atom_pc_stack_push_val val s Hs).
  - apply Hstk. by apply (atom_pc_stack_pop_val s Hs).
  - apply Hstk. by apply (atom_cntr_stack_push s Hs).
  - apply Hstk. by apply (atom_cntr_stack_pop s Hs).
  - apply Hstk. by apply (atom_loop_stack_push val H s Hs).
  - apply Hstk. by apply (atom_loop_stack_pop s Hs).
  - apply Hstk. by apply (atom_stat_stack_push s Hs).
  - pose proof (wf_field s Hs STAT_SP) as Hr. unfold in_frange in Hr. hoare_ranges.
    apply Hstk. apply (atom_stat_drop (s.[STAT_SP]) ltac:(lia) s Hs).
  - apply Hstk. apply (atom_sstat_or STATUS_EMPTY ltac:(vm_compute; split; discriminate) s Hs).
Qed.
