(* ===== verification/EffectsOps.v ===== *)
(** * The effects of every processor operation

    [ok] for each operation of [Stacks.v], [Memory.v], [Regs.v], [Alu.v],
    [Mac.v], [Shift.v] and [Exec.v], up to one pass of [execute]. *)
From S2P Require Import Prelude State Tables Memory Stacks Regs Alu Mac Shift Exec Effects.

(** A command that is one elementary effect. *)
Lemma ok_micro {A} (m : M A) (Q : A -> Prop) :
  (forall s, Wf s -> micro s (exec m s) /\ Q (eval m s)) -> ok m Q.
Proof. intros H s Hs. destruct (H s Hs). split; [by apply rtc_once|done]. Qed.

Lemma ok_ext {A} (m m' : M A) (Q : A -> Prop) :
  (forall s, Wf s -> m s = m' s) -> ok m' Q -> ok m Q.
Proof.
  intros He H s Hs. specialize (H s Hs). unfold exec, eval in *. by rewrite He.
Qed.

Lemma ok_halt : ok (wr ICOUNT 0) any.
Proof. apply ok_micro. intros s Hs. split; [|done]. apply (micro_halt s). Qed.
#[export] Hint Resolve ok_halt : hoare_db.

(** ** Stacks *)
Lemma ok_pc_stack_push_val val : ok (pc_stack_push_val val) any.
Proof. apply ok_micro. intros s _. split; [constructor|done]. Qed.
Lemma ok_cntr_stack_push : ok cntr_stack_push any.
Proof. apply ok_micro. intros s _. split; [constructor|done]. Qed.
Lemma ok_cntr_stack_pop : ok cntr_stack_pop any.
Proof. apply ok_micro. intros s _. split; [constructor|done]. Qed.
Lemma ok_loop_stack_push value : 0 <= value <= 0x3ffff -> ok (loop_stack_push value) any.
Proof. intros Hv. apply ok_micro. intros s _. split; [by constructor|done]. Qed.
Lemma ok_loop_stack_pop : ok loop_stack_pop any.
Proof. apply ok_micro. intros s _. split; [constructor|done]. Qed.
Lemma ok_stat_stack_push : ok stat_stack_push any.
Proof. apply ok_micro. intros s _. split; [constructor|done]. Qed.

Lemma eval_any {A} R `{!Effect R} (m : M A) Q : hoare R m Q -> hoare R m any.
Proof. intros H. by eapply hoare_weaken. Qed.

Lemma ok_pc_stack_pop_val : ok pc_stack_pop_val (fun v => 0 <= v <= 0xffffffff).
Proof.
  apply ok_micro. intros s Hs. split; [constructor|].
  assert (hoare atom pc_stack_pop_val (fun v => 0 <= v <= 0xffffffff)) as H;
    [|apply (H s Hs)].
  unfold pc_stack_pop_val. hoare_auto.
Qed.
#[export] Hint Resolve ok_pc_stack_push_val ok_cntr_stack_push ok_cntr_stack_pop
  ok_loop_stack_pop ok_stat_stack_push ok_pc_stack_pop_val : hoare_db.
#[export] Hint Extern 1 (hoare _ (loop_stack_push _) _) =>
  apply ok_loop_stack_push; hoare_side : hoare_db.
#[export] Hint Extern 1 (hoare _ pc_stack_pop_val any) =>
  eapply eval_any; [typeclasses eauto|apply ok_pc_stack_pop_val] : hoare_db.

(** [note_pcsp] only maintains the depth window. *)
Lemma note_pcsp_get f s :
  f <> PCSP_WINDOW_MAX -> f <> PCSP_WINDOW_MIN -> (exec note_pcsp s).[f] = s.[f].
Proof. intros H1 H2. unfold note_pcsp. run. repeat case_match; by gets. Qed.
Lemma note_pcsp_ars s : ars (exec note_pcsp s) = ars s.
Proof. unfold note_pcsp. run. repeat case_match; done. Qed.

Lemma pc_stack_push_eq s : pc_stack_push s = pc_stack_push_val (s.[PC]) s.
Proof.
  unfold pc_stack_push, pc_stack_push_val. rewrite !bind_eq.
  pose proof (note_pcsp_get PC s ltac:(done) ltac:(done)) as H. unfold exec in H.
  destruct (note_pcsp s) as [[] s']. cbn in H. unfold rd, mbind, M_bind. cbn.
  destruct (_ <? _); [|done]. by rewrite H.
Qed.

Lemma ok_pc_stack_push : ok pc_stack_push any.
Proof.
  intros s Hs. unfold exec, eval. rewrite pc_stack_push_eq.
  by apply ok_pc_stack_push_val.
Qed.

(** [pc_stack_pop] is a pop into PC, unless the stack is empty. *)
Lemma pc_stack_pop_eq s :
  pc_stack_pop s = (if s.[PC_SP] >? 0 then v ← pc_stack_pop_val; wr PC v
                    else pc_stack_pop_val ;; skip) s.
Proof.
  unfold pc_stack_pop, pc_stack_pop_val.
  pose proof (note_pcsp_get PC_SP s ltac:(done) ltac:(done)) as H. unfold exec in H.
  destruct (s.[PC_SP] >? 0) eqn:E; rewrite !bind_eq;
    destruct (note_pcsp s) as [[] s'] eqn:En; cbn in H;
    unfold rd, mbind, M_bind; cbn; rewrite H, E.
  - destruct (_ =? 0); repeat case_match; simplify_eq/=; done.
  - unfold sstat_or, rd, wr, mbind, M_bind. done.
Qed.

Lemma ok_pc_stack_pop : ok pc_stack_pop any.
Proof.
  intros s Hs. unfold exec, eval. rewrite pc_stack_pop_eq.
  revert s Hs. assert (forall b : bool, ok (if b then v ← pc_stack_pop_val; wr PC v
     else pc_stack_pop_val ;; skip) any) as H; [|intros s Hs; by apply H].
  intros []; hoare_auto.
Qed.

Lemma ok_pc_stack_top : ok pc_stack_top (fun v => 0 <= v <= 0xffffffff).
Proof.
  unfold pc_stack_top. hoare_auto.
Qed.
#[export] Hint Resolve ok_pc_stack_push ok_pc_stack_pop ok_pc_stack_top : hoare_db.

(** ** Interrupts, status stack and conditions *)
Section Host.
Context {host : Host} {hok : HostOk host}.
#[local] Hint Extern 1 (hoare _ (_ _) _) =>
  match goal with
  | H : sport_rx_callback = Some ?f |- hoare _ (?f _) _ => exact (host_rx f _ H)
  | H : sport_tx_callback = Some ?f |- hoare _ (?f _ _) _ => exact (host_tx f _ _ H)
  | H : timer_fired = Some ?f |- hoare _ (?f _) _ => exact (host_timer f _ H)
  end : hoare_db.

Lemma ok_swap : ok swap_banks any.
Proof using Type. apply ok_micro. intros s _. split; [constructor|done]. Qed.
#[local] Hint Resolve ok_swap : hoare_db.

Lemma ok_update_mstat : ok update_mstat any.
Proof. unfold update_mstat. hoare_auto. Qed.
#[local] Hint Resolve ok_update_mstat : hoare_db.

Lemma update_mstat_stat_sp s : (exec update_mstat s).[STAT_SP] = s.[STAT_SP].
Proof.
  unfold update_mstat. run. gets.
  assert (forall t, (if tst (s.[MSTAT] ^^^ s.[MSTAT_PREV]) MSTAT_TIMER
    then exec match timer_fired with
      | Some f => f (b2z (nz (s.[MSTAT] &&& MSTAT_TIMER)))
      | None => skip end t else t).[STAT_SP] = t.[STAT_SP]) as Ht.
  { intros t. destruct (tst _ _); [|done]. destruct timer_fired eqn:E; [|done].
    by apply host_timer_sp. }
  repeat case_match; gets; rewrite ?Ht; done.
Qed.

Lemma ok_edge_or_level bit which : 0 <= which < 9 -> ok (edge_or_level bit which) any.
Proof using Type. intros. unfold edge_or_level. hoare_auto. Qed.
#[local] Hint Extern 1 (hoare _ (edge_or_level _ _) _) =>
  apply ok_edge_or_level; vm_compute; split; congruence : hoare_db.

Lemma ok_generate_irq which priority :
  0 <= which < 9 -> 0 <= priority <= 9 -> ok (generate_irq which priority) any.
Proof using Type. intros. unfold generate_irq. hoare_auto. Qed.

Lemma ok_try_irq which priority expression rest :
  0 <= which < 9 -> 0 <= priority <= 9 -> ok expression any -> ok rest any ->
  ok (try_irq which priority expression rest) any.
Proof using Type.
  intros Hw Hp He Hr. unfold try_irq.
  eapply hoare_bind; [exact He|]. intros check _. destruct (nz check); [|done].
  eapply hoare_bind; [by apply ok_generate_irq|]. intros [] _; [apply hoare_skip|done].
Qed.

Lemma ok_check_irqs : ok check_irqs any.
Proof using Type.
  unfold check_irqs. hoare_auto.
  repeat (apply ok_try_irq;
    [vm_compute; split; congruence|vm_compute; split; congruence|hoare_auto|]).
  apply hoare_skip.
Qed.
#[local] Hint Resolve ok_check_irqs : hoare_db.

(** The status-stack pop: the drop of the pointer, then the three columns. *)
Definition stat_restore : M unit :=
  sp ← rd STAT_SP;
  m ← ard STAT_STACK_MSTAT sp; wr MSTAT m ;;
  update_mstat ;;
  sp ← rd STAT_SP;
  i ← ard STAT_STACK_IMASK sp; wr IMASK i ;;
  sp ← rd STAT_SP;
  a ← ard STAT_STACK_ASTAT sp; wr ASTAT a ;;
  check_irqs.

Lemma exec_bind_unit {A} (m : M unit) (k : M A) s : (m ;; k) s = k (exec m s).
Proof using Type. rewrite bind_eq. unfold exec. by destruct (m s). Qed.

Lemma rd_at {B} f (k : Z -> M B) s : (x ← rd f; k x) s = k (s.[f]) s.
Proof using Type. done. Qed.

(** Dropping the status-stack pointer. *)
Definition stat_drop (sp : Z) : M unit :=
  wr STAT_SP (sp - 1) ;; when (sp - 1 =? 0) (sstat_or STATUS_EMPTY).

Lemma stat_drop_sp sp s : 0 < sp <= 4 -> (exec (stat_drop sp) s).[STAT_SP] = sp - 1.
Proof using Type.
  intros Hsp. unfold stat_drop, sstat_or. run.
  destruct (_ =? 0); gets; apply (in_frange_conv STAT_SP);
    unfold in_frange; hoare_ranges; lia.
Qed.

Lemma stat_stack_pop_eq s : 0 < s.[STAT_SP] <= 4 ->
  stat_stack_pop s = stat_restore (exec (stat_drop (s.[STAT_SP])) s).
Proof using Type.
  intros Hsp. unfold stat_stack_pop, stat_restore.
  rewrite rd_at. assert (s.[STAT_SP] >? 0 = true) as -> by lia.
  rewrite rd_at, stat_drop_sp by done. unfold stat_drop. rewrite exec_bind.
  rewrite wr_rd, in_frange_conv by (unfold in_frange; hoare_ranges; lia).
  by rewrite !exec_bind_unit.
Qed.

(** A command followed by the rest, at one state. *)
Lemma micros_then {A B} (m : M A) (f : A -> M B) Q s :
  ok m Q -> Wf s ->
  (Wf (exec m s) -> Q (eval m s) -> micros (exec m s) (exec (f (eval m s)) (exec m s))) ->
  micros s (exec (m ≫= f) s).
Proof using Type.
  intros Hm Hs Hf. rewrite exec_bind. destruct (Hm s Hs) as [H1 H2].
  transitivity (exec m s); [done|]. apply Hf; [by eapply micros_wf|done].
Qed.

Lemma ok_stat_restore s :
  Wf s -> s.[STAT_SP] < 4 -> micros s (exec stat_restore s).
Proof.
  intros Hs Hlt. pose proof (wf_field s Hs STAT_SP) as Hsp.
  unfold in_frange in Hsp. hoare_ranges.
  unfold stat_restore, exec. rewrite rd_at. change (snd (?m s)) with (exec m s).
  eapply micros_then; [apply hoare_ard; hoare_side|done|].
  rewrite exec_ard, eval_ard by (cbn; lia). intros _ Hm.
  eapply micros_then; [hoare_step|done|]. intros Hs1 _. rewrite exec_wr in *.
  eapply micros_then; [apply ok_update_mstat|done|]. intros Hs2 _.
  set (t := exec update_mstat _) in *.
  assert (t.[STAT_SP] = s.[STAT_SP]) as E by (unfold t; rewrite update_mstat_stat_sp; by gets).
  unfold exec. rewrite rd_at, E. change (snd (?m t)) with (exec m t).
  eapply micros_then; [apply hoare_ard; hoare_side|done|].
  rewrite exec_ard, eval_ard by (cbn; lia). intros _ Hi.
  eapply micros_then; [hoare_step|done|]. intros Hs3 _. rewrite exec_wr in *.
  unfold exec. rewrite rd_at, get_set_ne, E by done. change (snd (?m ?t)) with (exec m t).
  eapply micros_then; [apply hoare_ard; hoare_side|done|].
  rewrite exec_ard, eval_ard by (cbn; lia). intros _ Ha.
  eapply micros_then; [hoare_step|done|]. intros Hs4 _. by apply ok_check_irqs.
Qed.

Lemma ok_stat_stack_pop : ok stat_stack_pop any.
Proof.
  intros s Hs. split; [|done]. pose proof (wf_field s Hs STAT_SP) as Hsp.
  unfold in_frange in Hsp. hoare_ranges.
  destruct (Z.eq_dec (s.[STAT_SP]) 0) as [E|].
  - unfold exec, stat_stack_pop. rewrite rd_at, E.
    apply rtc_once. by apply micro_stat_empty.
  - unfold exec. rewrite stat_stack_pop_eq by lia.
    assert (micro s (exec (stat_drop (s.[STAT_SP])) s)) as Hm by (apply micro_stat_drop; lia).
    etransitivity; [by apply rtc_once|].
    apply ok_stat_restore; [by eapply micro_wf|]. rewrite stat_drop_sp; lia.
Qed.
#[local] Hint Resolve ok_stat_stack_pop : hoare_db.

Lemma ok_condition c : 0 <= c <= 15 -> ok (CONDITION c) any.
Proof using Type.
  intros Hc. unfold CONDITION. destruct (negb (c =? 14)).
  - eapply hoare_bind; [apply hoare_rd|]. intros a Ha. cbv beta in Ha. hoare_ranges.
    assert ((c <<< 8) ||| a <? 0x1000 = true) as ->; [|by apply hoare_ret].
    assert (0 <= (c <<< 8) ||| a <= 4095); [|lia].
    apply (lor_le _ _ 12); [lia|done| |lia].
    rewrite Z.shiftl_mul_pow2 by done. lia.
  - hoare_auto.
Qed.
#[local] Hint Extern 1 (hoare _ (CONDITION _) _) => apply ok_condition; hoare_side : hoare_db.

(** ** Memory *)
Lemma ok_watch_dm_charge x : 0 <= x < 0x4000 -> ok (watch_dm_charge x) any.
Proof using Type. intros. unfold watch_dm_charge. hoare_auto. Qed.
#[local] Hint Resolve ok_watch_dm_charge : hoare_db.

Lemma mask14_range x : 0 <= x &&& 0x3fff < 0x4000.
Proof using Type. pose proof (land_range_r x 0x3fff). lia. Qed.

Lemma ok_RWORD_DATA x : ok (RWORD_DATA x) (fun v => 0 <= v <= 0xffff).
Proof using Type.
  unfold RWORD_DATA. cbv zeta. pose proof (mask14_range x) as Hx.
  generalize dependent (x &&& 0x3fff). clear x. intros x Hx.
  eapply hoare_bind; [hoare_step|]. intros ov Hov. cbv beta in Hov. hoare_ranges.
  eapply (hoare_bind _ _ (fun v => 0 <= v <= 0xffff)).
  - destruct ((x <? 0x2000) && overlay_on ov) eqn:E.
    + apply andb_true_iff in E as [E1 E2%overlay_on_spec]. hoare_auto.
    + hoare_auto.
  - intros v Hv. hoare_auto.
Qed.

(** Everything [WWORD_DATA] does before the store itself. *)
Definition dm_prefix (x v : Z) : M unit :=
  v ← pin_dm_value x v;
  latch_dm_store x v ;; stop_dm_store x ;; census_dm_store x v.
Definition dm_prefix_f (f : field) : bool :=
  match f with
  | LATCH_DM_HAVE | LATCH_DM_VALUE | LATCH_DM_COUNT | STOP_DM_LEFT | STOP_DM_HIT
  | ICOUNT => true
  | _ => false
  end.
Definition dm_prefix_a (a : arr) : bool :=
  match a with PIN_DM_HITS | WATCH_DM | WATCH_DM_LEFT | DM_CENSUS => true | _ => false end.

Lemma pin_dm_value_eval x v s : 0 <= x < 0x4000 -> eval (pin_dm_value x v) s = pinned_dm s x v.
Proof using Type.
  intros Hx. unfold pin_dm_value, pinned_dm. run. by destruct (nz _).
Qed.

Lemma dm_prefix_touches x v : 0 <= x < 0x4000 -> 0 <= v <= 0xffff ->
  hoare (touches dm_prefix_f dm_prefix_a) (dm_prefix x v) any.
Proof using Type.
  intros Hx Hv. unfold dm_prefix, pin_dm_value, latch_dm_store, stop_dm_store,
    census_dm_store, watch_dm_charge. hoare_auto.
Qed.

Lemma ok_dm_prefix x v : 0 <= x < 0x4000 -> 0 <= v <= 0xffff -> ok (dm_prefix x v) any.
Proof using Type.
  intros Hx Hv. unfold dm_prefix, pin_dm_value, latch_dm_store, stop_dm_store,
    census_dm_store, watch_dm_charge. hoare_auto.
Qed.

Lemma u16_range v : 0 <= u16 v <= 0xffff.
Proof using Type. pose proof (conv_range U16 v). cbv [cmin cmax cbits csigned] in *. conv_lits. lia. Qed.

(** The store itself, with the cell and the value it stores. *)
Lemma WWORD_DATA_eq x v s : Wf s ->
  exec (WWORD_DATA x v) s =
  let x := x &&& 0x3fff in
  aset (dm_cell s x).1 (dm_cell s x).2 (pinned_dm s x (u16 v)) (exec (dm_prefix x (u16 v)) s).
Proof using Type.
  intros Hs. unfold WWORD_DATA. cbv zeta. pose proof (mask14_range x) as Hx.
  generalize dependent (x &&& 0x3fff). clear x. intros x Hx.
  pose proof (u16_range v) as Hv. revert Hv. generalize (u16 v). clear v. intros v Hv.
  destruct (dm_prefix_touches x v Hx Hv s Hs) as [(_ & Hf & _) _].
  pose proof (Hf DMOVLAY eq_refl) as Hov. clear Hf.
  pose proof (pinned_dm_range s x v Hs Hv) as Hp.
  unfold dm_prefix in *. rewrite !exec_bind, !pin_dm_value_eval in * by done.
  set (t := exec (census_dm_store _ _) _) in *. rewrite eval_rd, exec_rd, Hov. unfold dm_cell.
  destruct ((x <? 0x2000) && overlay_on (s.[DMOVLAY])) eqn:E.
  - apply andb_true_iff in E as [E1 E2%overlay_on_spec].
    rewrite exec_awr by (cbn; lia). by rewrite (in_arange_conv DATA_OVERLAY).
  - rewrite exec_awr by (cbn; lia). by rewrite (in_arange_conv DATA).
Qed.

Lemma pinned_dm_touches x v s t :
  hoare (touches dm_prefix_f dm_prefix_a) (dm_prefix x v) any ->
  Wf s -> t = exec (dm_prefix x v) s ->
  (forall w, pinned_dm t x w = pinned_dm s x w) /\ dm_cell t x = dm_cell s x.
Proof using Type.
  intros H Hs ->. destruct (H s Hs) as [(_ & Hf & Ha) _].
  unfold pinned_dm, dm_cell, aget. by rewrite Hf, !Ha.
Qed.

Lemma ok_WWORD_DATA x v : ok (WWORD_DATA x v) any.
Proof using Type.
  intros s Hs. split; [|done]. rewrite WWORD_DATA_eq by done. cbv zeta.
  pose proof (mask14_range x) as Hx. generalize dependent (x &&& 0x3fff). clear x. intros x Hx.
  pose proof (u16_range v) as Hv.
  destruct (ok_dm_prefix x (u16 v) Hx Hv s Hs) as [Hp _].
  destruct (pinned_dm_touches x (u16 v) s _ (dm_prefix_touches x _ Hx Hv) Hs eq_refl) as [E1 E2].
  etransitivity; [exact Hp|]. apply rtc_once. rewrite <- E1, <- E2. by constructor.
Qed.

(** *** Program memory *)
Lemma ok_pgm_word x : 0 <= x < 0x4000 -> ok (pgm_word x) (fun v => 0 <= v <= 0xffffff).
Proof using Type.
  intros Hx. unfold pgm_word. eapply hoare_bind; [hoare_step|]. intros ov Hov. cbv beta in Hov.
  hoare_ranges. eapply (hoare_bind _ _ any); [|intros; apply hoare_ret; bnd].
  destruct ((x >=? 0x2000) && overlay_on ov) eqn:E.
  - apply andb_true_iff in E as [E1 E2%overlay_on_spec]. hoare_auto.
  - hoare_auto.
Qed.
#[local] Hint Resolve ok_pgm_word : hoare_db.

Lemma ok_RWORD_PGM x : ok (RWORD_PGM x) (fun v => 0 <= v <= 0xffffff).
Proof using Type.
  unfold RWORD_PGM. cbv zeta. pose proof (mask14_range x) as Hx.
  generalize dependent (x &&& 0x3fff). clear x. intros x Hx. hoare_auto.
Qed.

Definition pm_prefix (x v : Z) : M Z :=
  gate ← rd WATCH_GATE;
  w ← ard WATCH_PM x;
  (if nz gate && nz w then
     old ← pgm_word x;
     when (negb (old =? (v &&& 0xffffff))) (logerror (EvPmWrite x (v &&& 0xffffff)))
   else skip) ;;
  pin_pm_value x v.
Definition none_f (f : field) : bool := false.
Definition pm_prefix_a (a : arr) : bool := match a with PIN_PM_HITS => true | _ => false end.

Lemma pgm_word_touches x : 0 <= x < 0x4000 ->
  hoare (touches none_f pm_prefix_a) (pgm_word x) any.
Proof using Type.
  intros Hx. unfold pgm_word. eapply hoare_bind; [hoare_step|]. intros ov Hov. cbv beta in Hov.
  hoare_ranges. eapply (hoare_bind _ _ any); [|intros; by apply hoare_ret].
  destruct ((x >=? 0x2000) && overlay_on ov) eqn:E; [|hoare_auto].
  apply andb_true_iff in E as [E1 E2%overlay_on_spec]. hoare_auto.
Qed.
#[local] Hint Resolve pgm_word_touches : hoare_db.

Lemma pm_prefix_touches x v : 0 <= x < 0x4000 ->
  hoare (touches none_f pm_prefix_a) (pm_prefix x v) any.
Proof using Type. intros Hx. unfold pm_prefix, pin_pm_value. hoare_auto. Qed.
Lemma ok_pm_prefix x v : 0 <= x < 0x4000 -> ok (pm_prefix x v) any.
Proof using Type. intros Hx. unfold pm_prefix, pin_pm_value. hoare_auto. Qed.

Lemma pm_prefix_eval x v s : Wf s -> 0 <= x < 0x4000 ->
  eval (pm_prefix x v) s = pinned_pm s x v.
Proof using Type.
  intros Hs Hx. unfold pm_prefix, pin_pm_value, pinned_pm. run.
  assert (forall t, t = s \/ ars t = ars s -> t.{PIN_PM, x} = s.{PIN_PM, x} /\
    t.{PIN_PM_VALUE, x} = s.{PIN_PM_VALUE, x}) as Ht.
  { intros t [-> | E]; [done|]. unfold aget. by rewrite E. }
  assert (ars (exec (pgm_word x) s) = ars s) as Ep.
  { unfold pgm_word. run. destruct (_ && _) eqn:E; [|by run].
    apply andb_true_iff in E as [E1 E2%overlay_on_spec]. by run. }
  destruct (nz _ && nz _).
  - destruct (negb _); [|edestruct (Ht (exec (pgm_word x) s)) as [-> ->]; [by right|]];
      [edestruct (Ht (add_event (EvPmWrite x (v &&& 16777215)) (exec (pgm_word x) s))) as [-> ->];
        [by right|]|]; by destruct (nz _).
  - by destruct (nz _).
Qed.

Lemma WWORD_PGM_eq x v s : Wf s ->
  exec (WWORD_PGM x v) s =
  let x := x &&& 0x3fff in
  aset (pm_cell s x).1 (pm_cell s x).2 (pinned_pm s x (u32 v) &&& 0xffffff)
    (exec (pm_prefix x (u32 v)) s).
Proof using Type.
  intros Hs. unfold WWORD_PGM. cbv zeta. pose proof (mask14_range x) as Hx.
  generalize dependent (x &&& 0x3fff). clear x. intros x Hx. generalize (u32 v). clear v. intros v.
  destruct (pm_prefix_touches x v Hx s Hs) as [(_ & Hf & _) _].
  pose proof (Hf PMOVLAY eq_refl) as Hov. clear Hf.
  rewrite <- (pm_prefix_eval x v s Hs Hx).
  assert (forall k, exec (gate ← rd WATCH_GATE; w ← ard WATCH_PM x;
    (if nz gate && nz w then
     old ← pgm_word x;
     when (negb (old =? (v &&& 0xffffff))) (logerror (EvPmWrite x (v &&& 0xffffff)))
   else skip) ;; v ← pin_pm_value x v; k v) s = exec (v ← pm_prefix x v; k v : M unit) s) as Ek.
  { intros k. unfold pm_prefix. by rewrite !exec_bind, !eval_bind. }
  rewrite Ek. rewrite exec_bind. set (w := eval _ s) in *. set (t := exec _ s) in *.
  rewrite exec_bind, eval_rd, exec_rd, Hov. unfold pm_cell.
  assert (0 <= w &&& 0xffffff <= 0xffffff) as Hw by bnd.
  destruct ((x >=? 0x2000) && overlay_on (s.[PMOVLAY])) eqn:E.
  - apply andb_true_iff in E as [E1 E2%overlay_on_spec].
    rewrite exec_awr by (cbn; lia). rewrite (in_arange_conv PROGRAM_OVERLAY); [done|].
    unfold in_arange. hoare_ranges. lia.
  - rewrite exec_awr by (cbn; lia). rewrite (in_arange_conv PROGRAM); [done|].
    unfold in_arange. hoare_ranges. lia.
Qed.

Lemma ok_WWORD_PGM x v : ok (WWORD_PGM x v) any.
Proof using Type.
  intros s Hs. split; [|done]. rewrite WWORD_PGM_eq by done. cbv zeta.
  pose proof (mask14_range x) as Hx. generalize dependent (x &&& 0x3fff). clear x. intros x Hx.
  destruct (ok_pm_prefix x (u32 v) Hx s Hs) as [Hp _].
  destruct (pm_prefix_touches x (u32 v) Hx s Hs) as [(_ & Hf & Ha) _].
  etransitivity; [exact Hp|]. apply rtc_once.
  set (t := exec _ s) in *.
  assert (pm_cell s x = pm_cell t x) as -> by (unfold pm_cell; by rewrite Hf).
  assert (pinned_pm s x (u32 v) = pinned_pm t x (u32 v)) as ->
    by (unfold pinned_pm, aget; by rewrite !Ha).
  by constructor.
Qed.

Lemma ok_RWORD_IO x : ok (RWORD_IO x) any.
Proof using Type. unfold RWORD_IO. pose proof (land_range_r x 0x7ff). hoare_auto. Qed.
Lemma ok_WWORD_IO x v : ok (WWORD_IO x v) any.
Proof using Type. unfold WWORD_IO. pose proof (land_range_r x 0x7ff). hoare_auto. Qed.
#[local] Hint Resolve ok_RWORD_DATA ok_WWORD_DATA ok_RWORD_PGM ok_WWORD_PGM ok_RWORD_IO
  ok_WWORD_IO : hoare_db.
End Host.

#[export] Hint Resolve ok_swap ok_update_mstat ok_check_irqs ok_stat_stack_pop
  ok_RWORD_DATA ok_WWORD_DATA ok_pgm_word ok_RWORD_PGM ok_WWORD_PGM ok_RWORD_IO
  ok_WWORD_IO : hoare_db.
#[export] Hint Extern 1 (hoare _ (CONDITION _) _) =>
  apply ok_condition; hoare_side : hoare_db.
#[export] Hint Extern 1 (hoare _ (_ _) _) =>
  match goal with
  | H : sport_rx_callback = Some ?f |- hoare _ (?f _) _ => exact (host_rx f _ H)
  | H : sport_tx_callback = Some ?f |- hoare _ (?f _ _) _ => exact (host_tx f _ _ H)
  | H : timer_fired = Some ?f |- hoare _ (?f _) _ => exact (host_timer f _ H)
  end : hoare_db.
