(* ===== verification/EffectsExec.v ===== *)
(** * The effects of instructions

    [ok] for register access, the computational units and every opcode, up to
    one pass of [execute]; then the loop and [execute] itself. *)
From S2P Require Import Prelude State Tables Memory Stacks Regs Alu Mac Shift Exec Effects EffectsOps.

(** ** Registers *)
Definition plain_ref (x : rref) : Prop :=
  match x with Full MR | Full ZERO => False | _ => True end.

Lemma ok_rd_u x : ok (rd_u x) any.
Proof. unfold rd_u. destruct x; hoare_auto. Qed.
#[export] Hint Resolve ok_rd_u : hoare_db.
Lemma ok_rd_s x : ok (rd_s x) (fun v => -32768 <= v <= 32767).
Proof. unfold rd_s. hoare_auto. Qed.
#[export] Hint Resolve ok_rd_s : hoare_db.


(** Writes that leave MR normalised. *)
Lemma ok_mr_cmd (m : M unit) :
  (forall s, Wf s -> (exists v, (exec m s).[Core MR] = u64 (sign_extend_mr40 v)) /\
    (forall f, f <> Core MR -> (exec m s).[f] = s.[f]) /\ ars (exec m s) = ars s) ->
  ok m any.
Proof.
  intros H. apply ok_micro. intros s Hs. destruct (H s Hs) as ([v Hv] & Hf & Ha).
  split; [by apply (micro_mr s v)|done].
Qed.

Lemma u64_sext v : u64 (u64 (sign_extend_mr40 v)) = u64 (sign_extend_mr40 v).
Proof. apply conv_conv. Qed.

Lemma ok_wr_mr0 v : ok (wr_r MR0 v) any.
Proof. apply ok_micro. intros s Hs. split; [apply micro_mr0|done]. Qed.
Lemma ok_wr_mr1 v : ok (wr_mr1 v) any.
Proof.
  apply ok_mr_cmd. intros s _. unfold wr_mr1, wr_r, normalize_mr. run.
  split; [|split; [intros f Hf; by gets|done]].
  eexists. rewrite get_set_eq. apply u64_sext.
Qed.
Lemma ok_wr_mr2 v : ok (wr_mr2 v) any.
Proof.
  apply ok_mr_cmd. intros s _. unfold wr_mr2, wr_r, normalize_mr. run.
  split; [|split; [intros f Hf; by gets|done]].
  eexists. rewrite get_set_eq. apply u64_sext.
Qed.
Lemma ok_mac_to_mr_wr res : ok (wr (Core MR) (u64 (sign_extend_mr40 (u64 res)))) any.
Proof.
  apply ok_mr_cmd. intros s _. run. split; [|split; [intros f Hf; by gets|done]].
  eexists. rewrite get_set_eq. apply u64_sext.
Qed.
Lemma ok_sr0 v : ok (wr_r SR0 v) any.
Proof. unfold wr_r. hoare_auto. Qed.
Lemma ok_sr1 v : ok (wr_r SR1 v) any.
Proof. unfold wr_r. hoare_auto. Qed.
#[export] Hint Resolve ok_wr_mr0 ok_wr_mr1 ok_wr_mr2 ok_mac_to_mr_wr ok_sr0 ok_sr1 : hoare_db.

Lemma sign_extend_14_range v : -8192 <= sign_extend_14 v <= 8191.
Proof.
  unfold sign_extend_14. pose proof (land_range_r v 0x3fff) as H.
  generalize dependent (v &&& 0x3fff). intros x H.
  assert (all_below 0x4000 (fun x => let y := if tst x 0x2000 then x - 0x4000 else x in
    (-8192 <=? y) && (y <=? 8191)) = true) as Hall by (vm_compute; reflexivity).
  pose proof (all_below_spec _ _ Hall x ltac:(lia)) as Hx. cbv beta zeta in Hx. lia.
Qed.

Lemma ok_wr_l k val : 0 <= k < 8 -> ok (wr_l k val) any.
Proof. intros Hk. apply ok_micro. intros s Hs. split; [by constructor|done]. Qed.
Lemma ok_wr_i k val : 0 <= k < 8 -> ok (wr_i k val) any.
Proof. intros Hk. unfold wr_i, update_i. hoare_auto. Qed.
Lemma ok_wr_m k val : 0 <= k < 8 -> ok (wr_m k val) any.
Proof.
  intros Hk. unfold wr_m. pose proof (sign_extend_14_range val). hoare_auto.
Qed.
#[export] Hint Extern 1 (hoare _ (wr_l _ _) _) => apply ok_wr_l; lia : hoare_db.
#[export] Hint Extern 1 (hoare _ (wr_i _ _) _) => apply ok_wr_i; lia : hoare_db.
#[export] Hint Extern 1 (hoare _ (wr_m _ _) _) => apply ok_wr_m; lia : hoare_db.

Section Host.
Context {host : Host} {hok : HostOk host}.

Lemma ok_latch_if val bit which v : 0 <= which < 9 -> ok (latch_if val bit which v) any.
Proof using Type. intros. unfold latch_if. hoare_auto. Qed.
Lemma ok_wr_ifc val : ok (wr_ifc val) any.
Proof using Type.
  unfold wr_ifc. hoare_auto.
  all: repeat (eapply (hoare_bind _ _ any); [|intros _ _]); apply ok_latch_if; hoare_side.
Qed.

#[local] Hint Resolve ok_wr_ifc : hoare_db.

Lemma ok_wr_tx port val : 0 <= port < 2 -> ok (wr_tx port val) any.
Proof. intros. unfold wr_tx. hoare_auto. Qed.
#[local] Hint Extern 1 (hoare _ (wr_tx _ _) _) => apply ok_wr_tx; lia : hoare_db.

Lemma ok_WRITE_REG grp reg val : ok (WRITE_REG grp reg val) any.
Proof.
  unfold WRITE_REG. cbv zeta. generalize (s32 val). clear val. intros val.
  switch_cases;
    first [ solve [eauto with hoare_db nocore]
          | unfold wr_inval, wr_ax0, wr_ax1, wr_mx0, wr_mx1, wr_ay0, wr_ay1, wr_my0, wr_my1,
              wr_si, wr_se, wr_ar, wr_mr0, wr_sr0, wr_sr1, wr_pmovlay, wr_dmovlay, wr_astat,
              wr_imask, wr_icntl, wr_cntr, wr_sb, wr_px, wr_rx, wr_owrctr, wr_topstack,
              wr_mstat; hoare_auto ].
Qed.

Lemma ok_READ_REG grp reg : ok (READ_REG grp reg) any.
Proof using Type.
  unfold READ_REG. eapply (hoare_bind _ _ any); [|intros; by apply hoare_ret].
  switch_cases; unfold rd_inval, rd_stacktop; hoare_auto.
Qed.
#[local] Hint Resolve ok_WRITE_REG ok_READ_REG : hoare_db.

(** ** Address generators *)
Lemma ok_modified_address ireg mreg : 0 <= ireg < 8 -> 0 <= mreg < 8 ->
  ok (modified_address ireg mreg) (fun v => 0 <= v <= 0x3fff).
Proof using Type. intros. unfold modified_address. hoare_auto. Qed.
#[local] Hint Resolve ok_modified_address : hoare_db.
Lemma ok_modify_address ireg mreg : 0 <= ireg < 8 -> 0 <= mreg < 8 ->
  ok (modify_address ireg mreg) any.
Proof using Type. intros. unfold modify_address. hoare_auto. Qed.
#[local] Hint Extern 1 (hoare _ (modify_address _ _) _) =>
  apply ok_modify_address; hoare_side : hoare_db.

Lemma ok_data_write_dag1 op val : ok (data_write_dag1 op val) any.
Proof using Type. unfold data_write_dag1. hoare_auto. Qed.
Lemma ok_data_read_dag1 op : ok (data_read_dag1 op) any.
Proof using Type. unfold data_read_dag1. hoare_auto. Qed.
Lemma ok_data_write_dag2 op val : ok (data_write_dag2 op val) any.
Proof using Type. unfold data_write_dag2. hoare_auto. Qed.
Lemma ok_data_read_dag2 op : ok (data_read_dag2 op) any.
Proof using Type. unfold data_read_dag2. hoare_auto. Qed.
Lemma ok_pgm_write_dag2 op val : ok (pgm_write_dag2 op val) any.
Proof using Type. unfold pgm_write_dag2. hoare_auto. Qed.
Lemma ok_pgm_read_dag2 op : ok (pgm_read_dag2 op) any.
Proof using Type. unfold pgm_read_dag2. hoare_auto. Qed.
#[local] Hint Resolve ok_data_write_dag1 ok_data_read_dag1 ok_data_write_dag2
  ok_data_read_dag2 ok_pgm_write_dag2 ok_pgm_read_dag2 : hoare_db.

(** ** Computational units *)
Lemma ok_SET_F flag : 0 <= flag <= 0xff -> ok (SET_F flag) any.
Proof using Type. intros. unfold SET_F. hoare_auto. Qed.
Lemma ok_CLR_F flag : ok (CLR_F flag) any.
Proof using Type. unfold CLR_F. hoare_auto. Qed.
#[local] Hint Extern 1 (hoare _ (SET_F _) _) => apply ok_SET_F; hoare_side : hoare_db.
#[local] Hint Resolve ok_CLR_F : hoare_db.
Ltac unfold_flags := unfold CALC_NZVC_SUB, CALC_NZVC, CALC_NZV, CALC_NZ, CALC_N, CALC_Z,
  CALC_V, CALC_C, CALC_C_SUB, CLR_FLAGS, GET_C, GET_V, GET_Q, GET_SS, GET_MV.

Lemma ok_ym1_mark r : ok (ym1_mark r) any.
Proof using Type.
  unfold ym1_mark. apply hoare_for_upto. intros k.
  destruct (r.1 <? 0) eqn:E1, (r.2 >? 0x3fff) eqn:E2; intros Hk; hoare_auto.
Qed.
Lemma ok_ym1_mark_all l : ok (ym1_mark_all l) any.
Proof using Type.
  induction l as [|r l IH]; cbn; [apply hoare_skip|].
  eapply hoare_bind; [apply ok_ym1_mark|done].
Qed.
#[local] Hint Resolve ok_ym1_mark_all : hoare_db.
Lemma ok_YM1_CARRY y r : ok (YM1_CARRY y r) any.
Proof using Type. unfold YM1_CARRY, ym1_env_init. unfold_flags. hoare_auto. Qed.
#[local] Hint Resolve ok_YM1_CARRY : hoare_db.

Lemma ok_alu_switch op getx gety : ok getx any -> ok gety any -> ok (alu_switch op getx gety) any.
Proof using Type.
  intros Hx Hy. unfold alu_switch. generalize ((op >>> 13) &&& 15). intros n.
  unfold_flags. switch_cases; hoare_auto.
Qed.

Lemma ok_alu_saturate res : ok (alu_saturate res) any.
Proof using Type. unfold alu_saturate, GET_V, GET_C. hoare_auto. Qed.
#[local] Hint Resolve ok_alu_saturate : hoare_db.
#[local] Hint Extern 1 (hoare _ (alu_switch _ _ _) _) =>
  apply ok_alu_switch; [apply ok_rd_u|first [apply ok_rd_u|by apply hoare_ret]] : hoare_db.

Lemma ok_alu_op_ar op : ok (alu_op_ar op) any.
Proof using Type. unfold alu_op_ar. hoare_auto. Qed.
Lemma ok_alu_op_ar_const op : ok (alu_op_ar_const op) any.
Proof using Type. unfold alu_op_ar_const. hoare_auto. Qed.
Lemma ok_alu_op_af op : ok (alu_op_af op) any.
Proof using Type. unfold alu_op_af. hoare_auto. Qed.
Lemma ok_alu_op_af_const op : ok (alu_op_af_const op) any.
Proof using Type. unfold alu_op_af_const. hoare_auto. Qed.
Lemma ok_alu_op_none op : ok (alu_op_none op) any.
Proof using Type.
  unfold alu_op_none. eapply (hoare_bind _ _ any); [|intros; apply hoare_skip].
  solve [eauto with hoare_db nocore].
Qed.
Lemma ok_divs op : ok (divs op) any.
Proof using Type. unfold divs, QFLAG, ALU_GETXREG_UNSIGNED, ALU_GETYREG_UNSIGNED. hoare_auto. Qed.
Lemma ok_divq op : ok (divq op) any.
Proof using Type. unfold divq, QFLAG, ALU_GETXREG_UNSIGNED, GET_Q. hoare_auto. Qed.
#[local] Hint Resolve ok_alu_op_ar ok_alu_op_ar_const ok_alu_op_af ok_alu_op_af_const
  ok_alu_op_none ok_divs ok_divq : hoare_db.

Lemma ok_mac_round_mode res : ok (mac_round_mode res) any.
Proof using Type. unfold mac_round_mode. hoare_auto. Qed.
#[local] Hint Resolve ok_mac_round_mode : hoare_db.
Lemma ok_mac_switch op xs xu ys yu : ok xs any -> ok xu any -> ok ys any -> ok yu any ->
  ok (mac_switch op xs xu ys yu) any.
Proof using Type.
  intros. unfold mac_switch, mac_shift, mr_plus, mr_minus. generalize ((op >>> 13) &&& 15).
  intros n. eapply (hoare_bind _ _ any); [hoare_auto|]. intros sh _. cbv zeta.
  switch_cases; hoare_auto.
Qed.
Lemma ok_mac_switch_xop op xs xu : ok xs any -> ok xu any -> ok (mac_switch_xop op xs xu) any.
Proof using Type.
  intros. unfold mac_switch_xop, mac_shift, mr_plus, mr_minus. generalize ((op >>> 13) &&& 15).
  intros n. eapply (hoare_bind _ _ any); [hoare_auto|]. intros sh _. cbv zeta.
  switch_cases; hoare_auto.
Qed.
Lemma ok_mac_set_mv res : ok (mac_set_mv res) any.
Proof using Type. unfold mac_set_mv. hoare_auto. Qed.
#[local] Hint Resolve ok_mac_set_mv : hoare_db.
Lemma ok_mac_to_mr r : ok (mac_to_mr r) any.
Proof using Type. unfold mac_to_mr. destruct r; hoare_auto. Qed.
Lemma ok_mac_to_mf r : ok (mac_to_mf r) any.
Proof using Type. unfold mac_to_mf. destruct r; hoare_auto. Qed.
#[local] Hint Resolve ok_mac_to_mr ok_mac_to_mf : hoare_db.

Lemma ok_rd_s_any x : ok (rd_s x) any.
Proof using Type. eapply eval_any; [typeclasses eauto|apply ok_rd_s]. Qed.
#[local] Hint Extern 1 (hoare _ (mac_switch _ _ _ _ _) _) =>
  apply ok_mac_switch; first [apply ok_rd_u|apply ok_rd_s_any] : hoare_db.
#[local] Hint Extern 1 (hoare _ (mac_switch_xop _ _ _) _) =>
  apply ok_mac_switch_xop; first [apply ok_rd_u|apply ok_rd_s_any] : hoare_db.

Lemma ok_mac_op_mr op : ok (mac_op_mr op) any.
Proof using Type. unfold mac_op_mr. hoare_auto. Qed.
Lemma ok_mac_op_mf op : ok (mac_op_mf op) any.
Proof using Type. unfold mac_op_mf. hoare_auto. Qed.
Lemma ok_mac_op_mr_xop op : ok (mac_op_mr_xop op) any.
Proof using Type. unfold mac_op_mr_xop. hoare_auto. Qed.
Lemma ok_mac_op_mf_xop op : ok (mac_op_mf_xop op) any.
Proof using Type. unfold mac_op_mf_xop. hoare_auto. Qed.
Lemma ok_saturate_mr : ok saturate_mr any.
Proof using Type.
  unfold saturate_mr, GET_MV. eapply (hoare_bind _ _ any); [hoare_auto|]. intros mv _.
  destruct (nz mv); [|apply hoare_skip]. apply ok_mr_cmd. intros s _.
  unfold wr_r, normalize_mr. run. destruct (tst _ _);
    (split; [|split; [intros f Hf; by gets|done]]);
    eexists; rewrite get_set_eq; apply u64_sext.
Qed.
#[local] Hint Resolve ok_mac_op_mr ok_mac_op_mf ok_mac_op_mr_xop ok_mac_op_mf_xop
  ok_saturate_mr : hoare_db.

Lemma ok_shift_into_sr op sc : ok (shift_into_sr op sc) any.
Proof using Type.
  unfold shift_into_sr, sr_set, sr_or, SHIFT_GETXREG_UNSIGNED, SHIFT_GETXREG_SIGNED.
  cbv zeta. generalize ((op >>> 11) &&& 15). intros n. switch_cases; hoare_auto.
Qed.
#[local] Hint Resolve ok_shift_into_sr : hoare_db.

(** Operand ranges reach the exponent loops, which then end. *)
Lemma ok_exp_hi {A} v (k : Z -> M A) : -32768 <= v <= 32767 ->
  (forall n, ok (k n) any) -> ok (res ← loop_result (exp_hi (shift_hi_s v)); k res) any.
Proof using Type.
  intros Hv Hk. rewrite exp_hi_spec by done. eapply (hoare_bind _ _ any); [by apply hoare_ret|].
  intros; apply Hk.
Qed.
Lemma ok_exp_lo {A} ss v (k : Z -> M A) : -32768 <= v <= 32767 ->
  (forall n, ok (k n) any) -> ok (res ← loop_result (exp_lo ss v); k res) any.
Proof using Type.
  intros Hv Hk. rewrite exp_lo_spec by done. eapply (hoare_bind _ _ any); [by apply hoare_ret|].
  intros; apply Hk.
Qed.

Ltac exp_step :=
  first [ apply ok_exp_hi; [lia|intros ?] | apply ok_exp_lo; [lia|intros ?] | hoare_step ].
Ltac exp_auto := repeat (cbv beta zeta; exp_step).

Lemma ok_shift_op op : ok (shift_op op) any.
Proof using Type.
  unfold shift_op, exp_hi_op, exp_hix_op, exp_lo_op, expadj_op, SHIFT_GETXREG_SIGNED,
    GET_V, GET_SS. cbv zeta. generalize ((op >>> 11) &&& 15). intros n.
  eapply hoare_bind; [apply ok_rd_s|]. intros se _. cbv beta.
  switch_cases; exp_auto.
Qed.
Lemma ok_shift_op_imm op : ok (shift_op_imm op) any.
Proof using Type. unfold shift_op_imm. hoare_auto. Qed.
#[local] Hint Resolve ok_shift_op ok_shift_op_imm : hoare_db.

(** ** Opcodes *)
Lemma ok_if_cond op body : ok body any -> ok (if_cond op body) any.
Proof using Type.
  intros H. unfold if_cond. eapply (hoare_bind _ _ any); [apply ok_condition; hoare_side|].
  intros [] _; [done|apply hoare_skip].
Qed.

Lemma xor1_range v : 0 <= v <= 1 -> 0 <= v ^^^ 1 <= 1.
Proof using Type. intros H. assert (v = 0 \/ v = 1) as [-> | ->] by lia;
  vm_compute; split; discriminate. Qed.

Lemma ok_io_op op : ok (io_op op) any.
Proof. unfold io_op. hoare_auto. Qed.
Lemma ok_flag_out op clr tog f : plain_field f = true -> frange f = (0, 1) ->
  ok (flag_out op clr tog f) any.
Proof using Type.
  intros Hp Hf. unfold flag_out.
  assert (TCEq (plain_field f) true) by (by rewrite Hp).
  eapply (hoare_bind _ _ any); [apply hoare_when; intros _;
    eapply hoare_wr_in; [typeclasses eauto|rewrite Hf; simpl; lia]|].
  intros _ _. apply hoare_when. intros _.
  eapply hoare_bind; [apply hoare_rd|]. cbv beta. rewrite Hf. simpl. intros v Hv.
  eapply hoare_wr_in; [typeclasses eauto|]. rewrite Hf. simpl. by apply xor1_range.
Qed.
#[local] Hint Extern 1 (hoare _ (flag_out _ _ _ _) _) => by apply ok_flag_out : hoare_db.
Lemma ok_idle_or_flags op : ok (idle_or_flags op) any.
Proof using Type.
  unfold idle_or_flags. destruct (tst _ _); [hoare_auto|]. apply ok_if_cond. hoare_auto.
Qed.
Lemma ok_flagin_op op : ok (flagin_op op) any.
Proof using Type. unfold flagin_op. hoare_auto. Qed.
Lemma ok_stack_control op : ok (stack_control op) any.
Proof. unfold stack_control. hoare_auto. Qed.
Lemma ok_return_op op : ok (return_op op) any.
Proof. unfold return_op. apply ok_if_cond. hoare_auto. Qed.
Lemma ok_jump_indirect op : ok (jump_indirect op) any.
Proof using Type. unfold jump_indirect. apply ok_if_cond. hoare_auto. Qed.
Lemma ok_mode_bit op en shifted flag : 0 <= flag <= 0x7f -> ok (mode_bit op en shifted flag) any.
Proof using Type. intros. unfold mode_bit. hoare_auto. Qed.
#[local] Hint Extern 1 (hoare _ (mode_bit _ _ _ _) _) => apply ok_mode_bit; hoare_side : hoare_db.
Lemma ok_mode_control op : ok (mode_control op) any.
Proof. unfold mode_control. hoare_auto. Qed.
#[local] Hint Resolve ok_io_op ok_idle_or_flags ok_flagin_op ok_stack_control ok_return_op
  ok_jump_indirect ok_mode_control : hoare_db.
#[local] Hint Extern 1 (hoare _ (if_cond _ _) _) => apply ok_if_cond : hoare_db.

Lemma ok_exec_0x op : ok (exec_0x op) any.
Proof.
  unfold exec_0x. cbv zeta. generalize (op >>> 16). intros n.
  switch_cases; hoare_auto.
Qed.

Lemma ok_with_move f op : ok (f op) any -> ok (with_move f op) any.
Proof. intros H. unfold with_move. hoare_auto. Qed.
Lemma ok_with_read read f op : ok (read op) any -> ok (f op) any -> ok (with_read read f op) any.
Proof. intros H1 H2. unfold with_read. hoare_auto. Qed.
Lemma ok_with_write write f op :
  (forall v, ok (write op v) any) -> ok (f op) any -> ok (with_write write f op) any.
Proof using Type.
  intros H1 H2. unfold with_write. eapply (hoare_bind _ _ any); [apply ok_READ_REG|]. intros v _.
  eapply (hoare_bind _ _ any); [apply H1|]. by intros _ _.
Qed.
Ltac comp := solve [eauto with hoare_db nocore].
#[local] Hint Extern 1 (hoare _ (with_move _ _) _) => apply ok_with_move; comp : hoare_db.
#[local] Hint Extern 1 (hoare _ (with_read _ _ _) _) => apply ok_with_read; comp : hoare_db.
#[local] Hint Extern 1 (hoare _ (with_write _ _ _) _) =>
  apply ok_with_write; [intros; comp|comp] : hoare_db.

Lemma ok_do_until op : ok (do_until op) any.
Proof using Type. unfold do_until. hoare_auto. Qed.
Lemma ok_jump_immediate op : ok (jump_immediate op) any.
Proof using Type. unfold jump_immediate. apply ok_if_cond. hoare_auto. Qed.
Lemma ok_call_immediate op : ok (call_immediate op) any.
Proof using Type. unfold call_immediate. apply ok_if_cond. hoare_auto. Qed.
#[local] Hint Resolve ok_do_until ok_jump_immediate ok_call_immediate : hoare_db.

Lemma ok_exec_1x op : ok (exec_1x op) any.
Proof.
  unfold exec_1x. generalize (op >>> 16). intros n. switch_cases; hoare_auto.
Qed.

Lemma ok_on_2181 op mask pat a b : ok a any -> ok b any -> ok (on_2181 op mask pat a b) any.
Proof using Type. intros. unfold on_2181. hoare_auto. Qed.
#[local] Hint Extern 1 (hoare _ (on_2181 _ _ _ _ _) _) => apply ok_on_2181; comp : hoare_db.
#[local] Hint Extern 1 (hoare _ (if_cond _ _) _) => apply ok_if_cond; comp : hoare_db.
Lemma ok_exec_2x op : ok (exec_2x op) any.
Proof.
  unfold exec_2x. generalize (op >>> 16). intros n. switch_cases; comp.
Qed.

Lemma ok_exec_3x op : ok (exec_3x op) any.
Proof. unfold exec_3x. generalize (op >>> 16). intros n. switch_cases; apply ok_WRITE_REG. Qed.
Ltac unit_op := first [apply ok_mac_op_mr|apply ok_alu_op_ar|apply ok_mac_op_mf|apply ok_alu_op_af].
Ltac dag_op := first [apply ok_pgm_read_dag2|apply ok_data_read_dag1|apply ok_data_read_dag2
  |intros; apply ok_pgm_write_dag2|intros; apply ok_data_write_dag1|intros; apply ok_data_write_dag2].
Ltac combined := first [apply ok_with_read|apply ok_with_write]; [dag_op|unit_op].
Lemma ok_exec_5x op : ok (exec_5x op) any.
Proof. unfold exec_5x. generalize (op >>> 16). intros n. switch_cases; combined. Qed.
Lemma ok_exec_6x op : ok (exec_6x op) any.
Proof. unfold exec_6x. generalize (op >>> 16). intros n. switch_cases; combined. Qed.
Lemma ok_exec_7x op : ok (exec_7x op) any.
Proof. unfold exec_7x. generalize (op >>> 16). intros n. switch_cases; combined. Qed.

Lemma ok_load_dm grp op : ok (load_dm grp op) any.
Proof. unfold load_dm. hoare_auto. Qed.
Lemma ok_store_dm grp op : ok (store_dm grp op) any.
Proof using Type. unfold store_dm. hoare_auto. Qed.
#[local] Hint Resolve ok_load_dm ok_store_dm : hoare_db.
Lemma ok_exec_8x op : ok (exec_8x op) any.
Proof. unfold exec_8x. generalize (op >>> 16). intros n. switch_cases; apply ok_load_dm. Qed.
Lemma ok_exec_9x op : ok (exec_9x op) any.
Proof using Type. unfold exec_9x. generalize (op >>> 16). intros n. switch_cases; apply ok_store_dm. Qed.

Lemma ok_dual_read f x y op : plain_field (Core x) = true -> plain_field (Core y) = true ->
  ok (f op) any -> ok (dual_read f x y op) any.
Proof using Type.
  intros Hx Hy Hf. unfold dual_read.
  eapply (hoare_bind _ _ any); [done|]. intros _ _.
  assert (forall r, plain_field (Core r) = true -> forall v, ok (wr (Core r) v) any) as Hw.
  { intros r Hr v. assert (TCEq (plain_field (Core r)) true) by (by rewrite Hr).
    eapply hoare_wr_full; [typeclasses eauto|]. by destruct r. }
  eapply (hoare_bind _ _ any); [apply ok_data_read_dag1|]. intros v _.
  eapply (hoare_bind _ _ any); [by apply Hw|]. intros _ _.
  eapply (hoare_bind _ _ any); [apply ok_pgm_read_dag2|]. intros w _. by apply Hw.
Qed.
#[local] Hint Extern 1 (hoare _ (dual_read _ _ _ _) _) =>
  apply ok_dual_read; [reflexivity|reflexivity|comp] : hoare_db.
Lemma ok_exec_cf op : ok (exec_cf op) any.
Proof using Type. 
  unfold exec_cf. generalize (op >>> 16). intros n.
  switch_cases; (apply ok_dual_read; [reflexivity|reflexivity|unit_op]).
 Qed.

Lemma ok_exec_op op : ok (exec_op op) any.
Proof.
  unfold exec_op, exec_4x, exec_ax, exec_bx. generalize (op >>> 20). intros n.
  switch_cases; first [apply ok_exec_0x|apply ok_exec_1x|apply ok_exec_2x|apply ok_exec_3x
    |apply ok_exec_5x|apply ok_exec_6x|apply ok_exec_7x|apply ok_exec_8x|apply ok_exec_9x
    |apply ok_exec_cf|comp].
Qed.

(** ** One pass, the loop, and [execute] *)
Definition step_body : M unit :=
  pc ← rd PC; wr PPC pc ;;
  op ← ROPCODE;
  note_history ;; note_coverage ;; note_exec ;; note_trace op ;;
  advance_pc ;;
  exec_op op.
Definition tick : M unit :=
  n ← rd ICOUNT; wr ICOUNT (n - 1) ;;
  c ← rd CYCLES; wr CYCLES (c + 1).

Lemma step_eq s : exec step s = exec tick (exec step_body s).
Proof using Type. unfold step, step_body, tick. by run. Qed.

Lemma ok_advance_pc : ok advance_pc any.
Proof using Type. unfold advance_pc. hoare_auto. Qed.
#[local] Hint Resolve ok_exec_op ok_advance_pc : hoare_db.

Lemma ok_step_body : ok step_body any.
Proof.
  unfold step_body, ROPCODE, note_history, note_coverage, note_exec, note_trace. hoare_auto.
Qed.

End Host.

#[export] Hint Resolve ok_step_body : hoare_db.
