(* ===== verification/Invariants.v ===== *)
(** * Termination and invariants of the running processor

    What follows from [EffectsExec.v] for [execute] and [adsp2181_run], by
    cases on the elementary effects: the loop ends, the state stays
    well-formed, configuration is left alone, MR stays a sign-extended 40-bit
    value, the agreement of the status bits and the loop registers with the
    stacks is kept (Coherence.v shows when it holds), the
    circular-buffer masks agree with the lengths, and pins hold. *)
From S2P Require Import Prelude State Tables Memory Stacks Regs Alu Mac Shift Exec Api Effects EffectsOps EffectsExec.

(** ** Definitions *)

(** The members and arrays running code may change at all. *)
Definition run_f (f : field) : bool :=
  plain_field f || atom_f f ||
  match f with
  | Alt r => negb (creg_eqb r ZERO) | Core MR | ICOUNT | CYCLES => true
  | _ => false
  end.
Definition run_a (a : arr) : bool :=
  plain_arr a || atom_a a ||
  match a with
  | RL | RLMASK | DATA | DATA_OVERLAY | PROGRAM | PROGRAM_OVERLAY => true
  | _ => false
  end.

(** A property that every elementary effect preserves. *)
Definition closed (I : state -> Prop) : Prop :=
  forall s s', Wf s -> micro s s' -> I s -> I s'.

(** The C loop [do step while (icount > 0)] as a relation. *)
Inductive do_while {host : Host} (s : state) : state -> Prop :=
  | dw_last : (exec step s).[ICOUNT] <= 0 -> do_while s (exec step s)
  | dw_more s' : 0 < (exec step s).[ICOUNT] -> do_while (exec step s) s' -> do_while s s'.

(** MR holds 40 significant bits. *)
Definition mr_normal (v : Z) : Prop := v = u64 (sign_extend_mr40 v).
Definition MrNormal (s : state) : Prop :=
  mr_normal (s.[Core MR]) /\ mr_normal (s.[Alt MR]).

(** SSTAT's empty bits and the loop registers describe the stacks. *)
Record Coherent (s : state) : Prop := {
  co_pc : tst (s.[SSTAT]) PC_EMPTY = (s.[PC_SP] =? 0);
  co_count : tst (s.[SSTAT]) COUNT_EMPTY = (s.[CNTR_SP] =? 0);
  co_status : tst (s.[SSTAT]) STATUS_EMPTY = (s.[STAT_SP] =? 0);
  co_loop : tst (s.[SSTAT]) LOOP_EMPTY = (s.[LOOP_SP] =? 0);
  co_top : if s.[LOOP_SP] =? 0
           then s.[LOOP] = 0xffff /\ s.[LOOP_CONDITION] = 0
           else s.[LOOP] = s.{LOOP_STACK, s.[LOOP_SP] - 1} >>> 4 /\
                s.[LOOP_CONDITION] = s.{LOOP_STACK, s.[LOOP_SP] - 1} &&& 15;
}.

(** Every circular-buffer mask is the one its length asks for. *)
Definition MaskOk (s : state) : Prop :=
  forall k, 0 <= k < 8 -> s.{RLMASK, k} = mask_table (s.{RL, k}).

(** A pinned data word has its pinned value in the selected page [c]. *)
Definition PinHolds (x : Z) (c : arr * Z) (s : state) : Prop :=
  s.{c.1, c.2} = s.{PIN_DM_VALUE, x}.

(** ** Elementary effects *)
Lemma micro_touches s s' : Wf s -> micro s s' -> touches run_f run_a s s'.
Proof.
  intros Hs Hm. pose proof (micro_wf s s' Hs Hm) as Hwf. split; [done|]. clear Hwf.
  apply (micro_ind_by (fun t => (forall f, run_f f = false -> t.[f] = s.[f]) /\
    (forall a, run_a a = false -> ars t a = ars s a)) s s' Hs Hm).
  - intros t (_ & Hf & Ha). unfold run_f, run_a. split.
    + intros f [[_ H]%orb_false_iff _]%orb_false_iff. by apply Hf.
    + intros a [[_ H]%orb_false_iff _]%orb_false_iff. by apply Ha.
  - intros f v Hf _. split; [|done]. intros g Hg. apply get_set_ne. intros ->.
    unfold run_f in Hg. by rewrite Hf in Hg.
  - intros a k v Ha. split; [done|]. intros b Hb. apply ars_aput_ne. intros ->.
    unfold run_a in Hb. by rewrite Ha in Hb.
  - done.
  - split; [|done]. intros f Hf.
    pose proof (wf_field s Hs (Core ZERO)) as H1. pose proof (wf_field s Hs (Alt ZERO)) as H2.
    unfold in_frange in H1, H2. hoare_ranges.
    destruct f; try done; destruct r; try done; cbn; lia.
  - intros t v H H0 H1. split; [|by rewrite H1]. intros f Hf. apply H0. by intros ->.
  - intros v. split; [|done]. intros f Hf. apply get_set_ne. by intros ->.
  - intros k val Hk. destruct (touches_wr_l k val Hk s Hs) as [(_ & H1 & H2) _].
    split; [intros; by apply H1|]. intros a Ha. apply H2. by destruct a.
  - intros x v Hx _. split; [done|]. intros b Hb. apply ars_aput_ne. intros ->.
    by destruct (dm_cell_ok s x Hx) as [[E|E] _]; rewrite E in Hb.
  - intros x v Hx. split; [done|]. intros b Hb. apply ars_aput_ne. intros ->.
    by destruct (pm_cell_ok s x Hx) as [[E|E] _]; rewrite E in Hb.
  - split; [|done]. intros f Hf. apply get_set_ne. by intros ->.
Qed.

Lemma micro_icount s s' : Wf s -> micro s s' -> s'.[ICOUNT] = s.[ICOUNT] \/ s'.[ICOUNT] = 0.
Proof.
  intros Hs Hm.
  apply (micro_ind_by (fun t => t.[ICOUNT] = s.[ICOUNT] \/ t.[ICOUNT] = 0) s s' Hs Hm);
    try by left.
  - intros t (_ & H & _). left. by apply H.
  - intros f v Hf _. left. rewrite get_set_ne; [done|]. by intros <-.
  - intros t v _ H _. left. by apply H.
  - intros k val Hk. left. by apply (touches_wr_l k val Hk s Hs).
  - right. apply get_set_eq.
Qed.

Lemma micros_icount s s' : Wf s -> micros s s' -> s'.[ICOUNT] = s.[ICOUNT] \/ s'.[ICOUNT] = 0.
Proof.
  intros Hs Hm. induction Hm as [s|s s1 s2 H1 H2 IH]; [by left|].
  destruct (IH (micro_wf s s1 Hs H1)) as [-> | ->]; [|by right]. by apply micro_icount.
Qed.

Lemma micros_touches s s' : Wf s -> micros s s' -> touches run_f run_a s s'.
Proof.
  intros Hs Hm. induction Hm as [s|s s1 s2 H1 H2 IH]; [reflexivity|].
  transitivity s1; [by apply micro_touches|]. apply IH. by eapply micro_wf.
Qed.

Lemma closed_micros I s s' : closed I -> Wf s -> micros s s' -> I s -> I s'.
Proof.
  intros HI Hs Hm. induction Hm as [s|s s1 s2 H1 H2 IH]; [done|].
  intros H. apply IH; [by eapply micro_wf|]. by eapply HI.
Qed.

Lemma micros_cycles s s' : Wf s -> micros s s' -> s'.[CYCLES] = s.[CYCLES].
Proof.
  intros Hs Hm. apply (closed_micros (fun u => u.[CYCLES] = s.[CYCLES]) s s'); [|done..].
  intros u u' Hu Huu E. rewrite <- E. clear -Hu Huu.
  apply (micro_ind_by (fun t => t.[CYCLES] = u.[CYCLES]) u u' Hu Huu); try done.
  - intros t (_ & H & _). by apply H.
  - intros f v Hf _. apply get_set_ne. by intros <-.
  - intros t v _ H _. by apply H.
  - intros k val Hk. by apply (touches_wr_l k val Hk u Hu).
Qed.

(** *** The countdown *)
Lemma tick_icount s : Wf s -> s.[ICOUNT] > cmin S32 ->
  (exec tick s).[ICOUNT] = s.[ICOUNT] - 1.
Proof.
  intros Hs Hmin. unfold tick. run. gets. apply conv_id.
  pose proof (wf_field s Hs ICOUNT) as H. unfold in_frange in H. hoare_ranges. lia.
Qed.
Definition tick_f (f : field) : bool := match f with ICOUNT | CYCLES => true | _ => false end.
Lemma tick_touches : hoare (touches tick_f (fun _ => false)) tick any.
Proof. unfold tick. hoare_auto. Qed.

Section Host.
Context {host : Host} {hok : HostOk host}.

Lemma step_wf s : Wf s -> Wf (exec step s).
Proof.
  intros Hs. rewrite step_eq. destruct (ok_step_body s Hs) as [Hm _].
  apply micros_wf in Hm as Hw; [|done]. by apply (tick_touches _ Hw).
Qed.

(** A pass with a positive count left uses one up, or ends the run. *)
Lemma step_icount s : Wf s -> 0 < s.[ICOUNT] ->
  (exec step s).[ICOUNT] = s.[ICOUNT] - 1 \/ (exec step s).[ICOUNT] = -1.
Proof.
  intros Hs Hpos. rewrite step_eq. destruct (ok_step_body s Hs) as [Hm _].
  apply micros_wf in Hm as Hw; [|done].
  destruct (micros_icount _ _ Hs Hm) as [E|E]; rewrite tick_icount by
    (try done; rewrite E; cbn; lia); rewrite E; [by left|by right].
Qed.

Lemma run_loop_do_while fuel s : Wf s -> 0 < s.[ICOUNT] <= Z.of_nat fuel ->
  do_while s (exec (run_loop fuel) s).
Proof.
  revert s. induction fuel as [|fuel IH]; intros s Hs Hn; [lia|].
  cbn [run_loop]. run. pose proof (step_wf s Hs) as Hs'.
  destruct (step_icount s Hs ltac:(lia)) as [E|E].
  - destruct (Z.gtb_spec ((exec step s).[ICOUNT]) 0).
    + apply dw_more; [done|]. apply IH; [done|lia].
    + apply dw_last. lia.
  - rewrite E. apply dw_last. lia.
Qed.

(** The loop stays inside any property its passes preserve. *)
Lemma run_loop_inv (I : state -> Prop) fuel s :
  closed I -> (forall t, Wf t -> I t -> I (exec tick t)) ->
  Wf s -> I s -> Wf (exec (run_loop fuel) s) /\ I (exec (run_loop fuel) s).
Proof.
  intros HI Ht. revert s. induction fuel as [|fuel IH]; intros s Hs Hi; [done|].
  cbn [run_loop]. run. pose proof (step_wf s Hs) as Hs'.
  assert (I (exec step s)) as Hi'.
  { rewrite step_eq. destruct (ok_step_body s Hs) as [Hm _].
    apply Ht; [by apply (micros_wf s)|]. by apply (closed_micros I s). }
  destruct (_ >? 0); [by apply IH|done].
Qed.

Lemma execute_inv (I : state -> Prop) s :
  closed I -> (forall t, Wf t -> I t -> I (exec tick t)) ->
  Wf s -> I s -> Wf (exec execute s) /\ I (exec execute s).
Proof.
  intros HI Ht Hs Hi. unfold execute. run. destruct (ok_check_irqs s Hs) as [Hm _].
  apply run_loop_inv; [done|done|by apply (micros_wf s)|by apply (closed_micros I s)].
Qed.

Lemma execute_wf s : Wf s -> Wf (exec execute s).
Proof. intros Hs. by apply (execute_inv (fun _ => True) s). Qed.

(** A property of the state before, through [adsp2181_run]. *)
Lemma run_inv (I : state -> Prop) cycles s :
  closed I -> (forall t, Wf t -> I t -> I (exec tick t)) ->
  (forall n t, I t -> I (set ICOUNT n t)) ->
  Wf s -> I s -> Wf (exec (adsp2181_run cycles) s) /\ I (exec (adsp2181_run cycles) s).
Proof.
  intros HI Ht Hset Hs Hi. unfold adsp2181_run. run.
  destruct (_ || _); [done|]. apply execute_inv; [done|done| |by apply Hset].
  apply wf_set; [done|]. by apply (ffull_ok ICOUNT).
Qed.
End Host.

(** ** The stacks, SSTAT and the loop registers *)
(** [tst] of an updated SSTAT, one bit at a time. *)
Lemma sstat_or_bit s a b : 0 <= a < 8 -> 0 <= b < 8 ->
  tst ((exec (sstat_or (2 ^ a)) s).[SSTAT]) (2 ^ b) = (a =? b) || tst (s.[SSTAT]) (2 ^ b).
Proof.
  intros Ha Hb. unfold sstat_or. run. gets.
  rewrite tst_conv by (cbn; lia). apply tst_set; lia.
Qed.
Lemma sstat_clr_bit s a b : 0 <= a < 8 -> 0 <= b < 8 ->
  tst ((exec (sstat_clr (2 ^ a)) s).[SSTAT]) (2 ^ b) = negb (a =? b) && tst (s.[SSTAT]) (2 ^ b).
Proof.
  intros Ha Hb. unfold sstat_clr. run. gets.
  rewrite tst_conv by (cbn; lia). apply tst_clr; lia.
Qed.
Lemma sstat_or_get s a f : f <> SSTAT -> (exec (sstat_or a) s).[f] = s.[f].
Proof. intros. unfold sstat_or. run. by gets. Qed.
Lemma sstat_clr_get s a f : f <> SSTAT -> (exec (sstat_clr a) s).[f] = s.[f].
Proof. intros. unfold sstat_clr. run. by gets. Qed.

Lemma sstat_or_aget s x a k : (exec (sstat_or x) s).{a, k} = s.{a, k}.
Proof. done. Qed.
Lemma sstat_clr_aget s x a k : (exec (sstat_clr x) s).{a, k} = s.{a, k}.
Proof. done. Qed.

Ltac sstat_pow2 :=
  change PC_EMPTY with (2 ^ 0) in *; change PC_OVER with (2 ^ 1) in *;
  change COUNT_EMPTY with (2 ^ 2) in *; change COUNT_OVER with (2 ^ 3) in *;
  change STATUS_EMPTY with (2 ^ 4) in *; change STATUS_OVER with (2 ^ 5) in *;
  change LOOP_EMPTY with (2 ^ 6) in *; change LOOP_OVER with (2 ^ 7) in *.

(** What [Coherent] looks at. *)
Definition view_f (f : field) : bool :=
  match f with PC_SP | CNTR_SP | STAT_SP | LOOP_SP | LOOP | LOOP_CONDITION => true | _ => false end.
Definition view_bit (b : Z) : bool := (b =? 0) || (b =? 2) || (b =? 4) || (b =? 6).
Record SameView (s t : state) : Prop := {
  sv_field f : view_f f = true -> t.[f] = s.[f];
  sv_bit b : view_bit b = true -> tst (t.[SSTAT]) (2 ^ b) = tst (s.[SSTAT]) (2 ^ b);
  sv_loop k : t.{LOOP_STACK, k} = s.{LOOP_STACK, k};
}.
#[export] Instance same_view_preorder : PreOrder SameView.
Proof.
  split; [by intros s|]. intros s t u [F1 B1 L1] [F2 B2 L2]. split.
  - intros f Hf. by rewrite F2, F1.
  - intros b Hb. by rewrite B2, B1.
  - intros k. by rewrite L2, L1.
Qed.

Lemma coherent_view s t : SameView s t -> Coherent s -> Coherent t.
Proof.
  intros [F B L] [H1 H2 H3 H4 H5]. sstat_pow2.
  split; sstat_pow2; rewrite ?B, ?F, ?L by done; done.
Qed.

Lemma same_view_set f v s : view_f f = false -> f <> SSTAT -> SameView s (set f v s).
Proof.
  intros Hf Hne. split; [|intros; by gets|done].
  intros g Hg. apply get_set_ne. intros ->. congruence.
Qed.
Lemma same_view_aset a k v s : a <> LOOP_STACK -> SameView s (aset a k v s).
Proof. intros Ha. split; [done|done|]. intros j. by apply aget_aset_arr. Qed.
Lemma same_view_awr a k v s : a <> LOOP_STACK -> SameView s (exec (awr a k v) s).
Proof.
  intros Ha. unfold awr, exec. destruct (in_bounds a k); cbn [snd];
    [by apply same_view_aset|by apply same_view_set].
Qed.
Lemma same_view_over s a : (a =? 1) || (a =? 3) || (a =? 5) || (a =? 7) = true ->
  SameView s (exec (sstat_or (2 ^ a)) s).
Proof.
  intros Ha. split; [|intros b Hb|done].
  - intros f Hf. apply sstat_or_get. by intros ->.
  - unfold view_bit in Hb. rewrite sstat_or_bit by lia.
    destruct (Z.eqb_spec a b); [lia|done].
Qed.
Lemma same_view_event e s : SameView s (add_event e s).
Proof. done. Qed.
Lemma same_view_warn b s : SameView s (exec (warn_stack_over b) s).
Proof.
  unfold warn_stack_over. run. destruct (tst _ _); [done|].
  etransitivity; [|apply same_view_event]. by apply same_view_set.
Qed.
Lemma same_view_note s : SameView s (exec note_pcsp s).
Proof.
  split.
  - intros f Hf. apply note_pcsp_get; by intros ->.
  - intros b _. by rewrite note_pcsp_get.
  - intros k. unfold aget. by rewrite note_pcsp_ars.
Qed.

(** A stack overflow only sets an OVER bit and warns. *)
Lemma same_view_overflow s a : (a =? 1) || (a =? 3) || (a =? 5) || (a =? 7) = true ->
  SameView s (exec (warn_stack_over (2 ^ a)) (exec (sstat_or (2 ^ a)) s)).
Proof. intros Ha. etransitivity; [by apply same_view_over|apply same_view_warn]. Qed.

(** Pushing and popping a stack other than the loop stack. *)
Definition sp_bit (sp : field) : Z :=
  match sp with PC_SP => 0 | CNTR_SP => 2 | STAT_SP => 4 | _ => 6 end.

Lemma coherent_push sp v s : sp = PC_SP \/ sp = CNTR_SP \/ sp = STAT_SP -> v <> 0 ->
  Coherent s -> Coherent (exec (sstat_clr (2 ^ sp_bit sp)) (set sp v s)).
Proof.
  intros Hsp Hv [H1 H2 H3 H4 H5]. sstat_pow2.
  destruct Hsp as [-> | [-> | ->]]; split; sstat_pow2; cbn [sp_bit];
    rewrite ?sstat_clr_bit, ?sstat_clr_get, ?sstat_clr_aget by (done || lia); gets;
    try done; by destruct (Z.eqb_spec v 0).
Qed.

Lemma coherent_drop sp v s : sp = PC_SP \/ sp = CNTR_SP \/ sp = STAT_SP -> s.[sp] <> 0 ->
  Coherent s ->
  Coherent (exec (when (v =? 0) (sstat_or (2 ^ sp_bit sp))) (set sp v s)).
Proof.
  intros Hsp Hne [H1 H2 H3 H4 H5]. sstat_pow2. run.
  destruct (Z.eqb_spec v 0) as [->|Hv];
    destruct Hsp as [-> | [-> | ->]]; split; sstat_pow2; cbn [sp_bit];
    rewrite ?sstat_or_bit, ?sstat_or_get, ?sstat_or_aget by (done || lia); gets;
    try done; apply Z.eqb_neq in Hne, Hv; congruence.
Qed.

Lemma wf_sp s f n : Wf s -> frange f = (0, n) -> 0 <= s.[f] <= n.
Proof. intros Hs Hf. pose proof (wf_field s Hs f) as H. unfold in_frange in H. by rewrite Hf in H. Qed.

Lemma coherent_pc_push val s : Wf s -> Coherent s -> Coherent (exec (pc_stack_push_val val) s).
Proof.
  intros Hs Hc. pose proof (wf_sp s PC_SP 16 Hs eq_refl) as Hsp.
  unfold pc_stack_push_val, PC_STACK_DEPTH. run. rewrite note_pcsp_get by done. sstat_pow2.
  destruct (Z.ltb_spec (s.[PC_SP]) 16).
  - apply (coherent_push PC_SP); [auto| |].
    + rewrite in_frange_conv; [lia|]. unfold in_frange. hoare_ranges. lia.
    + eapply coherent_view; [|exact Hc]. etransitivity; [apply same_view_note|by apply same_view_awr].
  - eapply coherent_view; [|exact Hc].
    etransitivity; [apply same_view_note|by apply same_view_overflow].
Qed.

Lemma coherent_empty sp s : sp = PC_SP \/ sp = CNTR_SP \/ sp = STAT_SP -> s.[sp] = 0 ->
  Coherent s -> Coherent (exec (sstat_or (2 ^ sp_bit sp)) s).
Proof.
  intros Hsp Hz [H1 H2 H3 H4 H5]. sstat_pow2.
  destruct Hsp as [-> | [-> | ->]]; split; sstat_pow2; cbn [sp_bit];
    rewrite ?sstat_or_bit, ?sstat_or_get, ?sstat_or_aget by (done || lia); try done;
    rewrite Hz; done.
Qed.

(** [wr sp (v - 1) ;; sp ← rd sp; k sp] with a positive pointer. *)
Lemma exec_drop {B} sp n (k : Z -> M B) s : frange sp = (0, n) -> 0 < s.[sp] <= n ->
  exec (wr sp (s.[sp] - 1) ;; x ← rd sp; k x) s = exec (k (s.[sp] - 1)) (set sp (s.[sp] - 1) s).
Proof.
  intros Hf Hsp. assert (conv (fty sp) (s.[sp] - 1) = s.[sp] - 1) as E
    by (apply in_frange_conv; unfold in_frange; rewrite Hf; simpl; lia).
  unfold exec at 1. rewrite wr_rd, E. change (snd (?m ?t)) with (exec m t).
  by rewrite exec_bind, exec_wr, E.
Qed.

Lemma coherent_pc_pop s : Wf s -> Coherent s -> Coherent (exec pc_stack_pop_val s).
Proof.
  intros Hs Hc. pose proof (wf_sp s PC_SP 16 Hs eq_refl) as Hsp.
  assert (Coherent (exec note_pcsp s)) as Hn by (eapply coherent_view; [apply same_view_note|done]).
  unfold pc_stack_pop_val. rewrite exec_bind, exec_bind, eval_rd, exec_rd.
  assert ((exec note_pcsp s).[PC_SP] = s.[PC_SP]) as E by by apply note_pcsp_get.
  destruct (Z.gtb_spec ((exec note_pcsp s).[PC_SP]) 0).
  - rewrite (exec_drop PC_SP 16) by (done || lia). rewrite exec_bind, exec_ard by (cbn; lia).
    apply (coherent_drop PC_SP); [auto|lia|done].
  - run. apply (coherent_empty PC_SP); [auto|lia|done].
Qed.

Lemma coherent_cntr_push s : Wf s -> Coherent s -> Coherent (exec cntr_stack_push s).
Proof.
  intros Hs Hc. pose proof (wf_sp s CNTR_SP 4 Hs eq_refl) as Hsp.
  unfold cntr_stack_push, CNTR_STACK_DEPTH. run. sstat_pow2.
  destruct (Z.ltb_spec (s.[CNTR_SP]) 4).
  - apply (coherent_push CNTR_SP); [auto| |].
    + rewrite in_frange_conv; [lia|]. unfold in_frange. hoare_ranges. lia.
    + eapply coherent_view; [by apply same_view_awr|done].
  - eapply coherent_view; [by apply same_view_overflow|done].
Qed.

Lemma coherent_cntr_pop s : Wf s -> Coherent s -> Coherent (exec cntr_stack_pop s).
Proof.
  intros Hs Hc. pose proof (wf_sp s CNTR_SP 4 Hs eq_refl) as Hsp.
  unfold cntr_stack_pop. rewrite exec_bind, eval_rd, exec_rd.
  destruct (Z.gtb_spec (s.[CNTR_SP]) 0).
  - rewrite (exec_drop CNTR_SP 4) by (done || lia). rewrite exec_bind. run.
    eapply coherent_view; [etransitivity; by apply same_view_set|].
    rewrite <- exec_when. apply (coherent_drop CNTR_SP); [auto|lia|done].
  - run. eapply coherent_view; [by apply same_view_set|].
    apply (coherent_empty CNTR_SP); [auto|lia|done].
Qed.

Lemma coherent_stat_push s : Wf s -> Coherent s -> Coherent (exec stat_stack_push s).
Proof.
  intros Hs Hc. pose proof (wf_sp s STAT_SP 4 Hs eq_refl) as Hsp.
  unfold stat_stack_push, STAT_STACK_DEPTH. run. sstat_pow2.
  destruct (Z.ltb_spec (s.[STAT_SP]) 4).
  - apply (coherent_push STAT_SP); [auto| |].
    + rewrite in_frange_conv; [lia|]. unfold in_frange. hoare_ranges. lia.
    + eapply coherent_view; [|exact Hc].
      etransitivity; [|by apply same_view_awr]. etransitivity; by apply same_view_awr.
  - eapply coherent_view; [by apply same_view_overflow|done].
Qed.

(** The loop registers hold any loop-stack word. *)
Lemma loop_word_conv val : 0 <= val <= 0x3ffff ->
  conv (fty LOOP) (val >>> 4) = val >>> 4 /\
  conv (fty LOOP_CONDITION) (val &&& 15) = val &&& 15 /\
  conv (aty LOOP_STACK) val = val.
Proof.
  intros Hv. repeat split.
  - apply in_frange_conv. unfold in_frange. hoare_ranges. apply (shr_le _ _ _ 0x3ffff); [lia..|].
    vm_compute. discriminate.
  - apply in_frange_conv; unfold in_frange; hoare_ranges; bnd.
  - apply in_arange_conv; unfold in_arange; hoare_ranges; lia.
Qed.
Lemma sp_conv sp n v : frange sp = (0, n) -> 0 <= v <= n -> conv (fty sp) v = v.
Proof. intros Hf Hv. apply in_frange_conv. unfold in_frange. by rewrite Hf. Qed.

Lemma coherent_loop_push val s : Wf s -> 0 <= val <= 0x3ffff -> Coherent s ->
  Coherent (exec (loop_stack_push val) s).
Proof.
  intros Hs Hv Hc. pose proof (wf_sp s LOOP_SP 4 Hs eq_refl) as Hsp.
  unfold loop_stack_push, LOOP_STACK_DEPTH. run. sstat_pow2.
  destruct (Z.ltb_spec (s.[LOOP_SP]) 4).
  - destruct Hc as [H1 H2 H3 H4 H5]. sstat_pow2.
    pose proof (sp_conv LOOP_SP 4 (s.[LOOP_SP] + 1) eq_refl ltac:(lia)) as E1.
    destruct (loop_word_conv val Hv) as (E2 & E3 & E4).
    rewrite exec_awr, E1, E2, E3, E4 by (cbn; lia).
    assert ((s.[LOOP_SP] + 1 =? 0) = false) as E5 by lia.
    split; sstat_pow2; rewrite ?sstat_clr_bit, ?sstat_clr_get, ?sstat_clr_aget by (done || lia);
      gets; rewrite ?sstat_clr_aget, ?E5; gets; try done.
    replace (s.[LOOP_SP] + 1 - 1) with (s.[LOOP_SP]) by lia. by gets.
  - eapply coherent_view; [by apply same_view_overflow|done].
Qed.

Lemma coherent_loop_pop s : Wf s -> Coherent s -> Coherent (exec loop_stack_pop s).
Proof.
  intros Hs Hc. pose proof (wf_sp s LOOP_SP 4 Hs eq_refl) as Hsp.
  unfold loop_stack_pop. rewrite exec_bind, eval_rd, exec_rd.
  destruct (Z.gtb_spec (s.[LOOP_SP]) 0); [|done].
  rewrite (exec_drop LOOP_SP 4) by (done || lia). destruct Hc as [H1 H2 H3 H4 H5]. sstat_pow2.
  destruct (Z.eqb_spec (s.[LOOP_SP] - 1) 0) as [E|E].
  - run. rewrite E. split; sstat_pow2;
      rewrite ?sstat_or_bit, ?sstat_or_get by (done || lia); gets; try done.
  - run. gets.
    destruct (loop_word_conv (s.{LOOP_STACK, s.[LOOP_SP] - 1 - 1})
      (wf_range_elem s LOOP_STACK (s.[LOOP_SP] - 1 - 1) Hs)) as (E2 & E3 & _).
    apply Z.eqb_neq in E. assert ((s.[LOOP_SP] =? 0) = false) as E4 by lia.
    split; sstat_pow2; gets; try done; [congruence|]. rewrite E. by rewrite E2, E3.
Qed.

Lemma same_view_wr_l k val s : 0 <= k < 8 -> SameView s (exec (wr_l k val) s).
Proof.
  intros Hk. unfold wr_l, update_l. run.
  do 3 (etransitivity; [|by apply same_view_aset]). reflexivity.
Qed.

Lemma coherent_closed : closed Coherent.
Proof.
  intros s s' Hs Hm Hc. destruct Hm.
  - eapply coherent_view; [|done].
    apply same_view_set; [by destruct f|]. by intros ->.
  - eapply coherent_view; [|done]. apply same_view_aset. by intros ->.
  - eapply coherent_view; [apply same_view_event|done].
  - eapply coherent_view; [|done]. split; [by intros []|done|done].
  - eapply coherent_view; [|done]. split.
    + intros f Hf. apply H0. by intros ->.
    + intros b _. by rewrite H0.
    + intros j. unfold aget. by rewrite H1.
  - eapply coherent_view; [|done]. by apply same_view_set.
  - eapply coherent_view; [by apply same_view_wr_l|done].
  - by apply coherent_pc_push.
  - by apply coherent_pc_pop.
  - by apply coherent_cntr_push.
  - by apply coherent_cntr_pop.
  - by apply coherent_loop_push.
  - by apply coherent_loop_pop.
  - by apply coherent_stat_push.
  - pose proof (wf_sp s STAT_SP 4 Hs eq_refl) as Hsp. rewrite exec_bind, exec_wr.
    rewrite (sp_conv STAT_SP 4) by (done || lia).
    apply (coherent_drop STAT_SP); [auto|lia|done].
  - by apply (coherent_empty STAT_SP); [auto|lia|].
  - eapply coherent_view; [|done]. apply same_view_aset.
    by destruct (dm_cell_ok s x H) as [[-> | ->] _].
  - eapply coherent_view; [|done]. apply same_view_aset.
    by destruct (pm_cell_ok s x H) as [[-> | ->] _].
  - eapply coherent_view; [|done]. by apply same_view_set.
Qed.

Lemma coherent_tick s : Coherent s -> Coherent (exec tick s).
Proof.
  intros Hc. unfold tick. run. eapply coherent_view; [|exact Hc].
  etransitivity; by apply same_view_set.
Qed.

(** ** Circular-buffer masks *)
Lemma mask_ok_arrays s t : ars t RL = ars s RL -> ars t RLMASK = ars s RLMASK ->
  MaskOk s -> MaskOk t.
Proof. intros E1 E2 H k Hk. unfold aget. rewrite E1, E2. by apply H. Qed.

Lemma mask_ok_wr_l k val s : 0 <= k < 8 -> MaskOk s -> MaskOk (exec (wr_l k val) s).
Proof.
  intros Hk H j Hj. unfold wr_l, update_l. run.
  rewrite !(aget_aset_arr RBASE) by done.
  destruct (Z.eq_dec j k) as [->|Hne]; gets; [|by apply H].
  assert (0 <= val &&& 0x3fff <= 0x3fff) as Hv by bnd.
  rewrite (in_arange_conv RL (val &&& 0x3fff)) by (unfold in_arange; hoare_ranges; lia).
  rewrite <- Z.land_assoc. change (0x3fff &&& 0x3fff) with 0x3fff.
  apply in_arange_conv. unfold in_arange. hoare_ranges. bnd.
Qed.

Lemma mask_ok_closed : closed MaskOk.
Proof.
  intros s s' Hs Hm HI.
  assert (forall t, (forall a, a = RL \/ a = RLMASK -> ars t a = ars s a) -> MaskOk t) as Hars.
  { intros t Ht. apply (mask_ok_arrays s); auto. }
  apply (micro_ind_by MaskOk s s' Hs Hm); intros; try (by apply Hars; intros ? [-> | ->]).
  - destruct H as (_ & _ & H). apply Hars. intros ? [-> | ->]; by apply H.
  - apply Hars. intros ? [-> | ->]; apply ars_aput_ne; by intros <-.
  - apply Hars. intros ? [-> | ->]; by rewrite H1.
  - by apply mask_ok_wr_l.
  - apply Hars. intros ? [-> | ->]; apply ars_aput_ne;
      by destruct (dm_cell_ok s x H) as [[-> | ->] _].
  - apply Hars. intros ? [-> | ->]; apply ars_aput_ne;
      by destruct (pm_cell_ok s x H) as [[-> | ->] _].
Qed.

(** ** The accumulator *)
Lemma wraps_mod w m z : 0 < w <= m -> wraps w (z mod 2 ^ m) = wraps w z.
Proof.
  intros Hw. unfold wraps. f_equal.
  rewrite (Znumtheory.Zmod_div_mod (2 ^ w) (2 ^ m) (z mod 2 ^ m + _)), Zplus_mod_idemp_l by
    (try lia; exists (2 ^ (m - w)); rewrite <- Z.pow_add_r by lia; f_equal; lia).
  symmetry. apply Znumtheory.Zmod_div_mod; [lia|lia|].
  exists (2 ^ (m - w)). rewrite <- Z.pow_add_r by lia. f_equal. lia.
Qed.
Lemma wraps_id w z : 0 < w -> - 2 ^ (w - 1) <= z < 2 ^ (w - 1) -> wraps w z = z.
Proof.
  intros Hw Hz. unfold wraps.
  assert (2 ^ w = 2 * 2 ^ (w - 1)) by (rewrite <- Z.pow_succ_r by lia; f_equal; lia).
  rewrite Z.mod_small; lia.
Qed.

Lemma mr_normal_u64 z : - 2 ^ 39 <= z < 2 ^ 39 -> mr_normal (u64 z).
Proof.
  intros Hz. unfold mr_normal. rewrite sign_extend_mr40_wraps.
  rewrite (conv_unsigned U64) by done. cbn [cbits].
  by rewrite (wraps_mod 40 64), wraps_id by lia.
Qed.
Lemma mr_normal_sext v : mr_normal (u64 (sign_extend_mr40 v)).
Proof.
  rewrite sign_extend_mr40_wraps. apply mr_normal_u64.
  pose proof (wraps_range 40 v ltac:(lia)). change (40 - 1) with 39 in *. lia.
Qed.

(** Replacing the low 16 bits keeps the sign extension. *)
Lemma set_piece16_0 v x : 0 <= v -> set_piece16 0 v x = v - v mod 2 ^ 16 + x mod 2 ^ 16.
Proof.
  intros Hv. unfold set_piece16. change (16 * 0) with 0. rewrite !Z.shiftl_0_r.
  change 0xffff with (2 ^ 16 - 1). rewrite (land_mask_mod x) by lia.
  assert (v &&& ~~~(2 ^ 16 - 1) = v / 2 ^ 16 * 2 ^ 16) as ->.
  { rewrite <- Z.ldiff_land. change (2 ^ 16 - 1) with (Z.ones 16).
    rewrite Z.ldiff_ones_r by lia. by rewrite Z.shiftl_mul_pow2, Z.shiftr_div_pow2 by lia. }
  pose proof (Z.mod_pos_bound x (2 ^ 16) ltac:(lia)).
  rewrite Z.lor_comm, lor_add by lia.
  pose proof (Z.div_mod v (2 ^ 16) ltac:(lia)). lia.
Qed.

Lemma mr_normal_mr0 v x : mr_normal v -> mr_normal (u64 (set_piece16 0 v x)).
Proof.
  unfold mr_normal at 1. rewrite sign_extend_mr40_wraps. intros E.
  pose proof (wraps_range 40 v ltac:(lia)) as Hw. change (40 - 1) with 39 in *.
  set (w := wraps 40 v) in *. rewrite E.
  rewrite set_piece16_0 by (pose proof (conv_range U64 w); cbn in *; lia).
  rewrite (conv_unsigned U64 w) by done. cbn [cbits].
  assert ((w mod 2 ^ 64) mod 2 ^ 16 = w mod 2 ^ 16) as ->.
  { symmetry. apply Znumtheory.Zmod_div_mod; [lia|lia|]. by exists (2 ^ 48). }
  assert (u64 (w mod 2 ^ 64 - w mod 2 ^ 16 + x mod 2 ^ 16) =
    u64 (w - w mod 2 ^ 16 + x mod 2 ^ 16)) as ->.
  { rewrite !(conv_unsigned U64) by done. cbn [cbits].
    rewrite <- !Z.add_sub_swap. rewrite Zminus_mod, (Zplus_mod_idemp_l w), <- Zminus_mod. done. }
  apply mr_normal_u64.
  pose proof (Z.mod_pos_bound x (2 ^ 16) ltac:(lia)).
  pose proof (Z.div_mod w (2 ^ 16) ltac:(lia)).
  pose proof (Z.mod_pos_bound w (2 ^ 16) ltac:(lia)).
  assert (- 2 ^ 23 <= w / 2 ^ 16 < 2 ^ 23); [|lia].
  split; [apply Z.div_le_lower_bound; lia|apply Z.div_lt_upper_bound; lia].
Qed.

Lemma mr_normal_closed : closed MrNormal.
Proof.
  intros s s' Hs Hm [H1 H2].
  apply (micro_ind_by MrNormal s s' Hs Hm); try (intros; split; done).
  - intros t (_ & Hf & _). split; by rewrite Hf.
  - intros f v Hf _. split; rewrite get_set_ne; try done; by intros <-.
  - intros t v E Hf _. split; [rewrite E; apply mr_normal_sext|by rewrite Hf].
  - intros v. unfold wr_r. run. split; gets; [|done]. by apply mr_normal_mr0.
  - intros k val Hk. destruct (touches_wr_l k val Hk s Hs) as [(_ & Hf & _) _].
    split; by rewrite Hf.
Qed.

(** ** Pins *)

(** The cells a data address [x] can select. *)
Definition dm_page (x : Z) (c : arr * Z) : Prop :=
  c = (DATA, x) \/ x < 0x2000 /\ (c = (DATA_OVERLAY, x) \/ c = (DATA_OVERLAY, 0x2000 + x)).

Lemma dm_cell_page s x : dm_page x (dm_cell s x).
Proof.
  unfold dm_cell. destruct (_ && _) eqn:E; [|by left].
  apply andb_true_iff in E as [E1 E2%overlay_on_spec]. right. split; [lia|].
  assert (s.[DMOVLAY] = 1 \/ s.[DMOVLAY] = 2) as [-> | ->] by lia; [left|right]; f_equal; lia.
Qed.
Lemma dm_page_inj x y c : dm_page x c -> dm_page y c -> 0 <= x -> 0 <= y -> x = y.
Proof.
  intros [-> | [Hx [-> | ->]]] [E | [Hy [E | E]]] Hx0 Hy0; simplify_eq; lia.
Qed.

Lemma pin_closed x c pv : 0 <= x < 0x4000 -> dm_page x c ->
  closed (fun s => s.{PIN_DM, x} <> 0 /\ s.{PIN_DM_VALUE, x} = pv /\ s.{c.1, c.2} = pv).
Proof.
  intros Hx Hc s s' Hs Hm (H1 & H2 & H3).
  assert (forall t, (forall a, a = PIN_DM \/ a = PIN_DM_VALUE \/ a = DATA \/ a = DATA_OVERLAY ->
    ars t a = ars s a) -> t.{PIN_DM, x} <> 0 /\ t.{PIN_DM_VALUE, x} = pv /\ t.{c.1, c.2} = pv) as Hars.
  { intros t Ht. destruct Hc as [-> | [_ [-> | ->]]]; unfold aget; cbn [fst snd];
      rewrite !Ht by auto; done. }
  apply (micro_ind_by (fun t => t.{PIN_DM, x} <> 0 /\ t.{PIN_DM_VALUE, x} = pv /\
    t.{c.1, c.2} = pv) s s' Hs Hm); try (intros; by apply Hars).
  - intros t (_ & _ & Ha). apply Hars. intros a Hd. apply Ha.
    by destruct Hd as [-> | [-> | [-> | ->]]].
  - intros a k v Ha. apply Hars. intros b Hb. apply ars_aput_ne. intros ->.
    by destruct Hb as [-> | [-> | [-> | ->]]].
  - intros t v _ _ E. apply Hars. intros a _. by rewrite E.
  - intros k val Hk. apply Hars. intros a Hd.
    destruct (touches_wr_l k val Hk s Hs) as [(_ & _ & Ha) _]. apply Ha.
    by destruct Hd as [-> | [-> | [-> | ->]]].
  - intros y v Hy Hv. pose proof (dm_cell_page s y) as Hp. pose proof (dm_cell_ok s y Hy) as [Hd _].
    rewrite !aget_aset_arr by (by destruct Hd as [-> | ->]). repeat split; [done..|].
    destruct (dm_cell s y) as [a k]. cbn [fst snd].
    destruct (decide (c = (a, k))) as [->|Hne].
    + cbn [fst snd]. rewrite aget_aset_eq. rewrite (dm_page_inj x y (a, k)) in * by (done || lia).
      unfold pinned_dm. destruct (nz _) eqn:E; [done|]. apply nz_false in E. congruence.
    + destruct c as [b j]. cbn [fst snd] in *. destruct (decide (b = a)) as [->|].
      * rewrite aget_aset_ne; [done|]. intros ->. done.
      * by rewrite aget_aset_arr.
  - intros y v Hy. apply Hars. intros b Hb. apply ars_aput_ne. intros ->.
    destruct (pm_cell_ok s y Hy) as [[E|E] _]; rewrite E in Hb;
      by destruct Hb as [? | [? | [? | ?]]].
Qed.

(** ** Creation and reset *)
Lemma ok_kept {A} (m : M A) Q : ok m Q -> hoare kept m Q.
Proof. intros H s Hs. destruct (H s Hs) as [Hm Hq]. split; [intros _; by apply (micros_wf s)|done]. Qed.
#[export] Hint Extern 8 (hoare kept _ _) => apply ok_kept; solve [eauto with hoare_db nocore] : hoare_db.

Lemma hoare_aclear a : hoare kept (aclear a) any.
Proof. intros s Hs. split; [intros _; by apply wf_aput_empty|done]. Qed.
#[export] Hint Resolve hoare_aclear : hoare_db.

#[export] Instance null_host_ok : HostOk null_host.
Proof. by split. Qed.

Section Create.
Context {host : Host} {hok : HostOk host}.

Lemma kept_reset_dag k : 0 <= k < 8 -> hoare kept (reset_dag k) any.
Proof using Type. intros. unfold reset_dag, wr_l, wr_i, update_l, update_i. hoare_auto. Qed.

Lemma kept_reset : hoare kept adsp2181_reset any.
Proof.
  unfold adsp2181_reset.
  do 2 (eapply (hoare_bind _ _ any); [hoare_auto|intros _ _]).
  eapply (hoare_bind _ _ any); [|intros _ _].
  { apply hoare_for_upto. intros i Hi. apply kept_reset_dag. lia. }
  hoare_auto.
Qed.

Definition create_base : state :=
  set IMASK_MASK 0x3ff (set MSTAT_MASK 0x7f (set CHIP_TYPE 5 calloc_state)).
Lemma create_base_wf : Wf create_base.
Proof using Type.
  split.
  - intros f. destruct f; try destruct r; vm_compute; split; discriminate.
  - intros a k. apply in_arange_0.
Qed.
Lemma create_eq : adsp2181_create = exec adsp2181_reset create_base.
Proof using Type. unfold adsp2181_create, create_setup. by rewrite !exec_bind. Qed.

Lemma create_wf : Wf adsp2181_create.
Proof. rewrite create_eq. apply (kept_reset _ create_base_wf), create_base_wf. Qed.
End Create.

(** ** Theorems *)
Section Claims.
Context {host : Host} {hok : HostOk host}.

Lemma run_loop_last fuel s : Wf s -> 0 < s.[ICOUNT] <= Z.of_nat fuel ->
  exists k, 1 <= k <= s.[ICOUNT] /\
  (exec (run_loop fuel) s).[CYCLES] = u64 (s.[CYCLES] + k) /\
  ((exec (run_loop fuel) s).[ICOUNT] = 0 /\ k = s.[ICOUNT] \/
   (exec (run_loop fuel) s).[ICOUNT] = -1).
Proof.
  revert s. induction fuel as [|fuel IH]; intros s Hs Hn; [lia|].
  cbn [run_loop]. run. pose proof (step_wf s Hs) as Hs'.
  assert ((exec step s).[CYCLES] = u64 (s.[CYCLES] + 1)) as Hc.
  { rewrite step_eq. unfold tick. run. gets. change (conv (fty CYCLES)) with u64.
    destruct (ok_step_body s Hs) as [Hm _]. by rewrite (micros_cycles _ _ Hs Hm). }
  destruct (step_icount s Hs ltac:(lia)) as [E|E].
  - destruct (Z.gtb_spec ((exec step s).[ICOUNT]) 0).
    + destruct (IH (exec step s) Hs' ltac:(lia)) as (k & Hk & Hcy & Hi).
      exists (k + 1). rewrite Hcy, Hc. split; [lia|]. split.
      * rewrite !(conv_unsigned U64) by done. rewrite Zplus_mod_idemp_l. f_equal. lia.
      * destruct Hi as [[H1 H2]|H1]; [left; split; [done|lia]|by right].
    + exists 1. split; [lia|]. split; [done|]. left. lia.
  - rewrite E. exists 1. split; [lia|]. split; [done|]. by right.
Qed.

(** Taking an interrupt does not touch the countdown. *)
Definition not_icount (f : field) : bool := negb (field_eqb f ICOUNT).
Lemma check_irqs_touches : hoare (touches not_icount (fun _ => true)) check_irqs any.
Proof using Type.
  assert (hoare (touches not_icount (fun _ => true)) pc_stack_push any) as Hpush.
  { intros s Hs. unfold exec, eval. rewrite pc_stack_push_eq.
    refine (touches_weaken atom_f atom_a _ _ (pc_stack_push_val (s.[PC])) any _ _ _ s Hs);
      [by intros []|done|apply atom_pc_stack_push_val]. }
  assert (hoare (touches not_icount (fun _ => true)) stat_stack_push any) as Hstat.
  { apply (touches_weaken atom_f atom_a); [by intros []|done|apply atom_stat_stack_push]. }
  assert (forall w p, 0 <= w < 9 -> hoare (touches not_icount (fun _ => true)) (generate_irq w p) any)
    as Hgen by (intros w p Hw; unfold generate_irq; hoare_auto).
  assert (forall w p e rest, 0 <= w < 9 -> hoare (touches not_icount (fun _ => true)) e any ->
    hoare (touches not_icount (fun _ => true)) rest any ->
    hoare (touches not_icount (fun _ => true)) (try_irq w p e rest) any) as Htry.
  { intros w p e rest Hw He Hr. unfold try_irq. eapply (hoare_bind _ _ any); [done|]. intros c _.
    destruct (nz c); [|done]. eapply (hoare_bind _ _ any); [by apply Hgen|].
    intros [] _; [apply hoare_skip|done]. }
  unfold check_irqs, edge_or_level. hoare_auto.
  repeat (apply Htry; [vm_compute; split; congruence|hoare_auto|]). apply hoare_skip.
Qed.

Lemma check_irqs_icount s : Wf s -> (exec check_irqs s).[ICOUNT] = s.[ICOUNT].
Proof using Type.
  intros Hs. destruct (check_irqs_touches s Hs) as [(_ & H & _) _]. by apply H.
Qed.

(** C2: [execute] terminates: from every well-formed state with a positive
    instruction budget, the C loop [do ... while (icount > 0)] that follows
    [check_irqs] ends, in the state the model computes with [icount] units of
    fuel; no pass is lost to the fuel. *)
Theorem execute_terminates s :
  Wf s -> 0 < s.[ICOUNT] -> do_while (exec check_irqs s) (exec execute s).
Proof.
  intros Hs Hpos. unfold execute. run. destruct (ok_check_irqs s Hs) as [Hm _].
  pose proof (check_irqs_icount s Hs).
  apply run_loop_do_while; [by apply (micros_wf s)|lia].
Qed.

(** C16: [adsp2181_run cycles] executes between 1 and [cycles] instructions,
    which is what the cycle counter advances by, and returns [cycles] when the
    budget ran out (then it executed exactly [cycles]) and [cycles + 1] when
    the run stopped early (IDLE, a jump to itself, or stop-on-publish). *)
Theorem run_result cycles s :
  Wf s -> s.[IDMA_BOOT_HOLD] = 0 -> 0 < cycles < 0x7fffffff ->
  exists k, 1 <= k <= cycles /\
  (exec (adsp2181_run cycles) s).[CYCLES] = u64 (s.[CYCLES] + k) /\
  (eval (adsp2181_run cycles) s = cycles /\ k = cycles \/
   eval (adsp2181_run cycles) s = cycles + 1).
Proof.
  intros Hs Hh Hc. unfold adsp2181_run. run. rewrite Hh.
  assert (cycles <=? 0 = false) as -> by lia. cbn [orb nz Z.eqb negb]. run.
  assert (conv (fty ICOUNT) cycles = cycles) as -> by
    (apply in_frange_conv; unfold in_frange; hoare_ranges; lia).
  set (s1 := set ICOUNT cycles s).
  assert (Wf s1) as Hs1 by (apply wf_set; [done|unfold in_frange; hoare_ranges; lia]).
  unfold execute. run. destruct (ok_check_irqs s1 Hs1) as [Hm _].
  pose proof (check_irqs_icount s1 Hs1) as Hi. unfold s1 in Hi at 2. rewrite get_set_eq in Hi.
  pose proof (micros_cycles _ _ Hs1 Hm) as Hcy. unfold s1 in Hcy at 2. gets in Hcy.
  rewrite Hi. replace (Z.max 1 cycles) with cycles by lia.
  destruct (run_loop_last (Z.to_nat cycles) (exec check_irqs s1) (micros_wf _ _ Hs1 Hm) ltac:(lia))
    as (k & Hk & Hck & Hn).
  exists k. rewrite Hck, Hcy. split; [lia|]. split; [done|].
  assert (forall v, -1 <= v <= 0 -> s32 (cycles - v) = cycles - v) as Hr.
  { intros v Hv. apply conv_id. cbv [cmin cmax cbits csigned]. conv_lits. lia. }
  destruct Hn as [[-> ->] | ->]; rewrite Hr by lia; [left|right]; lia.
Qed.

(** The running processor never touches configuration: everything outside
    [run_f] and [run_a] (chip type, masks, the IDMA port, pins, forced fetches
    and their values, watch gates, the injected-call record, the boot hold) is
    the same before and after [adsp2181_run], whatever the program does. *)
Theorem run_leaves_configuration cycles s :
  Wf s ->
  (forall f, run_f f = false -> (exec (adsp2181_run cycles) s).[f] = s.[f]) /\
  (forall a, run_a a = false -> ars (exec (adsp2181_run cycles) s) a = ars s a).
Proof.
  intros Hs.
  apply (run_inv (fun t => (forall f, run_f f = false -> t.[f] = s.[f]) /\
    (forall a, run_a a = false -> ars t a = ars s a)) cycles s); try done.
  - intros t t' Ht Hm [H1 H2]. destruct (micro_touches t t' Ht Hm) as (_ & H3 & H4).
    split; [intros f Hf; by rewrite H3, H1|intros a Ha; by rewrite H4, H2].
  - intros t Ht [H1 H2]. destruct (tick_touches t Ht) as [(_ & H3 & H4) _].
    split; [|intros a Ha; by rewrite H4, H2].
    intros f Hf. rewrite H3; [by apply H1|by destruct f].
  - intros n t [H1 H2]. split; [|done]. intros f Hf. rewrite get_set_ne; [by apply H1|].
    by intros ->.
Qed.

(** C18: MR (in both register banks) stays a 40-bit value sign-extended to its
    64-bit storage: a run that starts so ends so. *)
Theorem run_mr_normal cycles s :
  Wf s -> MrNormal s -> MrNormal (exec (adsp2181_run cycles) s).
Proof.
  intros Hs H. apply (run_inv MrNormal cycles s); try done. apply mr_normal_closed.
Qed.

(** SSTAT's four EMPTY bits say exactly which stack pointers are 0, and
    the LOOP and LOOP_CONDITION registers are the decoded top of the loop
    stack (0xffff and 0 when it is empty): [adsp2181_run] preserves this. *)
Theorem run_coherent cycles s :
  Wf s -> Coherent s -> Coherent (exec (adsp2181_run cycles) s).
Proof.
  intros Hs H. apply (run_inv Coherent cycles s); try done.
  - apply coherent_closed.
  - intros t _. apply coherent_tick.
  - intros n t Ht. eapply coherent_view; [|exact Ht]. by apply same_view_set.
Qed.

(** Every circular-buffer mask stays the power-of-two base mask of its
    length register. *)
Theorem run_mask_ok cycles s :
  Wf s -> MaskOk s -> MaskOk (exec (adsp2181_run cycles) s).
Proof.
  intros Hs H. apply (run_inv MaskOk cycles s); try done. apply mask_ok_closed.
Qed.

(** A pin holds: a data word that is pinned and has its pinned value keeps
    it across any run, in every page its address can select. *)
Theorem run_pin_holds cycles s x c :
  Wf s -> 0 <= x < 0x4000 -> s.{PIN_DM, x} <> 0 -> dm_page x c -> PinHolds x c s ->
  PinHolds x c (exec (adsp2181_run cycles) s).
Proof.
  intros Hs Hx Hp Hc Hh. unfold PinHolds in *.
  pose proof (run_inv (fun s' => s'.{PIN_DM, x} <> 0 /\
    s'.{PIN_DM_VALUE, x} = s.{PIN_DM_VALUE, x} /\ s'.{c.1, c.2} = s.{PIN_DM_VALUE, x}) cycles s
    (pin_closed x c _ Hx Hc)) as Hr.
  destruct Hr as (_ & _ & H2 & H3); try done. by rewrite H2, H3.
Qed.
End Claims.

(** ** Witnesses *)

(** Store program words through the host's own path. *)
Fixpoint load_pm (l : list (Z * Z)) (s : state) : state :=
  match l with
  | [] => s
  | (x, w) :: l => load_pm l (exec (WWORD_PGM x w) s)
  end.
Lemma load_pm_wf l s : Wf s -> Wf (load_pm l s).
Proof.
  revert s. induction l as [|[x w] l IH]; intros s Hs; [done|].
  apply IH. destruct (ok_WWORD_PGM x w s Hs). by apply (micros_wf s).
Qed.

(** [CNTR = 3; DO 2 UNTIL CE; 2: AF = AF + 1; AX0 = 0x1234; DM(0x100) = AX0;
    IDLE] on a fresh processor with DM 0x100 pinned at 0x55. *)
Definition demo : state :=
  load_pm [(0, 0x3c0035); (1, 0x14002e); (2, 0x26300f); (3, 0x412340); (4, 0x901000);
           (5, 0x028000)]
    (exec (adsp2181_pin_dm 0x100 0x55 1) (exec (WWORD_DATA 0x100 0x55)
      (@adsp2181_create null_host))).

Lemma demo_wf : Wf demo.
Proof.
  apply load_pm_wf.
  assert (hoare kept (adsp2181_pin_dm 0x100 0x55 1) any) as H by (unfold adsp2181_pin_dm; hoare_auto).
  pose proof (create_wf (host := null_host)) as Hc.
  destruct (ok_kept _ _ (ok_WWORD_DATA 0x100 0x55) _ Hc) as [Hw _]. specialize (Hw Hc).
  by apply (H _ Hw).
Qed.

Lemma execute_terminates_witness :
  do_while (host := null_host) (exec check_irqs (set ICOUNT 20 demo))
    (exec (execute (host := null_host)) (set ICOUNT 20 demo)).
Proof.
  apply (execute_terminates (host := null_host) (set ICOUNT 20 demo)).
  - apply wf_set; [apply demo_wf|vm_compute; split; discriminate].
  - vm_compute. reflexivity.
Defined.

Lemma run_result_witness :
  exists k, 1 <= k <= 20 /\
  (exec (adsp2181_run (host := null_host) 20) demo).[CYCLES] = u64 (demo.[CYCLES] + k) /\
  (eval (adsp2181_run (host := null_host) 20) demo = 20 /\ k = 20 \/
   eval (adsp2181_run (host := null_host) 20) demo = 20 + 1).
Proof.
  apply (run_result (host := null_host) 20 demo); [apply demo_wf|vm_compute; reflexivity|lia].
Defined.

Lemma run_leaves_configuration_witness :
  (exec (adsp2181_run (host := null_host) 20) demo).[CHIP_TYPE] = 5.
Proof.
  rewrite (proj1 (run_leaves_configuration (host := null_host) 20 demo demo_wf) CHIP_TYPE eq_refl).
  vm_compute. reflexivity.
Defined.

Lemma run_mr_normal_witness : MrNormal (exec (adsp2181_run (host := null_host) 20) demo).
Proof. apply run_mr_normal; [apply demo_wf|]. split; vm_compute; reflexivity. Defined.

Lemma run_coherent_witness : Coherent (exec (adsp2181_run (host := null_host) 20) demo).
Proof.
  apply run_coherent; [apply demo_wf|].
  split; vm_compute; try reflexivity. split; reflexivity.
Defined.

Lemma run_mask_ok_witness : MaskOk (exec (adsp2181_run (host := null_host) 20) demo).
Proof.
  apply run_mask_ok; [apply demo_wf|]. intros k Hk.
  assert (k = 0 \/ k = 1 \/ k = 2 \/ k = 3 \/ k = 4 \/ k = 5 \/ k = 6 \/ k = 7) as Hd by lia.
  repeat destruct Hd as [-> | Hd]; try subst k; vm_compute; reflexivity.
Defined.

Lemma run_pin_holds_witness :
  PinHolds 0x100 (DATA, 0x100) (exec (adsp2181_run (host := null_host) 20) demo).
Proof.
  apply run_pin_holds; [apply demo_wf|lia|vm_compute; discriminate|by left|].
  vm_compute. reflexivity.
Defined.
