(* ===== verification/Safety.v ===== *)
(** * Safety of the public interface

    Every exported function keeps the state well-formed, and so does a store
    through one of the pointers to the memories that stays inside its array and
    stores 24-bit program words. So any sequence of them on a created emulator,
    with any arguments and any program in memory, never indexes an array out of
    bounds and keeps every member in range. *)
From S2P Require Import Prelude State Tables Memory Stacks Regs Alu Mac Shift Exec Api Effects EffectsOps EffectsExec Invariants.

(** ** Definitions *)

(** The memories a host reaches through a pointer. *)
Inductive memory := MPm | MDm | MIo | MPmOverlay (overlay : Z) | MDmOverlay (overlay : Z).
Definition memory_pointer (m : memory) : option pointer :=
  match m with
  | MPm => Some adsp2181_pm
  | MDm => Some adsp2181_dm
  | MIo => Some adsp2181_io
  | MPmOverlay overlay => adsp2181_pm_overlay overlay
  | MDmOverlay overlay => adsp2181_dm_overlay overlay
  end.
(** A host's [p[k] = v]; a store through [NULL] is recorded in [FAULT]. *)
Definition store (m : memory) (k v : Z) : M unit :=
  match memory_pointer m with
  | Some p => p_wr p k v
  | None => fun s => (tt, set FAULT 1 s)
  end.

(** The exported functions that can change the state, and a host's stores. *)
Inductive call :=
  | CReset | CRun (cycles : Z) | CSetIdmaBootHold (on : Z)
  | CIdmaAddrWrite (address : Z) | CIdmaDataWrite (value : Z) | CIdmaDataRead
  | CHostWrite (addr value : Z) | CHostRead (addr : Z)
  | CWatchDmLimited (addr limit : Z) | CWatchDmWrites (addr limit : Z)
  | CWatchDm (addr on : Z) | CWatchPm (addr on : Z) | CWatchGate (on : Z) | CPcspWindow
  | CPinPm (addr value on : Z) | CForcePmFetch (addr value on : Z) | CPinDm (addr value on : Z)
  | CStopOnDmWrite (addr on : Z) | CStopOnDmWriteN (addr group on : Z) | CYieldOnStop (on : Z)
  | CContinueNonIdle (on : Z) | CLatchDmWrite (addr on : Z) | CStopDmHit
  | CWatchExec (addr on : Z) | CWatchExecLimited (addr limit : Z) | CWatchIrqs (on : Z)
  | CReadPm (addr : Z) | CCoverageClear | CCoverageGate (on : Z) | CDmCensus (on : Z)
  | CDmCensusClear | CTraceBudget (n : Z) | CSetPc (pc : Z) | CCall (entry return_pc : Z)
  | CSetIrq (irq asserted : Z) | CSport1Frame (receive_word cycles : Z)
  | CSport0TdmFrame (active_slot dispatch_slot active_word idle_word cycles_per_slot : Z)
  | CModemSample (active_word idle_word cycles_per_pass continuation return_pc : Z)
  | CG711EncodeBlock (samples : list Z) (entry return_pc cycles_per_sample : Z)
  | CSetImask (imask : Z) | CSetFlagin (asserted : Z) | CSetAr (value : Z) | CSetSr1 (value : Z)
  | CStore (m : memory) (k v : Z).

Ltac unfold_api := unfold adsp2181_set_idma_boot_hold, adsp2181_idma_addr_write,
  adsp2181_idma_data_write, adsp2181_idma_data_read, idma_boot_step, adsp2181_host_write,
  adsp2181_host_read, adsp2181_watch_dm_limited, adsp2181_watch_dm_writes, adsp2181_watch_dm,
  adsp2181_watch_pm, adsp2181_watch_gate, adsp2181_pcsp_window, adsp2181_pin_pm,
  adsp2181_force_pm_fetch, adsp2181_pin_dm, adsp2181_stop_on_dm_write,
  adsp2181_stop_on_dm_write_n, adsp2181_yield_on_stop, adsp2181_continue_non_idle,
  adsp2181_latch_dm_write, adsp2181_stop_dm_hit, adsp2181_watch_exec,
  adsp2181_watch_exec_limited, adsp2181_watch_irqs, adsp2181_read_pm,
  adsp2181_coverage_clear, adsp2181_coverage_gate, adsp2181_dm_census,
  adsp2181_dm_census_clear, adsp2181_trace_budget, adsp2181_set_pc, adsp2181_set_imask,
  adsp2181_set_flagin, adsp2181_set_ar, adsp2181_set_sr1.

Section Safety.
Context {host : Host} {hok : HostOk host}.

Definition run_call (c : call) : M unit :=
  match c with
  | CReset => adsp2181_reset
  | CRun cycles => adsp2181_run cycles ;; skip
  | CSetIdmaBootHold on => adsp2181_set_idma_boot_hold on
  | CIdmaAddrWrite address => adsp2181_idma_addr_write address
  | CIdmaDataWrite value => adsp2181_idma_data_write value
  | CIdmaDataRead => adsp2181_idma_data_read ;; skip
  | CHostWrite addr value => adsp2181_host_write addr value
  | CHostRead addr => adsp2181_host_read addr ;; skip
  | CWatchDmLimited addr limit => adsp2181_watch_dm_limited addr limit
  | CWatchDmWrites addr limit => adsp2181_watch_dm_writes addr limit
  | CWatchDm addr on => adsp2181_watch_dm addr on
  | CWatchPm addr on => adsp2181_watch_pm addr on
  | CWatchGate on => adsp2181_watch_gate on
  | CPcspWindow => adsp2181_pcsp_window ;; skip
  | CPinPm addr value on => adsp2181_pin_pm addr value on
  | CForcePmFetch addr value on => adsp2181_force_pm_fetch addr value on
  | CPinDm addr value on => adsp2181_pin_dm addr value on
  | CStopOnDmWrite addr on => adsp2181_stop_on_dm_write addr on
  | CStopOnDmWriteN addr group on => adsp2181_stop_on_dm_write_n addr group on
  | CYieldOnStop on => adsp2181_yield_on_stop on
  | CContinueNonIdle on => adsp2181_continue_non_idle on
  | CLatchDmWrite addr on => adsp2181_latch_dm_write addr on
  | CStopDmHit => adsp2181_stop_dm_hit ;; skip
  | CWatchExec addr on => adsp2181_watch_exec addr on
  | CWatchExecLimited addr limit => adsp2181_watch_exec_limited addr limit
  | CWatchIrqs on => adsp2181_watch_irqs on
  | CReadPm addr => adsp2181_read_pm addr ;; skip
  | CCoverageClear => adsp2181_coverage_clear
  | CCoverageGate on => adsp2181_coverage_gate on
  | CDmCensus on => adsp2181_dm_census on
  | CDmCensusClear => adsp2181_dm_census_clear
  | CTraceBudget n => adsp2181_trace_budget n
  | CSetPc pc => adsp2181_set_pc pc
  | CCall entry return_pc => adsp2181_call entry return_pc
  | CSetIrq irq asserted => adsp2181_set_irq irq asserted
  | CSport1Frame w cycles => adsp2181_sport1_frame w cycles ;; skip
  | CSport0TdmFrame a d w i c => adsp2181_sport0_tdm_frame a d w i c ;; skip
  | CModemSample w i c k r => adsp2181_modem_sample w i c k r ;; skip
  | CG711EncodeBlock l e r c => adsp2181_g711_encode_block l e r c ;; skip
  | CSetImask imask => adsp2181_set_imask imask
  | CSetFlagin asserted => adsp2181_set_flagin asserted
  | CSetAr value => adsp2181_set_ar value
  | CSetSr1 value => adsp2181_set_sr1 value
  | CStore m k v => store m k v
  end.

(** What a host's stores have to respect: the pointer is not null, the index is
    inside its array, and a program word has 24 bits. *)
Definition call_ok (c : call) : bool :=
  match c with
  | CStore m k v =>
      match memory_pointer m with
      | Some p => p_in p k && (conv (aty (p_arr p)) v <=? snd (arange (p_arr p)))
      | None => false
      end
  | _ => true
  end.

(** A session: a created emulator and the calls made on it. *)
Definition session (cs : list call) : state :=
  foldl (fun s c => exec (run_call c) s) adsp2181_create cs.

(** ** The calls, one by one *)
Lemma kept_execute : hoare kept execute any.
Proof. intros s Hs. split; [intros _; by apply execute_wf|done]. Qed.
#[local] Hint Resolve kept_execute : hoare_db.

Lemma kept_run cycles : hoare kept (adsp2181_run cycles) any.
Proof. unfold adsp2181_run. hoare_auto. Qed.
#[local] Hint Resolve kept_run : hoare_db.

(** *** Injected calls *)
Lemma kept_sstat_or bit : 0 <= bit <= 0xff -> hoare kept (sstat_or bit) any.
Proof using Type. intros. unfold sstat_or. hoare_auto. Qed.
Lemma kept_sstat_clr bit : hoare kept (sstat_clr bit) any.
Proof using Type. unfold sstat_clr. hoare_auto. Qed.
#[local] Hint Resolve kept_sstat_clr : hoare_db.
#[local] Hint Extern 1 (hoare kept (sstat_or _) _) =>
  apply kept_sstat_or; vm_compute; split; discriminate : hoare_db.

Lemma kept_unwind_to sp inject : frange sp = frange inject ->
  hoare kept (unwind_to sp inject) any.
Proof using Type.
  intros E. unfold unwind_to. eapply hoare_bind; [apply hoare_rd|]. intros v _. cbv beta.
  eapply hoare_bind; [apply hoare_rd|]. intros i Hi. cbv beta in Hi. apply hoare_when. intros _.
  apply hoare_wr_in; [apply _|]. by rewrite E.
Qed.
#[local] Hint Extern 1 (hoare kept (unwind_to _ _) _) => by apply kept_unwind_to : hoare_db.

Lemma kept_discard return_pc : hoare kept (discard_stale_synthetic_returns return_pc) any.
Proof using Type. unfold discard_stale_synthetic_returns. hoare_auto. Qed.
#[local] Hint Resolve kept_discard : hoare_db.

Lemma kept_adsp2181_call entry return_pc : hoare kept (adsp2181_call entry return_pc) any.
Proof using Type. unfold adsp2181_call. hoare_auto. Qed.

(** *** Interrupts and frames *)
Lemma kept_set_irq irq asserted : hoare kept (adsp2181_set_irq irq asserted) any.
Proof.
  unfold adsp2181_set_irq, ADSP2181_IRQ_COUNT.
  destruct (_ || _) eqn:E; [apply hoare_skip|]. apply orb_false_iff in E as [E1 E2].
  eapply hoare_bind; [apply hoare_ard; cbn; lia|]. intros st _. cbv beta.
  eapply (hoare_bind _ _ any).
  - destruct (_ && _); [|apply hoare_skip].
    eapply (hoare_bind _ _ any); [eapply hoare_awr_full; [typeclasses eauto|cbn; lia|done]|]. intros _ _.
    hoare_auto.
  - intros _ _. pose proof (b2z_range (nz asserted)).
    eapply (hoare_bind _ _ any); [eapply hoare_awr_full; [typeclasses eauto|cbn; lia|done]|]. intros _ _.
    apply ok_kept, ok_check_irqs.
Qed.
#[local] Hint Resolve kept_set_irq : hoare_db.

Lemma kept_sport1_frame w cycles : hoare kept (adsp2181_sport1_frame w cycles) any.
Proof. unfold adsp2181_sport1_frame. hoare_auto. Qed.

Lemma kept_irq_bits a k n bits : a = IRQ_STATE \/ a = IRQ_LATCH -> 0 <= n -> n + Z.of_nat k <= 9 ->
  hoare kept (irq_bits a k n bits) any.
Proof using Type.
  intros Ha. revert n bits. induction k as [|k IH]; intros n bits Hn Hk; [by apply hoare_ret|].
  cbn [irq_bits]. eapply hoare_bind; [apply hoare_ard; destruct Ha as [-> | ->]; cbn; lia|].
  intros v _. apply IH; lia.
Qed.

Lemma kept_snapshot out : out = SPORT_ENTRY_SNAPSHOT \/ out = SPORT_RETURN_SNAPSHOT ->
  hoare kept (take_sport_snapshot out) any.
Proof using Type.
  intros Ho. unfold take_sport_snapshot.
  do 2 (eapply (hoare_bind _ _ any); [apply kept_irq_bits; [auto|lia|cbn; lia]|intros ? _]).
  destruct Ho as [-> | ->]; hoare_auto.
Qed.
#[local] Hint Extern 1 (hoare kept (take_sport_snapshot _) _) =>
  apply kept_snapshot; auto : hoare_db.

Lemma kept_sport0_interrupt c : hoare kept (sport0_interrupt c) any.
Proof. unfold sport0_interrupt. hoare_auto. Qed.
#[local] Hint Resolve kept_sport0_interrupt : hoare_db.

Lemma kept_full_tdm k pass a d w i c td ti tx :
  hoare kept (full_tdm_passes k pass a d w i c td ti tx) any.
Proof.
  revert pass tx. induction k as [|k IH]; intros pass tx; [by apply hoare_ret|].
  cbn [full_tdm_passes]. hoare_auto.
Qed.
#[local] Hint Resolve kept_full_tdm : hoare_db.

Lemma kept_sport0_tdm a d w i c : hoare kept (adsp2181_sport0_tdm_frame a d w i c) any.
Proof.
  unfold adsp2181_sport0_tdm_frame. hoare_auto.
  apply hoare_for_upto. intros k _. apply ok_kept, ok_WWORD_DATA.
Qed.
#[local] Hint Resolve kept_sport0_tdm : hoare_db.

Lemma kept_for_each {A} (l : list A) body :
  (forall x, hoare kept (body x) any) -> hoare kept (for_each l body) any.
Proof using Type.
  intros H. induction l as [|x l IH]; [apply hoare_skip|].
  cbn. eapply (hoare_bind _ _ any); [apply H|done].
Qed.

Lemma kept_inject k r c : hoare kept (inject_continuation k r c) any.
Proof.
  unfold inject_continuation.
  eapply (hoare_bind _ _ Wf); [intros s Hs; split; done|]. intros saved Hsaved. cbv zeta.
  pose proof (wf_field saved Hsaved STOP_DM_ARMED) as Harm. unfold in_frange in Harm.
  assert (forall a, hoare kept (restore_array saved a) any) as Ha.
  { intros a s Hs. split; [|done]. intros _. split; [apply Hs|]. intros b j.
    change (exec (restore_array saved a) s) with (aput a (ars saved a) s).
    unfold aget. rewrite ars_aput. destruct (arr_eqb b a) eqn:E; [|apply Hs].
    apply arr_eqb_eq in E as ->. apply (wf_elem saved Hsaved). }
  assert (forall f, hoare kept (restore_field saved f) any) as Hf.
  { intros f. apply hoare_wr_in; [apply _|]. apply (wf_field saved Hsaved f). }
  do 5 (eapply (hoare_bind _ _ any); [hoare_auto|intros _ _]).
  do 2 (eapply (hoare_bind _ _ any); [by apply kept_for_each|intros _ _]).
  hoare_auto.
Qed.
#[local] Hint Resolve kept_inject : hoare_db.

Lemma kept_modem_sample w i c k r : hoare kept (adsp2181_modem_sample w i c k r) any.
Proof. unfold adsp2181_modem_sample. hoare_auto. Qed.

Lemma kept_g711_all l e r c : hoare kept (g711_encode_all l e r c) any.
Proof.
  induction l as [|x l IH]; [by apply hoare_ret|]. cbn [g711_encode_all].
  unfold g711_encode_one. hoare_auto.
Qed.
#[local] Hint Resolve kept_g711_all : hoare_db.
Lemma kept_g711 l e r c : hoare kept (adsp2181_g711_encode_block l e r c) any.
Proof. unfold adsp2181_g711_encode_block. hoare_auto. Qed.
#[local] Hint Resolve kept_adsp2181_call kept_sport1_frame kept_modem_sample kept_g711
  kept_reset : hoare_db.

(** Every pointer stays inside its array. *)
Lemma memory_pointer_in m p k : memory_pointer m = Some p -> p_in p k = true ->
  0 <= p_base p + k < alen (p_arr p).
Proof using Type.
  unfold p_in. rewrite andb_true_iff, Z.leb_le, Z.ltb_lt. intros Hm Hk.
  destruct m as [| | |o|o]; cbn [memory_pointer] in Hm; unfold adsp2181_pm_overlay, adsp2181_dm_overlay in Hm.
  1-3: injection Hm as <-; cbn in *; lia.
  all: rewrite Z.geb_leb in Hm; destruct (1 <=? o) eqn:E1, (o <=? 2) eqn:E2; try discriminate Hm;
    injection Hm as <-; cbn in *; lia.
Qed.
Lemma memory_pointer_array m p : memory_pointer m = Some p ->
  In (p_arr p) [PROGRAM; DATA; IO; PROGRAM_OVERLAY; DATA_OVERLAY].
Proof using Type.
  destruct m as [| | |o|o]; cbn [memory_pointer]; unfold adsp2181_pm_overlay, adsp2181_dm_overlay.
  1-3: intros [= <-]; cbn; tauto.
  all: destruct (_ && _); [intros [= <-]; cbn; tauto|done].
Qed.

Lemma kept_store m k v : call_ok (CStore m k v) = true -> hoare kept (store m k v) any.
Proof using Type.
  cbn [call_ok]. unfold store. destruct (memory_pointer m) as [p|] eqn:Em; [|done].
  intros [Hk Hv%Z.leb_le]%andb_true_iff. unfold p_wr. rewrite Hk.
  apply hoare_awr; [apply _|by apply (memory_pointer_in m)|].
  pose proof (conv_range (aty (p_arr p)) v). unfold in_arange.
  destruct (memory_pointer_array m p Em) as [E|[E|[E|[E|[E|[]]]]]]; rewrite <- E in *; cbn in *; lia.
Qed.

Lemma kept_call c : call_ok c = true -> hoare kept (run_call c) any.
Proof.
  destruct c; intros Hc; cbn [run_call];
    lazymatch goal with
    | |- hoare _ (store _ _ _) _ => by apply kept_store
    | _ => clear Hc; unfold_api; hoare_auto
    end.
Qed.

Lemma session_wf cs : forallb call_ok cs = true -> Wf (session cs).
Proof.
  unfold session. generalize create_wf. generalize adsp2181_create.
  induction cs as [|c cs IH]; intros s Hs Hc; [done|].
  apply andb_true_iff in Hc as [Hc Hcs]. apply IH; [|done]. by apply (kept_call c Hc s Hs).
Qed.

(** C1: memory safety of the public interface. After any sequence of exported
    calls on a created emulator and of stores through the pointers it hands
    out, with any arguments, any program and data, and callbacks that do no
    more than running code could, every member and array element is within its
    range and no array has ever been indexed out of bounds. The host's own
    stores are asked to stay inside the array of their pointer and to write
    program words of 24 bits; nothing is asked of the exported functions. *)
Theorem session_safe cs : forallb call_ok cs = true ->
  Wf (session cs) /\ (session cs).[FAULT] = 0.
Proof.
  intros Hc. pose proof (session_wf cs Hc) as H. split; [done|].
  pose proof (wf_field _ H FAULT) as Hf. unfold in_frange in Hf. cbn in Hf. lia.
Qed.
End Safety.

(** ** Witness *)

(** A host with all three callbacks: the receive word is a data-memory mailbox,
    transmit words and timer changes go to I/O space. *)
Definition line_host : Host := {|
  sport_rx_callback := Some (fun port => RWORD_DATA (0x3000 + port));
  sport_tx_callback := Some (fun port v => WWORD_IO port v);
  timer_fired := Some (fun on => WWORD_IO 2 on);
  env_ym1_mame_all := false;
  env_ym1_mame_pcs := [(0x100, 0x1ff)];
  env_ym1_log := 4;
  env_sport_full_tdm := false;
  undefined_shift := fun x n => x >>> n mod 32;
|}.

#[export] Instance line_host_ok : HostOk line_host.
Proof.
  split; cbn [sport_rx_callback sport_tx_callback timer_fired line_host].
  - intros f port [= <-]. eapply eval_any; [typeclasses eauto|apply ok_RWORD_DATA].
  - intros f port v [= <-]. apply ok_WWORD_IO.
  - intros f on [= <-]. apply ok_WWORD_IO.
  - intros f on s [= <-]. unfold WWORD_IO. rewrite exec_awr; [by gets|].
    cbn [alen]. pose proof (land_range_r 2 0x7ff ltac:(lia)). lia.
Qed.

(** Load a program through the IDMA port, and an overlay through its pointer,
    watch a word, interrupt and run. *)
Definition line_session : list call :=
  [CStore (MPmOverlay 2) 0x1fff 0xffffff; CStore MDm 7 (-1); CHostWrite 0x4100 0x55; CWatchDm 0x4100 1; CDmCensus 1; CIdmaAddrWrite 0;
   CIdmaDataWrite 0x3c00; CIdmaDataWrite 0x35; CIdmaDataWrite 0x1400; CIdmaDataWrite 0x2e;
   CIdmaDataWrite 0x2630; CIdmaDataWrite 0x0f; CIdmaDataWrite 0x4123; CIdmaDataWrite 0x40;
   CIdmaDataWrite 0x9010; CIdmaDataWrite 0x00; CIdmaDataWrite 0x0280; CIdmaDataWrite 0x00;
   CTraceBudget 5; CRun 20; CSetIrq 3 1; CCall 0 5; CRun 20].

Lemma session_safe_witness :
  HostOk line_host /\ forallb call_ok line_session = true /\
  Wf (session (host := line_host) line_session).
Proof.
  split; [apply line_host_ok|]. split; [reflexivity|].
  apply (session_safe (host := line_host) line_session). reflexivity.
Defined.
