(* ===== verification/Coherence.v ===== *)
(** * Coherence of the stacks across the public interface

    In a session of exported calls in which no injected call is abandoned,
    SSTAT's EMPTY bits and the loop registers agree with the hardware stacks
    after every call. An abandoned injected call is one whose return address a
    later [adsp2181_call] or [adsp2181_modem_sample] takes off the stacks. *)
From S2P Require Import Prelude State Tables Memory Stacks Regs Alu Mac Shift Exec Api Effects EffectsOps EffectsExec Invariants Safety.

(** ** Definitions *)

(** No injected call is followed by one that could abandon it; a reset forgets
    injected calls. [injected] says that one has been made. *)
Fixpoint never_abandons (injected : bool) (cs : list call) : bool :=
  match cs with
  | [] => true
  | CReset :: cs => never_abandons false cs
  | CCall _ _ :: cs => negb injected && never_abandons true cs
  | CModemSample _ _ _ _ _ :: cs => negb injected && never_abandons injected cs
  | _ :: cs => never_abandons injected cs
  end.

(** Coherent, and no injected call is on record unless [injected]. *)
Definition Held (injected : bool) (s : state) : Prop :=
  Coherent s /\ (injected = false -> s.[INJECT_VALID] = 0).
Definition holds (injected : bool) : relation state := fun s t =>
  Wf s -> Wf t /\ (Held injected s -> Held injected t).

(** Members and arrays a call may set without looking. *)
Definition free_f (f : field) : bool :=
  match f with INJECT_VALID | SSTAT => false | _ => negb (view_f f) end.
Definition free_a (a : arr) : bool := match a with LOOP_STACK => false | _ => true end.

(** ** The relation is an effect *)
Lemma held_view b s t : SameView s t -> t.[INJECT_VALID] = s.[INJECT_VALID] -> Held b s -> Held b t.
Proof. intros Hv Hi [H1 H2]. split; [by apply (coherent_view s)|by rewrite Hi]. Qed.

#[export] Instance holds_effect b : Effect (holds b).
Proof.
  split.
  - split; [by intros s Hs|]. intros s1 s2 s3 H1 H2 Hs.
    destruct (H1 Hs) as [Hs2 H1']. destruct (H2 Hs2) as [Hs3 H2']. auto.
  - intros s t Hs H. by apply H.
  - intros e s Hs. split; [by apply wf_event|]. by apply held_view.
Qed.
#[export] Instance holds_set b f : TCEq (free_f f) true -> CanSet (holds b) f.
Proof.
  intros E%TCEq_eq s v Hs Hv _. split; [by apply wf_set|]. apply held_view.
  - apply same_view_set; [|by intros ->]. unfold free_f in E. destruct f; done.
  - apply get_set_ne. by intros <-.
Qed.
#[export] Instance holds_put b a : TCEq (free_a a) true -> CanPut (holds b) a.
Proof.
  intros E%TCEq_eq s k v Hs Hk Hv _. split; [by apply wf_aset|]. apply held_view; [|done].
  apply same_view_aset. by intros ->.
Qed.
Lemma held_closed b : closed (Held b).
Proof.
  intros s t Hs Hm [H1 H2]. split; [by apply (coherent_closed s)|].
  intros E. destruct (micro_touches s t Hs Hm) as (_ & Hf & _). by rewrite Hf, H2.
Qed.
Lemma ok_holds {A} b (m : M A) Q : ok m Q -> hoare (holds b) m Q.
Proof.
  intros H s Hs. destruct (H s Hs) as [Hm Hq]. split; [|done]. intros _.
  split; [by apply (micros_wf s)|]. by apply (closed_micros (Held b) s _ (held_closed b)).
Qed.
#[export] Hint Extern 8 (hoare (holds _) _ _) => apply ok_holds; solve [eauto with hoare_db nocore] : hoare_db.

Lemma holds_aclear b a : free_a a = true -> hoare (holds b) (aclear a) any.
Proof.
  intros Ha s Hs. split; [|done]. intros _. split; [by apply wf_aput_empty|].
  apply held_view; [|done]. split; [done|done|]. intros k.
  unfold aget. change (exec (aclear a) s) with (aput a ∅ s). rewrite ars_aput.
  destruct (arr_eqb LOOP_STACK a) eqn:E; [|done]. apply arr_eqb_eq in E as <-. done.
Qed.
#[export] Hint Extern 1 (hoare (holds _) (aclear _) _) => by apply holds_aclear : hoare_db.

Section Coherence.
Context {host : Host} {hok : HostOk host}.
(** The timer callback leaves the stacks, SSTAT and the loop registers alone. *)
Hypothesis timer_quiet : forall f on s, timer_fired = Some f -> Wf s -> SameView s (exec (f on) s).

Lemma holds_execute b : hoare (holds b) execute any.
Proof using hok.
  intros s Hs. split; [|done]. intros _. split; [by apply execute_wf|]. intros H.
  apply (execute_inv (Held b) s); try done; [apply held_closed|].
  intros t Ht [H1 H2]. split; [by apply coherent_tick|].
  destruct (tick_touches t Ht) as [(_ & Hf & _) _]. by rewrite Hf.
Qed.
#[local] Hint Resolve holds_execute : hoare_db.
Lemma holds_run b cycles : hoare (holds b) (adsp2181_run cycles) any.
Proof using hok. unfold adsp2181_run. hoare_auto. Qed.
#[local] Hint Resolve holds_run : hoare_db.

(** ** Interrupts and frames *)
Lemma holds_set_irq b irq asserted : hoare (holds b) (adsp2181_set_irq irq asserted) any.
Proof using hok.
  unfold adsp2181_set_irq, ADSP2181_IRQ_COUNT.
  destruct (_ || _) eqn:E; [apply hoare_skip|]. apply orb_false_iff in E as [E1 E2].
  eapply hoare_bind; [apply hoare_ard; cbn; lia|]. intros st _. cbv beta.
  eapply (hoare_bind _ _ any).
  - destruct (_ && _); [|apply hoare_skip].
    eapply (hoare_bind _ _ any); [eapply hoare_awr_full; [typeclasses eauto|cbn; lia|done]|]. intros _ _.
    hoare_auto.
  - intros _ _. pose proof (b2z_range (nz asserted)).
    eapply (hoare_bind _ _ any); [eapply hoare_awr_full; [typeclasses eauto|cbn; lia|done]|]. intros _ _.
    apply ok_holds, ok_check_irqs.
Qed.
#[local] Hint Resolve holds_set_irq : hoare_db.
Lemma holds_sport1_frame b w cycles : hoare (holds b) (adsp2181_sport1_frame w cycles) any.
Proof using hok. unfold adsp2181_sport1_frame. hoare_auto. Qed.

Lemma holds_irq_bits b a k n bits : a = IRQ_STATE \/ a = IRQ_LATCH -> 0 <= n -> n + Z.of_nat k <= 9 ->
  hoare (holds b) (irq_bits a k n bits) any.
Proof using Type.
  intros Ha. revert n bits. induction k as [|k IH]; intros n bits Hn Hk; [by apply hoare_ret|].
  cbn [irq_bits]. eapply hoare_bind; [apply hoare_ard; destruct Ha as [-> | ->]; cbn; lia|].
  intros v _. apply IH; lia.
Qed.
Lemma holds_snapshot b out : out = SPORT_ENTRY_SNAPSHOT \/ out = SPORT_RETURN_SNAPSHOT ->
  hoare (holds b) (take_sport_snapshot out) any.
Proof using Type.
  intros Ho. unfold take_sport_snapshot.
  do 2 (eapply (hoare_bind _ _ any); [apply holds_irq_bits; [auto|lia|cbn; lia]|intros ? _]).
  destruct Ho as [-> | ->]; hoare_auto.
Qed.
#[local] Hint Extern 1 (hoare (holds _) (take_sport_snapshot _) _) =>
  apply holds_snapshot; auto : hoare_db.
Lemma holds_sport0_interrupt b c : hoare (holds b) (sport0_interrupt c) any.
Proof using hok. unfold sport0_interrupt. hoare_auto. Qed.
#[local] Hint Resolve holds_sport0_interrupt : hoare_db.
Lemma holds_full_tdm b k pass a d w i c td ti tx :
  hoare (holds b) (full_tdm_passes k pass a d w i c td ti tx) any.
Proof using hok.
  revert pass tx. induction k as [|k IH]; intros pass tx; [by apply hoare_ret|].
  cbn [full_tdm_passes]. hoare_auto.
Qed.
#[local] Hint Resolve holds_full_tdm : hoare_db.
Lemma holds_sport0_tdm b a d w i c : hoare (holds b) (adsp2181_sport0_tdm_frame a d w i c) any.
Proof using hok.
  unfold adsp2181_sport0_tdm_frame. hoare_auto.
  apply hoare_for_upto. intros k _. apply ok_holds, ok_WWORD_DATA.
Qed.
#[local] Hint Resolve holds_sport0_tdm : hoare_db.

(** ** Injected calls *)

(** Copying members back from a saved state. *)
Lemma restore_fields_get saved l s f : Wf saved ->
  (exec (for_each l (restore_field saved)) s).[f] = if decide (f ∈ l) then saved.[f] else s.[f].
Proof using Type.
  intros Hw. revert s. induction l as [|g l IH]; intros s; [done|].
  cbn [for_each]. rewrite exec_bind, IH. unfold restore_field at 1. rewrite exec_wr, in_frange_conv by apply Hw.
  destruct (decide (f ∈ l)) as [Hi|Hi]; [by rewrite decide_True by by right|].
  destruct (decide (f = g)) as [->|Hne].
  - rewrite decide_True by by left. by gets.
  - rewrite decide_False by (rewrite elem_of_cons; tauto). by apply get_set_ne.
Qed.
Lemma restore_fields_ars saved l s : ars (exec (for_each l (restore_field saved)) s) = ars s.
Proof using Type.
  revert s. induction l as [|g l IH]; intros s; [done|]. cbn [for_each]. by rewrite exec_bind, IH.
Qed.
Lemma restore_arrays_get saved l s f :
  (exec (for_each l (restore_array saved)) s).[f] = s.[f].
Proof using Type.
  revert s. induction l as [|g l IH]; intros s; [done|]. cbn [for_each]. by rewrite exec_bind, IH.
Qed.
Lemma restore_arrays_ars saved l s a : a ∈ l ->
  ars (exec (for_each l (restore_array saved)) s) a = ars saved a.
Proof using Type.
  revert s. induction l as [|b l IH]; intros s Ha; [by apply elem_of_nil in Ha|].
  cbn [for_each]. rewrite exec_bind. destruct (decide (a ∈ l)) as [Hi|Hi]; [by apply IH|].
  apply elem_of_cons in Ha as [<-|Ha]; [|done]. clear IH.
  assert (forall u, ars (exec (for_each l (restore_array saved)) u) a = ars u a) as ->.
  { clear s. induction l as [|c l IH]; intros u; [done|]. cbn [for_each].
    apply not_elem_of_cons in Hi as [Hne Hi]. rewrite exec_bind, IH by done.
    change (exec (restore_array saved c) u) with (aput c (ars saved c) u). by apply ars_aput_ne. }
  change (exec (restore_array saved a) s) with (aput a (ars saved a) s). rewrite ars_aput.
  by rewrite (proj2 (arr_eqb_eq a a) eq_refl).
Qed.

Lemma holds_inject b k r c : hoare (holds b) (inject_continuation k r c) any.
Proof using hok.
  intros s Hs. split; [|done]. intros _. split; [by apply (kept_inject k r c s Hs)|]. intros HI.
  unfold inject_continuation. rewrite exec_bind. change (eval get_state s) with s.
  change (exec get_state s) with s. cbv zeta.
  assert (hoare (holds b) (wr STOP_DM_ARMED 0 ;; pc_stack_push_val (r &&& 0x3fff) ;;
    wr PC (k &&& 0x3fff) ;; wr ICOUNT c ;; execute) any) as Hp by hoare_auto.
  destruct (Hp s Hs) as [Hu _]. destruct (Hu Hs) as [Hwu [_ HV]]; [done|].
  rewrite !exec_bind in *. set (u := exec execute _) in *. rewrite !exec_wr.
  set (v := exec (for_each volatile_fields _) _).
  destruct HI as [HC _]. split.
  - apply (coherent_view s); [|done].
    do 3 (etransitivity; [|by apply same_view_set]). split.
    + intros f Hf. unfold v. rewrite restore_fields_get by done. by destruct f.
    + intros j _. unfold v. by rewrite restore_fields_get.
    + intros j. unfold v, aget. rewrite restore_fields_ars, restore_arrays_ars; [done|].
      apply (bool_decide_unpack (LOOP_STACK ∈ volatile_arrays)). by vm_compute.
  - intros E. gets. unfold v. rewrite restore_fields_get by done.
    rewrite decide_False by (apply (bool_decide_unpack (INJECT_VALID ∉ volatile_fields)); by vm_compute).
    rewrite restore_arrays_get. by apply HV.
Qed.
#[local] Hint Resolve holds_inject : hoare_db.

(** Nothing is abandoned while no injected call is on record. *)
Lemma holds_discard r : hoare (holds false) (discard_stale_synthetic_returns r) any.
Proof using Type.
  intros s Hs. split; [|done]. intros _. split; [by apply (kept_discard r s Hs)|].
  intros [HC HI]. unfold discard_stale_synthetic_returns. run. rewrite HI by done.
  cbn [nz Z.eqb negb]. rewrite orb_true_r. by run.
Qed.
#[local] Hint Resolve holds_discard : hoare_db.
Lemma holds_modem_sample w i c k r : hoare (holds false) (adsp2181_modem_sample w i c k r) any.
Proof using hok. unfold adsp2181_modem_sample. hoare_auto. Qed.

(** An injected call puts itself on record. *)
Lemma held_true b s : Held b s -> Held true s.
Proof using Type. by intros [H _]. Qed.
#[local] Instance holds_set_valid : CanSet (holds true) INJECT_VALID.
Proof using Type.
  intros s v Hs Hv _. split; [by apply wf_set|]. intros [H _]. split; [|done].
  apply (coherent_view s); [by apply same_view_set|done].
Qed.
Lemma call_held entry r s : Wf s -> Held false s -> Held true (exec (adsp2181_call entry r) s).
Proof using hok.
  intros Hs HI. destruct (holds_discard r s Hs) as [Hd _]. destruct (Hd Hs) as [Hwd HId].
  unfold adsp2181_call. rewrite exec_bind.
  match goal with |- Held true (exec ?m _) =>
    assert (hoare (holds true) m any) as Hm by hoare_auto end.
  destruct (Hm _ Hwd) as [Hr _]. apply (Hr Hwd). by apply (held_true false), HId.
Qed.

Lemma holds_g711_all b l e r c : hoare (holds b) (g711_encode_all l e r c) any.
Proof using hok.
  induction l as [|x l IH]; [by apply hoare_ret|]. cbn [g711_encode_all].
  unfold g711_encode_one. hoare_auto.
Qed.
#[local] Hint Resolve holds_g711_all : hoare_db.
Lemma holds_g711 b l e r c : hoare (holds b) (adsp2181_g711_encode_block l e r c) any.
Proof using hok. unfold adsp2181_g711_encode_block. hoare_auto. Qed.
#[local] Hint Resolve holds_g711 holds_sport1_frame holds_modem_sample : hoare_db.

(** ** Reset *)
Lemma update_mstat_view s : Wf s -> SameView s (exec update_mstat s).
Proof using timer_quiet hok.
  intros Hs. unfold update_mstat. rewrite exec_bind, eval_rd, exec_rd, exec_bind, eval_rd, exec_rd, exec_bind.
  set (s1 := exec (when _ swap_banks) s).
  assert (SameView s s1 /\ Wf s1) as [V1 W1].
  { unfold s1. destruct (tst _ _); [|done]. split; [|by apply wf_swap]. split; [by intros []|done|done]. }
  clearbody s1. rewrite exec_bind. set (s2 := exec (if tst _ MSTAT_TIMER then _ else _) s1).
  assert (SameView s1 s2) as V2.
  { unfold s2. destruct (tst _ _); [|reflexivity]. destruct timer_fired eqn:E; [by apply timer_quiet|reflexivity]. }
  do 2 (etransitivity; [eassumption|]). clearbody s2. clear. run.
  destruct (tst _ _); run; (etransitivity; [|by apply same_view_set]); by apply same_view_set.
Qed.
(** Reset in four parts: the second sets SSTAT and the loop registers, the
    fourth the stack pointers. *)
Definition reset_dags : M unit :=
  wr (Alt ZERO) 0 ;; wr (Core ZERO) 0 ;;
  for_upto 8 0 reset_dag ;;
  wr PC 0 ;; wr PPC 0xffffffff ;; wr CNTR_VALID 0.
Definition reset_regs : M unit :=
  wr LOOP 0xffff ;; wr LOOP_CONDITION 0 ;;
  wr ASTAT_CLEAR (~~~(CFLAG ||| VFLAG ||| NFLAG ||| ZFLAG)) ;;
  wr MSTAT 0 ;; wr SSTAT 0x55.
Definition reset_watches : M unit :=
  wr IDLE 0 ;;
  wr PMOVLAY 0 ;; wr DMOVLAY 0 ;;
  aclear SPORT_RX ;; aclear SPORT_TX ;; aclear SPORT_TX_WRITTEN ;;
  wr STOP_DM_ARMED 0 ;; wr STOP_DM_HIT 0 ;; wr STOP_DM_GROUP 1 ;; wr STOP_DM_LEFT 1 ;;
  wr LATCH_DM_ARMED 0 ;; wr LATCH_DM_HAVE 0 ;; wr LATCH_DM_COUNT 0 ;;
  wr YIELD_ON_STOP 0 ;; wr CONTINUE_NON_IDLE 0.
Definition reset_stacks : M unit :=
  wr LOOP_SP 0 ;; wr STAT_SP 0 ;; wr CNTR_SP 0 ;; wr PC_SP 0 ;; wr INJECT_VALID 0.
Definition reset_rest : M unit :=
  wr IMASK 0 ;; wr ICNTL 0 ;; wr INTERRUPTS_ENABLED 1 ;;
  wr PCSP_WINDOW_MIN 0xff ;; wr PCSP_WINDOW_MAX 0 ;; wr WATCH_GATE 1 ;;
  wr STACK_OVER_WARNED 0 ;;
  wr COVERAGE_ON 1 ;;
  aclear IRQ_STATE ;; aclear IRQ_LATCH.
Lemma reset_split s : exec adsp2181_reset s =
  exec reset_rest (exec reset_stacks (exec update_mstat (exec reset_watches
    (exec reset_regs (exec reset_dags s))))).
Proof using Type.
  unfold adsp2181_reset, reset_rest, reset_stacks, reset_watches, reset_regs, reset_dags.
  by rewrite !exec_bind.
Qed.
Lemma reset_dags_wf : hoare kept reset_dags any.
Proof using hok.
  unfold reset_dags. do 2 (eapply (hoare_bind _ _ any); [hoare_auto|intros _ _]).
  eapply (hoare_bind _ _ any); [|intros _ _; hoare_auto].
  apply hoare_for_upto. intros i Hi. apply kept_reset_dag. lia.
Qed.
Lemma reset_regs_exec s : let t := exec reset_regs s in
  t.[LOOP] = 0xffff /\ t.[LOOP_CONDITION] = 0 /\ t.[SSTAT] = 0x55.
Proof using Type. unfold reset_regs. run. split_and!; by gets. Qed.
(** What the later parts leave alone. *)
Definition reset_f (f : field) : bool := negb (view_f f || field_eqb f SSTAT).
Lemma touches_aclear pf pa a : pa a = true -> hoare (touches pf pa) (aclear a) any.
Proof using Type.
  intros Ha s Hs. split; [|done]. split; [intros _; by apply wf_aput_empty|].
  split; [done|]. intros b Hb. apply ars_aput_ne. intros ->. congruence.
Qed.
#[local] Hint Extern 1 (hoare (touches _ _) (aclear _) _) => by apply touches_aclear : hoare_db.
Lemma reset_watches_touches : hoare (touches reset_f (fun _ => true)) reset_watches any.
Proof using Type. unfold reset_watches. hoare_auto. Qed.
Definition reset_rest_f (f : field) : bool := reset_f f && negb (field_eqb f INJECT_VALID).
Lemma reset_rest_touches : hoare (touches reset_rest_f (fun _ => true)) reset_rest any.
Proof using Type. unfold reset_rest. hoare_auto. Qed.
Lemma reset_stacks_exec s : let t := exec reset_stacks s in
  t.[LOOP_SP] = 0 /\ t.[STAT_SP] = 0 /\ t.[CNTR_SP] = 0 /\ t.[PC_SP] = 0 /\ t.[INJECT_VALID] = 0 /\
  t.[LOOP] = s.[LOOP] /\ t.[LOOP_CONDITION] = s.[LOOP_CONDITION] /\ t.[SSTAT] = s.[SSTAT].
Proof using Type. unfold reset_stacks. run. split_and!; by gets. Qed.

Lemma reset_held s : Wf s -> Held false (exec adsp2181_reset s).
Proof using timer_quiet hok.
  intros Hs. rewrite reset_split.
  destruct (reset_dags_wf s Hs) as [W1 _]. specialize (W1 Hs). set (s1 := exec reset_dags s) in *.
  assert (hoare kept reset_regs any) as Hr by (unfold reset_regs; hoare_auto).
  destruct (Hr s1 W1) as [W2 _]. specialize (W2 W1).
  destruct (reset_regs_exec s1) as (L & C & S). set (s2 := exec reset_regs s1) in *.
  destruct (reset_watches_touches s2 W2) as [(W3 & F3 & _) _]. specialize (W3 W2).
  set (s3 := exec reset_watches s2) in *.
  destruct (update_mstat_view s3 W3) as [F4 B4 _].
  destruct (ok_kept _ _ ok_update_mstat s3 W3) as [W4 _]. specialize (W4 W3).
  set (s4 := exec update_mstat s3) in *.
  assert (hoare kept reset_stacks any) as Hk by (unfold reset_stacks; hoare_auto).
  destruct (Hk s4 W4) as [W5 _]. specialize (W5 W4).
  destruct (reset_stacks_exec s4) as (P1 & P2 & P3 & P4 & P5 & P6 & P7 & P8).
  set (s5 := exec reset_stacks s4) in *.
  destruct (reset_rest_touches s5 W5) as [(_ & F6 & _) _]. set (t := exec reset_rest s5) in *.
  assert (forall b, view_bit b = true -> tst (t.[SSTAT]) (2 ^ b) = true) as B.
  { intros b Hb. rewrite F6, P8, B4, F3, S by done.
    assert (b = 0 \/ b = 2 \/ b = 4 \/ b = 6) as [-> | [-> | [-> | ->]]] by (unfold view_bit in Hb; lia);
      by vm_compute. }
  split; [|intros _; by rewrite F6].
  split; rewrite ?(F6 PC_SP), ?(F6 CNTR_SP), ?(F6 STAT_SP), ?(F6 LOOP_SP), ?P1, ?P2, ?P3, ?P4 by done.
  - exact (B 0 eq_refl).
  - exact (B 2 eq_refl).
  - exact (B 4 eq_refl).
  - exact (B 6 eq_refl).
  - change (0 =? 0) with true. cbv iota. rewrite (F6 LOOP), (F6 LOOP_CONDITION), P6, P7 by done.
    rewrite (F4 LOOP), (F4 LOOP_CONDITION), (F3 LOOP), (F3 LOOP_CONDITION), L, C by done.
    split; reflexivity.
Qed.

(** ** Sessions *)
Lemma holds_store b m k v : call_ok (CStore m k v) = true -> hoare (holds b) (store m k v) any.
Proof using Type.
  intros Hc s Hs. split; [|done]. intros _. split; [by apply (kept_store m k v Hc s Hs)|].
  cbn [call_ok] in Hc. unfold store. destruct (memory_pointer m) as [p|] eqn:Em; [|done].
  apply andb_true_iff in Hc as [Hk _]. unfold p_wr. rewrite Hk.
  rewrite exec_awr by (by apply (memory_pointer_in m)). apply held_view; [|done].
  apply same_view_aset. pose proof (memory_pointer_array m p Em) as Hin. intros E. rewrite E in Hin.
  by repeat destruct Hin as [Hin|Hin].
Qed.

(** Every call but a reset, an injected call and a modem sample keeps the
    record of injected calls. *)
Definition plain_call (c : call) : bool :=
  match c with CReset | CCall _ _ | CModemSample _ _ _ _ _ => false | _ => true end.
Lemma holds_plain b c : call_ok c = true -> plain_call c = true -> hoare (holds b) (run_call c) any.
Proof using hok.
  destruct c; intros Hc Hp; try discriminate Hp; cbn [run_call];
    lazymatch goal with
    | |- hoare _ (store _ _ _) _ => by apply holds_store
    | _ => clear Hc Hp; unfold_api; hoare_auto
    end.
Qed.

Lemma calls_coherent cs b s : forallb call_ok cs = true -> never_abandons b cs = true ->
  Wf s -> Held b s -> Coherent (foldl (fun s c => exec (run_call c) s) s cs).
Proof using timer_quiet hok.
  revert b s. induction cs as [|c cs IH]; intros b s Hok Hn Hs HI; [apply HI|].
  cbn [forallb] in Hok. apply andb_true_iff in Hok as [Hc Hok]. cbn [foldl].
  destruct (kept_call c Hc s Hs) as [Hw _]. specialize (Hw Hs).
  destruct (plain_call c) eqn:Ep.
  - apply (IH b); [done| |done|by apply (holds_plain b c Hc Ep s Hs)]. by destruct c.
  - destruct c; try discriminate Ep; cbn [never_abandons] in Hn.
    + apply (IH false); [done..|]. by apply reset_held.
    + apply andb_true_iff in Hn as [Hb Hn]. destruct b; [done|].
      apply (IH true); [done..|]. by apply call_held.
    + apply andb_true_iff in Hn as [Hb Hn]. destruct b; [done|].
      apply (IH false); [done..|].
      assert (hoare (holds false) (run_call (CModemSample active_word idle_word cycles_per_pass continuation return_pc)) any)
        as Hm by (cbn [run_call]; hoare_auto).
      by apply (Hm s Hs).
Qed.

End Coherence.

(** ** Witness *)
Lemma line_timer_view f on s : timer_fired (Host := line_host) = Some f -> Wf s ->
  SameView s (exec (f on) s).
Proof. intros [= <-] _. by apply same_view_awr. Qed.


(** The condition is needed: a routine that goes idle inside a loop, called
    again with the same return address, leaves LOOP_EMPTY clear and the loop
    registers set with an empty loop stack. *)
Example abandoned_call_incoherent :
  ~ Coherent (session (host := null_host)
      [CStore MPm 0 0x14002f (* DO 2 UNTIL FOREVER *); CStore MPm 1 0x028000 (* IDLE *);
       CCall 0 0x20; CRun 5; CCall 0 0x20]).
Proof. intros [_ _ _ H _]. vm_compute in H. discriminate H. Qed.
