(* ===== verification/Passive.v ===== *)
(** * Instrumentation does not interfere

    The watches, censuses, coverage, trace, history and log budgets are meant
    to observe a run without changing it. [eqv] relates two states that differ
    only in instrumentation; every operation of the processor respects it, so
    two such states run identically. [rel m m'] is the relational counterpart
    of [hoare]: from related states the two commands return the same value and
    end in related states. *)
From S2P Require Import Prelude State Tables Memory Stacks Regs Alu Mac Shift Exec Api.

(** ** Definitions *)
Definition passive_f (f : field) : bool :=
  match f with
  | EXEC_HISTORY_POS | EXEC_HISTORY_ENABLED | WATCH_GATE | WATCH_IRQS | DM_CENSUS_ON
  | COVERAGE_ON | TRACE_BUDGET | YM1_LOG_BUDGET | PCSP_WINDOW_MIN | PCSP_WINDOW_MAX
  | STACK_OVER_WARNED | FAULT => true
  | _ => false
  end.
Definition passive_a (a : arr) : bool :=
  match a with
  | WATCH_DM | WATCH_DM_LEFT | WATCH_DM_WONLY | WATCH_PM | PIN_PM_HITS | PIN_DM_HITS
  | WATCH_EXEC | WATCH_EXEC_LEFT | EXEC_HISTORY | DM_CENSUS | COVERAGE
  | SPORT_ENTRY_SNAPSHOT | SPORT_RETURN_SNAPSHOT => true
  | _ => false
  end.

Record eqv (s t : state) : Prop := {
  eqv_f f : passive_f f = false -> t.[f] = s.[f];
  eqv_a a k : passive_a a = false -> t.{a, k} = s.{a, k};
}.

Definition rel {A} (m m' : M A) : Prop :=
  forall s t, eqv s t -> eqv (exec m s) (exec m' t) /\ eval m' t = eval m s.
Definition silent {A} (m : M A) : Prop := forall s, eqv s (exec m s).

(** What instrumentation asks of a host: callbacks that do not look at it. *)
Class HostBlind (host : Host) : Prop := {
  blind_rx f port : sport_rx_callback = Some f -> rel (f port) (f port);
  blind_tx f port v : sport_tx_callback = Some f -> rel (f port v) (f port v);
  blind_timer f on : timer_fired = Some f -> rel (f on) (f on);
}.

(** ** Rules *)
#[export] Instance eqv_equiv : Equivalence eqv.
Proof.
  split.
  - intros s. by split.
  - intros s t [H1 H2]. split; intros; symmetry; auto.
  - intros s t u [H1 H2] [H3 H4]. split; intros; [by rewrite H3, H1|by rewrite H4, H2].
Qed.

Lemma eqv_set f v s t : eqv s t -> eqv (set f v s) (set f v t).
Proof.
  intros [H1 H2]. split; [|done]. intros g Hg. rewrite !get_set.
  destruct (field_eqb g f); [done|by apply H1].
Qed.
Lemma eqv_set_passive f v s : passive_f f = true -> eqv s (set f v s).
Proof.
  intros Hf. split; [|done]. intros g Hg. apply get_set_ne. intros ->. congruence.
Qed.
Lemma eqv_aset a k v s t : eqv s t -> eqv (aset a k v s) (aset a k v t).
Proof.
  intros [H1 H2]. split; [done|]. intros b j Hb.
  destruct (decide (b = a)) as [->|]; [|by rewrite !aget_aset_arr; [apply H2|..]].
  destruct (decide (j = k)) as [->|]; [by rewrite !aget_aset_eq|].
  rewrite !aget_aset_ne by done. by apply H2.
Qed.
Lemma eqv_aset_passive a k v s : passive_a a = true -> eqv s (aset a k v s).
Proof.
  intros Ha. split; [done|]. intros b j Hb. apply aget_aset_arr. intros ->. congruence.
Qed.
Lemma eqv_event e s : eqv s (add_event e s).
Proof. by split. Qed.

Lemma rel_ret {A} (x : A) : rel (mret x) (mret x).
Proof. intros s t H. by split. Qed.
Lemma rel_bind {A B} (m m' : M A) (k k' : A -> M B) :
  rel m m' -> (forall x, rel (k x) (k' x)) -> rel (m ≫= k) (m' ≫= k').
Proof.
  intros Hm Hk s t H. rewrite !exec_bind, !eval_bind. destruct (Hm s t H) as [H1 ->].
  by apply Hk.
Qed.
Lemma rel_rd f : passive_f f = false -> rel (rd f) (rd f).
Proof. intros Hf s t H. split; [done|]. by apply H. Qed.
Lemma rel_wr f v : rel (wr f v) (wr f v).
Proof. intros s t H. split; [by apply eqv_set|done]. Qed.
Lemma eqv_fault s t v w : eqv s t -> eqv (set FAULT v s) (set FAULT w t).
Proof.
  intros H. transitivity s; [symmetry; by apply eqv_set_passive|].
  transitivity t; [done|by apply eqv_set_passive].
Qed.
Lemma rel_ard a k : passive_a a = false -> rel (ard a k) (ard a k).
Proof.
  intros Ha s t H. unfold ard, exec, eval. destruct (in_bounds a k).
  - split; [done|]. by apply H.
  - split; [by apply eqv_set|done].
Qed.
Lemma rel_awr a k v : rel (awr a k v) (awr a k v).
Proof.
  intros s t H. unfold awr, exec, eval. destruct (in_bounds a k); (split; [|done]).
  - by apply eqv_aset.
  - by apply eqv_set.
Qed.
Lemma rel_fault {A} (x : A) : rel (fun s => (x, set FAULT 1 s)) (fun s => (x, set FAULT 1 s)).
Proof. intros s t H. split; [by apply eqv_set|done]. Qed.
Lemma rel_skip : rel skip skip.
Proof. apply rel_ret. Qed.
Lemma rel_when b m m' : rel m m' -> rel (when b m) (when b m').
Proof. intros H. destruct b; [done|apply rel_skip]. Qed.
Lemma rel_log e e' : rel (logerror e) (logerror e').
Proof.
  intros s t H. split; [|done].
  transitivity s; [symmetry; apply eqv_event|]. transitivity t; [done|apply eqv_event].
Qed.
Lemma rel_swap : rel swap_banks swap_banks.
Proof.
  intros s t [H1 H2]. split; [|done]. split; [|done].
  intros f Hf. destruct f; cbn; try (by apply H1); by apply (H1 (Core r)) || by apply (H1 (Alt r)).
Qed.
Lemma rel_for_upto k n body body' :
  (forall i, rel (body i) (body' i)) -> rel (for_upto k n body) (for_upto k n body').
Proof.
  intros H. revert n. induction k as [|k IH]; intros n; [apply rel_skip|].
  cbn. apply rel_bind; [apply H|]. intros _. apply IH.
Qed.

(** Instrumentation on one side only. *)
Lemma rel_silent_l {A B} (m : M A) (k : M B) m' : silent m -> rel k m' -> rel (m ;; k) m'.
Proof.
  intros Hm Hk s t H. rewrite exec_bind, eval_bind. apply Hk.
  transitivity s; [symmetry; apply Hm|done].
Qed.
Lemma rel_silent_r {A B} (m : M A) (k m' : M B) : silent m -> rel m' k -> rel m' (m ;; k).
Proof.
  intros Hm Hk s t H. rewrite exec_bind, eval_bind. apply Hk.
  transitivity t; [done|apply Hm].
Qed.
Lemma rel_silent (m m' : M unit) : silent m -> silent m' -> rel m m'.
Proof.
  intros H1 H2 s t H. split; [|by destruct (eval m s), (eval m' t)].
  transitivity s; [symmetry; apply H1|]. transitivity t; [done|apply H2].
Qed.
Lemma rel_rd_l {B} f (k : Z -> M B) m' : (forall v, rel (k v) m') -> rel (rd f ≫= k) m'.
Proof. intros H s t Hst. rewrite exec_bind, eval_bind. by apply H. Qed.
Lemma rel_rd_r {B} f (k : Z -> M B) m' : (forall v, rel m' (k v)) -> rel m' (rd f ≫= k).
Proof. intros H s t Hst. rewrite exec_bind, eval_bind. by apply H. Qed.
Lemma ard_eqv a k s : eqv s (exec (ard a k) s).
Proof. unfold ard, exec. destruct (in_bounds a k); [done|by apply eqv_set_passive]. Qed.
Lemma rel_ard_l {B} a i (k : Z -> M B) m' : (forall v, rel (k v) m') -> rel (ard a i ≫= k) m'.
Proof.
  intros H s t Hst. rewrite exec_bind, eval_bind. apply H.
  transitivity s; [symmetry; apply ard_eqv|done].
Qed.
Lemma rel_ard_r {B} a i (k : Z -> M B) m' : (forall v, rel m' (k v)) -> rel m' (ard a i ≫= k).
Proof.
  intros H s t Hst. rewrite exec_bind, eval_bind. apply H.
  transitivity t; [done|apply ard_eqv].
Qed.

Lemma silent_ret {A} (x : A) : silent (mret x).
Proof. intros s. done. Qed.
Lemma silent_skip : silent skip.
Proof. intros s. done. Qed.
Lemma silent_bind {A B} (m : M A) (k : A -> M B) : silent m -> (forall x, silent (k x)) -> silent (m ≫= k).
Proof. intros Hm Hk s. rewrite exec_bind. transitivity (exec m s); [apply Hm|apply Hk]. Qed.
Lemma silent_rd f : silent (rd f).
Proof. intros s. done. Qed.
Lemma silent_ard a k : silent (ard a k).
Proof. intros s. apply ard_eqv. Qed.
Lemma silent_wr f v : passive_f f = true -> silent (wr f v).
Proof. intros H s. by apply eqv_set_passive. Qed.
Lemma silent_awr a k v : passive_a a = true -> silent (awr a k v).
Proof.
  intros H s. unfold awr, exec. destruct (in_bounds a k); [by apply eqv_aset_passive|by apply eqv_set_passive].
Qed.
Lemma silent_log e : silent (logerror e).
Proof. intros s. apply eqv_event. Qed.
Lemma silent_when b m : silent m -> silent (when b m).
Proof. intros H. destruct b; [done|apply silent_skip]. Qed.

Create HintDb rel_db discriminated.
#[export] Hint Resolve rel_ret rel_wr rel_awr rel_skip rel_log rel_swap rel_fault : rel_db.
#[export] Hint Extern 0 (rel (rd _) (rd _)) => apply rel_rd; reflexivity : rel_db.
#[export] Hint Extern 0 (rel (ard _ _) (ard _ _)) => apply rel_ard; reflexivity : rel_db.

Ltac silent_step :=
  match goal with
  | |- silent (_ ≫= _) => apply silent_bind; [|intros ?]
  | |- silent (mret _) => apply silent_ret
  | |- silent skip => apply silent_skip
  | |- silent (rd _) => apply silent_rd
  | |- silent (ard _ _) => apply silent_ard
  | |- silent (wr _ _) => apply silent_wr; reflexivity
  | |- silent (awr _ _ _) => apply silent_awr; reflexivity
  | |- silent (logerror _) => apply silent_log
  | |- silent (when _ _) => apply silent_when
  | |- silent (if ?b then _ else _) => destruct b
  | |- silent _ => solve [eauto with rel_db nocore]
  end.
Ltac silent_auto := intros; cbv beta zeta; repeat (silent_step; cbv beta zeta); fail.
Ltac is_silent := solve [intros; cbv beta zeta; repeat (silent_step; cbv beta zeta)].

Ltac rel_step :=
  match goal with
  | |- rel (rd ?f ≫= _) _ =>
      assert_succeeds (assert (passive_f f = true) by reflexivity); apply rel_rd_l; intros ?
  | |- rel _ (rd ?f ≫= _) =>
      assert_succeeds (assert (passive_f f = true) by reflexivity); apply rel_rd_r; intros ?
  | |- rel (ard ?a _ ≫= _) _ =>
      assert_succeeds (assert (passive_a a = true) by reflexivity); apply rel_ard_l; intros ?
  | |- rel _ (ard ?a _ ≫= _) =>
      assert_succeeds (assert (passive_a a = true) by reflexivity); apply rel_ard_r; intros ?
  | |- rel (?m ≫= _) (?m ≫= _) => apply rel_bind; [solve [eauto with rel_db nocore]|intros ?]
  | |- rel (_ ≫= _) _ => apply rel_silent_l; [is_silent|]
  | |- rel _ (_ ≫= _) => apply rel_silent_r; [is_silent|]
  | |- rel (_ ≫= _) (_ ≫= _) => apply rel_bind; [|intros ?]
  | |- rel (when ?b _) (when ?b _) => apply rel_when
  | |- rel (if ?b then _ else _) (if ?b then _ else _) => destruct b
  | |- rel (match ?x with Some _ => _ | None => _ end) _ => destruct x eqn:?
  | |- rel _ _ => solve [eauto with rel_db nocore]
  | |- rel _ _ => apply rel_silent; is_silent
  end.
Ltac rel_auto := intros; cbv beta zeta; repeat (rel_step; cbv beta zeta).

(** ** Operations *)
Lemma rel_RWORD_DATA x : rel (RWORD_DATA x) (RWORD_DATA x).
Proof. unfold RWORD_DATA, watch_dm_charge. rel_auto. Qed.
Lemma rel_WWORD_DATA x v : rel (WWORD_DATA x v) (WWORD_DATA x v).
Proof.
  unfold WWORD_DATA, pin_dm_value, latch_dm_store, stop_dm_store, census_dm_store,
    watch_dm_charge. rel_auto.
Qed.
#[export] Hint Resolve rel_RWORD_DATA rel_WWORD_DATA : rel_db.
Lemma rel_pgm_word x : rel (pgm_word x) (pgm_word x).
Proof. unfold pgm_word. rel_auto. Qed.
Lemma silent_pgm_word x : silent (pgm_word x).
Proof. unfold pgm_word. silent_auto. Qed.
#[export] Hint Resolve rel_pgm_word silent_pgm_word : rel_db.
Lemma rel_RWORD_PGM x : rel (RWORD_PGM x) (RWORD_PGM x).
Proof. unfold RWORD_PGM. rel_auto. Qed.
Lemma rel_WWORD_PGM x v : rel (WWORD_PGM x v) (WWORD_PGM x v).
Proof. unfold WWORD_PGM, pin_pm_value. rel_auto. Qed.
Lemma rel_RWORD_IO x : rel (RWORD_IO x) (RWORD_IO x).
Proof. unfold RWORD_IO. rel_auto. Qed.
Lemma rel_WWORD_IO x v : rel (WWORD_IO x v) (WWORD_IO x v).
Proof. unfold WWORD_IO. rel_auto. Qed.
#[export] Hint Resolve rel_RWORD_PGM rel_WWORD_PGM rel_RWORD_IO rel_WWORD_IO : rel_db.

(** *** Stacks and registers *)
Lemma silent_note_pcsp : silent note_pcsp.
Proof. unfold note_pcsp. silent_auto. Qed.
Lemma silent_warn bit : silent (warn_stack_over bit).
Proof. unfold warn_stack_over. silent_auto. Qed.
#[export] Hint Resolve silent_note_pcsp silent_warn : rel_db.
Ltac unfold_stacks := unfold pc_stack_push_val, pc_stack_push, pc_stack_pop, pc_stack_pop_val,
  pc_stack_top, cntr_stack_push, cntr_stack_pop, loop_stack_push, loop_stack_pop,
  stat_stack_push, sstat_or, sstat_clr.
Lemma rel_pc_stack_push_val v : rel (pc_stack_push_val v) (pc_stack_push_val v).
Proof. unfold_stacks. rel_auto. Qed.
Lemma rel_pc_stack_push : rel pc_stack_push pc_stack_push.
Proof. unfold_stacks. rel_auto. Qed.
Lemma rel_pc_stack_pop : rel pc_stack_pop pc_stack_pop.
Proof. unfold_stacks. rel_auto. Qed.
Lemma rel_pc_stack_pop_val : rel pc_stack_pop_val pc_stack_pop_val.
Proof. unfold_stacks. rel_auto. Qed.
Lemma rel_pc_stack_top : rel pc_stack_top pc_stack_top.
Proof. unfold_stacks. rel_auto. Qed.
Lemma rel_cntr_stack_push : rel cntr_stack_push cntr_stack_push.
Proof. unfold_stacks. rel_auto. Qed.
Lemma rel_cntr_stack_pop : rel cntr_stack_pop cntr_stack_pop.
Proof. unfold_stacks. rel_auto. Qed.
Lemma rel_loop_stack_push v : rel (loop_stack_push v) (loop_stack_push v).
Proof. unfold_stacks. rel_auto. Qed.
Lemma rel_loop_stack_pop : rel loop_stack_pop loop_stack_pop.
Proof. unfold_stacks. rel_auto. Qed.
Lemma rel_stat_stack_push : rel stat_stack_push stat_stack_push.
Proof. unfold_stacks. rel_auto. Qed.
#[export] Hint Resolve rel_pc_stack_push_val rel_pc_stack_push rel_pc_stack_pop
  rel_pc_stack_pop_val rel_pc_stack_top rel_cntr_stack_push rel_cntr_stack_pop
  rel_loop_stack_push rel_loop_stack_pop rel_stat_stack_push : rel_db.

Ltac rel_cases :=
  repeat match goal with
  | |- rel (match ?x with _ => _ end) _ => is_var x; destruct x
  end.

Section Passive.
Context {host : Host} {blind : HostBlind host}.

Lemma rel_timer f on : timer_fired = Some f -> rel (f on) (f on).
Proof. apply blind_timer. Qed.
#[local] Hint Resolve rel_timer : rel_db.
Lemma rel_update_mstat : rel update_mstat update_mstat.
Proof. unfold update_mstat. rel_auto. Qed.
#[local] Hint Resolve rel_update_mstat : rel_db.
Lemma rel_generate_irq w p : rel (generate_irq w p) (generate_irq w p).
Proof using Type. unfold generate_irq. rel_auto. Qed.
#[local] Hint Resolve rel_generate_irq : rel_db.
Lemma rel_edge_or_level b w : rel (edge_or_level b w) (edge_or_level b w).
Proof using Type. unfold edge_or_level. rel_auto. Qed.
#[local] Hint Resolve rel_edge_or_level : rel_db.
Lemma rel_try_irq w p e r : rel e e -> rel r r -> rel (try_irq w p e r) (try_irq w p e r).
Proof using Type. intros He Hr. unfold try_irq. rel_auto. Qed.
Lemma rel_check_irqs : rel check_irqs check_irqs.
Proof using Type.
  unfold check_irqs. rel_step. rel_step; [apply rel_skip|].
  repeat (apply rel_try_irq; [rel_auto|]). apply rel_skip.
Qed.
#[local] Hint Resolve rel_check_irqs : rel_db.
Lemma rel_stat_stack_pop : rel stat_stack_pop stat_stack_pop.
Proof. unfold stat_stack_pop. unfold_stacks. rel_auto. Qed.
Lemma rel_CONDITION c : rel (CONDITION c) (CONDITION c).
Proof using Type. unfold CONDITION. rel_auto. Qed.
#[local] Hint Resolve rel_stat_stack_pop rel_CONDITION : rel_db.

Lemma rel_rd_u x : rel (rd_u x) (rd_u x).
Proof using Type. unfold rd_u. destruct x; rel_auto. Qed.
#[local] Hint Resolve rel_rd_u : rel_db.
Lemma rel_rd_s x : rel (rd_s x) (rd_s x).
Proof using Type. unfold rd_s. rel_auto. Qed.
Lemma rel_wr_r x v : rel (wr_r x v) (wr_r x v).
Proof using Type. unfold wr_r. destruct x; rel_auto. Qed.
#[local] Hint Resolve rel_rd_s rel_wr_r : rel_db.
Lemma rel_normalize_mr : rel normalize_mr normalize_mr.
Proof using Type. unfold normalize_mr. rel_auto. Qed.
#[local] Hint Resolve rel_normalize_mr : rel_db.
Lemma rel_latch_if a b c d : rel (latch_if a b c d) (latch_if a b c d).
Proof using Type. unfold latch_if. rel_auto. Qed.
#[local] Hint Resolve rel_latch_if : rel_db.
Lemma rel_wr_ifc v : rel (wr_ifc v) (wr_ifc v).
Proof using Type. unfold wr_ifc. rel_auto. Qed.
Lemma rel_tx f port v : sport_tx_callback = Some f -> rel (f port v) (f port v).
Proof. apply blind_tx. Qed.
#[local] Hint Resolve rel_wr_ifc rel_tx : rel_db.

Lemma rel_WRITE_REG g r v : rel (WRITE_REG g r v) (WRITE_REG g r v).
Proof.
  unfold WRITE_REG. cbv zeta. generalize (s32 v). clear v. intros v.
  rel_cases; unfold wr_inval, wr_ax0, wr_ax1, wr_mx0, wr_mx1, wr_ay0, wr_ay1, wr_my0, wr_my1,
    wr_si, wr_se, wr_ar, wr_mr0, wr_mr1, wr_mr2, wr_sr0, wr_sr1, wr_i, wr_m, wr_l, update_i,
    update_l, wr_pmovlay, wr_dmovlay, wr_astat, wr_imask, wr_icntl, wr_cntr, wr_sb, wr_px,
    wr_rx, wr_tx, wr_owrctr, wr_topstack, wr_mstat; rel_auto.
Qed.
Lemma rel_READ_REG g r : rel (READ_REG g r) (READ_REG g r).
Proof using Type.
  unfold READ_REG. apply rel_bind; [|intros; apply rel_ret].
  rel_cases; unfold rd_inval, rd_stacktop; rel_auto.
Qed.
#[local] Hint Resolve rel_WRITE_REG rel_READ_REG : rel_db.

Lemma rel_modify_address i m : rel (modify_address i m) (modify_address i m).
Proof using Type. unfold modify_address, modified_address. rel_auto. Qed.
#[local] Hint Resolve rel_modify_address : rel_db.
Lemma rel_data_write_dag1 op v : rel (data_write_dag1 op v) (data_write_dag1 op v).
Proof using Type. unfold data_write_dag1. rel_auto. Qed.
Lemma rel_data_read_dag1 op : rel (data_read_dag1 op) (data_read_dag1 op).
Proof using Type. unfold data_read_dag1. rel_auto. Qed.
Lemma rel_data_write_dag2 op v : rel (data_write_dag2 op v) (data_write_dag2 op v).
Proof using Type. unfold data_write_dag2. rel_auto. Qed.
Lemma rel_data_read_dag2 op : rel (data_read_dag2 op) (data_read_dag2 op).
Proof using Type. unfold data_read_dag2. rel_auto. Qed.
Lemma rel_pgm_write_dag2 op v : rel (pgm_write_dag2 op v) (pgm_write_dag2 op v).
Proof using Type. unfold pgm_write_dag2. rel_auto. Qed.
Lemma rel_pgm_read_dag2 op : rel (pgm_read_dag2 op) (pgm_read_dag2 op).
Proof using Type. unfold pgm_read_dag2. rel_auto. Qed.
#[local] Hint Resolve rel_data_write_dag1 rel_data_read_dag1 rel_data_write_dag2
  rel_data_read_dag2 rel_pgm_write_dag2 rel_pgm_read_dag2 : rel_db.

(** *** Computational units *)
Ltac unfold_flags := unfold CALC_NZVC_SUB, CALC_NZVC, CALC_NZV, CALC_NZ, CALC_N, CALC_Z,
  CALC_V, CALC_C, CALC_C_SUB, CLR_FLAGS, GET_C, GET_V, GET_Q, GET_SS, GET_MV, SET_F, CLR_F.
Lemma rel_ym1_mark_all l : rel (ym1_mark_all l) (ym1_mark_all l).
Proof using Type.
  induction l as [|r l IH]; cbn; [apply rel_skip|]. apply rel_bind; [|done].
  unfold ym1_mark. apply rel_for_upto. intros i. apply rel_awr.
Qed.
#[local] Hint Resolve rel_ym1_mark_all : rel_db.
Lemma rel_ym1_env_init : rel ym1_env_init ym1_env_init.
Proof using Type. unfold ym1_env_init. rel_auto. Qed.
#[local] Hint Resolve rel_ym1_env_init : rel_db.
Lemma rel_YM1_CARRY y r : rel (YM1_CARRY y r) (YM1_CARRY y r).
Proof using Type. unfold YM1_CARRY. unfold_flags. rel_auto. Qed.
#[local] Hint Resolve rel_YM1_CARRY : rel_db.
Lemma rel_alu_switch op gx gy : rel gx gx -> rel gy gy -> rel (alu_switch op gx gy) (alu_switch op gx gy).
Proof using Type.
  intros Hx Hy. unfold alu_switch. generalize ((op >>> 13) &&& 15). intros n.
  unfold_flags. rel_cases; rel_auto.
Qed.
Lemma rel_alu_saturate r : rel (alu_saturate r) (alu_saturate r).
Proof using Type. unfold alu_saturate. unfold_flags. rel_auto. Qed.
#[local] Hint Resolve rel_alu_saturate : rel_db.
#[local] Hint Extern 1 (rel (alu_switch _ _ _) _) =>
  apply rel_alu_switch; [apply rel_rd_u|first [apply rel_rd_u|apply rel_ret]] : rel_db.
Lemma rel_alu_op_ar op : rel (alu_op_ar op) (alu_op_ar op).
Proof using Type. unfold alu_op_ar. rel_auto. Qed.
Lemma rel_alu_op_ar_const op : rel (alu_op_ar_const op) (alu_op_ar_const op).
Proof using Type. unfold alu_op_ar_const. rel_auto. Qed.
Lemma rel_alu_op_af op : rel (alu_op_af op) (alu_op_af op).
Proof using Type. unfold alu_op_af. rel_auto. Qed.
Lemma rel_alu_op_af_const op : rel (alu_op_af_const op) (alu_op_af_const op).
Proof using Type. unfold alu_op_af_const. rel_auto. Qed.
Lemma rel_alu_op_none op : rel (alu_op_none op) (alu_op_none op).
Proof using Type. unfold alu_op_none. rel_auto. Qed.
Lemma rel_divs op : rel (divs op) (divs op).
Proof using Type. unfold divs, ALU_GETXREG_UNSIGNED, ALU_GETYREG_UNSIGNED. rel_auto. Qed.
Lemma rel_divq op : rel (divq op) (divq op).
Proof using Type. unfold divq, ALU_GETXREG_UNSIGNED. unfold_flags. rel_auto. Qed.
#[local] Hint Resolve rel_alu_op_ar rel_alu_op_ar_const rel_alu_op_af rel_alu_op_af_const
  rel_alu_op_none rel_divs rel_divq : rel_db.

Lemma rel_mac_round_mode r : rel (mac_round_mode r) (mac_round_mode r).
Proof using Type. unfold mac_round_mode. rel_auto. Qed.
#[local] Hint Resolve rel_mac_round_mode : rel_db.
Lemma rel_mac_switch op xs xu ys yu : rel xs xs -> rel xu xu -> rel ys ys -> rel yu yu ->
  rel (mac_switch op xs xu ys yu) (mac_switch op xs xu ys yu).
Proof using Type.
  intros. unfold mac_switch, mac_shift, mr_plus, mr_minus. generalize ((op >>> 13) &&& 15).
  intros n. apply rel_bind; [rel_auto|]. intros sh. cbv zeta. rel_cases; rel_auto.
Qed.
Lemma rel_mac_switch_xop op xs xu : rel xs xs -> rel xu xu ->
  rel (mac_switch_xop op xs xu) (mac_switch_xop op xs xu).
Proof using Type.
  intros. unfold mac_switch_xop, mac_shift, mr_plus, mr_minus. generalize ((op >>> 13) &&& 15).
  intros n. apply rel_bind; [rel_auto|]. intros sh. cbv zeta. rel_cases; rel_auto.
Qed.
Lemma rel_mac_to_mr r : rel (mac_to_mr r) (mac_to_mr r).
Proof using Type. unfold mac_to_mr, mac_set_mv. unfold_flags. destruct r; rel_auto. Qed.
Lemma rel_mac_to_mf r : rel (mac_to_mf r) (mac_to_mf r).
Proof using Type. unfold mac_to_mf, mac_set_mv. unfold_flags. destruct r; rel_auto. Qed.
#[local] Hint Resolve rel_mac_to_mr rel_mac_to_mf : rel_db.
#[local] Hint Extern 1 (rel (mac_switch _ _ _ _ _) _) =>
  apply rel_mac_switch; first [apply rel_rd_u|apply rel_rd_s] : rel_db.
#[local] Hint Extern 1 (rel (mac_switch_xop _ _ _) _) =>
  apply rel_mac_switch_xop; first [apply rel_rd_u|apply rel_rd_s] : rel_db.
Lemma rel_mac_op_mr op : rel (mac_op_mr op) (mac_op_mr op).
Proof using Type. unfold mac_op_mr. rel_auto. Qed.
Lemma rel_mac_op_mf op : rel (mac_op_mf op) (mac_op_mf op).
Proof using Type. unfold mac_op_mf. rel_auto. Qed.
Lemma rel_mac_op_mr_xop op : rel (mac_op_mr_xop op) (mac_op_mr_xop op).
Proof using Type. unfold mac_op_mr_xop. rel_auto. Qed.
Lemma rel_mac_op_mf_xop op : rel (mac_op_mf_xop op) (mac_op_mf_xop op).
Proof using Type. unfold mac_op_mf_xop. rel_auto. Qed.
Lemma rel_saturate_mr : rel saturate_mr saturate_mr.
Proof using Type. unfold saturate_mr. unfold_flags. rel_auto. Qed.
#[local] Hint Resolve rel_mac_op_mr rel_mac_op_mf rel_mac_op_mr_xop rel_mac_op_mf_xop
  rel_saturate_mr : rel_db.

Lemma rel_shift_into_sr op sc : rel (shift_into_sr op sc) (shift_into_sr op sc).
Proof using Type.
  unfold shift_into_sr, sr_set, sr_or, SHIFT_GETXREG_UNSIGNED, SHIFT_GETXREG_SIGNED.
  cbv zeta. generalize ((op >>> 11) &&& 15). intros n. rel_cases; rel_auto.
Qed.
#[local] Hint Resolve rel_shift_into_sr : rel_db.
Lemma rel_loop_result r : rel (loop_result r) (loop_result r).
Proof using Type. unfold loop_result. rel_auto. Qed.
#[local] Hint Resolve rel_loop_result : rel_db.
Lemma rel_shift_op op : rel (shift_op op) (shift_op op).
Proof using Type.
  unfold shift_op, exp_hi_op, exp_hix_op, exp_lo_op, expadj_op, SHIFT_GETXREG_SIGNED.
  unfold_flags. cbv zeta. generalize ((op >>> 11) &&& 15). intros n.
  apply rel_bind; [apply rel_rd_s|]. intros se. cbv beta. rel_cases; rel_auto.
Qed.
Lemma rel_shift_op_imm op : rel (shift_op_imm op) (shift_op_imm op).
Proof using Type. unfold shift_op_imm. rel_auto. Qed.
#[local] Hint Resolve rel_shift_op rel_shift_op_imm : rel_db.

(** *** Opcodes *)
Lemma rel_if_cond op b : rel b b -> rel (if_cond op b) (if_cond op b).
Proof using Type. intros H. unfold if_cond. rel_auto. Qed.
Ltac op_auto := first [apply rel_if_cond; rel_auto|rel_auto].
Lemma rel_flag_out op c t f : passive_f f = false -> rel (flag_out op c t f) (flag_out op c t f).
Proof using Type.
  intros H. unfold flag_out. apply rel_bind; [rel_auto|]. intros _. apply rel_when.
  apply rel_bind; [by apply rel_rd|]. rel_auto.
Qed.
#[local] Hint Extern 1 (rel (flag_out _ _ _ _) _) => by apply rel_flag_out : rel_db.
#[local] Hint Extern 1 (rel (if_cond _ _) _) => apply rel_if_cond; rel_auto : rel_db.
Lemma rel_mode_bit op e s f : rel (mode_bit op e s f) (mode_bit op e s f).
Proof using Type. unfold mode_bit. rel_auto. Qed.
#[local] Hint Resolve rel_mode_bit : rel_db.
Lemma rel_exec_0x op : rel (exec_0x op) (exec_0x op).
Proof.
  unfold exec_0x, io_op, idle_or_flags, flagin_op, stack_control, return_op, jump_indirect,
    mode_control. generalize (op >>> 16). intros n. cbv zeta. rel_cases; rel_auto.
Qed.
Lemma rel_with_move f op : rel (f op) (f op) -> rel (with_move f op) (with_move f op).
Proof. intros H. unfold with_move. rel_auto. Qed.
Lemma rel_with_read r f op : rel (r op) (r op) -> rel (f op) (f op) ->
  rel (with_read r f op) (with_read r f op).
Proof. intros H H'. unfold with_read. rel_auto. Qed.
Lemma rel_with_write w f op : (forall v, rel (w op v) (w op v)) -> rel (f op) (f op) ->
  rel (with_write w f op) (with_write w f op).
Proof using Type. intros H H'. unfold with_write. rel_auto. Qed.
Lemma rel_on_2181 op m p a b : rel a a -> rel b b -> rel (on_2181 op m p a b) (on_2181 op m p a b).
Proof using Type. intros H H'. unfold on_2181. rel_auto. Qed.
Ltac comp := solve [intros; eauto with rel_db nocore].
#[local] Hint Extern 1 (rel (with_move _ _) _) => apply rel_with_move; comp : rel_db.
#[local] Hint Extern 1 (rel (with_read _ _ _) _) => apply rel_with_read; comp : rel_db.
#[local] Hint Extern 1 (rel (with_write _ _ _) _) => apply rel_with_write; comp : rel_db.
#[local] Hint Extern 1 (rel (on_2181 _ _ _ _ _) _) => apply rel_on_2181; comp : rel_db.
Lemma rel_exec_1x op : rel (exec_1x op) (exec_1x op).
Proof.
  unfold exec_1x, do_until, jump_immediate, call_immediate. generalize (op >>> 16).
  intros n. rel_cases; rel_auto.
Qed.
Lemma rel_exec_2x op : rel (exec_2x op) (exec_2x op).
Proof. unfold exec_2x. generalize (op >>> 16). intros n. rel_cases; rel_auto. Qed.
Lemma rel_exec_3x op : rel (exec_3x op) (exec_3x op).
Proof. unfold exec_3x. generalize (op >>> 16). intros n. rel_cases; rel_auto. Qed.
Lemma rel_exec_5x op : rel (exec_5x op) (exec_5x op).
Proof. unfold exec_5x. generalize (op >>> 16). intros n. rel_cases; rel_auto. Qed.
Lemma rel_exec_6x op : rel (exec_6x op) (exec_6x op).
Proof. unfold exec_6x. generalize (op >>> 16). intros n. rel_cases; rel_auto. Qed.
Lemma rel_exec_7x op : rel (exec_7x op) (exec_7x op).
Proof. unfold exec_7x. generalize (op >>> 16). intros n. rel_cases; rel_auto. Qed.
Lemma rel_exec_8x op : rel (exec_8x op) (exec_8x op).
Proof. unfold exec_8x, load_dm. generalize (op >>> 16). intros n. rel_cases; rel_auto. Qed.
Lemma rel_exec_9x op : rel (exec_9x op) (exec_9x op).
Proof using Type. unfold exec_9x, store_dm. generalize (op >>> 16). intros n. rel_cases; rel_auto. Qed.
Lemma rel_dual_read f x y op : rel (f op) (f op) -> rel (dual_read f x y op) (dual_read f x y op).
Proof using Type. intros H. unfold dual_read. rel_auto. Qed.
#[local] Hint Extern 1 (rel (dual_read _ _ _ _) _) => apply rel_dual_read; comp : rel_db.
Lemma rel_exec_cf op : rel (exec_cf op) (exec_cf op).
Proof using Type. unfold exec_cf. generalize (op >>> 16). intros n. rel_cases; rel_auto. Qed.
Lemma rel_exec_4x op : rel (exec_4x op) (exec_4x op).
Proof. unfold exec_4x. rel_auto. Qed.
#[local] Hint Resolve rel_exec_0x rel_exec_1x rel_exec_2x rel_exec_3x rel_exec_4x rel_exec_5x
  rel_exec_6x rel_exec_7x rel_exec_8x rel_exec_9x rel_exec_cf : rel_db.
Lemma rel_exec_op op : rel (exec_op op) (exec_op op).
Proof.
  unfold exec_op, exec_ax, exec_bx. generalize (op >>> 20). intros n. rel_cases; rel_auto.
Qed.
#[local] Hint Resolve rel_exec_op : rel_db.

(** *** Execution *)
Lemma rel_advance_pc : rel advance_pc advance_pc.
Proof using Type. unfold advance_pc. rel_auto. Qed.
#[local] Hint Resolve rel_advance_pc : rel_db.
Lemma silent_note_history : silent note_history.
Proof using Type. unfold note_history. silent_auto. Qed.
Lemma silent_note_coverage : silent note_coverage.
Proof using Type. unfold note_coverage. silent_auto. Qed.
Lemma silent_note_exec : silent note_exec.
Proof using Type. unfold note_exec. silent_auto. Qed.
Lemma silent_note_trace op : silent (note_trace op).
Proof using Type. unfold note_trace. silent_auto. Qed.
#[local] Hint Resolve silent_note_history silent_note_coverage silent_note_exec silent_note_trace : rel_db.
Lemma rel_step : rel step step.
Proof. unfold step, ROPCODE. rel_auto. Qed.
Lemma rel_run_loop n : rel (run_loop n) (run_loop n).
Proof.
  induction n as [|n IH]; cbn [run_loop]; [apply rel_skip|].
  apply rel_bind; [apply rel_step|]. intros _. rel_auto.
Qed.
#[local] Hint Resolve rel_run_loop : rel_db.
Lemma rel_execute : rel execute execute.
Proof. unfold execute. rel_auto. Qed.
#[local] Hint Resolve rel_execute : rel_db.
Lemma rel_adsp2181_run c : rel (adsp2181_run c) (adsp2181_run c).
Proof. unfold adsp2181_run. rel_auto. Qed.
End Passive.
