(* ===== verification/Transparent.v ===== *)
(** * Instrumentation does not interfere: the public interface

    The relational lemmas of [Passive.v] lifted to every exported function, and
    the theorem they add up to: erasing the instrumentation calls from a
    session changes nothing but the instrumentation. *)
From S2P Require Import Prelude State Tables Memory Stacks Regs Alu Mac Shift Exec Api Effects EffectsOps EffectsExec Invariants Safety Passive.

(** ** Definitions *)

(** The calls that only observe: watches, censuses, coverage, the trace and
    the read ports that report without consuming. *)
Definition observes (c : call) : bool :=
  match c with
  | CWatchDmLimited _ _ | CWatchDmWrites _ _ | CWatchDm _ _ | CWatchPm _ _ | CWatchGate _
  | CPcspWindow | CWatchExec _ _ | CWatchExecLimited _ _ | CWatchIrqs _ | CReadPm _
  | CHostRead _ | CCoverageClear | CCoverageGate _ | CDmCensus _ | CDmCensusClear
  | CTraceBudget _ => true
  | _ => false
  end.

(** ** The calls *)
Section Transparent.
Context {host : Host} {blind : HostBlind host}.
#[local] Hint Resolve rel_adsp2181_run : rel_db.
#[local] Hint Resolve rel_update_mstat rel_check_irqs rel_execute rel_rd_u rel_wr_r : rel_db.

Lemma rel_aclear a : rel (aclear a) (aclear a).
Proof using Type.
  intros s t [H1 H2]. split; [|done]. split; [done|]. intros b k Hb.
  unfold exec, aclear, snd, aget. rewrite !ars_aput. destruct (arr_eqb b a); [done|]. by apply H2.
Qed.
Lemma silent_aclear a : passive_a a = true -> silent (aclear a).
Proof using Type.
  intros Ha s. split; [done|]. intros b k Hb. unfold exec, aclear, snd, aget.
  rewrite ars_aput_ne; [done|congruence].
Qed.
#[local] Hint Resolve rel_aclear : rel_db.
#[local] Hint Extern 1 (silent (aclear _)) => apply silent_aclear; reflexivity : rel_db.
Lemma silent_irq_bits a k n b : silent (irq_bits a k n b).
Proof using Type.
  revert n b. induction k as [|k IH]; intros n b; cbn [irq_bits]; [apply silent_ret|].
  apply silent_bind; [apply silent_ard|]. intros v. apply IH.
Qed.
#[local] Hint Resolve silent_irq_bits : rel_db.
Lemma silent_snapshot a : passive_a a = true -> silent (take_sport_snapshot a).
Proof using Type.
  intros Ha. unfold take_sport_snapshot.
  repeat first [ apply silent_irq_bits | apply silent_bind; [|intros ?] | apply silent_rd
               | apply silent_ard | by apply silent_awr ].
Qed.
#[local] Hint Extern 1 (silent (take_sport_snapshot _)) => by apply silent_snapshot : rel_db.
Lemma rel_reset_dag k : rel (reset_dag k) (reset_dag k).
Proof using Type. unfold reset_dag, wr_l, wr_i, update_l, update_i. rel_auto. Qed.
Lemma rel_reset : rel adsp2181_reset adsp2181_reset.
Proof.
  unfold adsp2181_reset. do 2 rel_step.
  apply rel_bind; [apply rel_for_upto, rel_reset_dag|]. rel_auto.
Qed.
Lemma rel_idma_boot_step a : rel (idma_boot_step a) (idma_boot_step a).
Proof using Type. unfold idma_boot_step. rel_auto. Qed.
Lemma rel_discard r : rel (discard_stale_synthetic_returns r) (discard_stale_synthetic_returns r).
Proof using Type. unfold discard_stale_synthetic_returns, unwind_to, sstat_or, sstat_clr. rel_auto. Qed.
#[local] Hint Resolve rel_reset rel_idma_boot_step rel_discard : rel_db.
Lemma rel_call_entry e r : rel (adsp2181_call e r) (adsp2181_call e r).
Proof using Type. unfold adsp2181_call. rel_auto. Qed.
Lemma rel_rx f port : sport_rx_callback = Some f -> rel (f port) (f port).
Proof. apply blind_rx. Qed.
#[local] Hint Resolve rel_rx : rel_db.
Lemma rel_set_irq i a : rel (adsp2181_set_irq i a) (adsp2181_set_irq i a).
Proof. unfold adsp2181_set_irq. rel_auto. Qed.
#[local] Hint Resolve rel_call_entry rel_set_irq : rel_db.
Lemma rel_sport1_frame w c : rel (adsp2181_sport1_frame w c) (adsp2181_sport1_frame w c).
Proof. unfold adsp2181_sport1_frame. rel_auto. Qed.
Lemma rel_sport0_interrupt c : rel (sport0_interrupt c) (sport0_interrupt c).
Proof. unfold sport0_interrupt. rel_auto. Qed.
#[local] Hint Resolve rel_sport1_frame rel_sport0_interrupt : rel_db.
Lemma rel_full_tdm k : forall p a d w i c td ti tx,
  rel (full_tdm_passes k p a d w i c td ti tx) (full_tdm_passes k p a d w i c td ti tx).
Proof.
  induction k as [|k IH]; intros; cbn [full_tdm_passes]; [apply rel_ret|]. rel_auto.
  all: try apply IH.
Qed.
#[local] Hint Resolve rel_full_tdm : rel_db.
Lemma rel_sport0_tdm a d w i c :
  rel (adsp2181_sport0_tdm_frame a d w i c) (adsp2181_sport0_tdm_frame a d w i c).
Proof.
  unfold adsp2181_sport0_tdm_frame. rel_auto.
  - apply rel_for_upto. intros k. apply rel_WWORD_DATA.
  Qed.
#[local] Hint Resolve rel_sport0_tdm : rel_db.

Lemma rel_for_each {A} (l : list A) body body' :
  (forall x, In x l -> rel (body x) (body' x)) -> rel (for_each l body) (for_each l body').
Proof using Type.
  intros H. induction l as [|x l IH]; [apply rel_skip|]. cbn. apply rel_bind.
  - apply H. by left.
  - intros _. apply IH. intros y Hy. apply H. by right.
Qed.

(** Restoring an active member restores the same value. *)
Lemma rel_restore_field s t f : eqv s t -> passive_f f = false ->
  rel (restore_field s f) (restore_field t f).
Proof using Type. intros [H _] Hf. unfold restore_field. rewrite (H f Hf). apply rel_wr. Qed.
Lemma rel_restore_array s t a : eqv s t -> passive_a a = false ->
  rel (restore_array s a) (restore_array t a).
Proof using Type.
  intros [_ H] Ha u v [Hf Hu]. split; [|done]. split; [done|]. intros b k Hb.
  unfold exec, restore_array, snd, aget. rewrite !ars_aput. destruct (arr_eqb b a) eqn:E.
  - apply arr_eqb_eq in E as ->. apply (H a k Ha).
  - by apply Hu.
Qed.
Lemma rel_get_state {A} (k k' : state -> M A) :
  (forall s t, eqv s t -> rel (k s) (k' t)) -> rel (get_state ≫= k) (get_state ≫= k').
Proof using Type. intros H s t Hst. exact (H s t Hst s t Hst). Qed.
Lemma volatile_active :
  forallb (fun f => negb (passive_f f)) volatile_fields &&
  forallb (fun a => negb (passive_a a)) volatile_arrays = true.
Proof using Type. done. Qed.

Lemma rel_inject k r c : rel (inject_continuation k r c) (inject_continuation k r c).
Proof.
  pose proof volatile_active as [Hvf Hva]%andb_true_iff.
  rewrite forallb_forall in Hvf. rewrite forallb_forall in Hva.
  unfold inject_continuation. apply rel_get_state. intros s t Hst. cbv zeta.
  rewrite (eqv_f s t Hst STOP_DM_ARMED), (eqv_f s t Hst PC) by done.
  do 5 rel_step.
  apply rel_bind.
  { apply rel_for_each. intros a Ha. apply rel_restore_array; [done|]. by apply negb_true_iff, Hva. }
  intros _. apply rel_bind.
  { apply rel_for_each. intros f Hf. apply rel_restore_field; [done|]. by apply negb_true_iff, Hvf. }
  intros _. rel_auto.
Qed.
#[local] Hint Resolve rel_inject : rel_db.
Lemma rel_modem_sample w i c k r :
  rel (adsp2181_modem_sample w i c k r) (adsp2181_modem_sample w i c k r).
Proof. unfold adsp2181_modem_sample. rel_auto. Qed.
Lemma rel_g711_all l e r c : rel (g711_encode_all l e r c) (g711_encode_all l e r c).
Proof.
  induction l as [|x l IH]; [apply rel_ret|]. cbn [g711_encode_all].
  apply rel_bind; [unfold g711_encode_one; rel_auto|]. intros y. apply rel_bind; [done|].
  intros; apply rel_ret.
Qed.
#[local] Hint Resolve rel_modem_sample rel_g711_all : rel_db.

Lemma silent_RWORD_DATA x : silent (RWORD_DATA x).
Proof using Type. unfold RWORD_DATA, watch_dm_charge. silent_auto. Qed.
Lemma silent_RWORD_PGM x : silent (RWORD_PGM x).
Proof using Type. unfold RWORD_PGM. silent_auto. Qed.
#[local] Hint Resolve silent_RWORD_DATA silent_RWORD_PGM : rel_db.

Ltac unfold_calls := unfold adsp2181_set_idma_boot_hold, adsp2181_idma_addr_write,
  adsp2181_idma_data_write, adsp2181_idma_data_read, adsp2181_host_write, adsp2181_host_read,
  adsp2181_watch_dm_limited, adsp2181_watch_dm_writes, adsp2181_watch_dm, adsp2181_watch_pm,
  adsp2181_watch_gate, adsp2181_pcsp_window, adsp2181_pin_pm, adsp2181_force_pm_fetch,
  adsp2181_pin_dm, adsp2181_stop_on_dm_write, adsp2181_stop_on_dm_write_n,
  adsp2181_yield_on_stop, adsp2181_continue_non_idle, adsp2181_latch_dm_write,
  adsp2181_stop_dm_hit, adsp2181_watch_exec, adsp2181_watch_exec_limited, adsp2181_watch_irqs,
  adsp2181_read_pm, adsp2181_coverage_clear, adsp2181_coverage_gate, adsp2181_dm_census,
  adsp2181_dm_census_clear, adsp2181_trace_budget, adsp2181_set_pc,
  adsp2181_g711_encode_block, adsp2181_set_imask, adsp2181_set_flagin, adsp2181_set_ar,
  adsp2181_set_sr1.

Lemma rel_store m k v : rel (store m k v) (store m k v).
Proof using Type.
  unfold store, p_wr. destruct (memory_pointer m) as [p|]; [destruct (p_in p k); [apply rel_awr|]|];
    by apply rel_fault.
Qed.
#[local] Hint Resolve rel_store : rel_db.

Lemma rel_run_call c : observes c = false -> rel (run_call c) (run_call c).
Proof. destruct c; intros Hc; try discriminate Hc; cbn [run_call]; unfold_calls; rel_auto. Qed.
Lemma silent_run_call c : observes c = true -> silent (run_call c).
Proof using Type. destruct c; intros Hc; try discriminate Hc; cbn [run_call]; unfold_calls; silent_auto. Qed.


Lemma session_from cs : forall s t, eqv s t ->
  eqv (foldl (fun s c => exec (run_call c) s) s (filter (fun c => observes c = false) cs))
      (foldl (fun s c => exec (run_call c) s) t cs).
Proof.
  induction cs as [|c cs IH]; intros s t Hst; [done|].
  rewrite filter_cons. destruct (decide (observes c = false)) as [Hc|Hc]; cbn [foldl]; apply IH.
  - by apply (rel_run_call c Hc).
  - transitivity t; [done|]. apply silent_run_call. by destruct (observes c).
Qed.

(** C3: the instrumentation is transparent. Erasing every observing call (the
    watches, their gate, the censuses, coverage, the trace, interrupt logging,
    the PC-stack window and the read ports) from a session with a created
    emulator leaves a state that differs from the original only in
    instrumentation members, and the next [adsp2181_run] returns the same
    count from both, whatever program is loaded and whatever the other calls
    are. *)
Theorem instrumentation_transparent cs cycles :
  let bare := session (filter (fun c => observes c = false) cs) in
  eqv bare (session cs) /\
  eqv (exec (adsp2181_run cycles) bare) (exec (adsp2181_run cycles) (session cs)) /\
  eval (adsp2181_run cycles) (session cs) = eval (adsp2181_run cycles) bare.
Proof.
  cbv zeta. assert (eqv (session (filter (fun c => observes c = false) cs)) (session cs)) as H
    by (by apply session_from).
  split; [done|]. by apply rel_adsp2181_run.
Qed.
End Transparent.

(** ** Witness *)
#[export] Instance line_host_blind : HostBlind line_host.
Proof.
  split; cbn [sport_rx_callback sport_tx_callback timer_fired line_host].
  - intros f port [= <-]. apply rel_RWORD_DATA.
  - intros f port v [= <-]. apply rel_WWORD_IO.
  - intros f on [= <-]. apply rel_WWORD_IO.
Qed.

Lemma instrumentation_transparent_witness :
  HostBlind line_host /\
  eqv (session (host := line_host) (filter (fun c => observes c = false) line_session))
      (session (host := line_host) line_session).
Proof.
  split; [apply line_host_blind|].
  exact (proj1 (instrumentation_transparent (host := line_host) line_session 20)).
Defined.
