(* ===== verification/CoreTest.v ===== *)
(** * The emulator's regression test

    [src/tools/adsp2181emu/adsp2181_core_test.c]: [main] drives one emulator
    through its exported functions, stores programs and data through the
    pointers to the memories, runs them and asserts what they leave. The
    program is a command of [T], the commands that a failed [assert] stops;
    each block of [main] is a definition. [core_test_passes] evaluates it: no
    assertion fails, so the model agrees with the program's own tests. *)
From S2P Require Import Prelude State Tables Memory Stacks Regs Alu Mac Shift Exec Api.

(** ** Definitions *)

(** Commands that can be stopped: [None] is [abort()]. *)
Definition T (A : Type) : Type := state -> option (A * state).
#[export] Instance T_ret : MRet T := fun _ x s => Some (x, s).
#[export] Instance T_bind : MBind T := fun _ _ f m s =>
  match m s with
  | Some (x, s') => f x s'
  | None => None
  end.
(** A statement of the test, and [assert(e)]. *)
Definition run_m {A} (m : M A) : T A := fun s => Some (m s).
Definition assert (e : M bool) : T unit := fun s =>
  let '(b, s') := e s in if b then Some (tt, s') else None.
Definition assert_eq (e : M Z) (v : Z) : T unit := assert (x ← e; mret (x =? v)).

(** [adsp2181_pm(cpu)[k] = v0; adsp2181_pm(cpu)[k + 1] = v1; ...] *)
Fixpoint fill (p : pointer) (k : Z) (vs : list Z) : M unit :=
  match vs with
  | [] => skip
  | v :: vs => p_wr p k v ;; fill p (k + 1) vs
  end.
Definition pm_at : Z -> M Z := p_rd adsp2181_pm.
Definition dm_at : Z -> M Z := p_rd adsp2181_dm.

Section Test.
Context {host : Host}.

(** [adsp2181_reset(cpu)], a program at PM 0, [adsp2181_run(cpu, cycles)]. *)
Definition reset_and_run (program : list Z) (cycles : Z) : M Z :=
  adsp2181_reset ;; fill adsp2181_pm 0 program ;; adsp2181_run cycles.

(** *** The IDMA and host ports *)
Definition test_idma : T unit :=
  run_m (adsp2181_idma_addr_write 0x0123 ;;
         adsp2181_idma_data_write 0xabcd ;;
         adsp2181_idma_data_write 0x00ef) ;;
  assert_eq (pm_at 0x0123) 0xabcdef ;;
  assert_eq adsp2181_idma_addr_read 0x0124 ;;
  run_m (adsp2181_idma_addr_write 0x4005 ;; adsp2181_idma_data_write 0x1234) ;;
  assert_eq (dm_at 5) 0x1234 ;;
  assert_eq adsp2181_idma_addr_read 0x4006 ;;
  run_m (adsp2181_idma_addr_write 0x4005) ;;
  assert_eq adsp2181_idma_data_read 0x1234.

Definition test_idma_block : T unit :=
  run_m (adsp2181_idma_addr_write 0x4100 ;;
         adsp2181_idma_data_write 0x1111 ;;
         adsp2181_idma_data_write 0x2222 ;;
         adsp2181_idma_data_write 0x3333) ;;
  assert_eq (dm_at 0x100) 0x1111 ;;
  assert_eq (dm_at 0x101) 0x2222 ;;
  assert_eq (dm_at 0x102) 0x3333.

Definition test_idma_dangling_read : T unit :=
  run_m (adsp2181_idma_addr_write 0x0123 ;;
         adsp2181_idma_data_read ;;
         adsp2181_idma_addr_write 0x4000) ;;
  assert_eq (pm_at 0x0123) 0xabcdef.

Definition test_host_port : T unit :=
  run_m (adsp2181_host_write 0x3331 0x9a0d) ;;
  assert_eq (pm_at 0x3331) 0x9a0d00 ;;
  run_m (adsp2181_host_write 0x7310 0x0042) ;;
  assert_eq (dm_at 0x3310) 0x0042 ;;
  assert_eq (adsp2181_host_read 0x3331) 0x9a0d ;;
  assert_eq (adsp2181_host_read 0x7310) 0x0042.

Definition not_null (p : option pointer) : M bool := mret (match p with Some _ => true | None => false end).
Definition test_overlays : T unit :=
  assert (not_null (adsp2181_pm_overlay 1)) ;;
  assert (not_null (adsp2181_pm_overlay 2)) ;;
  assert (not_null (adsp2181_dm_overlay 1)) ;;
  assert (not_null (adsp2181_dm_overlay 2)) ;;
  assert (b ← not_null (adsp2181_pm_overlay 0); mret (negb b)).

(** *** Moves and multifunction instructions *)
Definition test_move_rx1 : T unit :=
  run_m (reset_and_run
    [0x41234f (* SR1 = 0x1234 *); 0x0d0caf (* RX1 = SR1 *); 0x40000f (* SR1 = 0 *);
     0x0d03fa (* SR1 = RX1 *); 0x028000 (* IDLE *)] 16) ;;
  assert_eq adsp2181_sr1 0x1234.
Definition test_move_tx1 : T unit :=
  run_m (reset_and_run
    [0x45678f (* SR1 = 0x5678 *); 0x0d0cbf (* TX1 = SR1 *); 0x40000f (* SR1 = 0 *);
     0x0d03fb (* SR1 = TX1 *); 0x028000 (* IDLE *)] 16) ;;
  assert_eq adsp2181_sr1 0x5678.
Definition test_parallel_sources : T unit :=
  run_m (reset_and_run
    [0x41234f (* SR1 = 0x1234 *); 0x1013af (* SR = LSHIFT MR0 (LO), AR = SR1 *);
     0x90100a (* DM(0x0100) = AR *); 0x028000 (* IDLE *)] 16) ;;
  assert_eq (dm_at 0x0100) 0x1234.

(** *** SUBTRACT, ABS and IF LE as an equality test *)
Definition test_abs_equal : T unit :=
  run_m (adsp2181_reset ;;
         p_wr adsp2181_dm 0x06e6 3 ;;
         fill adsp2181_pm 0
           [0x1c010f (* CALL 0x0010 *); 0x180043 (* IF LE JUMP 0x0004 *); 0x22180f (* AR = 0 *);
            0x18005f (* JUMP 0x0005 *); 0x22380f (* AR = 1 *); 0x90100a (* DM(0x0100) = AR *);
            0x028000 (* IDLE *)] ;;
         fill adsp2181_pm 0x10
           [0x400034 (* AY0 = 3 *); 0x806e60 (* AX0 = DM(0x06e6) *); 0x23200f (* AR = AY0 - AX0 *);
            0x23e20f (* AR = ABS AR *); 0x0a000f (* RTS *)] ;;
         adsp2181_run 32) ;;
  assert_eq (dm_at 0x0100) 1.

(** [for (int count = 0; count <= 8; count++)], from [count] on, [k] passes. *)
Fixpoint test_abs_unequal (k : nat) (count : Z) : T unit :=
  match k with
  | O => mret tt
  | S k =>
      (if count =? 3 then mret tt
       else
         run_m (p_wr adsp2181_dm 0x06e6 count ;;
                p_wr adsp2181_dm 0x0100 0xffff ;;
                adsp2181_set_pc 0 ;;
                adsp2181_run 32) ;;
         assert_eq (dm_at 0x0100) 0) ;;
      test_abs_unequal k (count + 1)
  end.

(** *** The multiplier *)
Definition test_round_unbiased : T unit :=
  run_m (reset_and_run
    [0x40000c (* MR1 = 0 *); 0x44000b (* MR0 = 0x4000 *); 0x420002 (* MX0 = 0x2000 *);
     0x400016 (* MY0 = 1 *); 0x20400f (* MR = MR + MX0*MY0 (RND) *);
     0x90101c (* DM(0x0101) = MR1 *); 0x90100b (* DM(0x0100) = MR0 *); 0x028000 (* IDLE *)] 32) ;;
  assert_eq (dm_at 0x0101) 0 ;;
  assert_eq (dm_at 0x0100) 0.
Definition test_round_biased : T unit :=
  run_m (reset_and_run
    [0x44000b (* MR0 = 0x4000 *); 0x420002 (* MX0 = 0x2000 *); 0x400016 (* MY0 = 1 *);
     0x440000 (* AX0 = 0x4000 *); 0x93ff30 (* DM(0x3ff3) = AX0: BIASRND *);
     0x20400f (* MR = MR + MX0*MY0 (RND) *); 0x90101c (* DM(0x0101) = MR1 *);
     0x028000 (* IDLE *)] 32) ;;
  assert_eq (dm_at 0x0101) 1.

Definition quality_kernel : list Z :=
  [0x80efb0; 0x23e00f; 0x80efc0; 0x27e00f;
   0x22720f; 0x0f12ff; 0x81feda; 0x404004;
   0x23820f; 0x1b3711; 0x80fce3; 0x20e90f;
   0x2be6bc; 0x40000c; 0x80fcf3; 0x21690f;
   0x21620f; 0x90fceb; 0x43fff4; 0x2ee4ac;
   0x220005; 0x90fcfa].
Definition test_quality : T unit :=
  run_m (adsp2181_reset ;;
         p_wr adsp2181_dm 0x2048 0x7ffa ;; (* old-value coefficient *)
         p_wr adsp2181_dm 0x2049 6 ;; (* new-error coefficient *)
         p_wr adsp2181_dm 0x0efb (u16 (-30)) ;;
         p_wr adsp2181_dm 0x0efc (u16 (-575)) ;;
         p_wr adsp2181_dm 0x0fce 0x3456 ;;
         p_wr adsp2181_dm 0x0fcf 0x012d ;;
         p_wr adsp2181_dm 0x1fed 0 ;;
         fill adsp2181_pm 0
           [0x820496 (* MY0 = DM(0x2049) *); 0x820487 (* MY1 = DM(0x2048) *);
            0x1f348f (* CALL 0x3348 *)] ;;
         fill adsp2181_pm 0x3348 quality_kernel ;;
         p_wr adsp2181_pm 0x335e 0x028000 ;; (* stop after publication *)
         adsp2181_run 128) ;;
  assert_eq (dm_at 0x0fce) 0x345f ;;
  assert_eq (dm_at 0x0fcf) 0x012d.

Definition equalizer_output_kernel : list Z :=
  [0x80100c (* MR1 = DM(0x0100) *);
   0x80101b (* MR0 = DM(0x0101) *);
   0x801022 (* MX0 = DM(0x0102) *);
   0x0f2402 (* SR = ASHIFT MR1 (HI) BY 2 *);
   0x0f1b02 (* SR = LSHIFT MR0 (LO, OR) BY 2 *);
   0x0d00cf (* MR1 = SR1 *);
   0x0d00be (* MR0 = SR0 *);
   0x20580f (* MR = MR + MX0 * 0 (RND) *);
   0x90ef9c (* DM(0x0EF9) = MR1 *);
   0x028000 (* stop *)].
Definition test_equalizer : T unit :=
  run_m (adsp2181_reset ;;
         p_wr adsp2181_dm 0x0100 0x0504 ;; (* MR1 entering the realignment *)
         p_wr adsp2181_dm 0x0101 0xc188 ;; (* MR0 entering the realignment *)
         p_wr adsp2181_dm 0x0102 0x0000 ;; (* MX0; the round multiplies it by 0 *)
         fill adsp2181_pm 0 equalizer_output_kernel ;;
         adsp2181_run 64) ;;
  assert_eq (dm_at 0x0ef9) 0x1413.

Definition test_mv_of_mf : T unit :=
  run_m (reset_and_run
    [0x480002 (* MX0 = 0x8000 *); 0x480006 (* MY0 = 0x8000 *); 0x24800f (* MF = MX0*MY0 (SS) *);
     0x0d03a0 (* AR = ASTAT *); 0x90100a (* DM(0x0100) = AR *); 0x028000 (* IDLE *)] 32) ;;
  assert (v ← dm_at 0x0100; mret (tst v 0x0040)). (* MV *)

(** *** Address generators *)
Definition test_modify_linear : T unit :=
  run_m (reset_and_run
    [0x340000 (* I0 = 0 *); 0x37fff4 (* M0 = -1 *); 0x340008 (* L0 = 0 *);
     0x090000 (* MODIFY(I0,M0) *); 0x0d01a0 (* AR = I0 *); 0x90100a (* DM(0x0100) = AR *);
     0x028000 (* IDLE *)] 32) ;;
  assert_eq (dm_at 0x0100) 0x3fff.
Definition test_modify_circular : T unit :=
  run_m (reset_and_run
    [0x340000 (* I0 = 0 (base 0) *); 0x37fff4 (* M0 = -1 *); 0x340038 (* L0 = 3 *);
     0x090000 (* MODIFY(I0,M0) *); 0x0d01a0 (* AR = I0 *); 0x90100a (* DM(0x0100) = AR *);
     0x028000 (* IDLE *)] 32) ;;
  assert_eq (dm_at 0x0100) 2.

(** *** The shifter *)
Definition test_normalise : T unit :=
  run_m (reset_and_run
    [0x40001a (* AR = 1 *); 0x0e620f (* SE = EXP AR (HI) *); 0x0e420f (* SR = NORM AR (HI) *);
     0x90100f (* DM(0x0100) = SR1 *); 0x028000 (* IDLE *)] 32) ;;
  assert_eq (dm_at 0x0100) 0x4000.
Definition test_normalise_hix : T unit :=
  run_m (reset_and_run
    [0x48000a (* AR = 0x8000 *); 0x3c00c0 (* ASTAT = AV | AC *); 0x0e6a0f (* SE = EXP AR (HIX) *);
     0x0e420f (* SR = NORM AR (HI) *); 0x90100f (* DM(0x0100) = SR1 *); 0x028000 (* IDLE *)] 32) ;;
  assert_eq (dm_at 0x0100) 0xc000.

(** *** The count stack and the accumulator's width *)
Definition test_count_stack : T unit :=
  run_m (reset_and_run
    [0x3c0015 (* CNTR = 1 *); 0x3c0025 (* CNTR = 2 *); 0x3c0035 (* CNTR = 3 *);
     0x3c0045 (* CNTR = 4 *); 0x3c0055 (* CNTR = 5 *); 0x0d03a2 (* AR = SSTAT *);
     0x90100a (* DM(0x0100) = AR *); 0x028000 (* IDLE *)] 32) ;;
  assert (v ← dm_at 0x0100; mret (negb (tst v 0x0008))) ;; (* !COUNT_OVER *)
  assert (v ← dm_at 0x0100; mret (negb (tst v 0x0004))). (* !COUNT_EMPTY *)
Definition test_mr2_width : T unit :=
  run_m (reset_and_run
    [0x4ffffc (* MR1 = 0xffff *); 0x4007fd (* MR2 = 0x7f *); 0x4ffffb (* MR0 = 0xffff *);
     0x400012 (* MX0 = 1 *); 0x400016 (* MY0 = 1 *); 0x21000f (* MR = MR + MX0*MY0 (SS), +2 *);
     0x90100d (* DM(0x0100) = MR2 *); 0x028000 (* IDLE *)] 32) ;;
  assert_eq (dm_at 0x0100) 0xff80.

(** *** Interrupts *)
Definition test_dis_ena_ints : T unit :=
  run_m (adsp2181_reset ;;
         fill adsp2181_pm 0 [0x040040 (* DIS INTS *); 0x040060 (* ENA INTS *)] ;;
         adsp2181_set_imask 0x0200 ;; (* IRQ2 *)
         adsp2181_run 1) ;;
  assert_eq adsp2181_pc 1 ;;
  run_m (adsp2181_set_irq ADSP2181_IRQ2 1) ;;
  assert_eq adsp2181_pc 1 ;; (* pending, globally disabled *)
  assert_eq adsp2181_imask 0x0200 ;;
  run_m (adsp2181_run 1) ;;
  assert_eq adsp2181_pc 4 ;; (* pending IRQ taken by ENA *)
  run_m (adsp2181_set_irq ADSP2181_IRQ2 0).

Definition test_sport0_rx : T unit :=
  run_m (adsp2181_reset ;;
         p_wr adsp2181_pm 0 0x028000 ;; (* interrupted foreground: IDLE *)
         p_wr adsp2181_pm 1 0x028000 ;; (* resumed foreground: IDLE *)
         p_wr adsp2181_pm 0x14 0x0a001f ;; (* IF TRUE RTI *)
         adsp2181_set_imask 0x3ff ;;
         adsp2181_set_irq ADSP2181_SPORT0_RX 1) ;;
  assert_eq adsp2181_pc 0x14 ;;
  run_m (adsp2181_run 4) ;;
  assert_eq adsp2181_pc 1 ;;
  assert (v ← adsp2181_idle; mret (nz v)) ;;
  run_m (adsp2181_set_irq ADSP2181_SPORT0_RX 0).

(** *** Loops and frames *)
Definition test_do_until : T unit :=
  run_m (reset_and_run
    [0x400014 (* AY0 = 1 *); 0x40000a (* AR = 0 *); 0x3c0035 (* CNTR = 3 *);
     0x14004e (* DO PM(4) UNTIL NOT CE *); 0x22620f (* AR = AR + AY0 *);
     0x90100a (* DM(0x0100) = AR *); 0x028000 (* IDLE *)] 32) ;;
  assert_eq (dm_at 0x0100) 3.

(** What [adsp2181_sport_snapshot] returns, and the words it copies. *)
Definition copied (r : option (list Z)) : Z := match r with Some _ => SPORT_SNAPSHOT_WORDS | None => 0 end.
Definition word (r : option (list Z)) (n : nat) : Z := default 0 (r ≫= fun ws => ws !! n).
Definition cycles_of (r : option (list Z)) : Z := (word r 4 <<< 32) ||| word r 3.
Definition test_snapshot : T unit :=
  run_m (adsp2181_reset ;;
         p_wr adsp2181_pm 0 0x028000 ;; (* IDLE *)
         adsp2181_sport0_tdm_frame 0 0 0x3456 0 8) ;;
  assert (r ← adsp2181_sport_snapshot 0 20; mret (copied r =? 0)) ;;
  entry ← run_m (adsp2181_sport_snapshot 0 21);
  assert (mret (copied entry =? 21)) ;;
  after ← run_m (adsp2181_sport_snapshot 1 21);
  assert (mret (copied after =? 21)) ;;
  assert (mret ((word entry 18 =? 0x3456) && (word after 18 =? 0x3456))) ;;
  assert (mret (word entry 20 =? 0)) ;;
  assert_eq adsp2181_sport0_tx_writes 0 ;;
  assert (mret (cycles_of entry <=? cycles_of after)).

Definition test_tx_writes : T unit :=
  run_m (adsp2181_reset ;;
         p_wr adsp2181_pm 0 0x028000 ;; (* interrupted foreground: IDLE *)
         p_wr adsp2181_pm 0x14 0x0d0c90 ;; (* TX0 = AX0 *)
         p_wr adsp2181_pm 0x15 0x0d0c90 ;; (* TX0 = AX0 again *)
         p_wr adsp2181_pm 0x16 0x0a001f ;; (* IF TRUE RTI *)
         adsp2181_set_imask 0x3ff ;;
         adsp2181_sport0_tdm_frame 0 0 0x3456 0 8) ;;
  assert (v ← adsp2181_sport0_tx_written; mret (nz v)) ;;
  assert_eq adsp2181_sport0_tx_writes 2.

(** *** [main], after [adsp2181_create]; the exit code *)
Definition main : T Z :=
  test_idma ;; test_idma_block ;; test_idma_dangling_read ;; test_host_port ;; test_overlays ;;
  test_move_rx1 ;; test_move_tx1 ;; test_parallel_sources ;;
  test_abs_equal ;; test_abs_unequal 9 0 ;;
  test_round_unbiased ;; test_round_biased ;; test_quality ;; test_equalizer ;; test_mv_of_mf ;;
  test_modify_linear ;; test_modify_circular ;; test_normalise ;; test_normalise_hix ;;
  test_count_stack ;; test_mr2_width ;; test_dis_ena_ints ;; test_sport0_rx ;;
  test_do_until ;; test_snapshot ;; test_tx_writes ;;
  mret 0.
End Test.

(** The test's process: no callbacks, and none of the diagnostics' variables in
    the environment. What a shift by 32 or more computes is left open. *)
Definition test_host (undefined : Z -> Z -> Z) : Host := {|
  sport_rx_callback := None;
  sport_tx_callback := None;
  timer_fired := None;
  env_ym1_mame_all := false;
  env_ym1_mame_pcs := [];
  env_ym1_log := 0;
  env_sport_full_tdm := false;
  undefined_shift := undefined;
|}.

(** Exit code and whether an array was indexed out of bounds; [None] is an abort. *)
Definition core_test (undefined : Z -> Z -> Z) : option (Z * bool) :=
  let host := test_host undefined in
  (fun r => (fst r, nz ((snd r).[FAULT]))) <$> main (adsp2181_create (host := host)).

(** ** The test passes *)

(** Every assertion of the regression test holds on the model, no array is
    indexed outside its bounds on the way, and the result does not depend on
    what the compiled code computes for an undefined shift. *)
Theorem core_test_passes undefined : core_test undefined = Some (0, false).
Proof. vm_compute. reflexivity. Qed.
