(* ===== verification/MemorySpec.v ===== *)
(** * Specification of memory

    What the accessors of [Memory.v] promise: paged data and program memory
    behave as arrays indexed by page and address, whatever instrumentation is
    armed; latch-on-publish reports the first store of a tick and
    stop-on-publish ends the run at the last store of a group. *)
From S2P Require Import Prelude State Tables Memory Stacks Regs Alu Mac Shift Exec Api Effects EffectsOps EffectsExec Invariants Safety.

(** ** Definitions *)

(** The page an overlay register selects: two pages, and the fixed memory for
    the other two values. *)
Definition page (ov : Z) : Z := if (ov =? 1) || (ov =? 2) then ov else 0.

Lemma page_on ov : page ov = if overlay_on ov then ov else 0.
Proof.
  unfold page, overlay_on. by destruct (Z.eqb_spec ov 1), (Z.eqb_spec ov 2), (Z.leb_spec 1 ov), (Z.leb_spec ov 2); try lia.
Qed.

(** Do [x] on page [d] and [y] on page [e] name the same word, when addresses
    for which [paged] holds are paged and the others are shared? *)
Definition same_word (paged : Z -> bool) (d x e y : Z) : bool :=
  (x =? y) && (negb (paged x) || (page d =? page e)).
Definition dm_paged (x : Z) : bool := x <? 0x2000.
Definition pm_paged (x : Z) : bool := x >=? 0x2000.

Definition mem_read (c : arr * Z) (s : state) : Z := s.{c.1, c.2}.

(** A sequence of stores. *)
Definition stores (l : list (Z * Z)) : M unit := for_each l (fun p => WWORD_DATA p.1 p.2).
(** The values stored at [addr], in order. *)
Definition stored_at (addr : Z) (l : list (Z * Z)) : list Z :=
  map (fun p => u16 p.2) (filter (fun p => p.1 &&& 0x3fff = addr) l).

(** ** Cells *)
(** Two addresses select the same cell exactly when they name the same word. *)
Lemma dm_cell_same s t x y : 0 <= x < 0x4000 -> 0 <= y < 0x4000 ->
  dm_cell s x = dm_cell t y <-> same_word dm_paged (s.[DMOVLAY]) x (t.[DMOVLAY]) y = true.
Proof.
  intros Hx Hy. unfold dm_cell, same_word, dm_paged. rewrite !page_on.
  destruct (overlay_on (s.[DMOVLAY])) eqn:E1, (overlay_on (t.[DMOVLAY])) eqn:E2;
    try apply overlay_on_spec in E1; try apply overlay_on_spec in E2;
    destruct (Z.ltb_spec x 0x2000), (Z.ltb_spec y 0x2000); cbn [andb negb orb];
    (split; [intros [= E]; try lia|intros E; f_equal; lia]).
Qed.
Lemma pm_cell_same s t x y : 0 <= x < 0x4000 -> 0 <= y < 0x4000 ->
  pm_cell s x = pm_cell t y <-> same_word pm_paged (s.[PMOVLAY]) x (t.[PMOVLAY]) y = true.
Proof.
  intros Hx Hy. unfold pm_cell, same_word, pm_paged. rewrite !page_on.
  destruct (overlay_on (s.[PMOVLAY])) eqn:E1, (overlay_on (t.[PMOVLAY])) eqn:E2;
    try apply overlay_on_spec in E1; try apply overlay_on_spec in E2;
    destruct (Z.geb_spec x 0x2000), (Z.geb_spec y 0x2000); cbn [andb negb orb];
    (split; [intros [= E]; try lia|intros E; f_equal; lia]).
Qed.

Lemma mem_read_aset c d v s :
  mem_read d (aset c.1 c.2 v s) = if decide (c = d) then v else mem_read d s.
Proof.
  unfold mem_read. destruct c as [a k], d as [b j]; cbn.
  case_decide as E; [injection E as -> ->; apply aget_aset_eq|].
  destruct (decide (b = a)) as [->|]; [|by rewrite aget_aset_arr].
  apply aget_aset_ne. congruence.
Qed.

Lemma eval_RWORD_DATA x s : eval (RWORD_DATA x) s = mem_read (dm_cell s (x &&& 0x3fff)) s.
Proof.
  unfold RWORD_DATA. cbv zeta. pose proof (mask14_range x) as Hx.
  generalize dependent (x &&& 0x3fff). intros y Hy. run. unfold mem_read, dm_cell.
  destruct (_ && _) eqn:E; [|by run].
  apply andb_true_iff in E as [E1 E2%overlay_on_spec]. by run.
Qed.

Lemma pgm_word_masked x s : Wf s -> mem_read (pm_cell s x) s &&& 0xffffff = mem_read (pm_cell s x) s.
Proof.
  intros Hs. change 0xffffff with (2 ^ 24 - 1). rewrite land_mask_mod by lia. apply Z.mod_small.
  unfold mem_read, pm_cell. destruct (_ && _); cbn [fst snd].
  - pose proof (wf_range_elem s PROGRAM_OVERLAY (0x2000 * (s.[PMOVLAY] - 1) + (x - 0x2000)) Hs).
    cbn in *. lia.
  - pose proof (wf_range_elem s PROGRAM x Hs). cbn in *. lia.
Qed.
Lemma eval_pgm_word x s : Wf s -> 0 <= x < 0x4000 ->
  eval (pgm_word x) s = mem_read (pm_cell s x) s.
Proof.
  intros Hs Hx. rewrite <- pgm_word_masked by done. unfold pgm_word. run.
  unfold mem_read, pm_cell. destruct (_ && _) eqn:E; [|by run].
  apply andb_true_iff in E as [E1 E2%overlay_on_spec]. by run.
Qed.
Lemma eval_RWORD_PGM x s : Wf s ->
  eval (RWORD_PGM x) s =
  let x := x &&& 0x3fff in
  if nz (s.{FORCE_PM_FETCH, x}) then s.{FORCE_PM_FETCH_VALUE, x} &&& 0xffffff
  else mem_read (pm_cell s x) s.
Proof.
  intros Hs. unfold RWORD_PGM. cbv zeta. pose proof (mask14_range x) as Hx.
  generalize dependent (x &&& 0x3fff). intros y Hy. run.
  destruct (nz _); [done|]. by rewrite eval_pgm_word.
Qed.

(** *** Stores *)
Lemma WWORD_DATA_field x v s f : Wf s -> dm_prefix_f f = false ->
  (exec (WWORD_DATA x v) s).[f] = s.[f].
Proof.
  intros Hs Hf. rewrite WWORD_DATA_eq by done. cbv zeta. rewrite get_aset.
  destruct (dm_prefix_touches (x &&& 0x3fff) (u16 v) (mask14_range x) (u16_range v) s Hs)
    as [(_ & H & _) _]. by apply H.
Qed.
Lemma WWORD_DATA_mem x v s d : Wf s -> dm_prefix_a d.1 = false ->
  mem_read d (exec (WWORD_DATA x v) s) =
  if decide (dm_cell s (x &&& 0x3fff) = d) then pinned_dm s (x &&& 0x3fff) (u16 v)
  else mem_read d s.
Proof.
  intros Hs Hd. rewrite WWORD_DATA_eq by done. cbv zeta. rewrite mem_read_aset.
  destruct (dm_prefix_touches (x &&& 0x3fff) (u16 v) (mask14_range x) (u16_range v) s Hs)
    as [(_ & _ & H) _]. case_decide; [done|]. unfold mem_read, aget. by rewrite H.
Qed.
Lemma dm_cell_plain s x : 0 <= x < 0x4000 -> dm_prefix_a (dm_cell s x).1 = false.
Proof. intros Hx. by destruct (dm_cell_ok s x Hx) as [[-> | ->] _]. Qed.
Lemma wf_WWORD_DATA x v s : Wf s -> Wf (exec (WWORD_DATA x v) s).
Proof. intros Hs. by apply (ok_kept _ _ (ok_WWORD_DATA x v) s Hs). Qed.
Lemma wf_WWORD_PGM x v s : Wf s -> Wf (exec (WWORD_PGM x v) s).
Proof. intros Hs. by apply (ok_kept _ _ (ok_WWORD_PGM x v) s Hs). Qed.

Lemma WWORD_PGM_field x v s f : Wf s -> (exec (WWORD_PGM x v) s).[f] = s.[f].
Proof.
  intros Hs. rewrite WWORD_PGM_eq by done. cbv zeta. rewrite get_aset.
  destruct (pm_prefix_touches (x &&& 0x3fff) (u32 v) (mask14_range x) s Hs)
    as [(_ & H & _) _]. by apply H.
Qed.
Lemma WWORD_PGM_mem x v s d : Wf s -> pm_prefix_a d.1 = false ->
  mem_read d (exec (WWORD_PGM x v) s) =
  if decide (pm_cell s (x &&& 0x3fff) = d)
  then pinned_pm s (x &&& 0x3fff) (u32 v) &&& 0xffffff else mem_read d s.
Proof.
  intros Hs Hd. rewrite WWORD_PGM_eq by done. cbv zeta. rewrite mem_read_aset.
  destruct (pm_prefix_touches (x &&& 0x3fff) (u32 v) (mask14_range x) s Hs)
    as [(_ & _ & H) _]. case_decide; [done|]. unfold mem_read, aget. by rewrite H.
Qed.
Lemma pm_cell_plain s x : 0 <= x < 0x4000 -> pm_prefix_a (pm_cell s x).1 = false.
Proof. intros Hx. by destruct (pm_cell_ok s x Hx) as [[-> | ->] _]. Qed.

(** Selecting an overlay page changes only which cell an address names. *)
Lemma exec_wr_ovlay f e s : frange f = (0, 3) -> fty f = U16 -> Wf s -> 0 <= e <= 3 ->
  exec (wr f (e &&& 3)) s = set f e s /\ Wf (set f e s).
Proof.
  intros Hf Ht Hs He. rewrite exec_wr, Ht.
  assert (u16 (e &&& 3) = e) as ->.
  { assert (e = 0 \/ e = 1 \/ e = 2 \/ e = 3) as Hd by lia.
    by repeat destruct Hd as [-> | Hd]; try subst e. }
  split; [done|]. apply wf_set; [done|]. unfold in_frange. by rewrite Hf.
Qed.

(** C13: paged data memory. Store [v] at address [x] with overlay register
    value [d] selected, then read address [y] with [e] selected: if the two
    name the same word (the fixed upper half, or the same page of the paged
    lower half) the read gives the stored 16 bits, or the pinned value if [x]
    is pinned; otherwise it gives what it gave before. Addresses count modulo
    [2^14], and watches, the latch, the stop and the census do not disturb
    any of this. *)
Theorem data_memory_paged d x v e y s :
  Wf s -> 0 <= d <= 3 -> 0 <= e <= 3 ->
  eval (wr_dmovlay d ;; WWORD_DATA x v ;; wr_dmovlay e ;; RWORD_DATA y) s =
  if same_word dm_paged d (x &&& 0x3fff) e (y &&& 0x3fff)
  then pinned_dm s (x &&& 0x3fff) (u16 v)
  else eval (wr_dmovlay e ;; RWORD_DATA y) s.
Proof.
  intros Hs Hd He. unfold wr_dmovlay. rewrite !eval_bind, !eval_RWORD_DATA.
  pose proof (mask14_range x) as Hx. pose proof (mask14_range y) as Hy.
  destruct (exec_wr_ovlay DMOVLAY d s eq_refl eq_refl Hs Hd) as [-> Hsd].
  pose proof (wf_WWORD_DATA x v _ Hsd) as Hw.
  destruct (exec_wr_ovlay DMOVLAY e _ eq_refl eq_refl Hw He) as [-> Hwe].
  destruct (exec_wr_ovlay DMOVLAY e s eq_refl eq_refl Hs He) as [-> _].
  set (t := exec (WWORD_DATA x v) (set DMOVLAY d s)) in *.
  assert (dm_cell (set DMOVLAY e t) (y &&& 0x3fff) = dm_cell (set DMOVLAY e s) (y &&& 0x3fff)) as Ec
    by (unfold dm_cell; by rewrite !get_set_eq).
  rewrite Ec. change (mem_read ?c (set DMOVLAY e t)) with (mem_read c t).
  unfold t. rewrite WWORD_DATA_mem by (done || by apply dm_cell_plain).
  pose proof (dm_cell_same (set DMOVLAY d s) (set DMOVLAY e s) _ _ Hx Hy) as Hsame.
  rewrite !get_set_eq in Hsame. destruct (same_word _ _ _ _ _).
  - by rewrite decide_True by (by apply Hsame).
  - rewrite decide_False; [done|]. intros E%Hsame. done.
Qed.

(** Paged program memory. The same for program memory, whose upper half is
    paged and whose words are 24 bits; a word with a forced fetch reads as the
    forced value and no store changes that. *)
Theorem program_memory_paged d x v e y s :
  Wf s -> 0 <= d <= 3 -> 0 <= e <= 3 ->
  eval (wr_pmovlay d ;; WWORD_PGM x v ;; wr_pmovlay e ;; RWORD_PGM y) s =
  if nz (s.{FORCE_PM_FETCH, y &&& 0x3fff}) then s.{FORCE_PM_FETCH_VALUE, y &&& 0x3fff} &&& 0xffffff
  else if same_word pm_paged d (x &&& 0x3fff) e (y &&& 0x3fff)
  then pinned_pm s (x &&& 0x3fff) (u32 v) &&& 0xffffff
  else eval (wr_pmovlay e ;; RWORD_PGM y) s.
Proof.
  intros Hs Hd He. unfold wr_pmovlay. cbv zeta. rewrite !eval_bind.
  pose proof (mask14_range x) as Hx. pose proof (mask14_range y) as Hy.
  destruct (exec_wr_ovlay PMOVLAY d s eq_refl eq_refl Hs Hd) as [-> Hsd].
  pose proof (wf_WWORD_PGM x v _ Hsd) as Hw.
  destruct (exec_wr_ovlay PMOVLAY e _ eq_refl eq_refl Hw He) as [-> Hwe].
  destruct (exec_wr_ovlay PMOVLAY e s eq_refl eq_refl Hs He) as [-> Hse].
  set (t := exec (WWORD_PGM x v) (set PMOVLAY d s)) in *.
  rewrite !eval_RWORD_PGM by done. cbv zeta.
  assert (pm_cell (set PMOVLAY e t) (y &&& 0x3fff) = pm_cell (set PMOVLAY e s) (y &&& 0x3fff)) as Ec
    by (unfold pm_cell; by rewrite !get_set_eq).
  rewrite Ec. change (mem_read ?c (set PMOVLAY e t)) with (mem_read c t).
  assert (forall a k, pm_prefix_a a = false -> a <> PROGRAM -> a <> PROGRAM_OVERLAY ->
    (set PMOVLAY e t).{a, k} = s.{a, k}) as Ha.
  { intros a k H1 H2 H3. change (mem_read (a, k) t = mem_read (a, k) s).
    unfold t. rewrite WWORD_PGM_mem by done. rewrite decide_False; [done|]. intros E.
    destruct (pm_cell_ok (set PMOVLAY d s) _ Hx) as [[E1|E1] _]; rewrite E in E1; done. }
  rewrite !Ha by done. rewrite !aget_set.
  destruct (nz _); [done|].
  unfold t. rewrite WWORD_PGM_mem by (done || by apply pm_cell_plain).
  pose proof (pm_cell_same (set PMOVLAY d s) (set PMOVLAY e s) _ _ Hx Hy) as Hsame.
  rewrite !get_set_eq in Hsame. destruct (same_word _ _ _ _ _).
  - by rewrite decide_True by (by apply Hsame).
  - rewrite decide_False; [done|]. intros E%Hsame. done.
Qed.

(** *** Publication: the latch and the stop *)
Definition latch_f (f : field) : bool :=
  match f with LATCH_DM_HAVE | LATCH_DM_VALUE | LATCH_DM_COUNT => true | _ => false end.
Definition stop_f (f : field) : bool :=
  match f with STOP_DM_LEFT | STOP_DM_HIT | ICOUNT => true | _ => false end.

Lemma pin_touches x v : 0 <= x < 0x4000 ->
  hoare (touches none_f dm_prefix_a) (pin_dm_value x v) any.
Proof. intros. unfold pin_dm_value. hoare_auto. Qed.
Lemma latch_touches x v : 0 <= v <= 0xffff ->
  hoare (touches latch_f dm_prefix_a) (latch_dm_store x v) any.
Proof. intros. unfold latch_dm_store. hoare_auto. Qed.
Lemma stop_touches x : hoare (touches stop_f dm_prefix_a) (stop_dm_store x) any.
Proof. unfold stop_dm_store. hoare_auto. Qed.
Lemma census_touches x v : 0 <= x < 0x4000 ->
  hoare (touches none_f dm_prefix_a) (census_dm_store x v) any.
Proof. intros. unfold census_dm_store, watch_dm_charge. hoare_auto. Qed.

(** A store reaches the latch and the stop with its own address and the value
    that will be stored, and nothing else in it touches either. *)
Lemma store_latch_stop x v s : Wf s ->
  let a := x &&& 0x3fff in let t := exec (WWORD_DATA x v) s in
  exists s1 s2, Wf s1 /\ Wf s2 /\
  (forall f, s1.[f] = s.[f]) /\
  (forall f, latch_f f = false -> s2.[f] = s.[f]) /\
  (forall f, latch_f f = true ->
     t.[f] = (exec (latch_dm_store a (pinned_dm s a (u16 v))) s1).[f]) /\
  (forall f, stop_f f = true -> t.[f] = (exec (stop_dm_store a) s2).[f]) /\
  (forall b w, pinned_dm t b w = pinned_dm s b w).
Proof.
  intros Hs. cbv zeta. pose proof (mask14_range x) as Hx. pose proof (u16_range v) as Hv.
  pose proof (pinned_dm_range s (x &&& 0x3fff) (u16 v) Hs Hv) as Hp.
  assert (forall b w, pinned_dm (exec (WWORD_DATA x v) s) b w = pinned_dm s b w) as Hpin.
  { intros b w. unfold pinned_dm.
    assert (forall a, a = PIN_DM \/ a = PIN_DM_VALUE ->
      (exec (WWORD_DATA x v) s).{a, b} = s.{a, b}) as Ha.
    { intros a Ha. change (mem_read (a, b) (exec (WWORD_DATA x v) s) = mem_read (a, b) s).
      rewrite WWORD_DATA_mem by (done || by destruct Ha as [-> | ->]).
      rewrite decide_False; [done|]. intros E.
      destruct (dm_cell_ok s _ Hx) as [[E1|E1] _]; rewrite E in E1; destruct Ha; subst; done. }
    by rewrite !Ha by auto. }
  rewrite WWORD_DATA_eq in * by done. cbv zeta in *.
  generalize dependent (x &&& 0x3fff). intros a Ha Hp Hpin.
  pose proof (pin_dm_value_eval a (u16 v) s Ha) as Ee.
  generalize dependent (u16 v). intros w Hw Hp Hpin Ee.
  destruct (pin_touches a w Ha s Hs) as [(H1 & Hf1 & _) _]. specialize (H1 Hs).
  destruct (latch_touches a (pinned_dm s a w) Hp _ H1) as [(H2 & Hf2 & _) _]. specialize (H2 H1).
  destruct (stop_touches a _ H2) as [(H3 & Hf3 & _) _]. specialize (H3 H2).
  destruct (census_touches a (pinned_dm s a w) Ha _ H3) as [(_ & Hf4 & _) _].
  exists (exec (pin_dm_value a w) s), (exec (latch_dm_store a (pinned_dm s a w)) (exec (pin_dm_value a w) s)).
  split; [done|]. split; [done|].
  unfold dm_prefix in *. rewrite !exec_bind, Ee in *. split; [intros f; by apply Hf1|].
  split; [intros f Hf; rewrite Hf2, Hf1; done|].
  split; [|split].
  - intros f Hf. rewrite get_aset, Hf4, Hf3; [done|by destruct f|done].
  - intros f Hf. rewrite get_aset, Hf4; done.
  - exact Hpin.
Qed.

Lemma latch_step x v s : Wf s -> s.[LATCH_DM_ARMED] = 1 ->
  let t := exec (WWORD_DATA x v) s in
  t.[LATCH_DM_ARMED] = 1 /\ t.[LATCH_DM_ADDR] = s.[LATCH_DM_ADDR] /\
  (if x &&& 0x3fff =? s.[LATCH_DM_ADDR] then
     t.[LATCH_DM_HAVE] = 1 /\ t.[LATCH_DM_COUNT] = u32 (s.[LATCH_DM_COUNT] + 1) /\
     t.[LATCH_DM_VALUE] = if nz (s.[LATCH_DM_HAVE]) then s.[LATCH_DM_VALUE]
                          else pinned_dm s (s.[LATCH_DM_ADDR]) (u16 v)
   else t.[LATCH_DM_HAVE] = s.[LATCH_DM_HAVE] /\ t.[LATCH_DM_COUNT] = s.[LATCH_DM_COUNT] /\
        t.[LATCH_DM_VALUE] = s.[LATCH_DM_VALUE]).
Proof.
  intros Hs Ha. cbv zeta. split; [rewrite WWORD_DATA_field; done|].
  split; [by rewrite WWORD_DATA_field|].
  destruct (store_latch_stop x v s Hs) as (s1 & s2 & _ & _ & H1 & _ & Ht & _).
  pose proof (pinned_dm_range s (x &&& 0x3fff) (u16 v) Hs (u16_range v)) as Hp.
  pose proof (wf_field s Hs LATCH_DM_HAVE) as Hh. unfold in_frange in Hh. cbn in Hh.
  rewrite !Ht by done. unfold latch_dm_store. run. rewrite !H1, Ha. cbn [nz negb Z.eqb andb].
  destruct (Z.eqb_spec (x &&& 0x3fff) (s.[LATCH_DM_ADDR])) as [E|E]; [|by rewrite !H1].
  rewrite E in *. unfold nz.
  assert (s.[LATCH_DM_HAVE] = 0 \/ s.[LATCH_DM_HAVE] = 1) as [Eh|Eh] by lia; rewrite Eh;
    cbn [negb Z.eqb]; gets; rewrite ?H1, ?Eh.
  - split; [done|]. split; [done|]. by apply conv_id.
  - split; [done|]. split; done.
Qed.

Lemma stop_step x v s : Wf s -> s.[STOP_DM_ARMED] = 1 ->
  let t := exec (WWORD_DATA x v) s in
  t.[STOP_DM_ARMED] = 1 /\ t.[STOP_DM_ADDR] = s.[STOP_DM_ADDR] /\
  (if x &&& 0x3fff =? s.[STOP_DM_ADDR] then
     if s.[STOP_DM_LEFT] >? 1 then
       t.[STOP_DM_LEFT] = s.[STOP_DM_LEFT] - 1 /\ t.[STOP_DM_HIT] = s.[STOP_DM_HIT] /\
       t.[ICOUNT] = s.[ICOUNT]
     else t.[STOP_DM_LEFT] = s.[STOP_DM_LEFT] /\ t.[STOP_DM_HIT] = 1 /\ t.[ICOUNT] = 0
   else t.[STOP_DM_LEFT] = s.[STOP_DM_LEFT] /\ t.[STOP_DM_HIT] = s.[STOP_DM_HIT] /\
        t.[ICOUNT] = s.[ICOUNT]).
Proof.
  intros Hs Ha. cbv zeta. split; [rewrite WWORD_DATA_field; done|].
  split; [by rewrite WWORD_DATA_field|].
  destruct (store_latch_stop x v s Hs) as (s1 & s2 & _ & _ & _ & H2 & _ & Ht & _).
  pose proof (wf_field s Hs STOP_DM_LEFT) as Hl. unfold in_frange in Hl. cbn in Hl.
  rewrite !Ht by done. unfold stop_dm_store. run. rewrite !H2, Ha by done.
  cbn [nz negb Z.eqb andb].
  destruct (Z.eqb_spec (x &&& 0x3fff) (s.[STOP_DM_ADDR])) as [E|E]; [|by rewrite !H2].
  destruct (s.[STOP_DM_LEFT] >? 1) eqn:El; gets; rewrite ?H2 by done; [|done].
  split; [|done]. apply conv_id. cbn. lia.
Qed.

Lemma stores_cons p l s : exec (stores (p :: l)) s = exec (stores l) (exec (WWORD_DATA p.1 p.2) s).
Proof. unfold stores. cbn [for_each]. by rewrite exec_bind. Qed.
Lemma stored_at_cons a p l :
  stored_at a (p :: l) = if p.1 &&& 0x3fff =? a then u16 p.2 :: stored_at a l else stored_at a l.
Proof.
  unfold stored_at. rewrite filter_cons. destruct (Z.eqb_spec (p.1 &&& 0x3fff) a) as [E|E].
  - by rewrite decide_True.
  - by rewrite decide_False.
Qed.
Lemma pinned_store x v s b w : Wf s -> pinned_dm (exec (WWORD_DATA x v) s) b w = pinned_dm s b w.
Proof. intros Hs. by destruct (store_latch_stop x v s Hs) as (? & ? & _ & _ & _ & _ & _ & _ & H). Qed.

Lemma latch_stores l : forall s, Wf s -> s.[LATCH_DM_ARMED] = 1 ->
  let a := s.[LATCH_DM_ADDR] in let t := exec (stores l) s in
  t.[LATCH_DM_COUNT] = u32 (s.[LATCH_DM_COUNT] + Z.of_nat (length (stored_at a l))) /\
  (if nz (s.[LATCH_DM_HAVE]) then
     nz (t.[LATCH_DM_HAVE]) = true /\ t.[LATCH_DM_VALUE] = s.[LATCH_DM_VALUE]
   else match stored_at a l with
        | [] => t.[LATCH_DM_HAVE] = s.[LATCH_DM_HAVE]
        | v :: _ => nz (t.[LATCH_DM_HAVE]) = true /\ t.[LATCH_DM_VALUE] = pinned_dm s a v
        end).
Proof.
  induction l as [|p l IH]; intros s Hs Ha; cbv zeta.
  - pose proof (wf_field s Hs LATCH_DM_COUNT) as Hc. split.
    + cbn [stored_at map filter length]. change (exec (stores []) s) with s.
      symmetry. rewrite Z.add_0_r. by apply conv_id.
    + by destruct (nz _) eqn:E.
  - rewrite stores_cons, stored_at_cons.
    pose proof (wf_WWORD_DATA p.1 p.2 s Hs) as Hw.
    destruct (latch_step p.1 p.2 s Hs Ha) as (Ha' & Ea & Hstep).
    destruct (IH _ Hw Ha') as [IHc IHv]. rewrite Ea in *.
    destruct (_ =? _).
    + destruct Hstep as (E1 & E2 & E3). rewrite E1, E2, E3 in *. cbn [nz negb Z.eqb] in IHv.
      destruct IHv as [IH1 IH2]. split; [|by destruct (nz (s.[LATCH_DM_HAVE])); split].
      rewrite IHc. cbn [length]. apply conv_eq_mod. cbn [cbits].
      rewrite conv_unsigned by done. cbn [cbits]. rewrite Zplus_mod_idemp_l. f_equal. lia.
    + destruct Hstep as (E1 & E2 & E3). rewrite E1, E2, E3 in *. split; [done|].
      destruct (nz _); [done|]. destruct (stored_at _ l); [done|]. by rewrite pinned_store in IHv.
Qed.

Lemma stop_stores l : forall s, Wf s -> s.[STOP_DM_ARMED] = 1 -> 1 <= s.[STOP_DM_LEFT] ->
  let n := Z.of_nat (length (stored_at (s.[STOP_DM_ADDR]) l)) in let t := exec (stores l) s in
  if s.[STOP_DM_LEFT] <=? n then t.[STOP_DM_HIT] = 1 /\ t.[ICOUNT] = 0
  else t.[STOP_DM_HIT] = s.[STOP_DM_HIT] /\ t.[ICOUNT] = s.[ICOUNT].
Proof.
  induction l as [|p l IH]; intros s Hs Ha Hl; cbv zeta.
  - destruct (Z.leb_spec (s.[STOP_DM_LEFT]) (Z.of_nat (length (stored_at (s.[STOP_DM_ADDR]) []))));
      [cbn in *; lia|done].
  - rewrite stores_cons, stored_at_cons.
    pose proof (wf_WWORD_DATA p.1 p.2 s Hs) as Hw.
    destruct (stop_step p.1 p.2 s Hs Ha) as (Ha' & Ea & Hstep).
    specialize (IH _ Hw Ha'). cbv zeta in IH. rewrite Ea in IH.
    destruct (_ =? _); [destruct (Z.gtb_spec (s.[STOP_DM_LEFT]) 1)|];
      destruct Hstep as (E1 & E2 & E3); rewrite E1, E2, E3 in IH; cbn [length];
      specialize (IH ltac:(lia)); revert IH.
    + do 2 match goal with |- context [?a <=? ?b] => destruct (Z.leb_spec a b) end;
        (lia || done).
    + do 2 match goal with |- context [?a <=? ?b] => destruct (Z.leb_spec a b) end;
        (lia || done).
    + done.
Qed.

(** Latch-on-publish. After arming the latch on an address, any sequence of
    stores leaves in it the value of the first store to that address (the
    pinned value if it is pinned), or -1 if there was none, and the number of
    such stores modulo [2^32]. *)
Theorem latch_first_store addr l s :
  Wf s ->
  let a := addr &&& 0x3fff in
  let t := exec (adsp2181_latch_dm_write addr 1 ;; stores l) s in
  eval adsp2181_latched_dm_write t =
    match stored_at a l with [] => -1 | v :: _ => pinned_dm s a v end /\
  eval adsp2181_latched_dm_writes t = u32 (Z.of_nat (length (stored_at a l))).
Proof.
  intros Hs. cbv zeta. rewrite exec_bind.
  assert (hoare kept (adsp2181_latch_dm_write addr 1) any) as Hk
    by (unfold adsp2181_latch_dm_write; hoare_auto).
  destruct (Hk s Hs) as [Hw _]. specialize (Hw Hs).
  set (s1 := exec (adsp2181_latch_dm_write addr 1) s) in *.
  assert (s1.[LATCH_DM_ADDR] = addr &&& 0x3fff) as Ea.
  { unfold s1, adsp2181_latch_dm_write. run. gets. pose proof (mask14_range addr).
    apply conv_id. cbn. lia. }
  assert (s1.[LATCH_DM_ARMED] = 1 /\ s1.[LATCH_DM_HAVE] = 0 /\ s1.[LATCH_DM_COUNT] = 0) as (E1 & E2 & E3)
    by (unfold s1, adsp2181_latch_dm_write; run; gets; done).
  assert (forall b w, pinned_dm s1 b w = pinned_dm s b w) as Hp
    by (intros b w; unfold s1, adsp2181_latch_dm_write, pinned_dm; by run).
  destruct (latch_stores l s1 Hw E1) as [Hc Hv]. rewrite Ea, E2, E3 in *.
  unfold adsp2181_latched_dm_write, adsp2181_latched_dm_writes. run. split; [|done].
  cbn [nz negb Z.eqb] in Hv. destruct (stored_at _ l) as [|v r].
  - rewrite Hv. done.
  - destruct Hv as [-> ->]. apply Hp.
Qed.

(** Stop-on-publish. After arming the stop on an address with a group of
    [group] stores, a sequence of stores reports a hit, and zeroes the cycle
    budget so that the run ends, exactly when it contains at least [group]
    (at least one) stores to that address. *)
Theorem stop_after_group addr group l s :
  Wf s -> group <= 0xffff ->
  let n := Z.of_nat (length (stored_at (addr &&& 0x3fff) l)) in
  let t := exec (adsp2181_stop_on_dm_write_n addr group 1 ;; stores l) s in
  eval adsp2181_stop_dm_hit t = b2z (Z.max 1 group <=? n) /\
  t.[ICOUNT] = if Z.max 1 group <=? n then 0 else s.[ICOUNT].
Proof.
  intros Hs Hg. cbv zeta. rewrite exec_bind.
  assert (hoare kept (adsp2181_stop_on_dm_write_n addr group 1) any) as Hk
    by (unfold adsp2181_stop_on_dm_write_n; hoare_auto).
  destruct (Hk s Hs) as [Hw _]. specialize (Hw Hs).
  set (s1 := exec (adsp2181_stop_on_dm_write_n addr group 1) s) in *.
  pose proof (mask14_range addr) as Hm.
  assert (s1.[STOP_DM_ADDR] = addr &&& 0x3fff) as Ea.
  { unfold s1, adsp2181_stop_on_dm_write_n. run. gets. apply conv_id. cbn. lia. }
  assert (s1.[STOP_DM_LEFT] = Z.max 1 group) as El.
  { unfold s1, adsp2181_stop_on_dm_write_n. run. gets.
    destruct (Z.gtb_spec group 0); cbn [fty];
      rewrite ?conv_conv, conv_id by (cbn; lia); lia. }
  assert (s1.[STOP_DM_ARMED] = 1 /\ s1.[STOP_DM_HIT] = 0 /\ s1.[ICOUNT] = s.[ICOUNT]) as (E1 & E2 & E3)
    by (unfold s1, adsp2181_stop_on_dm_write_n; run; gets; done).
  pose proof (stop_stores l s1 Hw E1 ltac:(lia)) as H. cbv zeta in H. rewrite Ea, El, E2, E3 in H.
  unfold adsp2181_stop_dm_hit. run. destruct (_ <=? _); destruct H as [-> ->]; done.
Qed.

(** ** Witnesses *)
Lemma data_memory_paged_witness :
  eval (wr_dmovlay 2 ;; WWORD_DATA 0x123 0x4567 ;; wr_dmovlay 1 ;; RWORD_DATA 0x123) demo = 0 /\
  eval (wr_dmovlay 2 ;; WWORD_DATA 0x123 0x4567 ;; wr_dmovlay 2 ;; RWORD_DATA 0x4123) demo = 0x4567.
Proof.
  split; rewrite data_memory_paged; try (apply demo_wf || lia); vm_compute; reflexivity.
Defined.
Lemma program_memory_paged_witness :
  eval (wr_pmovlay 2 ;; WWORD_PGM 0x2123 0x1456789 ;; wr_pmovlay 0 ;; RWORD_PGM 0x2123) demo = 0 /\
  eval (wr_pmovlay 0 ;; WWORD_PGM 0x2123 0x1456789 ;; wr_pmovlay 3 ;; RWORD_PGM 0x2123) demo = 0x456789.
Proof.
  split; rewrite program_memory_paged; try (apply demo_wf || lia); vm_compute; reflexivity.
Defined.
Lemma latch_first_store_witness :
  eval adsp2181_latched_dm_write
    (exec (adsp2181_latch_dm_write 0x3001 1 ;;
           stores [(0x3000, 7); (0x3001, 0x10008); (0x7001, 9)]) demo) = 8.
Proof.
  rewrite (proj1 (latch_first_store 0x3001 [(0x3000, 7); (0x3001, 0x10008); (0x7001, 9)] demo demo_wf)).
  vm_compute. reflexivity.
Defined.
Lemma stop_after_group_witness :
  eval adsp2181_stop_dm_hit
    (exec (adsp2181_stop_on_dm_write_n 0x3001 2 1 ;;
           stores [(0x3000, 7); (0x3001, 8); (0x7001, 9)]) demo) = 1.
Proof.
  rewrite (proj1 (stop_after_group 0x3001 2 [(0x3000, 7); (0x3001, 8); (0x7001, 9)] demo demo_wf
    ltac:(lia))).
  vm_compute. reflexivity.
Defined.
