(* ===== verification/RegsSpec.v ===== *)
(** * Specification of the address generators and the register file

    An address generator walks a circular buffer: the addresses of successive
    accesses advance by the modify register modulo the buffer's length from its
    aligned base, and linearly modulo [2^14] when the length is zero. *)
From S2P Require Import Prelude State Tables Memory Stacks Regs Alu Mac Shift Exec Api Effects EffectsOps EffectsExec Invariants Safety MemorySpec.

(** ** Definitions *)

(** The three ports through which a generator reads. *)
Inductive port := Dag1 | Dag2 | Pgm.

(** The registers an opcode selects for a port. *)
Definition port_i (p : port) (op : Z) : Z :=
  match p with Dag1 => (op >>> 2) &&& 3 | _ => 4 + ((op >>> 2) &&& 3) end.
Definition port_m (p : port) (op : Z) : Z :=
  match p with Dag1 => op &&& 3 | _ => 4 + (op &&& 3) end.

Definition port_read (p : port) (op : Z) : M Z :=
  match p with
  | Dag1 => data_read_dag1 op
  | Dag2 => data_read_dag2 op
  | Pgm => pgm_read_dag2 op
  end.

(** The word a port finds when its index register is [i]: data memory, at the
    bit-reversed address when generator 1 is in that mode, or the upper 16
    bits of program memory. *)
Definition port_word (p : port) (i : Z) (s : state) : Z :=
  match p with
  | Dag1 => eval (RWORD_DATA (if tst (s.[MSTAT]) MSTAT_REVERSE then reverse_table i else i)) s
  | Dag2 => eval (RWORD_DATA i) s
  | Pgm => eval (RWORD_PGM i) s >>> 8
  end.

(** [n] reads, and the values they return. *)
Fixpoint reads (p : port) (op : Z) (n : nat) : M (list Z) :=
  match n with
  | O => mret []
  | S n => v ← port_read p op; vs ← reads p op n; mret (v :: vs)
  end.

(** The base of the buffer of length [l] that contains [a]: [a] with its low
    [ceil (log2 l)] bits cleared. *)
Definition buffer_base (l a : Z) : Z := 2 ^ Z.log2_up l * (a / 2 ^ Z.log2_up l).

(** The index after [t] accesses that started at [a]. *)
Definition walk (l m a t : Z) : Z :=
  if l =? 0 then (a + t * m) mod 0x4000
  else buffer_base l a + (a - buffer_base l a + t * m) mod l.

(** Loading the registers of a walk. *)
Definition setup_walk (p : port) (op l m a : Z) : M unit :=
  wr_m (port_m p op) m ;; wr_l (port_i p op) l ;; wr_i (port_i p op) a.

(** What a read may change: its index register, PX, and watch counters. *)
Definition read_f (f : field) : bool := match f with PX => true | _ => false end.
Definition read_a (a : arr) : bool :=
  match a with RI | WATCH_DM | WATCH_DM_LEFT | PIN_PM_HITS => true | _ => false end.
Definition watch_a (a : arr) : bool :=
  match a with WATCH_DM | WATCH_DM_LEFT | PIN_PM_HITS => true | _ => false end.

(** ** Reads do not disturb memory *)
Lemma watch_RWORD_DATA x : hoare (touches none_f watch_a) (RWORD_DATA x) any.
Proof.
  unfold RWORD_DATA. cbv zeta. pose proof (mask14_range x) as Hx.
  generalize dependent (x &&& 0x3fff). clear x. intros x Hx.
  eapply hoare_bind; [hoare_step|]. intros ov Hov. cbv beta in Hov. hoare_ranges.
  eapply (hoare_bind _ _ any).
  - destruct ((x <? 0x2000) && overlay_on ov) eqn:E; [|hoare_auto].
    apply andb_true_iff in E as [E1 E2%overlay_on_spec]. hoare_auto.
  - intros v _. unfold watch_dm_charge. hoare_auto.
Qed.
Lemma watch_RWORD_PGM x : hoare (touches none_f watch_a) (RWORD_PGM x) any.
Proof.
  unfold RWORD_PGM. cbv zeta. pose proof (mask14_range x) as Hx.
  eapply hoare_bind; [apply hoare_ard; cbn; lia|]. intros v _.
  destruct (nz v).
  - eapply (hoare_bind _ _ any); [|intros; by apply hoare_ret]. hoare_auto.
  - eapply touches_weaken; [| |apply pgm_word_touches; lia]; [done|by intros []].
Qed.

(** A read without the modification of the index register. *)
Definition port_body (p : port) (op : Z) : M Z :=
  i ← ard RI (port_i p op);
  match p with
  | Dag1 =>
      mstat ← rd MSTAT;
      if tst mstat MSTAT_REVERSE then RWORD_DATA (reverse_table (i &&& 0x3fff)) else RWORD_DATA i
  | Dag2 => RWORD_DATA i
  | Pgm =>
      res ← RWORD_PGM i;
      gate ← rd WATCH_GATE;
      w ← ard WATCH_PM (i &&& 0x3fff);
      when (nz gate && nz w) (logerror (EvPmRead (i &&& 0x3fff) (res &&& 0xffffff))) ;;
      wr PX (res &&& 0xff) ;;
      mret (res >>> 8)
  end.

Lemma port_read_body p op s :
  port_read p op s = (v ← port_body p op; modify_address (port_i p op) (port_m p op) ;; mret v) s.
Proof.
  destruct p; unfold port_body; cbn [port_read port_i port_m];
    unfold data_read_dag1, data_read_dag2, pgm_read_dag2; cbv zeta; rewrite !bind_eq.
  all: destruct (ard RI _ s) as [i s1] eqn:E1; rewrite !bind_eq; try done.
  destruct (RWORD_PGM i s1) as [v s2] eqn:E2. rewrite !bind_eq.
  destruct (rd WATCH_GATE s2) as [g s3]. rewrite !bind_eq.
  destruct (ard WATCH_PM _ s3) as [w s4]. rewrite !bind_eq.
  destruct (when _ _ s4) as [? s5]. rewrite !bind_eq. done.
Qed.
Lemma port_i_range p op : 0 <= port_i p op < 8.
Proof. pose proof (land_range_r (op >>> 2) 3 ltac:(lia)). destruct p; cbn; lia. Qed.
Lemma port_m_range p op : 0 <= port_m p op < 8.
Proof. pose proof (land_range_r op 3 ltac:(lia)). destruct p; cbn; lia. Qed.

Lemma port_body_touches p op : hoare (touches read_f watch_a) (port_body p op) any.
Proof.
  pose proof (port_i_range p op) as Hi. unfold port_body.
  eapply hoare_bind; [apply hoare_ard; cbn; lia|]. intros i Hri. hoare_ranges.
  assert (forall x, hoare (touches read_f watch_a) (RWORD_DATA x) any) as Hd.
  { intros x. eapply touches_weaken; [| |apply watch_RWORD_DATA]; done. }
  destruct p.
  - eapply hoare_bind; [apply hoare_rd|]. intros m _. by destruct (tst _ _).
  - done.
  - eapply (hoare_bind _ _ any).
    { eapply touches_weaken; [| |apply watch_RWORD_PGM]; done. }
    intros v _. hoare_auto.
Qed.

Lemma low14 x : 0 <= x < 0x4000 -> x &&& 0x3fff = x.
Proof. intros H. change 0x3fff with (2 ^ 14 - 1). rewrite land_mask_mod by lia. by apply Z.mod_small. Qed.

Lemma wf_ri s k : Wf s -> 0 <= s.{RI, k} < 0x4000.
Proof. intros Hs. pose proof (wf_range_elem s RI k Hs). cbn in *. lia. Qed.

Lemma eval_port_body p op s : Wf s ->
  eval (port_body p op) s = port_word p (s.{RI, port_i p op}) s.
Proof.
  intros Hs. pose proof (port_i_range p op) as Hi. unfold port_body.
  rewrite eval_bind, eval_ard, exec_ard by (cbn; lia).
  pose proof (wf_ri s (port_i p op) Hs) as Hr. generalize dependent (s.{RI, port_i p op}).
  intros i Hr. destruct p; cbn [port_word]; [|done|].
  - rewrite eval_bind, eval_rd, exec_rd, low14 by done. by destruct (tst _ _).
  - rewrite eval_bind. rewrite !(eval_bind _ (rd _)), !(eval_bind _ (ard _ _)), !(eval_bind _ (when _ _)), !(eval_bind _ (wr _ _)).
    by rewrite eval_ret.
Qed.

(** The index a modification leaves. *)
Definition next_index (l base m i : Z) : Z :=
  if l =? 0 then (i + m) mod 0x4000
  else let i := i + m in (if i <? base then i + l else if i >=? base + l then i - l else i) &&& 0x3fff.

Lemma next_index_range l b m i : 0 <= next_index l b m i < 0x4000.
Proof.
  unfold next_index. destruct (l =? 0); [apply Z.mod_pos_bound; lia|].
  cbv zeta. match goal with |- 0 <= ?x &&& _ < _ => pose proof (land_range_r x 0x3fff ltac:(lia)) end. lia.
Qed.

Lemma exec_modify_address k j s : 0 <= k < 8 -> 0 <= j < 8 ->
  exec (modify_address k j) s =
  aset RI k (next_index (s.{RL, k}) (s.{RBASE, k}) (s.{RM, j}) (s.{RI, k})) s.
Proof.
  intros Hk Hj. unfold modify_address, modified_address, next_index. run. cbv zeta.
  assert (forall x, conv (aty RI) (x &&& 0x3fff) = x &&& 0x3fff) as Hc.
  { intros x. apply conv_id. pose proof (land_range_r x 0x3fff ltac:(lia)). cbn. lia. }
  destruct (s.{RL, k} =? 0) eqn:E; cbn [negb]; run.
  - change 0x3fff with (2 ^ 14 - 1) in *. rewrite Hc. rewrite land_mask_mod by lia. done.
  - by rewrite Hc.
Qed.

(** The effect of one read on the members a walk depends on. *)
Record same_words (s t : state) : Prop := {
  sw_fields f : f <> PX -> t.[f] = s.[f];
  sw_arrays a : read_a a = false -> ars t a = ars s a;
}.

Lemma port_read_step p op s : Wf s ->
  let k := port_i p op in let j := port_m p op in
  eval (port_read p op) s = port_word p (s.{RI, k}) s /\
  let t := exec (port_read p op) s in
  Wf t /\ same_words s t /\
  t.{RI, k} = next_index (s.{RL, k}) (s.{RBASE, k}) (s.{RM, j}) (s.{RI, k}).
Proof.
  intros Hs k j. pose proof (port_i_range p op) as Hk. pose proof (port_m_range p op) as Hj.
  assert (Hall := port_read_body p op s). unfold eval, exec. rewrite Hall.
  change (fst (?m s)) with (eval m s). change (snd (?m s)) with (exec m s).
  rewrite !eval_bind, !exec_bind, !eval_ret, !exec_ret, eval_port_body by done.
  split; [done|]. cbv zeta. set (u := exec (port_body p op) s).
  destruct (port_body_touches p op s Hs) as [(Hw & Hf & Ha) _]. fold u in Hw, Hf, Ha.
  assert (forall a x, watch_a a = false -> u.{a, x} = s.{a, x}) as Hx
    by (intros a x E; unfold aget; by rewrite Ha).
  rewrite exec_modify_address by done. rewrite !Hx by done. fold k j.
  split; [|split; [split|]].
  - apply wf_aset; [auto|]. pose proof (next_index_range (s.{RL, k}) (s.{RBASE, k}) (s.{RM, j}) (s.{RI, k})).
    unfold in_arange. cbn. lia.
  - intros f Hne. rewrite get_aset. apply Hf. by destruct f.
  - intros a Hra. unfold aset. rewrite ars_aput_ne by (by intros ->). apply Ha. by destruct a.
  - by rewrite aget_aset_eq.
Qed.

(** A port sees the same words in states that differ only in what reads change. *)
Lemma port_word_same p i s t : Wf s -> Wf t -> same_words s t -> port_word p i t = port_word p i s.
Proof.
  intros Hs Ht [Hf Ha].
  assert (forall a x, read_a a = false -> t.{a, x} = s.{a, x}) as Hx
    by (intros a x E; unfold aget; by rewrite Ha).
  assert (forall x, eval (RWORD_DATA x) t = eval (RWORD_DATA x) s) as Hd.
  { intros x. rewrite !eval_RWORD_DATA. unfold dm_cell, mem_read. rewrite Hf by done.
    destruct (_ && _); cbn [fst snd]; by apply Hx. }
  destruct p; cbn [port_word]; [by rewrite Hf, Hd|by rewrite Hd|].
  f_equal. rewrite !eval_RWORD_PGM by done. cbv zeta. rewrite !Hx by done.
  destruct (nz _); [done|]. unfold pm_cell, mem_read. rewrite Hf by done.
  destruct (_ && _); cbn [fst snd]; by apply Hx.
Qed.

Lemma same_words_trans s t u : same_words s t -> same_words t u -> same_words s u.
Proof.
  intros [Hf Ha] [Hf' Ha']. split.
  - intros f Hne. by rewrite Hf', Hf.
  - intros a Hra. by rewrite Ha', Ha.
Qed.

(** ** Walks *)

(** A walk the hardware supports: in range, starting inside the buffer, and
    advancing by at most its length. *)
Definition walkable (l m a : Z) : Prop :=
  0 <= l < 0x4000 /\ -0x2000 <= m < 0x2000 /\ 0 <= a < 0x4000 /\
  (l <> 0 -> a - buffer_base l a < l /\ - l <= m <= l).

Lemma sign_extend_14_id m : -0x2000 <= m < 0x2000 -> sign_extend_14 m = m.
Proof.
  intros Hm. unfold sign_extend_14. cbv zeta. change 0x2000 with (2 ^ 13). rewrite tst_pow2 by lia.
  change 0x3fff with (2 ^ 14 - 1). rewrite land_mask_mod by lia.
  destruct (Z.testbit (m mod 2 ^ 14) 13) eqn:E.
  - apply Z.testbit_true in E; [|lia]. Z.to_euclidean_division_equations; lia.
  - apply Z.testbit_false in E; [|lia]. Z.to_euclidean_division_equations; lia.
Qed.

Lemma masked_base l a : 1 <= l < 0x4000 -> 0 <= a < 0x4000 -> a &&& mask_table l = buffer_base l a.
Proof.
  intros Hl Ha. rewrite mask_table_spec by done. unfold buffer_base.
  assert (0 <= Z.log2_up l <= 14) as Hw.
  { split; [apply Z.log2_up_nonneg|]. change 14 with (Z.log2_up 0x4000). apply Z.log2_up_le_mono. lia. }
  generalize dependent (Z.log2_up l). intros w Hw.
  replace (0x4000 - 2 ^ w) with (Z.ones (14 - w) <<< w).
  2:{ rewrite Z.shiftl_mul_pow2, Z.ones_equiv by lia.
      rewrite <- Z.sub_1_r, Z.mul_sub_distr_r, <- Z.pow_add_r by lia.
      replace (14 - w + w) with 14 by lia. change (2 ^ 14) with 0x4000. lia. }
  rewrite Z.mul_comm, <- Z.shiftr_div_pow2, <- Z.shiftl_mul_pow2 by lia.
  apply Z.bits_inj'. intros n Hn. rewrite Z.land_spec, !Z.shiftl_spec by done.
  destruct (Z.ltb_spec n w).
  { rewrite !(Z.testbit_neg_r _ (n - w)) by lia. apply andb_false_r. }
  rewrite Z.shiftr_spec, Z.testbit_ones_nonneg by lia.
  replace (n - w + w) with n by lia.
  destruct (Z.ltb_spec (n - w) (14 - w)); [apply andb_true_r|].
  rewrite (bits_high_0 a 14) by lia. done.
Qed.

Lemma buffer_fits l a : 1 <= l < 0x4000 -> 0 <= a < 0x4000 ->
  0 <= buffer_base l a <= a /\ buffer_base l a + l <= 0x4000.
Proof.
  intros Hl Ha. unfold buffer_base.
  assert (0 <= Z.log2_up l <= 14) as Hw.
  { split; [apply Z.log2_up_nonneg|]. change 14 with (Z.log2_up 0x4000). apply Z.log2_up_le_mono. lia. }
  assert (l <= 2 ^ Z.log2_up l) as Hle.
  { destruct (decide (l = 1)) as [->|]; [done|]. by apply Z.log2_up_spec; lia. }
  generalize dependent (Z.log2_up l). intros w Hw Hle.
  assert (0x4000 = 2 ^ w * 2 ^ (14 - w)) as Hp.
  { rewrite <- Z.pow_add_r by lia. by replace (w + (14 - w)) with 14 by lia. }
  assert (0 < 2 ^ w) by (apply Z.pow_pos_nonneg; lia).
  pose proof (Z.mul_div_le a (2 ^ w) ltac:(lia)).
  pose proof (Z.div_pos a (2 ^ w) ltac:(lia) ltac:(lia)).
  assert (a / 2 ^ w < 2 ^ (14 - w)) by (apply Z.div_lt_upper_bound; lia).
  nia.
Qed.

Lemma walk_range l m a t : walkable l m a -> 0 <= walk l m a t < 0x4000.
Proof.
  intros (Hl & _ & Ha & Hb). unfold walk. destruct (Z.eqb_spec l 0) as [->|Hne].
  { apply Z.mod_pos_bound. lia. }
  pose proof (buffer_fits l a ltac:(lia) Ha).
  pose proof (Z.mod_pos_bound (a - buffer_base l a + t * m) l ltac:(lia)). lia.
Qed.

(** One correction by the length is a reduction modulo the length. *)
Lemma wrap_once b l m r : 0 <= r < l -> - l <= m <= l ->
  (if b + r + m <? b then b + r + m + l
   else if b + r + m >=? b + l then b + r + m - l else b + r + m) = b + (r + m) mod l.
Proof.
  intros Hr Hm.
  assert (forall q, 0 <= r + m + l * q < l -> (r + m) mod l = r + m + l * q) as H.
  { intros q Hq. symmetry. apply (Z.mod_unique _ _ (- q)); lia. }
  destruct (Z.ltb_spec (b + r + m) b); [rewrite (H 1); lia|].
  destruct (Z.geb_spec (b + r + m) (b + l)); [rewrite (H (-1)); lia|rewrite (H 0); lia].
Qed.

Lemma walk_next l m a t b : walkable l m a -> (l <> 0 -> b = buffer_base l a) ->
  next_index l b m (walk l m a t) = walk l m a (t + 1).
Proof.
  intros Hk Hb. pose proof Hk as (Hl & _ & Ha & Hbuf). unfold next_index.
  destruct (Z.eqb_spec l 0) as [->|Hne].
  { unfold walk. rewrite Z.eqb_refl, Zplus_mod_idemp_l. f_equal. lia. }
  rewrite Hb by done. cbv zeta. destruct (Hbuf Hne) as [Hin Hm].
  pose proof (walk_range l m a (t + 1) Hk) as Hr.
  rewrite <- (low14 (walk l m a (t + 1))) by done. f_equal.
  unfold walk. rewrite (proj2 (Z.eqb_neq l 0) Hne).
  rewrite wrap_once by (try apply Z.mod_pos_bound; lia).
  rewrite Zplus_mod_idemp_l. do 2 f_equal. lia.
Qed.

Lemma setup_walk_spec p op l m a s : Wf s -> walkable l m a ->
  let t := exec (setup_walk p op l m a) s in
  Wf t /\ t.{RI, port_i p op} = a /\ t.{RL, port_i p op} = l /\ t.{RM, port_m p op} = m /\
  (l <> 0 -> t.{RBASE, port_i p op} = buffer_base l a).
Proof.
  intros Hs (Hl & Hm & Ha & _). pose proof (port_i_range p op) as Hi. pose proof (port_m_range p op) as Hj.
  unfold setup_walk, wr_m, wr_l, wr_i, update_i, update_l. generalize dependent (port_i p op).
  intros k Hk. generalize dependent (port_m p op). intros j Hj.
  rewrite sign_extend_14_id, !low14 by done. cbv zeta. run. gets.
  assert (conv (aty RM) m = m) as -> by (apply conv_id; cbn; lia).
  assert (forall v, 0 <= v <= 0x3fff -> conv U32 v = v) as Hc by (intros v Hv; apply conv_id; cbn; lia).
  change (aty RI) with U32 in *. change (aty RL) with U32 in *. change (aty RLMASK) with U32 in *.
  change (aty RBASE) with U32 in *.
  pose proof (mask_table_range l) as Hmask. rewrite !(Hc l), !(Hc a), !(low14 l), !(Hc (mask_table l)) by lia.
  pose proof (land_range_r a (mask_table l) ltac:(lia)).
  rewrite (Hc (a &&& mask_table l)) by lia.
  pose proof (wf_ri s k Hs) as Hri. pose proof (land_range_l (s.{RI, k}) (mask_table l) ltac:(lia)).
  split; [|repeat split; gets; try done].
  - rewrite (Hc (s.{RI, k} &&& mask_table l)) by lia.
    repeat (apply wf_aset; [|unfold in_arange; cbn; lia]). done.
  - intros Hne. apply masked_base; lia.
Qed.

(** C14: circular buffers. After the length, modify and index registers of a
    generator are loaded with a walk the hardware supports (start inside the
    buffer, step at most the length; the length 0 means no buffer), [n] reads
    through any of the three ports return the words at the addresses that
    advance by the step modulo the length from the buffer's aligned base (or
    modulo [2^14] without a buffer; bit-reversed where generator 1 is in that
    mode), in order, whatever watches are armed, and leave the index register
    at the next address. *)
Theorem circular_walk p op l m a n s :
  Wf s -> walkable l m a ->
  let t := exec (setup_walk p op l m a) s in
  eval (reads p op n) t = map (fun k => port_word p (walk l m a k) t) (seqZ 0 (Z.of_nat n)) /\
  (exec (reads p op n) t).{RI, port_i p op} = walk l m a (Z.of_nat n).
Proof.
  intros Hs Hk t. destruct (setup_walk_spec p op l m a s Hs Hk) as (Ht & Ei & El & Em & Eb).
  fold t in Ht, Ei, El, Em, Eb.
  assert (walk l m a 0 = a) as E0.
  { unfold walk. destruct Hk as (Hl & _ & Ha & Hb). destruct (Z.eqb_spec l 0).
    - rewrite Z.mod_small; lia.
    - pose proof (buffer_fits l a ltac:(lia) Ha). destruct (Hb ltac:(done)).
      rewrite Z.mod_small; lia. }
  enough (forall u j, 0 <= j -> Wf u -> same_words t u -> u.{RI, port_i p op} = walk l m a j ->
    eval (reads p op n) u = map (fun k => port_word p (walk l m a k) t) (seqZ j (Z.of_nat n)) /\
    (exec (reads p op n) u).{RI, port_i p op} = walk l m a (j + Z.of_nat n)) as H
    by (apply (H t 0); [lia|done|by split|congruence]).
  clear E0 Ei. induction n as [|n IH]; intros u j Hj Hu Hsw Eu.
  { cbn [reads]. rewrite eval_ret, exec_ret, Z.add_0_r. done. }
  cbn [reads]. rewrite !eval_bind, !exec_bind, eval_ret, exec_ret.
  destruct (port_read_step p op u Hu) as (Ev & Hw' & Hsw' & Ei').
  set (u' := exec (port_read p op) u) in *.
  assert (forall b x, read_a b = false -> u.{b, x} = t.{b, x}) as Hx
    by (intros b x E; unfold aget; by rewrite (sw_arrays _ _ Hsw)).
  rewrite !Hx, El, Em, Eu, walk_next in Ei' by done.
  destruct (IH u' (j + 1)) as [IH1 IH2]; [lia|done| |done|].
  { by apply (same_words_trans t u). }
  rewrite IH1, IH2. rewrite (seqZ_cons j) by lia.
  replace (Z.pred (Z.of_nat (S n))) with (Z.of_nat n) by lia.
  replace (Z.succ j) with (j + 1) by lia. cbn [map].
  rewrite Ev, Eu, (port_word_same p (walk l m a j) t u) by done.
  split; [done|]. f_equal. lia.
Qed.

(** A buffer of ten words at 0x110, read through I5 with M6 = -3. *)
Definition ring : state := exec (for_upto 10 0 (fun k => WWORD_DATA (0x110 + k) (0x500 + k))) demo.
Lemma ring_wf : Wf ring.
Proof.
  unfold ring. generalize demo, demo_wf, 10%nat, 0. intros s Hs n. revert s Hs.
  induction n as [|n IH]; intros s Hs z; cbn [for_upto]; [done|].
  rewrite exec_bind. by apply IH, wf_WWORD_DATA.
Qed.
Lemma circular_walk_witness :
  walkable 10 (-3) 0x112 /\
  eval (reads Dag2 6 6) (exec (setup_walk Dag2 6 10 (-3) 0x112) ring) =
    [0x502; 0x509; 0x506; 0x503; 0x500; 0x507] /\
  eval (reads Dag2 6 6) (exec (setup_walk Dag2 6 10 (-3) 0x112) ring) =
    map (fun k => port_word Dag2 (walk 10 (-3) 0x112 k) (exec (setup_walk Dag2 6 10 (-3) 0x112) ring))
      (seqZ 0 6).
Proof.
  assert (walkable 10 (-3) 0x112) as Hk.
  { repeat split; try lia; intros _; vm_compute; congruence. }
  split; [done|]. split; [vm_compute; reflexivity|].
  exact (proj1 (circular_walk Dag2 6 10 (-3) 0x112 6 ring ring_wf Hk)).
Defined.
