(* ===== verification/ApiSpec.v ===== *)
(** * Specification of the public interface

    The IDMA port: a program image downloaded word by word is what the core
    then fetches and what the port reads back, and a core in boot hold executes
    nothing until the download writes program memory location 0. *)
From S2P Require Import Prelude State Tables Memory Stacks Regs Alu Mac Shift Exec Api Effects EffectsOps EffectsExec Invariants Safety MemorySpec RegsSpec.

(** ** Definitions *)

(** A 24-bit word through the port: the upper 16 bits, then the lower 8. *)
Definition idma_word (w : Z) : M unit :=
  adsp2181_idma_data_write (w >>> 8) ;; adsp2181_idma_data_write (w &&& 0xff).
Definition idma_image (start : Z) (ws : list Z) : M unit :=
  adsp2181_idma_addr_write start ;; for_each ws idma_word.

(** Reading [n] words back. *)
Fixpoint idma_fetch (n : nat) : M (list Z) :=
  match n with
  | O => mret []
  | S n =>
      hi ← adsp2181_idma_data_read;
      lo ← adsp2181_idma_data_read;
      ws ← idma_fetch n;
      mret (((hi <<< 8) ||| lo) :: ws)
  end.

(** No program word is pinned or has a forced fetch. *)
Definition pm_open (s : state) : Prop :=
  forall x, s.{PIN_PM, x} = 0 /\ s.{FORCE_PM_FETCH, x} = 0.

(** ** One word *)

(** The port at a word boundary, addressing program memory. *)
Record at_word (x : Z) (s : state) : Prop := {
  aw_wf : Wf s;
  aw_open : pm_open s;
  aw_addr : s.[IDMA_ADDR] = x;
  aw_offs : s.[IDMA_OFFS] = 0;
}.

Lemma open_view s t : (forall a, pm_prefix_a a = false -> a <> PROGRAM -> a <> PROGRAM_OVERLAY ->
  ars t a = ars s a) -> pm_open s -> pm_open t.
Proof. intros Ha H x. unfold aget. rewrite !Ha by done. apply H. Qed.

Lemma eval_RWORD_PGM_open x s : Wf s -> pm_open s -> 0 <= x < 0x4000 ->
  eval (RWORD_PGM x) s = mem_read (pm_cell s x) s.
Proof.
  intros Hs Ho Hx. rewrite eval_RWORD_PGM by done. cbv zeta. rewrite low14 by done.
  by rewrite (proj2 (Ho x)).
Qed.

(** A store to an open program memory. *)
Lemma WWORD_PGM_open x v s : Wf s -> pm_open s -> 0 <= x < 0x4000 ->
  let t := exec (WWORD_PGM x v) s in
  Wf t /\ pm_open t /\ (forall f, t.[f] = s.[f]) /\
  forall y, 0 <= y < 0x4000 ->
    eval (RWORD_PGM y) t = if decide (y = x) then v &&& 0xffffff else eval (RWORD_PGM y) s.
Proof.
  intros Hs Ho Hx t. assert (Wf t) as Ht by by apply wf_WWORD_PGM.
  assert (forall f, t.[f] = s.[f]) as Hf by (intros f; by apply WWORD_PGM_field).
  assert (pm_open t) as Hot.
  { apply (open_view s); [|done]. intros a Ha H1 H2. unfold t. rewrite WWORD_PGM_eq by done.
    cbv zeta. unfold aset. rewrite low14 by done.
    rewrite ars_aput_ne by (destruct (pm_cell_ok s x Hx) as [[-> | ->] _]; done).
    destruct (pm_prefix_touches x (u32 v) Hx s Hs) as [(_ & _ & H) _]. by apply H. }
  split; [done|]. split; [done|]. split; [done|]. intros y Hy.
  rewrite !eval_RWORD_PGM_open by done.
  assert (pm_cell t y = pm_cell s y) as -> by (unfold pm_cell; by rewrite Hf).
  unfold t. rewrite WWORD_PGM_mem by (done || by apply pm_cell_plain). rewrite low14 by done.
  assert (pm_cell s x = pm_cell s y <-> y = x) as Hc.
  { rewrite pm_cell_same by done. unfold same_word. rewrite (Z.eqb_refl (page _)), orb_true_r, andb_true_r.
    rewrite Z.eqb_eq. split; congruence. }
  unfold pinned_pm. rewrite (proj1 (Ho x)). cbn [nz].
  destruct (decide (y = x)) as [E|E]; [|by rewrite decide_False by (rewrite Hc; done)].
  rewrite decide_True by by apply Hc. change 0xffffff with (2 ^ 24 - 1).
  rewrite !land_mask_mod by lia. rewrite (conv_unsigned U32) by done.
  symmetry. apply Znumtheory.Zmod_div_mod; [done..|]. by exists (2 ^ 8).
Qed.

Lemma split_word w : 0 <= w < 2 ^ 24 -> ((w >>> 8) <<< 8) ||| ((w &&& 0xff) &&& 0xff) = w.
Proof.
  intros Hw. rewrite <- Z.land_assoc. change (0xff &&& 0xff) with (Z.ones 8).
  rewrite <- Z.ldiff_ones_r by lia. apply Z.bits_inj'. intros n Hn.
  rewrite Z.lor_spec, Z.ldiff_spec, Z.land_spec. by destruct (Z.testbit w n), (Z.testbit _ n).
Qed.

Lemma pm_addr_bit x : 0 <= x < 0x4000 -> tst x 0x4000 = false.
Proof. intros Hx. change 0x4000 with (2 ^ 14). rewrite tst_pow2 by lia. by apply (bits_high_0 x 14). Qed.

Lemma u16_id x : 0 <= x <= 0xffff -> u16 x = x.
Proof. intros H. by apply conv_id. Qed.

(** What a transferred word does to the boot hold and the program counter. *)
Definition after_boot (x : Z) (s t : state) : Prop :=
  t.[IDMA_BOOT_MODE] = s.[IDMA_BOOT_MODE] /\
  (s.[IDMA_BOOT_MODE] = 1 ->
   if x =? 0 then t.[IDMA_BOOT_HOLD] = 0 /\ (s.[IDMA_BOOT_HOLD] = 1 -> t.[PC] = 0)
   else t.[IDMA_BOOT_HOLD] = 1).

(** The first half of a word, and the advance after the second. *)
Definition half_word (w : Z) (s : state) : state :=
  set IDMA_PENDING_WRITE 1 (set IDMA_OFFS 1 (set IDMA_CACHE (w >>> 8) s)).
Definition advance_word (x : Z) (s : state) : state :=
  set IDMA_PENDING_WRITE 0 (set IDMA_OFFS 0 (set IDMA_ADDR (x + 1) s)).

Lemma exec_idma_word x w s : at_word x s -> 0 <= x < 0x4000 -> 0 <= w < 2 ^ 24 ->
  exec (idma_word w) s = exec (idma_boot_step x) (advance_word x (exec (WWORD_PGM x w) (half_word w s))).
Proof.
  intros [Hs Ho Ea Eo] Hx Hw. unfold idma_word, adsp2181_idma_data_write, half_word, advance_word.
  cbv zeta. assert (0 <= w >>> 8 <= 0xffff).
  { rewrite Z.shiftr_div_pow2 by lia. Z.to_euclidean_division_equations; lia. }
  pose proof (land_range_r w 0xff ltac:(lia)).
  rewrite !(u16_id (w >>> 8)), !(u16_id (w &&& 0xff)) by lia.
  run. rewrite Ea, Eo, (pm_addr_bit x Hx). cbn [nz Z.eqb negb].
  run. gets. rewrite Ea, (pm_addr_bit x Hx). cbn [nz Z.eqb negb fty]. run. gets. cbn [fty].
  rewrite !low14, !(u16_id (w >>> 8)) by lia. change (u8 1) with 1. change (u8 0) with 0.
  cbn [nz Z.eqb negb]. rewrite split_word by done.
  assert (Wf (half_word w s)) as Hh.
  { unfold half_word. repeat (apply wf_set; [|unfold in_frange; cbn; lia]). done. }
  rewrite WWORD_PGM_field by done. gets. rewrite Ea, u16_id by lia. done.
Qed.

Lemma idma_boot_step_spec x s : Wf s -> 0 <= x < 0x4000 ->
  let t := exec (idma_boot_step x) s in
  after_boot x s t /\ Wf t /\ ars t = ars s /\
  forall f, f <> IDMA_BOOT_HOLD -> f <> PC -> f <> PPC -> t.[f] = s.[f].
Proof.
  intros Hs Hx. unfold idma_boot_step, after_boot. run. pose proof (wf_field _ Hs IDMA_BOOT_HOLD) as Hh.
  unfold in_frange in Hh. cbn in Hh.
  destruct (nz (s.[IDMA_BOOT_MODE])) eqn:Em; [|run; split; [|done]].
  2:{ apply nz_false in Em. split; [done|]. lia. }
  destruct (x =? 0); run; [destruct (nz (s.[IDMA_BOOT_HOLD])) eqn:Eh; run|].
  - gets. split; [done|]. split; [|split; [done|intros f H1 H2 H3; by gets]].
    repeat (apply wf_set; [|by vm_compute]). done.
  - apply nz_false in Eh. repeat split; try done; try apply Hs. lia.
  - gets. split; [done|]. split; [|split; [done|intros f H1 H2 H3; by gets]].
    apply wf_set; [done|by vm_compute].
Qed.

Lemma pgm_view_same s t y : Wf s -> Wf t -> ars t = ars s -> t.[PMOVLAY] = s.[PMOVLAY] ->
  eval (RWORD_PGM y) t = eval (RWORD_PGM y) s.
Proof.
  intros Hs Ht Ha Hf. rewrite !eval_RWORD_PGM by done. unfold pm_cell, mem_read, aget. by rewrite Ha, Hf.
Qed.

Lemma idma_word_spec x w s : at_word x s -> 0 <= x < 0x4000 -> 0 <= w < 2 ^ 24 ->
  let t := exec (idma_word w) s in
  at_word (x + 1) t /\ after_boot x s t /\
  forall y, 0 <= y < 0x4000 ->
    eval (RWORD_PGM y) t = if decide (y = x) then w else eval (RWORD_PGM y) s.
Proof.
  intros Hat Hx Hw t. assert (Ht := exec_idma_word x w s Hat Hx Hw). fold t in Ht.
  destruct Hat as [Hs Ho Ea Eo].
  assert (0 <= w >>> 8 <= 0xffff).
  { rewrite Z.shiftr_div_pow2 by lia. Z.to_euclidean_division_equations; lia. }
  assert (Wf (half_word w s)) as Hh.
  { unfold half_word. repeat (apply wf_set; [|unfold in_frange; cbn; lia]). done. }
  assert (pm_open (half_word w s)) as Hho by (intros y; apply (Ho y)).
  destruct (WWORD_PGM_open x w _ Hh Hho Hx) as (Hw1 & Ho1 & Hf1 & Hv1).
  set (u := exec (WWORD_PGM x w) (half_word w s)) in *.
  assert (Wf (advance_word x u)) as Hv.
  { unfold advance_word. repeat (apply wf_set; [|unfold in_frange; cbn; lia]). done. }
  destruct (idma_boot_step_spec x _ Hv Hx) as (Hb & Hwt & Hat & Hft). rewrite <- Ht in *.
  unfold advance_word, half_word in *.
  split; [split|split].
  - done.
  - intros y. specialize (Ho1 y). unfold aget in *. by rewrite Hat.
  - rewrite Hft by done. by gets.
  - rewrite Hft by done. by gets.
  - unfold after_boot in *. rewrite !get_set_ne in Hb by done. rewrite !Hf1 in Hb. gets in Hb. done.
  - intros y Hy. rewrite (pgm_view_same u t y) by (try done; rewrite Hft by done; by gets).
    rewrite Hv1 by done. destruct (decide _).
    + change 0xffffff with (2 ^ 24 - 1). rewrite land_mask_mod by lia. by apply Z.mod_small.
    + by apply pgm_view_same.
Qed.

(** ** Images *)
Lemma idma_send_spec ws x s : at_word x s -> 0 <= x -> x + Z.of_nat (length ws) <= 0x4000 ->
  Forall (fun w => 0 <= w < 2 ^ 24) ws ->
  let t := exec (for_each ws idma_word) s in
  at_word (x + Z.of_nat (length ws)) t /\
  t.[IDMA_BOOT_MODE] = s.[IDMA_BOOT_MODE] /\
  (s.[IDMA_BOOT_MODE] = 1 -> 0 < x ->
    s.[IDMA_BOOT_HOLD] = 1 -> t.[IDMA_BOOT_HOLD] = 1) /\
  forall y, 0 <= y < 0x4000 ->
    eval (RWORD_PGM y) t =
      if decide (x <= y < x + Z.of_nat (length ws)) then nth (Z.to_nat (y - x)) ws 0
      else eval (RWORD_PGM y) s.
Proof.
  intros Hat Hx Hl Hws. revert x s Hat Hx Hl.
  induction Hws as [|w ws Hw Hws IH]; intros x s Hat Hx Hl; cbn [for_each length] in *.
  { run. rewrite Z.add_0_r. split; [done|]. split; [done|]. split; [done|]. intros y Hy. by rewrite decide_False by lia. }
  rewrite exec_bind.
  destruct (idma_word_spec x w s Hat ltac:(lia) Hw) as (Hat1 & [Hm Hb] & Hv).
  set (u := exec (idma_word w) s) in *.
  destruct (IH (x + 1) u Hat1 ltac:(lia) ltac:(lia)) as (Hat2 & Hm2 & Hh2 & Hv2).
  split; [by replace (x + Z.of_nat (S (length ws))) with (x + 1 + Z.of_nat (length ws)) by lia|].
  split; [congruence|]. split.
  - intros H1 H2 H3. apply Hh2; [congruence|lia|]. specialize (Hb H1).
    by rewrite (proj2 (Z.eqb_neq x 0)) in Hb by lia.
  - intros y Hy. rewrite Hv2, Hv by done.
    destruct (decide (y = x)) as [->|Hne].
    + rewrite decide_False, decide_True by lia. by replace (x - x) with 0 by lia.
    + destruct (decide (x + 1 <= y < _)).
      * rewrite decide_True by lia. by replace (Z.to_nat (y - x)) with (S (Z.to_nat (y - (x + 1)))) by lia.
      * by rewrite decide_False by lia.
Qed.

(** Addressing the port leaves it at a word boundary; a dangling half word is
    committed first. *)
Lemma idma_addr_spec x s : Wf s -> pm_open s -> 0 <= x < 0x4000 ->
  let t := exec (adsp2181_idma_addr_write x) s in
  at_word x t /\ (forall f, f <> IDMA_ADDR -> f <> IDMA_OFFS -> f <> IDMA_PENDING_WRITE -> t.[f] = s.[f]) /\
  (s.[IDMA_OFFS] = 0 -> forall y, 0 <= y < 0x4000 -> eval (RWORD_PGM y) t = eval (RWORD_PGM y) s).
Proof.
  intros Hs Ho Hx t.
  assert (exists u, Wf u /\ pm_open u /\ (forall f, u.[f] = s.[f]) /\ (s.[IDMA_OFFS] = 0 -> u = s) /\
    t = set IDMA_PENDING_WRITE 0 (set IDMA_OFFS 0 (set IDMA_ADDR x u))) as (u & Hu & Huo & Huf & Hus & ->).
  { unfold t, adsp2181_idma_addr_write. run. cbn [fty].
    rewrite (u16_id x) by lia. change (u8 0) with 0.
    destruct (_ && _) eqn:E; run.
    - destruct (WWORD_PGM_open (s.[IDMA_ADDR] &&& 0x3fff) (u32 (s.[IDMA_CACHE]) <<< 8) s Hs Ho) as (H1 & H2 & H3 & _).
      { apply mask14_range. }
      eexists. split; [exact H1|]. split; [exact H2|]. split; [exact H3|]. split; [|done].
      intros E0. by rewrite E0, andb_false_r in E.
    - by exists s. }
  assert (Wf (set IDMA_PENDING_WRITE 0 (set IDMA_OFFS 0 (set IDMA_ADDR x u)))) as Hw.
  { repeat (apply wf_set; [|unfold in_frange; cbn; lia]). done. }
  split; [split|split].
  - done.
  - intros y. apply (Huo y).
  - by gets.
  - by gets.
  - intros f H1 H2 H3. gets. apply Huf.
  - intros E y Hy. rewrite <- (Hus E). by apply pgm_view_same.
Qed.

(** A half-held core executes nothing. *)
Lemma run_held n s : s.[IDMA_BOOT_HOLD] = 1 -> adsp2181_run (host := null_host) n s = (0, s).
Proof. intros E. unfold adsp2181_run. rewrite bind_eq. cbn [rd]. rewrite E, orb_true_r. done. Qed.

(** ** Reading back *)
Lemma exec_RWORD_PGM x s : exec (RWORD_PGM x) s = s.
Proof.
  unfold RWORD_PGM, pgm_word. cbv zeta. pose proof (mask14_range x) as Hx.
  generalize dependent (x &&& 0x3fff). intros y Hy. run.
  destruct (nz _); run; [done|].
  destruct (_ && _) eqn:E; [|by run].
  apply andb_true_iff in E as [E1 E2%overlay_on_spec]. by run.
Qed.

Lemma RWORD_PGM_range x s : Wf s -> 0 <= x < 0x4000 -> pm_open s -> 0 <= eval (RWORD_PGM x) s < 2 ^ 24.
Proof.
  intros Hs Hx Ho. rewrite eval_RWORD_PGM_open by done. rewrite <- pgm_word_masked by done.
  pose proof (land_range_r (mem_read (pm_cell s x) s) 0xffffff ltac:(lia)). lia.
Qed.

Lemma idma_fetch_spec n x s : at_word x s -> 0 <= x -> x + Z.of_nat n <= 0x4000 ->
  eval (idma_fetch n) s = map (fun k => eval (RWORD_PGM k) s) (seqZ x (Z.of_nat n)).
Proof.
  revert x s. induction n as [|n IH]; intros x s Hat Hx Hn; [done|].
  pose proof Hat as [Hs Ho Ea Eo].
  assert (adsp2181_idma_data_read s = (u16 (eval (RWORD_PGM x) s >>> 8),
    set IDMA_PENDING_WRITE 0 (set IDMA_OFFS 1 s))) as E1.
  { rewrite exec_eval. unfold adsp2181_idma_data_read. cbv zeta. run.
    rewrite Ea, Eo, (pm_addr_bit x) by lia. cbn [nz Z.eqb negb]. run.
    rewrite exec_RWORD_PGM, !low14 by lia. done. }
  set (s1 := set IDMA_PENDING_WRITE 0 (set IDMA_OFFS 1 s)) in *.
  assert (Wf s1) as Hs1.
  { unfold s1. repeat (apply wf_set; [|unfold in_frange; cbn; lia]). done. }
  assert (adsp2181_idma_data_read s1 = (u16 (eval (RWORD_PGM x) (set IDMA_ADDR (x + 1) s1) &&& 0xff),
    set IDMA_OFFS 0 (set IDMA_ADDR (x + 1) s1))) as E2.
  { rewrite exec_eval. unfold adsp2181_idma_data_read. cbv zeta. run. unfold s1. gets.
    rewrite Ea, (pm_addr_bit x) by lia. change (nz 1) with true. cbn [negb]. run. cbn [fty].
    rewrite exec_RWORD_PGM, !low14, (u16_id (x + 1)) by lia. done. }
  set (s2 := set IDMA_OFFS 0 (set IDMA_ADDR (x + 1) s1)) in *.
  assert (Wf (set IDMA_ADDR (x + 1) s1)) as Hs1a
    by (apply wf_set; [done|unfold in_frange; cbn; lia]).
  assert (Wf s2) as Hs2 by (apply wf_set; [done|unfold in_frange; cbn; lia]).
  assert (forall y t, Wf t -> t = set IDMA_ADDR (x + 1) s1 \/ t = s2 ->
    eval (RWORD_PGM y) t = eval (RWORD_PGM y) s) as Hv.
  { intros y t Ht [-> | ->]; (apply pgm_view_same; [done..|]); unfold s2, s1; by gets. }
  assert (at_word (x + 1) s2) as Hat2.
  { split; [done|by intros y; apply (Ho y)|by unfold s2; gets|by unfold s2; gets]. }
  specialize (IH (x + 1) s2 Hat2 ltac:(lia) ltac:(lia)).
  pose proof (RWORD_PGM_range x s Hs ltac:(lia) Ho) as Hr.
  cbn [idma_fetch]. unfold eval at 1. rewrite bind_eq, E1, bind_eq, E2, bind_eq, exec_eval.
  cbv beta iota. rewrite IH, (seqZ_cons x) by lia.
  replace (Z.pred (Z.of_nat (S n))) with (Z.of_nat n) by lia.
  replace (Z.succ x) with (x + 1) by lia. cbn [map].
  match goal with |- fst (mret ?l _) = _ => change (l = eval (RWORD_PGM x) s :: map (fun k => eval (RWORD_PGM k) s) (seqZ (x + 1) (Z.of_nat n))) end.
  rewrite (Hv x (set IDMA_ADDR (x + 1) s1)) by auto.
  f_equal; [|apply map_ext; intros k; by apply Hv; auto].
  clear -Hr. revert Hr. generalize (eval (RWORD_PGM x) s). intros w Hr.
  assert (0 <= w >>> 8 <= 0xffff).
  { rewrite Z.shiftr_div_pow2 by lia. Z.to_euclidean_division_equations; lia. }
  pose proof (land_range_r w 0xff ltac:(lia)).
  rewrite !u16_id by lia. rewrite <- (split_word w) at 3 by done. by rewrite <- Z.land_assoc.
Qed.

Lemma read_back n s : Wf s -> pm_open s -> s.[IDMA_OFFS] = 0 -> Z.of_nat n <= 0x4000 ->
  eval (adsp2181_idma_addr_write 0 ;; idma_fetch n) s =
  map (fun k => eval (RWORD_PGM k) s) (seqZ 0 (Z.of_nat n)).
Proof.
  intros Hs Ho E Hn. destruct (idma_addr_spec 0 s Hs Ho ltac:(lia)) as (Hat & _ & Hv).
  rewrite eval_bind, (idma_fetch_spec n 0) by (try done; lia).
  apply map_ext_in. intros k Hk. apply Hv; [done|]. apply list_elem_of_In, elem_of_seqZ in Hk. lia.
Qed.

Lemma map_seqZ_nth (f : Z -> Z) l :
  (forall k, 0 <= k < Z.of_nat (length l) -> f k = nth (Z.to_nat k) l 0) ->
  map f (seqZ 0 (Z.of_nat (length l))) = l.
Proof.
  intros H. apply list_eq. intros i. change (map f ?m) with (f <$> m). rewrite list_lookup_fmap.
  destruct (decide (i < length l)%nat).
  - rewrite (proj2 (lookup_seqZ 0 _ i (Z.of_nat i))) by lia. cbn [fmap option_fmap option_map].
    rewrite H, Nat2Z.id by lia. destruct (lookup_lt_is_Some_2 l i) as [x Ex]; [done|].
    rewrite Ex. f_equal. by apply nth_lookup_Some.
  - rewrite lookup_seqZ_ge by lia. by rewrite lookup_ge_None_2 by lia.
Qed.

(** The core after a download from address 1: still held. *)
Lemma idma_held ws s : Wf s -> pm_open s -> Forall (fun w => 0 <= w < 2 ^ 24) ws ->
  1 + Z.of_nat (length ws) <= 0x4000 ->
  let held := exec (adsp2181_set_idma_boot_hold 1 ;; idma_image 1 ws) s in
  Wf held /\ pm_open held /\ held.[IDMA_OFFS] = 0 /\
  held.[IDMA_BOOT_MODE] = 1 /\ held.[IDMA_BOOT_HOLD] = 1 /\
  (forall y, 1 <= y < 1 + Z.of_nat (length ws) ->
    eval (RWORD_PGM y) held = nth (Z.to_nat (y - 1)) ws 0) /\
  (s.[IDMA_OFFS] = 0 -> forall y, 1 + Z.of_nat (length ws) <= y < 0x4000 ->
    eval (RWORD_PGM y) held = eval (RWORD_PGM y) s).
Proof.
  intros Hs Ho Hws Hlen held.
  set (s0 := exec (adsp2181_set_idma_boot_hold 1) s).
  assert (s0 = set IDMA_BOOT_MODE 1 (set IDMA_BOOT_HOLD 1 s)) as E0 by done.
  assert (Wf s0) as Hs0
    by (rewrite E0; repeat (apply wf_set; [|unfold in_frange; cbn; lia]); done).
  assert (pm_open s0) as Ho0 by (rewrite E0; intros y; apply (Ho y)).
  destruct (idma_addr_spec 1 s0 Hs0 Ho0 ltac:(lia)) as (Hat1 & Hf1 & Hv1).
  destruct (idma_send_spec ws 1 _ Hat1 ltac:(lia) ltac:(lia) Hws) as (Hat & Hm & Hh & Hv).
  assert (exec (for_each ws idma_word) (exec (adsp2181_idma_addr_write 1) s0) = held) as Eh
    by (unfold held, idma_image; by rewrite !exec_bind).
  rewrite Eh in *. rewrite (Hf1 IDMA_BOOT_MODE) in Hm, Hh by done.
  rewrite (Hf1 IDMA_BOOT_HOLD) in Hh by done. rewrite E0 in Hm, Hh. gets in Hm. gets in Hh.
  specialize (Hh eq_refl ltac:(lia) eq_refl). destruct Hat as [Hwh Hoh _ Eoh].
  repeat (split; [done|]). split.
  - intros y Hy. by rewrite Hv, decide_True by lia.
  - intros E y Hy. rewrite Hv, decide_False, Hv1 by (try lia; rewrite E0; by gets).
    rewrite E0. apply pgm_view_same; [done|by rewrite <- E0|done..].
Qed.

(** C15: download through the IDMA port. A core put in boot hold and given the
    program words [ws] from address 1 executes nothing however often it is
    run; writing [w0] to address 0 releases it with its program counter at 0.
    Program memory then fetches as the image, reading back through the port
    returns the image, and words outside it are what they were. A half word
    the host left before is not mixed in. *)
Theorem idma_boot w0 ws s :
  Wf s -> pm_open s -> Forall (fun w => 0 <= w < 2 ^ 24) (w0 :: ws) ->
  Z.of_nat (length (w0 :: ws)) <= 0x4000 ->
  let n := length (w0 :: ws) in
  let held := exec (adsp2181_set_idma_boot_hold 1 ;; idma_image 1 ws) s in
  let booted := exec (idma_image 0 [w0]) held in
  (forall cycles, adsp2181_run (host := null_host) cycles held = (0, held)) /\
  booted.[IDMA_BOOT_HOLD] = 0 /\ booted.[PC] = 0 /\
  (forall k, 0 <= k < Z.of_nat n -> eval (RWORD_PGM k) booted = nth (Z.to_nat k) (w0 :: ws) 0) /\
  eval (adsp2181_idma_addr_write 0 ;; idma_fetch n) booted = w0 :: ws /\
  (s.[IDMA_OFFS] = 0 -> forall k, Z.of_nat n <= k < 0x4000 ->
    eval (RWORD_PGM k) booted = eval (RWORD_PGM k) s).
Proof.
  intros Hs Ho Hws Hlen n held booted. apply Forall_cons_1 in Hws as [Hw0 Hws].
  cbn [length] in Hlen.
  destruct (idma_held ws s Hs Ho Hws ltac:(lia)) as (Hwh & Hoh & Eoh & Hmh & Hhh & Hvh & Hrest).
  fold held in Hwh, Hoh, Eoh, Hmh, Hhh, Hvh, Hrest.
  destruct (idma_addr_spec 0 held Hwh Hoh ltac:(lia)) as (Hat2 & Hf2 & Hv2).
  assert (booted = exec (idma_word w0) (exec (adsp2181_idma_addr_write 0) held)) as Eb.
  { unfold booted, idma_image. rewrite exec_bind. cbn [for_each]. by rewrite exec_bind. }
  destruct (idma_word_spec 0 w0 _ Hat2 ltac:(lia) Hw0) as ([Hwb Hob _ Eob] & [_ Hb] & Hvb).
  rewrite <- Eb in *. rewrite (Hf2 IDMA_BOOT_MODE), (Hf2 IDMA_BOOT_HOLD) in Hb by done.
  destruct (Hb Hmh) as [Hb1 Hb2].
  assert (forall k, 0 <= k < Z.of_nat n -> eval (RWORD_PGM k) booted = nth (Z.to_nat k) (w0 :: ws) 0)
    as Himage.
  { unfold n. cbn [length]. intros k Hk. rewrite Hvb by lia.
    destruct (decide (k = 0)) as [->|]; [done|]. rewrite Hv2, Hvh by (try done; lia).
    by replace (Z.to_nat k) with (S (Z.to_nat (k - 1))) by lia. }
  split; [intros c; by apply run_held|]. split; [done|]. split; [by apply Hb2|]. split; [done|].
  split.
  - rewrite read_back by (try done; unfold n; cbn [length]; lia). by apply map_seqZ_nth.
  - intros E k Hk. unfold n in Hk. cbn [length] in Hk.
    rewrite Hvb, decide_False, Hv2 by (try done; lia). apply Hrest; [done|lia].
Qed.

Lemma create_open : pm_open (@adsp2181_create null_host).
Proof. intros x. split; reflexivity. Qed.
Lemma idma_boot_witness :
  let held := exec (adsp2181_set_idma_boot_hold 1 ;; idma_image 1 [0x123456; 0x00ffee]) (@adsp2181_create null_host) in
  let booted := exec (idma_image 0 [0x18000f]) held in
  held.[IDMA_BOOT_HOLD] = 1 /\
  (forall cycles, adsp2181_run (host := null_host) cycles held = (0, held)) /\
  booted.[IDMA_BOOT_HOLD] = 0 /\ booted.[PC] = 0 /\
  eval (adsp2181_idma_addr_write 0 ;; idma_fetch 3) booted = [0x18000f; 0x123456; 0x00ffee].
Proof.
  assert (Forall (fun w => 0 <= w < 2 ^ 24) [0x18000f; 0x123456; 0x00ffee]) as Hw
    by (repeat constructor; lia).
  destruct (idma_boot 0x18000f [0x123456; 0x00ffee] _ (create_wf (host := null_host)) create_open Hw)
    as (H1 & H2 & H3 & _ & H5 & _); [cbn; lia|].
  split; [vm_compute; reflexivity|]. split; [exact H1|]. split; [exact H2|]. split; [exact H3|exact H5].
Defined.
