(* ===== verification/StacksSpec.v ===== *)
(** * Specification of the stacks, the register banks and the interrupts

    The PC stack refines a bounded list; MSTAT writes permute the two register
    banks without losing a register; [check_irqs] takes the first pending
    enabled interrupt of the priority list; a return from interrupt undoes the
    entry. *)
From S2P Require Import Prelude State Tables Memory Stacks Regs Alu Mac Shift Exec Api Effects EffectsOps EffectsExec Invariants Safety.

(** ** Definitions *)

(** *** The PC stack as a list, top first, and its operations *)
Inductive stack_op := Push (v : Z) | Pop.

Definition pc_stack_of (s : state) : list Z :=
  (fun k => s.{PC_STACK, Z.of_nat k}) <$> reverse (seq 0 (Z.to_nat (s.[PC_SP]))).

(** The abstract stack: its contents, and whether a push was ever refused. *)
Definition spec_op (st : list Z * bool) (op : stack_op) : list Z * bool :=
  match op, st with
  | Push v, (l, o) => if (length l <? 16)%nat then (u32 v :: l, o) else (l, true)
  | Pop, (l, o) => (tail l, o)
  end.
Definition spec_out (st : list Z * bool) (op : stack_op) : list Z :=
  match op with Push _ => [] | Pop => [default 0 (head (fst st))] end.
Fixpoint spec_run (st : list Z * bool) (ops : list stack_op) : list Z * (list Z * bool) :=
  match ops with
  | [] => ([], st)
  | op :: ops => let '(out, st') := spec_run (spec_op st op) ops in (spec_out st op ++ out, st')
  end.

Definition mach_op (op : stack_op) : M (list Z) :=
  match op with
  | Push v => pc_stack_push_val v ;; mret []
  | Pop => v ← pc_stack_pop_val; mret [v]
  end.
Fixpoint mach_run (ops : list stack_op) : M (list Z) :=
  match ops with
  | [] => mret []
  | op :: ops => out ← mach_op op; outs ← mach_run ops; mret (out ++ outs)
  end.

(** The refinement relation. *)
Record stack_rel (s : state) (st : list Z * bool) : Prop := {
  sr_wf : Wf s;
  sr_list : pc_stack_of s = st.1;
  sr_over : tst (s.[SSTAT]) PC_OVER = st.2;
  sr_empty : tst (s.[SSTAT]) PC_EMPTY = (s.[PC_SP] =? 0);
}.

(** ** The PC stack *)
Lemma pc_stack_of_frame s t :
  t.[PC_SP] = s.[PC_SP] -> ars t PC_STACK = ars s PC_STACK -> pc_stack_of t = pc_stack_of s.
Proof. intros H1 H2. unfold pc_stack_of, aget. by rewrite H1, H2. Qed.

Lemma pc_stack_length s : Wf s -> Z.of_nat (length (pc_stack_of s)) = s.[PC_SP].
Proof.
  intros Hs. pose proof (wf_field s Hs PC_SP) as Hp. unfold in_frange in Hp. cbn in Hp.
  unfold pc_stack_of. rewrite length_fmap, length_reverse, length_seq. lia.
Qed.

Lemma pc_stack_of_push s t v : 0 <= s.[PC_SP] ->
  t.[PC_SP] = s.[PC_SP] + 1 -> t.{PC_STACK, s.[PC_SP] } = v ->
  (forall k, k <> s.[PC_SP] -> t.{PC_STACK, k} = s.{PC_STACK, k}) ->
  pc_stack_of t = v :: pc_stack_of s.
Proof.
  intros H0 H1 H2 H3. unfold pc_stack_of. rewrite H1.
  replace (Z.to_nat (s.[PC_SP] + 1)) with (S (Z.to_nat (s.[PC_SP]))) by lia.
  rewrite seq_S, reverse_app. cbn. f_equal.
  - by rewrite Z2Nat.id by done.
  - apply list_fmap_ext. intros i k Hk. apply H3.
    apply list_elem_of_lookup_2, elem_of_reverse, elem_of_seq in Hk. lia.
Qed.

Lemma note_frame s : let t := exec note_pcsp s in
  t.[PC_SP] = s.[PC_SP] /\ t.[SSTAT] = s.[SSTAT] /\ ars t = ars s.
Proof. cbv zeta. by rewrite note_pcsp_ars, !note_pcsp_get. Qed.

Lemma warn_frame bit s : let t := exec (warn_stack_over bit) s in
  t.[PC_SP] = s.[PC_SP] /\ t.[SSTAT] = s.[SSTAT] /\ ars t = ars s.
Proof. unfold warn_stack_over. run. by case_match. Qed.

Lemma sstat_bits s k : Wf s -> 0 <= k <= 7 ->
  let o := u32 (s.[SSTAT] ||| 2 ^ k) in let c := u32 (s.[SSTAT] &&& ~~~(2 ^ k)) in
  forall b, 0 <= b <= 7 ->
  tst o (2 ^ b) = (k =? b) || tst (s.[SSTAT]) (2 ^ b) /\
  tst c (2 ^ b) = negb (k =? b) && tst (s.[SSTAT]) (2 ^ b).
Proof.
  intros Hs Hk o c b Hb. unfold o, c. rewrite !tst_conv by (cbn; lia).
  by rewrite tst_set, tst_clr by lia.
Qed.
Lemma pc_push_exec v s : Wf s ->
  exec (pc_stack_push_val v) s =
  if s.[PC_SP] <? 16 then exec (sstat_clr PC_EMPTY) (exec (wr PC_SP (s.[PC_SP] + 1))
      (exec (awr PC_STACK (s.[PC_SP]) v) (exec note_pcsp s)))
  else exec (warn_stack_over PC_OVER) (exec (sstat_or PC_OVER) (exec note_pcsp s)).
Proof.
  intros Hs. destruct (note_frame s) as (E1 & E2 & E3).
  unfold pc_stack_push_val. run. rewrite E1. unfold PC_STACK_DEPTH. by destruct (_ <? _); run.
Qed.

Lemma sim_push v s st : stack_rel s st -> stack_rel (exec (pc_stack_push_val v) s) (spec_op st (Push v)).
Proof.
  intros [Hs Hl Ho He]. destruct st as [l o]. cbn [fst snd] in *.
  destruct (ok_kept _ _ (ok_pc_stack_push_val v) s Hs) as [Hw _]. specialize (Hw Hs).
  pose proof (wf_field s Hs PC_SP) as Hp. unfold in_frange in Hp. cbn in Hp.
  pose proof (pc_stack_length s Hs) as Hlen. rewrite Hl in Hlen.
  destruct (note_frame s) as (E1 & E2 & E3). unfold spec_op.
  pose proof (pc_push_exec v s Hs) as E.
  rewrite E in *. destruct (Z.ltb_spec (s.[PC_SP]) 16).
  - assert ((length l <? 16)%nat = true) as -> by (apply Nat.ltb_lt; lia).
    revert Hw. unfold sstat_clr. run. gets. rewrite E2. intros Hw.
    split; cbn [fst snd].
    + done.
    + rewrite <- Hl. apply pc_stack_of_push; [lia| | |].
      * gets. apply conv_id. cbn. lia.
      * gets. done.
      * intros k Hk. gets. unfold aget. by rewrite E3.
    + gets. rewrite (tst_conv U32 _ 1), (tst_clr _ 0 1) by (cbn; lia). by rewrite andb_true_l.
    + gets. rewrite (tst_conv U32 _ 0), (tst_clr _ 0 0) by (cbn; lia).
      rewrite conv_id by (cbn; lia). cbn. lia.
  - assert ((length l <? 16)%nat = false) as -> by (apply Nat.ltb_ge; lia).
    set (t := exec (sstat_or PC_OVER) (exec note_pcsp s)) in *.
    destruct (warn_frame PC_OVER t) as (F1 & F2 & F3).
    assert (t.[PC_SP] = s.[PC_SP] /\ ars t = ars s /\ t.[SSTAT] = u32 (s.[SSTAT] ||| 2 ^ 1)) as (G1 & G2 & G3).
    { unfold t, sstat_or. run. gets. by rewrite E2. }
    split; cbn [fst snd].
    + done.
    + rewrite <- Hl. apply pc_stack_of_frame; [congruence|]. by rewrite F3, G2.
    + rewrite F2, G3, (tst_conv U32 _ 1), (tst_set _ 1 1) by (cbn; lia). done.
    + rewrite F2, G3, F1, G1, (tst_conv U32 _ 0), (tst_set _ 1 0) by (cbn; lia). done.
Qed.

Lemma pc_stack_pop_val_exec s : Wf s ->
  let sp := s.[PC_SP] in let n := exec note_pcsp s in
  exec pc_stack_pop_val s =
    (if sp >? 0 then exec (when (sp - 1 =? 0) (sstat_or PC_EMPTY)) (set PC_SP (sp - 1) n)
     else exec (sstat_or PC_EMPTY) n) /\
  eval pc_stack_pop_val s = if sp >? 0 then s.{PC_STACK, sp - 1} else 0.
Proof.
  intros Hs. cbv zeta. pose proof (wf_field s Hs PC_SP) as Hp. unfold in_frange in Hp. cbn in Hp.
  destruct (note_frame s) as (E1 & E2 & E3). unfold pc_stack_pop_val. run. rewrite E1.
  destruct (Z.gtb_spec (s.[PC_SP]) 0) as [H|H]; [|done]. gets.
  assert (conv (fty PC_SP) (s.[PC_SP] - 1) = s.[PC_SP] - 1) as -> by (apply conv_id; cbn; lia).
  unfold sstat_or. destruct (_ =? 0); run; gets; (split; [done|]); unfold aget; by rewrite E3.
Qed.

Lemma pc_stack_of_pop s : 0 < s.[PC_SP] ->
  pc_stack_of s = s.{PC_STACK, s.[PC_SP] - 1} :: pc_stack_of (set PC_SP (s.[PC_SP] - 1) s).
Proof.
  intros H. apply pc_stack_of_push; gets; [lia|lia|done|done].
Qed.

Lemma sim_pop s st : stack_rel s st ->
  stack_rel (exec pc_stack_pop_val s) (spec_op st Pop) /\ eval pc_stack_pop_val s = default 0 (head st.1).
Proof.
  intros [Hs Hl Ho He]. destruct st as [l o]. cbn [fst snd] in *.
  destruct (ok_kept _ _ ok_pc_stack_pop_val s Hs) as [Hw _]. specialize (Hw Hs).
  pose proof (wf_field s Hs PC_SP) as Hp. unfold in_frange in Hp. cbn in Hp.
  pose proof (pc_stack_length s Hs) as Hlen. rewrite Hl in Hlen.
  destruct (note_frame s) as (E1 & E2 & E3).
  destruct (pc_stack_pop_val_exec s Hs) as [Ee ->]. cbv zeta in Ee. rewrite Ee in *. clear Ee.
  unfold spec_op. destruct (Z.gtb_spec (s.[PC_SP]) 0) as [H|H].
  - rewrite pc_stack_of_pop in Hl by done. subst l. cbn [tail head default]. split; [|done].
    unfold sstat_or in *. destruct (Z.eqb_spec (s.[PC_SP] - 1) 0) as [Hz|Hz]; cbn [when] in *; split;
      cbn [fst snd]; try done.
    + apply pc_stack_of_frame; [run; by gets|run; rewrite !ars_set; by rewrite E3].
    + run. gets. rewrite E2, (tst_conv U32 _ 1), (tst_set _ 0 1) by (cbn; lia). done.
    + run. gets. rewrite E2, (tst_conv U32 _ 0), (tst_set _ 0 0) by (cbn; lia). cbn. lia.
    + run. apply pc_stack_of_frame; [by gets|rewrite !ars_set; by rewrite E3].
    + run. gets. by rewrite E2.
    + run. gets. rewrite E2, He. lia.
  - destruct l as [|? l]; [|cbn in Hlen; lia]. cbn [tail head default]. split; [|done].
    unfold sstat_or in *. split; cbn [fst snd]; [done| | |].
    + rewrite <- Hl. apply pc_stack_of_frame; run; [by gets|rewrite !ars_set; by rewrite E3].
    + run. gets. rewrite E2, (tst_conv U32 _ 1), (tst_set _ 0 1) by (cbn; lia). done.
    + run. gets. rewrite E1, E2, (tst_conv U32 _ 0), (tst_set _ 0 0) by (cbn; lia). cbn. lia.
Qed.

Lemma mach_run_sim ops : forall s st, stack_rel s st ->
  let '(out, st') := spec_run st ops in
  eval (mach_run ops) s = out /\ stack_rel (exec (mach_run ops) s) st'.
Proof.
  induction ops as [|op ops IH]; intros s st H; [done|].
  cbn [spec_run mach_run]. specialize (IH (exec (mach_op op) s) (spec_op st op)).
  destruct (spec_run _ ops) as [out st']. run.
  assert (stack_rel (exec (mach_op op) s) (spec_op st op) /\ eval (mach_op op) s = spec_out st op)
    as [H1 ->].
  { destruct op as [v|]; cbn [mach_op]; run.
    - split; [by apply sim_push|done].
    - destruct (sim_pop s st H) as [H1 ->]. done. }
  destruct (IH H1) as [-> H2]. done.
Qed.

(** C4: the PC stack refines a bounded list. Any sequence of pushes and pops
    returns what a list bounded to 16 entries returns (a pop of the empty
    stack returns 0, a push on the full stack is refused), ends with the same
    contents, and SSTAT's overflow bit is set exactly if it was or a push was
    refused, its empty bit exactly when the list is empty. *)
Theorem pc_stack_refines ops s :
  Wf s -> tst (s.[SSTAT]) PC_EMPTY = (s.[PC_SP] =? 0) ->
  let '(out, (l, over)) := spec_run (pc_stack_of s, tst (s.[SSTAT]) PC_OVER) ops in
  let t := exec (mach_run ops) s in
  eval (mach_run ops) s = out /\ pc_stack_of t = l /\ tst (t.[SSTAT]) PC_OVER = over /\
  tst (t.[SSTAT]) PC_EMPTY = bool_decide (l = []).
Proof.
  intros Hs He.
  assert (stack_rel s (pc_stack_of s, tst (s.[SSTAT]) PC_OVER)) as H by (by split).
  apply mach_run_sim with (ops := ops) in H.
  destruct (spec_run _ ops) as [out [l o]]. destruct H as [-> [Hw Hl Ho He']]. cbn [fst snd] in *.
  split; [done|]. split; [done|]. split; [done|]. rewrite He'.
  pose proof (pc_stack_length _ Hw) as Hlen. rewrite Hl in Hlen.
  destruct l as [|x l]; cbn [length] in Hlen.
  - rewrite bool_decide_true by done. lia.
  - rewrite bool_decide_false by done. lia.
Qed.

(** ** Register banks *)

(** Register [r] of bank [b], wherever it is: the processor works on the bank
    that MSTAT's bank bit selected when it was last looked at. *)
Definition banked (s : state) (b : bool) (r : creg) : Z :=
  if Bool.eqb (tst (s.[MSTAT_PREV]) MSTAT_BANK) b then s.[Core r] else s.[Alt r].

Lemma tst_lxor a b k : 0 <= k -> tst (a ^^^ b) (2 ^ k) = xorb (tst a (2 ^ k)) (tst b (2 ^ k)).
Proof. intros Hk. by rewrite !tst_pow2, Z.lxor_spec by done. Qed.

Section Banks.
Context {host : Host}.
(** The timer callback leaves the processor's members alone. *)
Hypothesis timer_quiet : forall f on s g, timer_fired = Some f -> (exec (f on) s).[g] = s.[g].

Lemma exec_timer s (b : bool) on g :
  (exec (if b then match timer_fired with Some f => f on | None => skip end else skip) s).[g] = s.[g].
Proof. destruct b; [|done]. destruct timer_fired eqn:E; [|done]. by apply timer_quiet. Qed.

(** Register banks. Whatever value MSTAT has been given, [update_mstat]
    makes the bank its bank bit selects the current one and loses nothing:
    every register of both banks keeps its value. It also brings the copy
    [mstat_prev] up to date and makes the overflow flag sticky exactly when
    MSTAT says so. *)
Theorem bank_switch s :
  Wf s ->
  let t := exec update_mstat s in
  (forall b r, banked t b r = banked s b r) /\
  (forall r, t.[Core r] = banked s (tst (s.[MSTAT]) MSTAT_BANK) r) /\
  t.[MSTAT] = s.[MSTAT] /\ t.[MSTAT_PREV] = s.[MSTAT] /\
  tst (t.[ASTAT_CLEAR]) VFLAG = tst (s.[MSTAT]) MSTAT_STICKYV.
Proof.
  intros Hs. cbv zeta.
  pose proof (wf_field s Hs MSTAT) as Hm. unfold in_frange in Hm. cbn in Hm.
  assert (tst (s.[MSTAT] ^^^ s.[MSTAT_PREV]) MSTAT_BANK =
    xorb (tst (s.[MSTAT]) MSTAT_BANK) (tst (s.[MSTAT_PREV]) MSTAT_BANK)) as Hx
    by (by apply (tst_lxor _ _ 0)).
  set (s1 := exec (when (tst (s.[MSTAT] ^^^ s.[MSTAT_PREV]) MSTAT_BANK) swap_banks) s).
  assert (forall f, (match f with Core _ | Alt _ => False | _ => True end) -> s1.[f] = s.[f]) as Hf.
  { intros f Hf. unfold s1. destruct (tst _ _); [|done]. by destruct f. }
  set (t := exec update_mstat s).
  assert ((forall r, t.[Core r] = s1.[Core r]) /\ (forall r, t.[Alt r] = s1.[Alt r]) /\
    t.[MSTAT] = s.[MSTAT] /\ t.[MSTAT_PREV] = s.[MSTAT] /\
    tst (t.[ASTAT_CLEAR]) VFLAG = tst (s.[MSTAT]) MSTAT_STICKYV) as (Hc & Ha & E1 & E2 & E3).
  { unfold t, update_mstat. do 2 rewrite exec_bind, eval_rd, exec_rd.
    rewrite exec_bind. fold s1. rewrite exec_bind.
    set (t1 := exec (if tst (s.[MSTAT] ^^^ s.[MSTAT_PREV]) MSTAT_TIMER then _ else _) s1).
    assert (forall g, t1.[g] = s1.[g]) as Ht by (intros g; apply exec_timer).
    assert (conv (fty MSTAT_PREV) (s.[MSTAT]) = s.[MSTAT]) as Hid by (apply conv_id; cbn; lia).
    run. rewrite Ht, (Hf MSTAT) by done.
    destruct (tst (s.[MSTAT]) MSTAT_STICKYV); gets; rewrite Ht, (Hf MSTAT), Hid by done;
      (split; [|split; [|split; [|split]]]); intros; gets; rewrite ?Ht, ?(Hf MSTAT) by done; done. }
  rewrite E1, E2, E3. split; [|split; [|done]].
  - intros b r. unfold banked. rewrite E2, Hc, Ha. unfold s1. rewrite Hx.
    by destruct (tst (s.[MSTAT]) _), (tst (s.[MSTAT_PREV]) _), b.
  - intros r. unfold banked. rewrite Hc. unfold s1. rewrite Hx.
    by destruct (tst (s.[MSTAT]) _), (tst (s.[MSTAT_PREV]) _).
Qed.
End Banks.

(** ** Interrupts *)

(** The interrupts in priority order, with their priorities. *)
Definition irq_list : list (Z * Z) :=
  [(ADSP2181_IRQ2, 0); (ADSP2181_IRQL1, 1); (ADSP2181_IRQL2, 2); (ADSP2181_SPORT0_TX, 3);
   (ADSP2181_SPORT0_RX, 4); (ADSP2181_IRQE, 5); (ADSP2181_IRQ1, 7); (ADSP2181_IRQ0, 8);
   (ADSP2181_TIMER, 9)].

(** Level-sensitive, edge-sensitive, or as ICNTL chooses. *)
Definition irq_pending (s : state) (which : Z) : bool :=
  let edge bit := if tst (s.[ICNTL]) bit then s.{IRQ_LATCH, which} else s.{IRQ_STATE, which} in
  nz (match which with
      | 0 => edge 1 | 1 => edge 2 | 2 => edge 4
      | 7 | 8 => s.{IRQ_STATE, which}
      | _ => s.{IRQ_LATCH, which}
      end).
Definition irq_ready (s : state) (wp : Z * Z) : bool :=
  irq_pending s wp.1 && tst (s.[IMASK]) (0x200 >>> wp.2).
Definition next_irq (s : state) : option (Z * Z) :=
  if nz (s.[INTERRUPTS_ENABLED]) then find (irq_ready s) irq_list else None.

Lemma exec_try_irq which priority expression rest s :
  exec expression s = s -> nz (eval expression s) = irq_pending s which ->
  exec (try_irq which priority expression rest) s =
  if irq_ready s (which, priority) then exec (generate_irq which priority) s else exec rest s.
Proof.
  intros He Hp. unfold try_irq, irq_ready. rewrite exec_bind, He, Hp. cbn [fst snd].
  destruct (irq_pending s which); cbn [andb]; [|done]. rewrite exec_bind.
  unfold generate_irq. run. destruct (tst _ _); cbn [negb]; [|done].
  by run.
Qed.

Lemma edge_exec bit w s : 0 <= w < 9 -> exec (edge_or_level bit w) s = s.
Proof. intros Hw. unfold edge_or_level. run. by destruct (tst _ _). Qed.
Lemma edge_eval bit w s : 0 <= w < 9 -> eval (edge_or_level bit w) s =
  if tst (s.[ICNTL]) bit then s.{IRQ_LATCH, w} else s.{IRQ_STATE, w}.
Proof. intros Hw. unfold edge_or_level. run. by destruct (tst _ _). Qed.

Lemma exec_check_irqs s :
  exec check_irqs s =
  match next_irq s with Some (w, p) => exec (generate_irq w p) s | None => s end.
Proof.
  unfold check_irqs, next_irq. rewrite exec_bind, eval_rd, exec_rd.
  destruct (nz (s.[INTERRUPTS_ENABLED])); cbn [negb]; [|done]. unfold irq_list.
  repeat (rewrite exec_try_irq;
    [|first [apply edge_exec; cbv; split; congruence | apply exec_ard; cbv; split; congruence]
     |first [rewrite edge_eval by (cbv; split; congruence)
            |rewrite eval_ard by (cbv; split; congruence)]; reflexivity];
    cbn [find]; destruct (irq_ready s _); [done|]).
  done.
Qed.

(** What taking interrupt [w] of priority [p] does. *)
Record irq_entered (s t : state) (w p : Z) : Prop := {
  ie_pc : t.[PC] = 4 + 4 * p;
  ie_idle : t.[IDLE] = 0;
  ie_latch w' : t.{IRQ_LATCH, w'} = if decide (w' = w) then 0 else s.{IRQ_LATCH, w'};
  ie_imask : t.[IMASK] =
    if tst (s.[ICNTL]) 0x10 then s.[IMASK] &&& ~~~(0x3ff >>> p) else 0;
  ie_stack : pc_stack_of t =
    if s.[PC_SP] <? 16 then s.[PC] :: pc_stack_of s else pc_stack_of s;
  ie_status : if s.[STAT_SP] <? 4
    then t.[STAT_SP] = s.[STAT_SP] + 1 /\
         t.{STAT_STACK_MSTAT, s.[STAT_SP] } = s.[MSTAT] /\
         t.{STAT_STACK_IMASK, s.[STAT_SP] } = s.[IMASK] /\
         t.{STAT_STACK_ASTAT, s.[STAT_SP] } = s.[ASTAT]
    else t.[STAT_SP] = s.[STAT_SP] /\ tst (t.[SSTAT]) STATUS_OVER = true;
  ie_frame f : (match f with
      | PC | IDLE | IMASK | PC_SP | STAT_SP | SSTAT | STACK_OVER_WARNED | PCSP_WINDOW_MIN
      | PCSP_WINDOW_MAX => False | _ => True end) -> t.[f] = s.[f];
  ie_arrays a k : (match a with
      | IRQ_LATCH | PC_STACK | STAT_STACK_MSTAT | STAT_STACK_IMASK | STAT_STACK_ASTAT => False
      | _ => True end) -> t.{a, k} = s.{a, k};
}.

Lemma pc_push_list v s : Wf s ->
  pc_stack_of (exec (pc_stack_push_val v) s) =
  if s.[PC_SP] <? 16 then u32 v :: pc_stack_of s else pc_stack_of s.
Proof.
  intros Hs. pose proof (wf_field s Hs PC_SP) as Hp. unfold in_frange in Hp. cbn in Hp.
  destruct (note_frame s) as (E1 & E2 & E3). rewrite pc_push_exec by done.
  destruct (Z.ltb_spec (s.[PC_SP]) 16).
  - unfold sstat_clr. run. apply pc_stack_of_push; [lia| | |].
    + gets. apply conv_id. cbn. lia.
    + gets. done.
    + intros k Hk. gets. unfold aget. by rewrite E3.
  - set (t := exec (sstat_or PC_OVER) (exec note_pcsp s)).
    destruct (warn_frame PC_OVER t) as (F1 & F2 & F3). apply pc_stack_of_frame.
    + rewrite F1. unfold t, sstat_or. run. by gets.
    + rewrite F3. unfold t, sstat_or. run. rewrite ars_set. by rewrite E3.
Qed.

Lemma stat_push_effect s : Wf s ->
  let t := exec stat_stack_push s in
  if s.[STAT_SP] <? 4
  then t.[STAT_SP] = s.[STAT_SP] + 1 /\
       t.{STAT_STACK_MSTAT, s.[STAT_SP] } = s.[MSTAT] /\
       t.{STAT_STACK_IMASK, s.[STAT_SP] } = s.[IMASK] /\
       t.{STAT_STACK_ASTAT, s.[STAT_SP] } = s.[ASTAT]
  else t.[STAT_SP] = s.[STAT_SP] /\ tst (t.[SSTAT]) STATUS_OVER = true.
Proof.
  intros Hs. cbv zeta. pose proof (wf_field s Hs STAT_SP) as Hp. unfold in_frange in Hp. cbn in Hp.
  pose proof (wf_field s Hs MSTAT) as H1. pose proof (wf_field s Hs IMASK) as H2.
  pose proof (wf_field s Hs ASTAT) as H3. unfold in_frange in *. cbn in H1, H2, H3.
  unfold stat_stack_push, STAT_STACK_DEPTH. rewrite exec_bind, eval_rd, exec_rd.
  destruct (Z.ltb_spec (s.[STAT_SP]) 4).
  - unfold sstat_clr. run. gets. rewrite !conv_id by (cbn; lia). done.
  - rewrite exec_bind. destruct (warn_frame STATUS_OVER (exec (sstat_or STATUS_OVER) s)) as (F1 & F2 & F3).
    assert ((exec (warn_stack_over STATUS_OVER) (exec (sstat_or STATUS_OVER) s)).[STAT_SP] = s.[STAT_SP]) as ->.
    { unfold warn_stack_over, sstat_or. run. case_match; by gets. }
    rewrite F2. unfold sstat_or. run. gets. split; [done|].
    by rewrite (tst_conv U32 _ 5), (tst_set _ 5 5) by (cbn; lia).
Qed.

Definition pc_push_f (f : field) : bool :=
  match f with
  | PC_SP | SSTAT | STACK_OVER_WARNED | PCSP_WINDOW_MIN | PCSP_WINDOW_MAX => true
  | _ => false
  end.
Definition pc_push_a (a : arr) : bool := match a with PC_STACK => true | _ => false end.
Lemma pc_push_touches v : hoare (touches pc_push_f pc_push_a) (pc_stack_push_val v) any.
Proof. unfold pc_stack_push_val, sstat_or, sstat_clr, PC_STACK_DEPTH, PC_OVER, PC_EMPTY. hoare_auto. Qed.
Definition stat_push_f (f : field) : bool :=
  match f with STAT_SP | SSTAT | STACK_OVER_WARNED => true | _ => false end.
Definition stat_push_a (a : arr) : bool :=
  match a with STAT_STACK_MSTAT | STAT_STACK_IMASK | STAT_STACK_ASTAT => true | _ => false end.
Lemma stat_push_touches : hoare (touches stat_push_f stat_push_a) stat_stack_push any.
Proof. unfold stat_stack_push, sstat_or, sstat_clr, STAT_STACK_DEPTH, STATUS_OVER, STATUS_EMPTY. hoare_auto. Qed.

Lemma generate_irq_effect w p s : Wf s -> 0 <= w < 9 -> 0 <= p <= 9 ->
  tst (s.[IMASK]) (0x200 >>> p) = true -> irq_entered s (exec (generate_irq w p) s) w p.
Proof.
  intros Hs Hw Hp He. unfold generate_irq. rewrite exec_bind, eval_rd, exec_rd, He. cbn [negb].
  rewrite exec_bind, eval_rd, exec_rd, exec_bind, exec_bind, exec_awr by done.
  set (s0 := exec (when _ _) s).
  assert ((forall f, s0.[f] = s.[f]) /\ ars s0 = ars s) as [Hf0 Ha0]
    by (unfold s0; by destruct (nz _)).
  set (s1 := aset IRQ_LATCH w (conv (aty IRQ_LATCH) 0) s0).
  assert (Wf s1) as Hs1.
  { apply wf_aset; [|by vm_compute; split]. split; intros; rewrite ?Hf0; [apply Hs|].
    unfold aget. rewrite Ha0. apply Hs. }
  rewrite exec_bind. unfold exec at 2. rewrite pc_stack_push_eq. fold (exec (pc_stack_push_val (s1.[PC])) s1).
  change (snd (pc_stack_push_val (s1.[PC]) s1)) with (exec (pc_stack_push_val (s1.[PC])) s1).
  destruct (pc_push_touches (s1.[PC]) s1 Hs1) as [(Hw2 & Hf2 & Ha2) _]. specialize (Hw2 Hs1).
  pose proof (pc_push_list (s1.[PC]) s1 Hs1) as Hl.
  set (s2 := exec (pc_stack_push_val (s1.[PC])) s1) in *. rewrite exec_bind.
  destruct (stat_push_touches s2 Hw2) as [(Hw3 & Hf3 & Ha3) _]. specialize (Hw3 Hw2).
  pose proof (stat_push_effect s2 Hw2) as Hst. cbv zeta in Hst.
  set (s3 := exec stat_stack_push s2) in *.
  assert (forall f, pc_push_f f = false -> s2.[f] = s.[f]) as F2
    by (intros f Hf; rewrite Hf2 by done; unfold s1; rewrite get_aset; apply Hf0).
  assert (forall f, pc_push_f f = false -> stat_push_f f = false -> s3.[f] = s.[f]) as F3
    by (intros f H1 H2; rewrite Hf3 by done; by apply F2).
  assert (s1.[PC] = s.[PC]) as E1 by (unfold s1; rewrite get_aset; apply Hf0).
  assert (s1.[PC_SP] = s.[PC_SP]) as E2 by (unfold s1; rewrite get_aset; apply Hf0).
  pose proof (wf_field s Hs PC) as Hpc. pose proof (wf_field s Hs IMASK) as Him.
  unfold in_frange in *. cbn in Hpc, Him.
  assert (pc_stack_of s1 = pc_stack_of s) as E3.
  { apply pc_stack_of_frame; [done|]. unfold s1, aset. rewrite ars_aput_ne by done. by rewrite Ha0. }
  assert (0 <= s.[IMASK] &&& ~~~(0x3ff >>> p) <= 0x3ff) as Hb
    by (pose proof (land_range_l (s.[IMASK]) (~~~(0x3ff >>> p))); lia).
  run. gets. rewrite !F3 by done.
  assert (conv (fty PC) (0x04 + p * 4) = 4 + 4 * p) as Ep by (rewrite conv_id; cbn; lia).
  assert (forall b t, (if (b : bool) then set IMASK (conv (fty IMASK) (s.[IMASK] &&& ~~~(0x3ff >>> p))) t
     else set IMASK (conv (fty IMASK) (s.[IMASK] &&& ~~~0x3ff)) t) =
     set IMASK (if b then s.[IMASK] &&& ~~~(0x3ff >>> p) else 0) t) as Ei'.
  { intros [] t; f_equal; [apply conv_id; cbn; lia|].
    change 0x3ff with (Z.ones 10). rewrite <- Z.ldiff_land, Z.ldiff_ones_r by lia.
    rewrite Z.shiftr_div_pow2, Z.div_small by lia. done. }
  rewrite Ei', Ep. split.
  - by gets.
  - by gets.
  - intros w'. gets. unfold aget. rewrite Ha3, Ha2 by done. change (aelem (ars s1 IRQ_LATCH) w') with (s1.{IRQ_LATCH, w'}).
    unfold s1. case_decide as E; [subst; by rewrite aget_aset_eq|].
    rewrite aget_aset_ne by done. unfold aget. by rewrite Ha0.
  - by gets.
  - rewrite E2, E1, E3 in Hl. rewrite conv_id in Hl by (cbn; lia). rewrite <- Hl.
    apply pc_stack_of_frame; [gets; by rewrite Hf3|]. rewrite !ars_set. by rewrite Ha3.
  - rewrite !F2 in Hst by done. destruct (_ <? _); gets; exact Hst.
  - intros f Hf. rewrite !get_set_ne by (intros ->; done). apply F3; by destruct f.
  - intros a k Ha. rewrite !aget_set. unfold aget. rewrite Ha3, Ha2 by (by destruct a).
    change (s1.{a, k} = s.{a, k}). unfold s1. rewrite aget_aset_arr by (intros ->; done).
    unfold aget. by rewrite Ha0.
Qed.

Lemma next_irq_spec s w p : next_irq s = Some (w, p) ->
  0 <= w < 9 /\ 0 <= p <= 9 /\ tst (s.[IMASK]) (0x200 >>> p) = true.
Proof.
  unfold next_irq. destruct (nz _); [|done]. intros H. apply find_some in H as [Hin Hr].
  apply andb_true_iff in Hr as [_ Hr]. split; [|split; [|exact Hr]];
    repeat (destruct Hin as [[= <- <-]|Hin]; [by vm_compute; split|]); destruct Hin.
Qed.

(** C6: interrupt priority. [check_irqs] does nothing when interrupts are
    disabled or none is pending and unmasked; otherwise it enters the first
    such interrupt in priority order (IRQ2, IRQL1, IRQL2, SPORT0 transmit,
    SPORT0 receive, IRQE, IRQ1, IRQ0, timer): PC becomes the vector
    [4 + 4 * priority], the old PC is pushed, MSTAT, IMASK and ASTAT are saved
    on the status stack, the mask drops this and all lower priorities (all of
    them without nesting), the latch of that interrupt alone is cleared, and
    nothing else changes. A full PC stack drops the return address, a full
    status stack sets the overflow bit. *)
Theorem check_irqs_priority s :
  Wf s ->
  match next_irq s with
  | Some (w, p) => irq_entered s (exec check_irqs s) w p
  | None => exec check_irqs s = s
  end.
Proof.
  intros Hs. rewrite exec_check_irqs. destruct (next_irq s) as [[w p]|] eqn:E; [|done].
  destruct (next_irq_spec s w p E) as (Hw & Hp & Hm). by apply generate_irq_effect.
Qed.

Lemma update_mstat_same {host : Host} s : Wf s -> s.[MSTAT_PREV] = s.[MSTAT] ->
  exists c, exec update_mstat s = set MSTAT_PREV (s.[MSTAT]) (set ASTAT_CLEAR c s).
Proof.
  intros Hs E. pose proof (wf_field s Hs MSTAT) as Hm. unfold in_frange in Hm. cbn in Hm.
  unfold update_mstat. run. rewrite E, Z.lxor_nilpotent.
  change (tst 0 MSTAT_BANK) with false. change (tst 0 MSTAT_TIMER) with false. cbv iota.
  destruct (tst _ _); gets; eexists; f_equal; apply conv_id; cbn; lia.
Qed.

(** Condition 15 is always true. *)
Lemma condition_forever s : Wf s -> eval (CONDITION 15) s = true /\ exec (CONDITION 15) s = s.
Proof.
  intros Hs. pose proof (wf_field s Hs ASTAT) as Ha. unfold in_frange in Ha. cbn in Ha.
  assert ((0xf00 ||| s.[ASTAT] <? 0x1000) && nz (condition_table (0xf00 ||| s.[ASTAT])) = true) as H.
  { refine (all_below_spec 256 (fun a => (0xf00 ||| a <? 0x1000) && nz (condition_table (0xf00 ||| a)))
      _ _ _); [by vm_compute|lia]. }
  apply andb_true_iff in H as [H1 H2].
  unfold CONDITION. cbn [negb Z.eqb Pos.eqb]. change (15 <<< 8) with 0xf00.
  unfold eval, exec, mbind, M_bind, rd. rewrite H1. cbn. by rewrite H2.
Qed.

(** The status-stack pop when nothing becomes deliverable. *)
Lemma stat_pop_effect {host : Host} s : Wf s -> 0 < s.[STAT_SP] ->
  let k := s.[STAT_SP] - 1 in
  s.[MSTAT_PREV] = s.{STAT_STACK_MSTAT, k} ->
  (forall u, (forall f, (match f with MSTAT | MSTAT_PREV | ASTAT_CLEAR | IMASK | ASTAT | STAT_SP
      | SSTAT => False | _ => True end) -> u.[f] = s.[f]) -> ars u = ars s ->
    u.[IMASK] = s.{STAT_STACK_IMASK, k} -> next_irq u = None) ->
  let t := exec stat_stack_pop s in
  t.[STAT_SP] = k /\ t.[MSTAT] = s.{STAT_STACK_MSTAT, k} /\ t.[IMASK] = s.{STAT_STACK_IMASK, k} /\
  t.[ASTAT] = s.{STAT_STACK_ASTAT, k} /\ ars t = ars s /\
  (forall f, (match f with MSTAT | MSTAT_PREV | ASTAT_CLEAR | IMASK | ASTAT | STAT_SP
      | SSTAT => False | _ => True end) -> t.[f] = s.[f]).
Proof.
  intros Hs Hsp k Hprev Hno. cbv zeta.
  pose proof (wf_field s Hs STAT_SP) as Hr. unfold in_frange in Hr. cbn in Hr.
  pose proof (wf_range_elem s STAT_STACK_MSTAT k Hs) as Hm.
  pose proof (wf_range_elem s STAT_STACK_IMASK k Hs) as Hi.
  pose proof (wf_range_elem s STAT_STACK_ASTAT k Hs) as Ha. cbn in Hm, Hi, Ha.
  assert (exec stat_stack_pop s = exec stat_restore (exec (stat_drop (s.[STAT_SP])) s)) as ->
    by (unfold exec at 1; by rewrite stat_stack_pop_eq by lia).
  set (d := exec (stat_drop (s.[STAT_SP])) s).
  assert (d.[STAT_SP] = k /\ ars d = ars s /\ (forall f, f <> STAT_SP -> f <> SSTAT -> d.[f] = s.[f]))
    as (D1 & D2 & D3).
  { unfold d. rewrite stat_drop_sp by lia. split; [done|].
    unfold stat_drop, sstat_or. run. destruct (_ =? _); (split; [done|]); intros; by gets. }
  assert (Wf d) as Hd.
  { apply (micro_wf s); [done|]. apply micro_stat_drop. lia. }
  unfold stat_restore. rewrite exec_bind, eval_rd, exec_rd, D1.
  assert (forall a t, ars t = ars s -> t.{a, k} = s.{a, k}) as Ea
    by (intros a t H; unfold aget; by rewrite H).
  rewrite exec_bind, exec_ard, eval_ard, Ea by (done || cbn; lia).
  rewrite exec_bind, exec_wr. assert (conv (fty MSTAT) (s.{STAT_STACK_MSTAT, k}) = s.{STAT_STACK_MSTAT, k}) as ->
    by (apply conv_id; cbn; lia).
  set (d1 := set MSTAT _ d). rewrite exec_bind.
  assert (Wf d1) as Hd1 by (apply wf_set; [done|exact Hm]).
  destruct (update_mstat_same d1 Hd1) as [c ->].
  { unfold d1. gets. by rewrite D3. }
  set (d2 := set MSTAT_PREV _ _).
  assert (d2.[STAT_SP] = k /\ ars d2 = ars s) as [D4 D5] by (unfold d2, d1; by gets).
  rewrite exec_bind, eval_rd, exec_rd, D4.
  rewrite exec_bind, exec_ard, eval_ard, Ea by (done || cbn; lia).
  rewrite exec_bind, exec_wr, exec_bind, eval_rd, exec_rd, get_set_ne, D4 by done.
  rewrite exec_bind, exec_ard, eval_ard, Ea by (done || cbn; lia).
  rewrite exec_bind, exec_wr, exec_check_irqs.
  assert (conv (fty IMASK) (s.{STAT_STACK_IMASK, k}) = s.{STAT_STACK_IMASK, k}) as -> by (apply conv_id; cbn; lia).
  assert (conv (fty ASTAT) (s.{STAT_STACK_ASTAT, k}) = s.{STAT_STACK_ASTAT, k}) as -> by (apply conv_id; cbn; lia).
  set (u := set ASTAT _ _).
  assert (forall f, (match f with MSTAT | MSTAT_PREV | ASTAT_CLEAR | IMASK | ASTAT | STAT_SP
      | SSTAT => False | _ => True end) -> u.[f] = s.[f]) as Hf.
  { intros f Hf. unfold u, d2, d1. rewrite !get_set_ne by (intros ->; done).
    apply D3; intros ->; done. }
  rewrite Hno; [|exact Hf|exact D5|unfold u; by gets].
  unfold u at 1 2 3 4, d2, d1. gets. split; [done|]. split; [done|]. split; [done|]. split; [done|].
  split; [exact D5|exact Hf].
Qed.

Lemma next_irq_ext s t :
  t.[INTERRUPTS_ENABLED] = s.[INTERRUPTS_ENABLED] -> t.[ICNTL] = s.[ICNTL] ->
  t.[IMASK] = s.[IMASK] -> (forall k, t.{IRQ_LATCH, k} = s.{IRQ_LATCH, k}) ->
  (forall k, t.{IRQ_STATE, k} = s.{IRQ_STATE, k}) -> next_irq t = next_irq s.
Proof.
  intros H1 H2 H3 H4 H5. unfold next_irq. rewrite H1. destruct (nz _); [|done].
  unfold irq_list, irq_ready, irq_pending. cbn [find fst snd]. rewrite H2, H3, !H4, !H5. done.
Qed.

(** A return instruction whose condition is "forever". *)
Lemma rti_exec {host : Host} s : Wf s ->
  exec (return_op 0x1f) s = exec stat_stack_pop (exec pc_stack_pop s).
Proof.
  intros Hs. unfold return_op, if_cond. change (0x1f &&& 15) with 15.
  destruct (condition_forever s Hs) as [H1 H2].
  rewrite exec_bind, H1, H2. rewrite exec_bind. reflexivity.
Qed.

Lemma pc_pop_effect s v l : Wf s -> pc_stack_of s = v :: l ->
  let t := exec pc_stack_pop s in
  t.[PC] = u32 v /\ t.[PC_SP] = s.[PC_SP] - 1 /\ pc_stack_of t = l /\ ars t = ars s /\
  (forall f, f <> PC -> pc_push_f f = false -> t.[f] = s.[f]).
Proof.
  intros Hs Hl. cbv zeta. pose proof (wf_field s Hs PC_SP) as Hp. unfold in_frange in Hp. cbn in Hp.
  pose proof (pc_stack_length s Hs) as Hlen. rewrite Hl in Hlen. cbn [length] in Hlen.
  destruct (note_frame s) as (E1 & E2 & E3).
  assert (exec pc_stack_pop s = exec (v ← pc_stack_pop_val; wr PC v) s) as ->.
  { unfold exec. rewrite pc_stack_pop_eq. assert (s.[PC_SP] >? 0 = true) as -> by lia. done. }
  destruct (pc_stack_pop_val_exec s Hs) as [Ee Ev]. cbv zeta in Ee. rewrite exec_bind, Ev, Ee.
  assert (s.[PC_SP] >? 0 = true) as -> by lia.
  rewrite pc_stack_of_pop in Hl by lia. injection Hl as Hv Hl. rewrite Hv.
  set (m := exec (when _ _) _).
  assert (m.[PC_SP] = s.[PC_SP] - 1 /\ ars m = ars s /\
    (forall f, pc_push_f f = false -> m.[f] = s.[f])) as (M1 & M2 & M3).
  { unfold m, sstat_or. destruct (_ =? 0); run; (split; [by gets|]); (split; [done|]);
      intros f Hf; rewrite !get_set_ne by (intros ->; done); apply note_pcsp_get; intros ->; done. }
  rewrite exec_wr. split; [by gets|]. split; [by gets|]. split; [|split; [done|]].
  - rewrite <- Hl. apply pc_stack_of_frame; [by gets|]. rewrite !ars_set. by rewrite M2.
  - intros f H1 H2. rewrite get_set_ne by done. by apply M3.
Qed.

(** C5: interrupt round trip. If an interrupt is taken with room on both
    stacks and nothing else is deliverable, a return from interrupt as the
    whole handler puts back the program counter, the mode, the mask, the
    arithmetic status and both stacks, and leaves every computational register
    and every array but the stacks and the interrupt's own latch alone. *)
Theorem interrupt_round_trip {host : Host} {hok : HostOk host} s w p :
  Wf s -> s.[PC_SP] < 16 -> s.[STAT_SP] < 4 -> s.[MSTAT_PREV] = s.[MSTAT] ->
  next_irq s = Some (w, p) -> next_irq (aset IRQ_LATCH w 0 s) = None ->
  let t := exec (return_op 0x1f) (exec check_irqs s) in
  t.[PC] = s.[PC] /\ t.[MSTAT] = s.[MSTAT] /\ t.[IMASK] = s.[IMASK] /\ t.[ASTAT] = s.[ASTAT] /\
  t.[STAT_SP] = s.[STAT_SP] /\ pc_stack_of t = pc_stack_of s /\ t.[IDLE] = 0 /\
  (forall r, t.[Core r] = s.[Core r] /\ t.[Alt r] = s.[Alt r]) /\
  (forall a k, (match a with
      | IRQ_LATCH | PC_STACK | STAT_STACK_MSTAT | STAT_STACK_IMASK | STAT_STACK_ASTAT => False
      | _ => True end) -> t.{a, k} = s.{a, k}).
Proof.
  intros Hs Hp Hst Hprev Hn Hquiet. cbv zeta.
  pose proof (check_irqs_priority s Hs) as He. rewrite Hn in He.
  destruct (ok_kept _ _ ok_check_irqs s Hs) as [Hw _]. specialize (Hw Hs).
  set (e := exec check_irqs s) in *.
  destruct He as [Epc Eidle Elatch Eim Estk Estat Ef Ea].
  assert (s.[PC_SP] <? 16 = true) as E by lia. rewrite E in Estk.
  assert (s.[STAT_SP] <? 4 = true) as E' by lia. rewrite E' in Estat.
  destruct Estat as (S0 & S1 & S2 & S3).
  pose proof (wf_field s Hs PC) as Hpc. pose proof (wf_field s Hs STAT_SP) as Hsp.
  unfold in_frange in *. cbn in Hpc, Hsp.
  rewrite rti_exec by done.
  destruct (pc_pop_effect e _ _ Hw Estk) as (P1 & P2 & P3 & P4 & P5).
  destruct (ok_kept _ _ ok_pc_stack_pop e Hw) as [Hwu _]. specialize (Hwu Hw).
  set (u := exec pc_stack_pop e) in *.
  assert (u.[STAT_SP] = s.[STAT_SP] + 1) as Hu by (by rewrite P5).
  assert (forall a, u.{a, u.[STAT_SP] - 1} = e.{a, s.[STAT_SP] }) as Hua.
  { intros a. rewrite Hu. unfold aget. rewrite P4. f_equal. lia. }
  destruct (stat_pop_effect u Hwu) as (T1 & T2 & T3 & T4 & T5 & T6).
  - lia.
  - rewrite Hua, S1, P5, Ef; done.
  - intros v Hv Hav Him. rewrite <- Hquiet. apply next_irq_ext.
    + rewrite Hv, P5, Ef by done. by gets.
    + rewrite Hv, P5, Ef by done. by gets.
    + rewrite Him, Hua, S2. by gets.
    + intros k. unfold aget at 1. rewrite Hav, P4. fold (e.{IRQ_LATCH, k}). rewrite Elatch.
      case_decide as Hk; [subst k; by gets|by rewrite aget_aset_ne].
    + intros k. unfold aget at 1. rewrite Hav, P4. fold (e.{IRQ_STATE, k}). rewrite Ea by done. by gets.
  - rewrite T6, P1, conv_id by (done || (cbn; lia)). split; [done|].
    rewrite T2, T3, T4, T1, !Hua, S1, S2, S3. do 3 (split; [done|]). split; [lia|].
    split; [|split; [|split]].
    + rewrite <- P3. apply pc_stack_of_frame; [by apply T6|by rewrite T5].
    + rewrite T6, P5 by done. done.
    + intros r. by rewrite !T6, !P5, !Ef by done.
    + intros a k H. unfold aget at 1. rewrite T5, P4. by apply Ea.
Qed.

(** ** Witnesses *)
Definition demo_ops : list stack_op := [Push 7; Push 0x100000009; Pop; Pop; Pop].
Lemma pc_stack_refines_witness :
  spec_run (pc_stack_of demo, tst (demo.[SSTAT]) PC_OVER) demo_ops = ([9; 7; 0], ([], false)) /\
  let '(out, (l, over)) := spec_run (pc_stack_of demo, tst (demo.[SSTAT]) PC_OVER) demo_ops in
  eval (mach_run demo_ops) demo = out /\ pc_stack_of (exec (mach_run demo_ops) demo) = l /\
  tst ((exec (mach_run demo_ops) demo).[SSTAT]) PC_OVER = over /\
  tst ((exec (mach_run demo_ops) demo).[SSTAT]) PC_EMPTY = bool_decide (l = []).
Proof.
  split; [vm_compute; reflexivity|].
  assert (tst (demo.[SSTAT]) PC_EMPTY = (demo.[PC_SP] =? 0)) as He by (vm_compute; reflexivity).
  exact (pc_stack_refines demo_ops demo demo_wf He).
Defined.

(** [demo] with AR = 5 in bank 0 and MSTAT asking for bank 1. *)
Definition bank_demo : state := set MSTAT 1 (set (Core AR) 5 demo).
Lemma bank_demo_wf : Wf bank_demo.
Proof. apply wf_set; [apply wf_set; [apply demo_wf|by vm_compute]|by vm_compute]. Qed.
Lemma line_timer_quiet f on s g :
  timer_fired (Host := line_host) = Some f -> (exec (f on) s).[g] = s.[g].
Proof.
  intros [= <-]. unfold WWORD_IO. rewrite exec_awr; [by gets|].
  cbn [alen]. pose proof (land_range_r 2 0x7ff ltac:(lia)). lia.
Qed.
Lemma bank_switch_witness :
  banked (exec (update_mstat (host := line_host)) bank_demo) false AR = 5 /\
  (exec (update_mstat (host := line_host)) bank_demo).[Core AR] = 0.
Proof.
  destruct (bank_switch (host := line_host) line_timer_quiet bank_demo bank_demo_wf) as (H1 & H2 & _).
  rewrite H1, H2. split; vm_compute; reflexivity.
Defined.

(** [demo] with SPORT0 receive (priority 4) latched and everything unmasked. *)
Definition irq_demo : state := aset IRQ_LATCH 3 1 (set IMASK 0x3ff (set PC 0x123 demo)).
Lemma irq_demo_wf : Wf irq_demo.
Proof.
  apply wf_aset; [|by vm_compute].
  apply wf_set; [apply wf_set; [apply demo_wf|by vm_compute]|by vm_compute].
Qed.
Lemma check_irqs_priority_witness :
  irq_entered irq_demo (exec (check_irqs) irq_demo) 3 4.
Proof. exact (check_irqs_priority irq_demo irq_demo_wf). Defined.
Lemma interrupt_round_trip_witness :
  (exec (return_op (host := null_host) 0x1f) (exec (check_irqs) irq_demo)).[PC] = 0x123.
Proof.
  refine (proj1 (interrupt_round_trip (host := null_host) irq_demo 3 4 irq_demo_wf _ _ _ _ _));
    vm_compute; reflexivity.
Defined.
