(* ===== verification/LoopSpec.v ===== *)
(** * Specification of the zero-overhead loops

    A DO instruction in program memory, with CNTR = n, makes the sequencer
    execute the instructions after it up to its end address n times, whatever
    straight-line code they are; then the PC stack, the depth of the loop stack
    and the loop registers are as they were before the DO, and CNTR is the
    count below on the counter stack. *)
From S2P Require Import Prelude State Tables Memory Stacks Regs Alu Mac Shift Exec Api Effects EffectsOps EffectsExec Invariants MemorySpec RegsSpec ApiSpec StacksSpec.

(** ** Definitions *)

(** The program word fetched at [a]. *)
Definition fetched (s : state) (a : Z) : Z := eval (RWORD_PGM a) s.

(** *** Straight-line instructions

    Instructions that neither transfer control nor touch the stacks, CNTR or
    program memory: computations, moves between the registers of groups 0 to 2,
    immediate loads of those, and data-memory accesses, alone or combined, and
    reads of program memory. A conditional computation is one unless its
    condition is CE, which counts CNTR down. *)
Definition straight_reg (grp reg : Z) : bool := (grp <? 3) && negb ((grp =? 1) && (reg =? 14)).
Definition unless_ce (op : Z) : bool := negb (op &&& 15 =? 14).

Definition straight_0x (op : Z) : bool :=
  match op >>> 16 with
  | 0x00 | 0x05 | 0x06 | 0x07 | 0x08 | 0x09 | 0x0f => true
  | 0x0d => (((op >>> 8) &&& 3) <? 3) && straight_reg ((op >>> 10) &&& 3) ((op >>> 4) &&& 15)
  | 0x0e => unless_ce op
  | _ => false
  end.
Definition straight_1x (op : Z) : bool :=
  match op >>> 16 with 0x10 | 0x12 | 0x13 => true | _ => false end.
Definition straight_2x (op : Z) : bool :=
  match op >>> 16 with
  | 0x20 | 0x21 | 0x22 | 0x23 | 0x24 | 0x25 | 0x26 | 0x27 => unless_ce op
  | _ => true
  end.
Definition straight_3x (op : Z) : bool :=
  match op >>> 16 with
  | 0x30 | 0x31 | 0x32 | 0x33 | 0x38 | 0x39 | 0x3a | 0x3b => true
  | 0x34 | 0x35 | 0x36 | 0x37 => straight_reg 1 (op &&& 15)
  | _ => false
  end.
Definition straight_8x (op : Z) : bool :=
  match op >>> 16 with
  | 0x80 | 0x81 | 0x82 | 0x83 | 0x88 | 0x89 | 0x8a | 0x8b => true
  | 0x84 | 0x85 | 0x86 | 0x87 => straight_reg 1 (op &&& 15)
  | _ => false
  end.
Definition straight_5x (op : Z) : bool :=
  match op >>> 16 with
  | 0x50 | 0x51 | 0x52 | 0x53 | 0x54 | 0x55 | 0x56 | 0x57 => true
  | _ => false
  end.
Definition straight_9x (op : Z) : bool :=
  match op >>> 16 with
  | 0x90 | 0x91 | 0x92 | 0x93 | 0x94 | 0x95 | 0x96 | 0x97 | 0x98 | 0x99 | 0x9a | 0x9b => true
  | _ => false
  end.
Definition straight (op : Z) : bool :=
  match op >>> 20 with
  | 0x0 => straight_0x op
  | 0x1 => straight_1x op
  | 0x2 => straight_2x op
  | 0x3 => straight_3x op
  | 0x5 => straight_5x op
  | 0x8 => straight_8x op
  | 0x9 => straight_9x op
  | _ => true
  end.

(** [DO last UNTIL CE] *)
Definition do_ce (last : Z) : Z := 0x14000e + 16 * last.

(** [k] passes of [execute]'s loop. *)
Definition steps {host : Host} (k : nat) (s : state) : state := Nat.iter k (exec step) s.

(** What straight-line instructions leave alone. *)
Definition calm_f (f : field) : bool :=
  match f with
  | PC | LOOP | LOOP_CONDITION | LOOP_SP | PC_SP | CNTR | CNTR_VALID | CNTR_SP | SSTAT
  | PMOVLAY => false
  | _ => true
  end.
Definition calm_a (a : arr) : bool :=
  match a with
  | PC_STACK | LOOP_STACK | CNTR_STACK | PROGRAM | PROGRAM_OVERLAY | FORCE_PM_FETCH
  | FORCE_PM_FETCH_VALUE => false
  | _ => true
  end.
Notation calm := (touches calm_f calm_a).

(** ** Straight-line instructions are calm *)
Lemma calm_rd_u x : hoare calm (rd_u x) any.
Proof. unfold rd_u. destruct x; hoare_auto. Qed.
Lemma calm_rd_s x : hoare calm (rd_s x) any.
Proof. unfold rd_s. eapply (hoare_bind _ _ any); [apply calm_rd_u|]. intros; by apply hoare_ret. Qed.
#[local] Hint Resolve calm_rd_u calm_rd_s : hoare_db.
Lemma calm_wr_r x v : (forall r, x = Full r -> ffull (Core r) = true) -> hoare calm (wr_r x v) any.
Proof.
  intros H. unfold wr_r. destruct x; try solve [hoare_auto].
  eapply hoare_wr_full; [typeclasses eauto|by apply H].
Qed.
#[local] Hint Extern 1 (hoare calm (wr_r _ _) _) => apply calm_wr_r; done : hoare_db.
Lemma calm_normalize_mr : hoare calm normalize_mr any.
Proof. unfold normalize_mr. hoare_auto. Qed.
#[local] Hint Resolve calm_normalize_mr : hoare_db.
Lemma calm_wr_l k v : 0 <= k < 8 -> hoare calm (wr_l k v) any.
Proof. intros Hk. eapply touches_weaken; [| |by apply touches_wr_l]; [done|by intros []]. Qed.
Lemma calm_wr_i k v : 0 <= k < 8 -> hoare calm (wr_i k v) any.
Proof. intros Hk. unfold wr_i, update_i. hoare_auto. Qed.
Lemma calm_wr_m k v : 0 <= k < 8 -> hoare calm (wr_m k v) any.
Proof. intros Hk. unfold wr_m. pose proof (sign_extend_14_range v). hoare_auto. Qed.
#[local] Hint Extern 1 (hoare calm (wr_l _ _) _) => apply calm_wr_l; lia : hoare_db.
#[local] Hint Extern 1 (hoare calm (wr_i _ _) _) => apply calm_wr_i; lia : hoare_db.
#[local] Hint Extern 1 (hoare calm (wr_m _ _) _) => apply calm_wr_m; lia : hoare_db.

Section Host.
Context {host : Host}.

Lemma calm_WRITE_REG grp reg val : 0 <= grp -> straight_reg grp reg = true ->
  hoare calm (WRITE_REG grp reg val) any.
Proof.
  intros Hg Hr. unfold straight_reg in Hr. apply andb_true_iff in Hr as [Hlt Hr].
  apply Z.ltb_lt in Hlt. assert (grp = 0 \/ grp = 1 \/ grp = 2) as [-> | [-> | ->]] by lia.
  all: unfold WRITE_REG; cbv zeta; generalize (s32 val); clear val; intros val;
    cbn [Z.eqb Pos.eqb andb] in Hr; revert Hr; clear Hlt Hg.
  - intros _. switch_cases;
      unfold wr_ax0, wr_ax1, wr_mx0, wr_mx1, wr_ay0, wr_ay1, wr_my0, wr_my1,
        wr_si, wr_se, wr_ar, wr_mr0, wr_mr1, wr_mr2, wr_sr0, wr_sr1; hoare_auto.
  - intros Hr. switch_cases; try discriminate Hr; unfold wr_inval, wr_dmovlay; hoare_auto.
  - intros _. switch_cases; unfold wr_inval; hoare_auto.
Qed.

Lemma calm_READ_REG grp reg : 0 <= grp < 3 -> hoare calm (READ_REG grp reg) any.
Proof using Type.
  intros Hg. unfold READ_REG. eapply (hoare_bind _ _ any); [|intros; by apply hoare_ret].
  assert (grp = 0 \/ grp = 1 \/ grp = 2) as [-> | [-> | ->]] by lia;
    switch_cases; unfold rd_inval; hoare_auto.
Qed.
#[local] Hint Extern 1 (hoare calm (READ_REG _ _) _) => apply calm_READ_REG; lia : hoare_db.
#[local] Hint Extern 1 (hoare calm (WRITE_REG _ _ _) _) => apply calm_WRITE_REG; [lia|done] : hoare_db.

(** Memory and the address generators. *)
Lemma calm_RWORD_DATA x : hoare calm (RWORD_DATA x) any.
Proof using Type. eapply touches_weaken; [| |apply watch_RWORD_DATA]; [done|by intros []]. Qed.
Lemma calm_RWORD_PGM x : hoare calm (RWORD_PGM x) any.
Proof using Type. eapply touches_weaken; [| |apply watch_RWORD_PGM]; [done|by intros []]. Qed.
Lemma calm_WWORD_DATA x v : hoare calm (WWORD_DATA x v) any.
Proof using Type.
  intros s Hs. split; [|done]. rewrite WWORD_DATA_eq by done. cbv zeta.
  pose proof (mask14_range x) as Hx. generalize dependent (x &&& 0x3fff). clear x. intros x Hx.
  pose proof (u16_range v) as Hv. pose proof (pinned_dm_range s x _ Hs Hv) as Hp.
  destruct (dm_prefix_touches x (u16 v) Hx Hv s Hs) as [(Hw & Hf & Ha) _]. specialize (Hw Hs).
  set (t := exec _ s) in *.
  transitivity t; [split; [done|split; [intros f E; apply Hf; by destruct f|intros a E; apply Ha; by destruct a]]|].
  destruct (dm_cell_ok s x Hx) as [[-> | ->] Hk]; (apply can_put; [done|done|]);
    unfold in_arange; hoare_ranges; lia.
Qed.
#[local] Hint Resolve calm_RWORD_DATA calm_RWORD_PGM calm_WWORD_DATA : hoare_db.
Lemma calm_modified_address i m : 0 <= i < 8 -> 0 <= m < 8 ->
  hoare calm (modified_address i m) (fun v => 0 <= v <= 0x3fff).
Proof using Type. intros. unfold modified_address. hoare_auto. Qed.
#[local] Hint Resolve calm_modified_address : hoare_db.
Lemma calm_modify_address i m : 0 <= i < 8 -> 0 <= m < 8 -> hoare calm (modify_address i m) any.
Proof using Type. intros. unfold modify_address. hoare_auto. Qed.
#[local] Hint Extern 1 (hoare calm (modify_address _ _) _) =>
  apply calm_modify_address; hoare_side : hoare_db.
Lemma calm_data_read_dag1 op : hoare calm (data_read_dag1 op) any.
Proof using Type. unfold data_read_dag1. hoare_auto. Qed.
Lemma calm_data_read_dag2 op : hoare calm (data_read_dag2 op) any.
Proof using Type. unfold data_read_dag2. hoare_auto. Qed.
Lemma calm_pgm_read_dag2 op : hoare calm (pgm_read_dag2 op) any.
Proof using Type. unfold pgm_read_dag2. hoare_auto. Qed.
Lemma calm_data_write_dag1 op v : hoare calm (data_write_dag1 op v) any.
Proof using Type. unfold data_write_dag1. hoare_auto. Qed.
Lemma calm_data_write_dag2 op v : hoare calm (data_write_dag2 op v) any.
Proof using Type. unfold data_write_dag2. hoare_auto. Qed.
#[local] Hint Resolve calm_data_read_dag1 calm_data_read_dag2 calm_pgm_read_dag2
  calm_data_write_dag1 calm_data_write_dag2 : hoare_db.

(** The computational units. *)
Ltac unfold_flags := unfold CALC_NZVC_SUB, CALC_NZVC, CALC_NZV, CALC_NZ, CALC_N, CALC_Z,
  CALC_V, CALC_C, CALC_C_SUB, CLR_FLAGS, GET_C, GET_V, GET_Q, GET_SS, GET_MV.
Lemma calm_SET_F flag : 0 <= flag <= 0xff -> hoare calm (SET_F flag) any.
Proof using Type. intros. unfold SET_F. hoare_auto. Qed.
Lemma calm_CLR_F flag : hoare calm (CLR_F flag) any.
Proof using Type. unfold CLR_F. hoare_auto. Qed.
#[local] Hint Extern 1 (hoare calm (SET_F _) _) => apply calm_SET_F; hoare_side : hoare_db.
#[local] Hint Resolve calm_CLR_F : hoare_db.
Lemma calm_ym1_mark_all l : hoare calm (ym1_mark_all l) any.
Proof using Type.
  induction l as [|r l IH]; cbn [ym1_mark_all]; [apply hoare_skip|].
  eapply (hoare_bind _ _ any); [|done]. unfold ym1_mark. apply hoare_for_upto. intros k.
  destruct (r.1 <? 0) eqn:E1, (r.2 >? 0x3fff) eqn:E2; intros Hk; hoare_auto.
Qed.
#[local] Hint Resolve calm_ym1_mark_all : hoare_db.
Lemma calm_YM1_CARRY y r : hoare calm (YM1_CARRY y r) any.
Proof using Type. unfold YM1_CARRY, ym1_env_init. unfold_flags. hoare_auto. Qed.
#[local] Hint Resolve calm_YM1_CARRY : hoare_db.
Lemma calm_alu_switch op getx gety : hoare calm getx any -> hoare calm gety any ->
  hoare calm (alu_switch op getx gety) any.
Proof using Type.
  intros Hx Hy. unfold alu_switch. generalize ((op >>> 13) &&& 15). intros n.
  unfold_flags. switch_cases; hoare_auto.
Qed.
Lemma calm_alu_saturate res : hoare calm (alu_saturate res) any.
Proof using Type. unfold alu_saturate, GET_V, GET_C. hoare_auto. Qed.
#[local] Hint Resolve calm_alu_saturate : hoare_db.
#[local] Hint Extern 1 (hoare calm (alu_switch _ _ _) _) =>
  apply calm_alu_switch; [apply calm_rd_u|first [apply calm_rd_u|by apply hoare_ret]] : hoare_db.
Lemma calm_alu_op_ar op : hoare calm (alu_op_ar op) any.
Proof using Type. unfold alu_op_ar. hoare_auto. Qed.
Lemma calm_alu_op_ar_const op : hoare calm (alu_op_ar_const op) any.
Proof using Type. unfold alu_op_ar_const. hoare_auto. Qed.
Lemma calm_alu_op_af op : hoare calm (alu_op_af op) any.
Proof using Type. unfold alu_op_af. hoare_auto. Qed.
Lemma calm_alu_op_af_const op : hoare calm (alu_op_af_const op) any.
Proof using Type. unfold alu_op_af_const. hoare_auto. Qed.
Lemma calm_alu_op_none op : hoare calm (alu_op_none op) any.
Proof using Type. unfold alu_op_none. hoare_auto. Qed.
Lemma calm_divs op : hoare calm (divs op) any.
Proof using Type. unfold divs, QFLAG, ALU_GETXREG_UNSIGNED, ALU_GETYREG_UNSIGNED. hoare_auto. Qed.
Lemma calm_divq op : hoare calm (divq op) any.
Proof using Type. unfold divq, QFLAG, ALU_GETXREG_UNSIGNED, GET_Q. hoare_auto. Qed.
#[local] Hint Resolve calm_alu_op_ar calm_alu_op_ar_const calm_alu_op_af calm_alu_op_af_const
  calm_alu_op_none calm_divs calm_divq : hoare_db.

Lemma calm_mac_round_mode res : hoare calm (mac_round_mode res) any.
Proof using Type. unfold mac_round_mode. hoare_auto. Qed.
#[local] Hint Resolve calm_mac_round_mode : hoare_db.
Lemma calm_mac_switch op xs xu ys yu : hoare calm xs any -> hoare calm xu any ->
  hoare calm ys any -> hoare calm yu any -> hoare calm (mac_switch op xs xu ys yu) any.
Proof using Type.
  intros. unfold mac_switch, mac_shift, mr_plus, mr_minus. generalize ((op >>> 13) &&& 15).
  intros n. eapply (hoare_bind _ _ any); [hoare_auto|]. intros sh _. cbv zeta.
  switch_cases; hoare_auto.
Qed.
Lemma calm_mac_switch_xop op xs xu : hoare calm xs any -> hoare calm xu any ->
  hoare calm (mac_switch_xop op xs xu) any.
Proof using Type.
  intros. unfold mac_switch_xop, mac_shift, mr_plus, mr_minus. generalize ((op >>> 13) &&& 15).
  intros n. eapply (hoare_bind _ _ any); [hoare_auto|]. intros sh _. cbv zeta.
  switch_cases; hoare_auto.
Qed.
#[local] Hint Extern 1 (hoare calm (mac_switch _ _ _ _ _) _) =>
  apply calm_mac_switch; first [apply calm_rd_u|apply calm_rd_s] : hoare_db.
#[local] Hint Extern 1 (hoare calm (mac_switch_xop _ _ _) _) =>
  apply calm_mac_switch_xop; first [apply calm_rd_u|apply calm_rd_s] : hoare_db.
Lemma calm_mac_end r : hoare calm (mac_to_mr r) any /\ hoare calm (mac_to_mf r) any.
Proof using Type. unfold mac_to_mr, mac_to_mf, mac_set_mv. destruct r; split; hoare_auto. Qed.
#[local] Hint Extern 1 (hoare calm (mac_to_mr _) _) => apply calm_mac_end : hoare_db.
#[local] Hint Extern 1 (hoare calm (mac_to_mf _) _) => apply calm_mac_end : hoare_db.
Lemma calm_mac_op_mr op : hoare calm (mac_op_mr op) any.
Proof using Type. unfold mac_op_mr. hoare_auto. Qed.
Lemma calm_mac_op_mf op : hoare calm (mac_op_mf op) any.
Proof using Type. unfold mac_op_mf. hoare_auto. Qed.
Lemma calm_mac_op_mr_xop op : hoare calm (mac_op_mr_xop op) any.
Proof using Type. unfold mac_op_mr_xop. hoare_auto. Qed.
Lemma calm_mac_op_mf_xop op : hoare calm (mac_op_mf_xop op) any.
Proof using Type. unfold mac_op_mf_xop. hoare_auto. Qed.
Lemma calm_saturate_mr : hoare calm saturate_mr any.
Proof using Type. unfold saturate_mr, GET_MV. hoare_auto. Qed.
#[local] Hint Resolve calm_mac_op_mr calm_mac_op_mf calm_mac_op_mr_xop calm_mac_op_mf_xop
  calm_saturate_mr : hoare_db.

(** A register read as a signed word is in the exponent loops' range. *)
Lemma calm_rd_range x : hoare calm (rd_s x) (fun v => -32768 <= v <= 32767).
Proof using Type.
  unfold rd_s. eapply (hoare_bind _ _ any); [apply calm_rd_u|]. intros v _.
  apply hoare_ret, s16_range.
Qed.
Ltac exp_step := first
  [ rewrite exp_hi_spec by lia | rewrite exp_lo_spec by lia
  | match goal with |- hoare _ (rd_s _ ≫= _) _ => eapply hoare_bind; [apply calm_rd_range|] end
  | progress cbn [loop_result] | hoare_step ].
Lemma calm_shift_into_sr op sc : hoare calm (shift_into_sr op sc) any.
Proof using Type.
  unfold shift_into_sr, sr_set, sr_or, SHIFT_GETXREG_UNSIGNED, SHIFT_GETXREG_SIGNED.
  cbv zeta. generalize ((op >>> 11) &&& 15). intros n. switch_cases; hoare_auto.
Qed.
#[local] Hint Resolve calm_shift_into_sr : hoare_db.
Lemma calm_shift_op_imm op : hoare calm (shift_op_imm op) any.
Proof using Type. unfold shift_op_imm. hoare_auto. Qed.
Lemma calm_shift_op op : hoare calm (shift_op op) any.
Proof using Type.
  unfold shift_op, exp_hi_op, exp_hix_op, exp_lo_op, expadj_op, SHIFT_GETXREG_SIGNED,
    GET_V, GET_SS. cbv zeta. generalize ((op >>> 11) &&& 15). intros n.
  eapply hoare_bind; [apply calm_rd_range|]. intros se _. cbv beta.
  switch_cases; repeat (cbv beta zeta; exp_step).
Qed.

(** ** The shapes of an instruction *)
Lemma calm_if_cond op body : unless_ce op = true -> hoare calm body any ->
  hoare calm (if_cond op body) any.
Proof using Type.
  intros Hc Hb. unfold if_cond. eapply (hoare_bind _ _ any).
  - intros s Hs. split; [|done]. unfold unless_ce in Hc.
    pose proof (land_range_r op 15 ltac:(lia)) as Hr. revert Hc Hr.
    generalize (op &&& 15). intros c Hc Hr. pose proof (wf_field s Hs ASTAT) as Ha.
    unfold in_frange in Ha. hoare_ranges. unfold CONDITION. rewrite Hc. run.
    assert ((c <<< 8) ||| s.[ASTAT] <? 0x1000 = true) as ->; [|reflexivity].
    assert (0 <= (c <<< 8) ||| s.[ASTAT] <= 4095); [|lia].
    apply (lor_le _ _ 12); [lia|done| |lia]. rewrite Z.shiftl_mul_pow2 by done. lia.
  - intros [] _; [done|apply hoare_skip].
Qed.
Lemma calm_on_2181 op mask pat a b : hoare calm a any -> hoare calm b any ->
  hoare calm (on_2181 op mask pat a b) any.
Proof using Type. intros. unfold on_2181. hoare_auto. Qed.
Lemma calm_with_move f op : hoare calm (f op) any -> hoare calm (with_move f op) any.
Proof using Type. intros H. unfold with_move. hoare_auto. Qed.
Lemma calm_with_read read f op : hoare calm (read op) any -> hoare calm (f op) any ->
  hoare calm (with_read read f op) any.
Proof using Type. intros H1 H2. unfold with_read. hoare_auto. Qed.
Lemma calm_with_write write f op : (forall v, hoare calm (write op v) any) ->
  hoare calm (f op) any -> hoare calm (with_write write f op) any.
Proof using Type.
  intros H1 H2. unfold with_write. eapply (hoare_bind _ _ any); [apply calm_READ_REG; lia|].
  intros v _. eapply (hoare_bind _ _ any); [apply H1|]. by intros _ _.
Qed.
Ltac comp := solve [eauto with hoare_db nocore].
#[local] Hint Resolve calm_shift_op calm_shift_op_imm : hoare_db.
Lemma calm_dual_read f x y op : ffull (Core x) = true -> ffull (Core y) = true ->
  hoare calm (f op) any -> hoare calm (dual_read f x y op) any.
Proof using Type.
  intros Hx Hy Hf. unfold dual_read.
  assert (forall r, ffull (Core r) = true -> forall v, hoare calm (wr (Core r) v) any) as Hw.
  { intros r Hr v. eapply hoare_wr_full; [typeclasses eauto|done]. }
  eapply (hoare_bind _ _ any); [done|]. intros _ _.
  eapply (hoare_bind _ _ any); [comp|]. intros v _.
  eapply (hoare_bind _ _ any); [by apply Hw|]. intros _ _.
  eapply (hoare_bind _ _ any); [comp|]. intros w _. by apply Hw.
Qed.
#[local] Hint Extern 1 (hoare calm (with_move _ _) _) => apply calm_with_move; comp : hoare_db.
#[local] Hint Extern 1 (hoare calm (with_read _ _ _) _) => apply calm_with_read; comp : hoare_db.
#[local] Hint Extern 1 (hoare calm (with_write _ _ _) _) =>
  apply calm_with_write; [intros; comp|comp] : hoare_db.
#[local] Hint Extern 1 (hoare calm (dual_read _ _ _ _) _) =>
  apply calm_dual_read; [reflexivity|reflexivity|comp] : hoare_db.
#[local] Hint Extern 1 (hoare calm (on_2181 _ _ _ _ _) _) => apply calm_on_2181; comp : hoare_db.
#[local] Hint Extern 1 (hoare calm (if_cond _ _) _) => apply calm_if_cond; [assumption|comp] : hoare_db.
#[local] Hint Extern 1 (hoare calm skip _) => apply hoare_skip : hoare_db.

(** ** One nibble at a time *)
Lemma calm_0x op : straight_0x op = true -> hoare calm (exec_0x op) any.
Proof using Type.
  unfold straight_0x, exec_0x. cbv zeta. generalize (op >>> 16). intros n H.
  switch_cases; try discriminate H; try comp.
  apply andb_true_iff in H as [H1%Z.ltb_lt H2].
  pose proof (land_range_r (op >>> 8) 3 ltac:(lia)). pose proof (land_range_r (op >>> 10) 3 ltac:(lia)).
  eapply (hoare_bind _ _ any); [apply calm_READ_REG; lia|]. intros v _. apply calm_WRITE_REG; [lia|done].
Qed.
Lemma calm_1x op : straight_1x op = true -> hoare calm (exec_1x op) any.
Proof using Type.
  unfold straight_1x, exec_1x. generalize (op >>> 16). intros n H.
  switch_cases; try discriminate H; try destruct (tst op 0x8000); comp.
Qed.
Lemma calm_2x op : straight_2x op = true -> hoare calm (exec_2x op) any.
Proof using Type.
  unfold straight_2x, exec_2x. generalize (op >>> 16). intros n H. switch_cases; comp.
Qed.
Lemma calm_3x op : straight_3x op = true -> hoare calm (exec_3x op) any.
Proof using Type.
  unfold straight_3x, exec_3x. generalize (op >>> 16). intros n H.
  switch_cases; try discriminate H; (apply calm_WRITE_REG; [lia|done]).
Qed.
Lemma calm_5x op : straight_5x op = true -> hoare calm (exec_5x op) any.
Proof using Type.
  unfold straight_5x, exec_5x. generalize (op >>> 16). intros n H.
  switch_cases; try discriminate H; comp.
Qed.
Lemma calm_6x op : hoare calm (exec_6x op) any.
Proof using Type. unfold exec_6x. generalize (op >>> 16). intros n. switch_cases; comp. Qed.
Lemma calm_7x op : hoare calm (exec_7x op) any.
Proof using Type. unfold exec_7x. generalize (op >>> 16). intros n. switch_cases; comp. Qed.
Lemma calm_load_dm grp op : 0 <= grp -> straight_reg grp (op &&& 15) = true ->
  hoare calm (load_dm grp op) any.
Proof using Type.
  intros Hg H. unfold load_dm. eapply (hoare_bind _ _ any); [comp|].
  intros v _. by apply calm_WRITE_REG.
Qed.
Lemma calm_8x op : straight_8x op = true -> hoare calm (exec_8x op) any.
Proof using Type.
  unfold straight_8x, exec_8x. generalize (op >>> 16). intros n H.
  switch_cases; try discriminate H; (apply calm_load_dm; [lia|done]).
Qed.
Lemma calm_store_dm grp op : 0 <= grp < 3 -> hoare calm (store_dm grp op) any.
Proof using Type.
  intros Hg. unfold store_dm. eapply (hoare_bind _ _ any); [by apply calm_READ_REG|].
  intros v _. comp.
Qed.
Lemma calm_9x op : straight_9x op = true -> hoare calm (exec_9x op) any.
Proof using Type.
  unfold straight_9x, exec_9x. generalize (op >>> 16). intros n H.
  switch_cases; try discriminate H; (apply calm_store_dm; lia).
Qed.
Lemma calm_cf op : hoare calm (exec_cf op) any.
Proof using Type. unfold exec_cf. generalize (op >>> 16). intros n. switch_cases; comp. Qed.

Lemma calm_straight op : straight op = true -> hoare calm (exec_op op) any.
Proof using Type.
  unfold straight, exec_op. generalize (op >>> 20). intros n H.
  switch_cases; try (by apply calm_0x); try (by apply calm_1x); try (by apply calm_2x);
    try (by apply calm_3x); try (by apply calm_5x); try (by apply calm_8x); try (by apply calm_9x).
  all: first [apply calm_cf|apply calm_6x|apply calm_7x|unfold exec_4x, exec_ax, exec_bx].
  all: first [comp|apply calm_WRITE_REG; [lia|done]].
Qed.
End Host.

(** ** The sequencer's pops *)
Definition none_a (a : arr) : bool := false.
Lemma pc_pop_val_touches : hoare (touches pc_push_f none_a) pc_stack_pop_val any.
Proof. unfold pc_stack_pop_val, sstat_or, PC_EMPTY. hoare_auto. Qed.
Lemma pc_pop_val_list s : Wf s -> pc_stack_of (exec pc_stack_pop_val s) = tail (pc_stack_of s).
Proof.
  intros Hs. destruct (pc_stack_pop_val_exec s Hs) as [-> _]. cbv zeta.
  pose proof (wf_field s Hs PC_SP) as Hp. unfold in_frange in Hp. cbn in Hp.
  pose proof (pc_stack_length s Hs) as Hlen. destruct (note_frame s) as (E1 & E2 & E3).
  destruct (Z.gtb_spec (s.[PC_SP]) 0).
  - rewrite (pc_stack_of_pop s) by lia. cbn [tail]. unfold sstat_or.
    apply pc_stack_of_frame; destruct (_ =? 0); run; gets; try done;
      rewrite ?ars_set; by rewrite E3.
  - destruct (pc_stack_of s) eqn:E; [|cbn [length] in Hlen; lia]. cbn [tail]. rewrite <- E.
    unfold sstat_or. apply pc_stack_of_frame; run; gets; [done|]. rewrite ?ars_set. by rewrite E3.
Qed.
Definition cntr_pop_f (f : field) : bool :=
  match f with CNTR | CNTR_VALID | CNTR_SP | SSTAT => true | _ => false end.
Definition loop_pop_f (f : field) : bool :=
  match f with LOOP | LOOP_CONDITION | LOOP_SP | SSTAT => true | _ => false end.
Lemma cntr_pop_touches : hoare (touches cntr_pop_f none_a) cntr_stack_pop any.
Proof. unfold cntr_stack_pop, sstat_or, COUNT_EMPTY. hoare_auto. Qed.
Lemma loop_pop_touches : hoare (touches loop_pop_f none_a) loop_stack_pop any.
Proof. unfold loop_stack_pop, sstat_or, LOOP_EMPTY. hoare_auto. Qed.

(** Popping a loop reloads the registers from the one below it. *)
Lemma loop_pop_exec s : Wf s -> 0 < s.[LOOP_SP] ->
  let t := exec loop_stack_pop s in let sp := s.[LOOP_SP] - 1 in
  t.[LOOP_SP] = sp /\
  (if sp =? 0 then t.[LOOP] = 0xffff /\ t.[LOOP_CONDITION] = 0
   else t.[LOOP] = s.{LOOP_STACK, sp - 1} >>> 4 /\
        t.[LOOP_CONDITION] = s.{LOOP_STACK, sp - 1} &&& 15).
Proof.
  intros Hs Hp. cbv zeta. pose proof (wf_field s Hs LOOP_SP) as Hls. unfold in_frange in Hls. cbn in Hls.
  unfold loop_stack_pop, sstat_or. run. assert (s.[LOOP_SP] >? 0 = true) as -> by lia.
  gets. assert (conv (fty LOOP_SP) (s.[LOOP_SP] - 1) = s.[LOOP_SP] - 1) as -> by (apply conv_id; cbn; lia).
  destruct (Z.eqb_spec (s.[LOOP_SP] - 1) 0); run; gets; [done|].
  pose proof (wf_range_elem s LOOP_STACK (s.[LOOP_SP] - 1 - 1) Hs) as Hr. cbn in Hr.
  pose proof (shr_le (s.{LOOP_STACK, s.[LOOP_SP] - 1 - 1}) 4 0x3fff 0x3ffff ltac:(lia) Hr ltac:(done)).
  pose proof (land_range_r (s.{LOOP_STACK, s.[LOOP_SP] - 1 - 1}) 15 ltac:(lia)).
  split; [done|]. split; apply conv_id; hoare_ranges; lia.
Qed.
(** Popping the counter takes the count below it. *)
Lemma cntr_pop_exec s : Wf s ->
  (exec cntr_stack_pop s).[CNTR] =
  if s.[CNTR_SP] >? 0 then s.{CNTR_STACK, s.[CNTR_SP] - 1} else s.[CNTR].
Proof.
  intros Hs. pose proof (wf_field s Hs CNTR_SP) as Hp. unfold in_frange in Hp. cbn in Hp.
  unfold cntr_stack_pop, sstat_or. run. destruct (Z.gtb_spec (s.[CNTR_SP]) 0); run; gets; [|done].
  assert (conv (fty CNTR_SP) (s.[CNTR_SP] - 1) = s.[CNTR_SP] - 1) as -> by (apply conv_id; cbn; lia).
  pose proof (wf_range_elem s CNTR_STACK (s.[CNTR_SP] - 1) Hs) as Hr. cbn in Hr.
  destruct (_ =? 0); run; gets; apply conv_id; hoare_ranges; lia.
Qed.

(** ** The end of the loop *)
Lemma pc_stack_top_eval s v l : Wf s -> pc_stack_of s = v :: l ->
  eval pc_stack_top s = v /\ exec pc_stack_top s = s.
Proof.
  intros Hs Hl. pose proof (wf_field s Hs PC_SP) as Hp. unfold in_frange in Hp. cbn in Hp.
  pose proof (pc_stack_length s Hs) as Hlen. rewrite Hl in Hlen. cbn [length] in Hlen.
  rewrite pc_stack_of_pop in Hl by lia. injection Hl as Hv _.
  unfold pc_stack_top. run. assert (s.[PC_SP] >? 0 = true) as -> by lia. by run.
Qed.

(** CE: count down; the last count pops the counter stack. *)
Lemma ce_more s n : s.[CNTR] = n -> 1 < n < 2 ^ 31 ->
  eval (CONDITION 14) s = true /\ exec (CONDITION 14) s = set CNTR (n - 1) s.
Proof.
  intros Hn Hr. unfold CONDITION. cbn [negb Z.eqb Pos.eqb].
  assert (conv (fty CNTR) (n - 1) = n - 1) as E by (apply conv_id; cbn; lia).
  assert (s32 (n - 1) = n - 1) as E' by (apply conv_id; cbn; lia).
  run. rewrite Hn, E. gets. rewrite E'. by assert (n - 1 >? 0 = true) as -> by lia.
Qed.
Lemma ce_last s : s.[CNTR] = 1 ->
  eval (CONDITION 14) s = false /\ exec (CONDITION 14) s = exec cntr_stack_pop (set CNTR 0 s).
Proof.
  intros Hn. unfold CONDITION. cbn [negb Z.eqb Pos.eqb]. run. rewrite Hn. by gets.
Qed.

Lemma pass_more s n top rest : Wf s ->
  s.[PC] = s.[LOOP] -> s.[LOOP_CONDITION] = 14 -> s.[CNTR] = n -> 1 < n < 2 ^ 31 ->
  pc_stack_of s = top :: rest -> 0 <= top <= 0xffffffff ->
  exec advance_pc s = set PC top (set CNTR (n - 1) s).
Proof.
  intros Hs Hpc Hc Hn Hr Hl Ht. unfold advance_pc. rewrite exec_bind, eval_rd, exec_rd.
  rewrite exec_bind, eval_rd, exec_rd, Hpc, Z.eqb_refl. cbn [negb].
  rewrite exec_bind, eval_rd, exec_rd, Hc. rewrite exec_bind.
  destruct (ce_more s n Hn Hr) as [-> ->]. rewrite exec_bind.
  destruct (pc_stack_top_eval (set CNTR (n - 1) s) top rest) as [-> ->].
  - apply wf_set; [done|]. unfold in_frange. cbn. lia.
  - rewrite <- Hl. by apply pc_stack_of_frame.
  - rewrite exec_wr. f_equal. apply conv_id. cbn. lia.
Qed.


(** The last pass leaves the loop: past its end, with the loop, its return
    address and its counter popped. *)
Lemma pass_last s top rest : Wf s ->
  s.[PC] = s.[LOOP] -> s.[LOOP_CONDITION] = 14 -> s.[CNTR] = 1 -> 0 < s.[LOOP_SP] ->
  pc_stack_of s = top :: rest ->
  let t := exec advance_pc s in let sp := s.[LOOP_SP] - 1 in
  Wf t /\ t.[PC] = u32 (s.[PC] + 1) /\ pc_stack_of t = rest /\ t.[LOOP_SP] = sp /\
  (if sp =? 0 then t.[LOOP] = 0xffff /\ t.[LOOP_CONDITION] = 0
   else t.[LOOP] = s.{LOOP_STACK, sp - 1} >>> 4 /\
        t.[LOOP_CONDITION] = s.{LOOP_STACK, sp - 1} &&& 15) /\
  t.[CNTR] = if s.[CNTR_SP] >? 0 then s.{CNTR_STACK, s.[CNTR_SP] - 1} else 0.
Proof.
  intros Hs Hpc Hc Hn Hsp Hl. cbv zeta.
  unfold advance_pc. rewrite exec_bind, eval_rd, exec_rd.
  rewrite exec_bind, eval_rd, exec_rd, Hpc, Z.eqb_refl. cbn [negb].
  rewrite exec_bind, eval_rd, exec_rd, Hc. rewrite exec_bind.
  destruct (ce_last s Hn) as [-> ->].
  assert (Wf (set CNTR 0 s)) as Hw0 by (apply wf_set; [done|by vm_compute]).
  pose proof (cntr_pop_exec _ Hw0) as Hcp. rewrite aget_set, get_set_ne, get_set_eq in Hcp by done.
  set (c := exec cntr_stack_pop (set CNTR 0 s)) in *.
  destruct (cntr_pop_touches _ Hw0) as [(Hwc & Hfc & Hac) _]. specialize (Hwc Hw0). fold c in Hwc, Hfc, Hac.
  assert (forall f, f <> CNTR -> cntr_pop_f f = false -> c.[f] = s.[f]) as Fc
    by (intros f H1 H2; rewrite Hfc by done; by apply get_set_ne).
  assert (forall a, ars c a = ars s a) as Ac by (intros a; by rewrite Hac).
  rewrite exec_bind. destruct (loop_pop_touches c Hwc) as [(Hwd & Hfd & Had) _]. specialize (Hwd Hwc).
  pose proof (loop_pop_exec c Hwc) as Hld. cbv zeta in Hld. set (d := exec loop_stack_pop c) in *.
  rewrite (Fc LOOP_SP) in Hld by done. specialize (Hld Hsp). destruct Hld as [Hld1 Hld2].
  unfold aget at 1 2 in Hld2. rewrite Ac in Hld2.
  assert (pc_stack_of d = top :: rest) as Hd.
  { rewrite <- Hl. apply pc_stack_of_frame; [by rewrite Hfd, Fc|by rewrite Had, Ac]. }
  rewrite exec_bind. pose proof (pc_pop_val_list d Hwd) as Hpop. rewrite Hd in Hpop. cbn [tail] in Hpop.
  destruct (pc_pop_val_touches d Hwd) as [(Hwe & Hfe & _) _]. specialize (Hwe Hwd).
  set (e := exec pc_stack_pop_val d) in *. run.
  assert (e.[PC] = s.[PC]) as E by (by rewrite Hfe, Hfd, Fc).
  split; [apply wf_set; [done|by apply (ffull_ok PC)]|].
  rewrite E. split; [gets; by rewrite Hpc|]. split; [rewrite <- Hpop; by apply pc_stack_of_frame|].
  gets. rewrite !Hfe by done. split; [done|]. split; [exact Hld2|].
  rewrite Hfd by done. rewrite Hcp. done.
Qed.

(** ** Passes of the execution loop *)
Lemma fetched_calm s t a : Wf s -> calm s t -> fetched t a = fetched s a.
Proof.
  intros Hs (Hw & Hf & Ha). unfold fetched. rewrite !eval_RWORD_PGM by auto.
  unfold mem_read, pm_cell, aget. rewrite Hf, !Ha by done. by destruct (_ && _); cbn [fst snd]; rewrite Ha.
Qed.
Lemma calm_view s t : calm s t ->
  pc_stack_of t = pc_stack_of s /\ (forall f, calm_f f = false -> t.[f] = s.[f]) /\
  (forall a k, calm_a a = false -> t.{a, k} = s.{a, k}).
Proof.
  intros (_ & Hf & Ha). split; [apply pc_stack_of_frame; auto|]. split; [done|].
  intros a k H. unfold aget. by rewrite Ha.
Qed.

Section Run.
Context {host : Host} {hok : HostOk host}.

Definition notes (op : Z) : M unit :=
  note_history ;; note_coverage ;; note_exec ;; note_trace op.
Lemma calm_notes pc op : 0 <= pc <= 0xffffffff -> hoare calm (wr PPC pc ;; notes op) any.
Proof using Type.
  intros Hp. unfold notes, note_history, note_coverage, note_exec, note_trace. hoare_auto.
Qed.

(** A pass is the fetch, the advance and the instruction, between calm ends. *)
Lemma step_split s : Wf s -> exists p, calm s p /\ Wf p /\
  let q := exec (exec_op (fetched s (s.[PC]))) (exec advance_pc p) in
  Wf q /\ calm q (exec step s).
Proof using hok.
  intros Hs. pose proof (wf_field s Hs PC) as Hpc. unfold in_frange in Hpc. cbn in Hpc.
  set (op := fetched s (s.[PC])).
  exists (exec (wr PPC (s.[PC]) ;; notes op) s).
  destruct (calm_notes (s.[PC]) op Hpc s Hs) as [Hc _]. pose proof Hc as (Hw & _). specialize (Hw Hs).
  split; [done|]. split; [done|]. set (p := exec _ s) in *.
  destruct (ok_kept _ _ ok_advance_pc p Hw) as [Hwa _]. specialize (Hwa Hw).
  destruct (ok_kept _ _ (ok_exec_op op) _ Hwa) as [Hwq _]. specialize (Hwq Hwa). cbv zeta. split; [done|].
  assert (exec step_body s = exec (exec_op op) (exec advance_pc p)) as E.
  { unfold step_body, p, notes. rewrite !exec_bind, eval_rd, exec_rd.
    assert (conv (fty PPC) (s.[PC]) = s.[PC]) as Ec by (apply conv_id; cbn; lia).
    assert (set PPC (s.[PC]) s = exec (wr PPC (s.[PC])) s) as Ew by (by rewrite exec_wr, Ec).
    unfold ROPCODE. rewrite !exec_wr, Ec, !exec_bind, !eval_bind, !eval_rd, !exec_rd.
    assert ((set PPC (s.[PC]) s).[PC] = s.[PC]) as -> by (by gets).
    rewrite exec_RWORD_PGM.
    assert (eval (RWORD_PGM (s.[PC])) (set PPC (s.[PC]) s) = op) as ->; [|done].
    rewrite Ew. apply (fetched_calm s); [done|].
    refine (proj1 ((_ : hoare calm (wr PPC (s.[PC])) any) s Hs)). hoare_auto. }
  rewrite step_eq, E.
  refine (proj1 ((_ : hoare calm tick any) _ Hwq)). unfold tick. hoare_auto.
Qed.

(** A straight-line instruction: only the advance is not calm. *)
Lemma step_straight s : Wf s -> straight (fetched s (s.[PC])) = true ->
  exists p, calm s p /\ Wf p /\
  let r := exec advance_pc p in Wf r /\ calm r (exec step s) /\ Wf (exec step s).
Proof using hok.
  intros Hs Hst. destruct (step_split s Hs) as (p & Hp & Hwp & Hq & Hc). cbv zeta in *.
  exists p. split; [done|]. split; [done|].
  destruct (ok_kept _ _ ok_advance_pc p Hwp) as [Hwa _]. specialize (Hwa Hwp).
  destruct (calm_straight _ Hst _ Hwa) as [Hx _]. split; [done|].
  split; [by transitivity (exec (exec_op (fetched s (s.[PC]))) (exec advance_pc p))|].
  by apply Hc.
Qed.

(** ** Inside a loop

    [inside s last n i j t]: [t] is in pass [i] of the loop the DO at [s]
    entered, before the [j]-th instruction of its body. *)
Record inside (s : state) (last n i j : Z) (t : state) : Prop := {
  in_wf : Wf t;
  in_pc : t.[PC] = s.[PC] + 1 + j;
  in_end : t.[LOOP] = last /\ t.[LOOP_CONDITION] = 14;
  in_count : t.[CNTR] = n - i;
  in_top : pc_stack_of t = s.[PC] + 1 :: pc_stack_of s;
  in_sp : t.[LOOP_SP] = s.[LOOP_SP] + 1 /\ t.[CNTR_SP] = s.[CNTR_SP];
  in_below k : k < s.[LOOP_SP] -> t.{LOOP_STACK, k} = s.{LOOP_STACK, k};
  in_counts k : t.{CNTR_STACK, k} = s.{CNTR_STACK, k};
  in_code a : fetched t a = fetched s a;
}.

Section Loop.
Context (s : state) (last n : Z).
Hypothesis Hs : Wf s.
Hypothesis Hlast : s.[PC] < last <= 0x3fff.
Hypothesis Hbody : forall k, s.[PC] < k <= last -> straight (fetched s k) = true.
Hypothesis Hn : 1 <= n < 2 ^ 31.
Notation size := (last - s.[PC]).

Lemma pc_low : 0 <= s.[PC] < 0x3fff.
Proof using Hs Hlast. pose proof (wf_field s Hs PC) as H. unfold in_frange in H. cbn in H. lia. Qed.

Lemma inside_calm i j t t' : inside s last n i j t -> calm t t' -> inside s last n i j t'.
Proof using Type.
  intros [W P [L C] N T [S1 S2] B K F] Hc. destruct (calm_view t t' Hc) as (Tc & Fc & Ac).
  pose proof Hc as (Hw & _). specialize (Hw W).
  constructor; [done|..]; rewrite ?Fc, ?Tc by done; try done.
  - intros k Hk. rewrite Ac by done. by apply B.
  - intros k. rewrite Ac by done. by apply K.
  - intros a. rewrite (fetched_calm t t') by done. by apply F.
Qed.
Lemma fetched_set f v t a : Wf t -> Wf (set f v t) -> f <> PMOVLAY ->
  fetched (set f v t) a = fetched t a.
Proof using Type.
  intros H1 H2 Hf. unfold fetched. rewrite !eval_RWORD_PGM by done.
  unfold mem_read, pm_cell. rewrite !aget_set, get_set_ne by done. done.
Qed.

(** Before the last instruction of the body: on to the next. *)
Lemma inside_next i j t : inside s last n i j t -> 0 <= j < size - 1 ->
  inside s last n i (j + 1) (exec advance_pc t).
Proof using Hs Hlast.
  intros [W P [L C] N T [S1 S2] B K F] Hj. pose proof pc_low as Hpc.
  assert (exec advance_pc t = set PC (u32 (t.[PC] + 1)) t) as ->.
  { unfold advance_pc. run. assert (t.[PC] =? t.[LOOP] = false) as -> by lia. cbn [negb]. by run. }
  assert (u32 (t.[PC] + 1) = t.[PC] + 1) as -> by (apply conv_id; cbn; lia).
  assert (Wf (set PC (t.[PC] + 1) t)) as Hw by (apply wf_set; [done|unfold in_frange; cbn; lia]).
  constructor; gets; try done; [lia|]. intros a. by rewrite fetched_set.
Qed.
(** At the last instruction, with passes to go: back to the first. *)
Lemma inside_again i t : inside s last n i (size - 1) t -> 0 <= i < n - 1 ->
  inside s last n (i + 1) 0 (exec advance_pc t).
Proof using Hs Hlast Hn.
  intros [W P [L C] N T [S1 S2] B K F] Hi. pose proof pc_low as Hpc.
  rewrite (pass_more t (n - i) _ _ W ltac:(lia) C N ltac:(lia) T ltac:(lia)).
  assert (Wf (set CNTR (n - i - 1) t)) as H1 by (apply wf_set; [done|unfold in_frange; cbn; lia]).
  assert (Wf (set PC (s.[PC] + 1) (set CNTR (n - i - 1) t))) as Hw
    by (apply wf_set; [done|unfold in_frange; cbn; lia]).
  constructor; gets; try done; [lia|lia|]. intros a. by rewrite !fetched_set.
Qed.

(** After the loop: past its end, the loop and its counter popped. *)
Record left (t : state) : Prop := {
  left_wf : Wf t;
  left_pc : t.[PC] = last + 1;
  left_stack : pc_stack_of t = pc_stack_of s;
  left_loop : t.[LOOP_SP] = s.[LOOP_SP] /\ t.[LOOP] = s.[LOOP] /\
    t.[LOOP_CONDITION] = s.[LOOP_CONDITION];
  left_count : t.[CNTR] = if s.[CNTR_SP] >? 0 then s.{CNTR_STACK, s.[CNTR_SP] - 1} else 0;
}.
Lemma left_calm t t' : left t -> calm t t' -> left t'.
Proof using Type.
  intros [W P T L C] Hc. destruct (calm_view t t' Hc) as (Tc & Fc & _).
  constructor; [by apply Hc|..]; by rewrite ?Tc, ?Fc.
Qed.
(** At the last instruction of the last pass: out. *)
Lemma inside_leave t : Coherent s -> inside s last n (n - 1) (size - 1) t ->
  left (exec advance_pc t).
Proof using Hs Hlast Hn.
  intros Hco [W P [L C] N T [S1 S2] B K F]. pose proof pc_low as Hpc.
  pose proof (wf_field s Hs LOOP_SP) as Hsp. unfold in_frange in Hsp. cbn in Hsp.
  destruct (pass_last t _ _ W ltac:(lia) C ltac:(lia) ltac:(lia) T) as (R1 & R2 & R3 & R4 & R5 & R6).
  cbv zeta in *. set (r := exec advance_pc t) in *.
  replace (t.[LOOP_SP] - 1) with (s.[LOOP_SP]) in * by lia. rewrite S2, K in R6.
  constructor; [done| |done| |done].
  - rewrite R2. rewrite P. replace (s.[PC] + 1 + (size - 1) + 1) with (last + 1) by lia.
    apply conv_id. cbn. lia.
  - split; [done|]. destruct Hco as [_ _ _ _ Ht]. destruct (s.[LOOP_SP] =? 0).
    + by destruct R5 as [-> ->], Ht as [-> ->].
    + rewrite B in R5 by lia. by destruct R5 as [-> ->], Ht as [-> ->].
Qed.

(** A pass of the execution loop at a body instruction is a calm step around
    its advance. *)
Lemma body_step (J : state -> Prop) i j t :
  (forall u u', J u -> calm u u' -> J u') ->
  (forall u, inside s last n i j u -> J (exec advance_pc u)) ->
  inside s last n i j t -> 0 <= j < size -> J (exec step t).
Proof using hok Hbody.
  intros Hc Ha Ht Hj. pose proof Ht as [W P _ _ _ _ _ _ F].
  destruct (step_straight t W) as (p & Hp & _ & _ & Hr & _).
  { rewrite F, P. apply Hbody. lia. }
  eapply Hc; [|exact Hr]. apply Ha. by eapply inside_calm.
Qed.

(** The whole run inside the loop, from its first instruction. *)
Lemma inside_run k t0 i j : inside s last n 0 0 t0 -> 0 <= i < n -> 0 <= j < size ->
  Z.of_nat k = i * size + j -> inside s last n i j (steps k t0).
Proof using hok Hs Hlast Hbody Hn.
  intros H0. revert i j. induction k as [|k IH]; intros i j Hi Hj Hk.
  - assert (i = 0 /\ j = 0) as [-> ->] by nia. done.
  - change (steps (S k) t0) with (exec step (steps k t0)).
    destruct (Z.eq_dec j 0) as [->|Hne].
    + assert (1 <= i) by nia.
      apply (body_step _ (i - 1) (size - 1)); [by intros; eapply inside_calm| | |lia].
      * intros u Hu. replace i with (i - 1 + 1) at 1 by lia. apply inside_again; [done|lia].
      * apply IH; [lia|lia|nia].
    + apply (body_step _ i (j - 1)); [by intros; eapply inside_calm| | |lia].
      * intros u Hu. replace j with (j - 1 + 1) at 1 by lia. apply inside_next; [done|lia].
      * apply IH; lia.
Qed.
Lemma leave_run t0 : Coherent s -> inside s last n 0 0 t0 ->
  left (steps (Z.to_nat (n * size)) t0).
Proof using hok Hs Hlast Hbody Hn.
  intros Hco H0. assert (1 <= n * size) by nia.
  assert (Z.to_nat (n * size) = S (Z.to_nat (n * size - 1))) as -> by lia.
  change (left (exec step (steps (Z.to_nat (n * size - 1)) t0))).
  apply (body_step _ (n - 1) (size - 1)); [exact left_calm| | |lia].
  - intros u Hu. by apply inside_leave.
  - apply inside_run; [done|lia|lia|nia].
Qed.
End Loop.

(** ** The DO instruction *)
Definition loop_push_f (f : field) : bool :=
  match f with LOOP | LOOP_CONDITION | LOOP_SP | SSTAT | STACK_OVER_WARNED => true | _ => false end.
Definition loop_push_a (a : arr) : bool := match a with LOOP_STACK => true | _ => false end.
Lemma loop_push_touches v : 0 <= v <= 0x3ffff ->
  hoare (touches loop_push_f loop_push_a) (loop_stack_push v) any.
Proof using Type.
  intros Hv. unfold loop_stack_push, sstat_or, sstat_clr, LOOP_STACK_DEPTH, LOOP_OVER, LOOP_EMPTY. hoare_auto.
Qed.
Lemma loop_push_exec v t : Wf t -> 0 <= v <= 0x3ffff -> t.[LOOP_SP] < 4 ->
  let u := exec (loop_stack_push v) t in
  u.[LOOP_SP] = t.[LOOP_SP] + 1 /\ u.[LOOP] = v >>> 4 /\ u.[LOOP_CONDITION] = v &&& 15 /\
  (forall k, k <> t.[LOOP_SP] -> u.{LOOP_STACK, k} = t.{LOOP_STACK, k}).
Proof using Type.
  intros Ht Hv Hsp. pose proof (wf_field t Ht LOOP_SP) as Hr. unfold in_frange in Hr. cbn in Hr.
  pose proof (shr_le v 4 0x3fff 0x3ffff ltac:(lia) Hv ltac:(done)). pose proof (land_range_r v 15 ltac:(lia)).
  unfold loop_stack_push, sstat_clr, LOOP_STACK_DEPTH. run.
  assert (t.[LOOP_SP] <? 4 = true) as -> by lia. run. gets.
  split; [|split; [|split]]; try (apply conv_id; hoare_ranges; lia).
  intros k Hk. rewrite !aget_set. by rewrite aget_aset_ne.
Qed.
Lemma do_ce_value last : 0 <= last <= 0x3fff ->
  do_ce last &&& 0x3ffff = 16 * last + 14 /\ (16 * last + 14) >>> 4 = last /\
  (16 * last + 14) &&& 15 = 14.
Proof using Type.
  intros Hl. unfold do_ce. change 0x3ffff with (2 ^ 18 - 1). change 15 with (2 ^ 4 - 1).
  rewrite !land_mask_mod, Z.shiftr_div_pow2 by lia. split; [|split].
  - symmetry. apply (Z.mod_unique _ _ 5); lia.
  - symmetry. apply (Z.div_unique _ _ _ 14); lia.
  - symmetry. apply (Z.mod_unique _ _ last); lia.
Qed.
Lemma exec_do last t : 0 <= last <= 0x3fff ->
  exec (exec_op (do_ce last)) t =
  let u := exec (loop_stack_push (16 * last + 14)) t in exec (pc_stack_push_val (u.[PC])) u.
Proof using Type.
  intros Hl. assert (exec_op (do_ce last) = do_until (do_ce last)) as ->.
  { unfold exec_op, exec_1x. rewrite !Z.shiftr_div_pow2 by lia.
    assert (do_ce last / 2 ^ 20 = 1) as ->
      by (symmetry; apply (Z.div_unique _ _ _ (do_ce last - 2 ^ 20)); unfold do_ce; lia).
    assert (exists k, do_ce last / 2 ^ 16 = k /\ (k = 0x14 \/ k = 0x15 \/ k = 0x16 \/ k = 0x17))
      as (k & -> & Hk).
    { eexists. split; [done|]. unfold do_ce.
      pose proof (Z.div_mod (0x14000e + 16 * last) (2 ^ 16) ltac:(lia)).
      pose proof (Z.mod_pos_bound (0x14000e + 16 * last) (2 ^ 16) ltac:(lia)). lia. }
    by destruct Hk as [-> | [-> | [-> | ->]]]. }
  unfold do_until. rewrite exec_bind. destruct (do_ce_value last Hl) as (-> & _).
  unfold exec at 1. by rewrite pc_stack_push_eq.
Qed.

(** With room on both stacks a DO enters its loop. *)
Lemma do_enters s last n : Wf s -> s.[PC] < last <= 0x3fff -> fetched s (s.[PC]) = do_ce last ->
  s.[PC] <> s.[LOOP] -> s.[PC_SP] < 16 -> s.[LOOP_SP] < 4 -> s.[CNTR] = n ->
  inside s last n 0 0 (exec step s).
Proof using hok.
  intros Hs Hl Hop Hne Hpsp Hlsp Hn. pose proof (pc_low s last Hs Hl) as Hpc.
  destruct (step_split s Hs) as (p & Hp & Hwp & Hwq & Hc). cbv zeta in *. rewrite Hop in *.
  destruct (calm_view s p Hp) as (Tp & Fp & Ap).
  assert (exec advance_pc p = set PC (s.[PC] + 1) p) as Ea.
  { unfold advance_pc. run. rewrite !Fp by done. assert (s.[PC] =? s.[LOOP] = false) as -> by lia.
    cbn [negb]. run. f_equal. apply conv_id. cbn. lia. }
  rewrite Ea, exec_do in * by lia. cbv zeta in *.
  eapply inside_calm; [|exact Hc]. clear Hc Ea.
  set (r := set PC (s.[PC] + 1) p) in *.
  assert (Wf r) as Hwr by (apply wf_set; [done|unfold in_frange; cbn; lia]).
  assert (forall f, f <> PC -> calm_f f = false -> r.[f] = s.[f]) as Fr
    by (intros f H1 H2; unfold r; rewrite get_set_ne by done; by apply Fp).
  destruct (do_ce_value last ltac:(lia)) as (_ & V1 & V2).
  destruct (loop_push_touches (16 * last + 14) ltac:(lia) r Hwr) as [(Hwu & Fu & Au) _]. specialize (Hwu Hwr).
  destruct (loop_push_exec (16 * last + 14) r Hwr ltac:(lia) ltac:(by rewrite Fr)) as (L1 & L2 & L3 & L4).
  set (u := exec (loop_stack_push _) r) in *.
  destruct (pc_push_touches (u.[PC]) u Hwu) as [(_ & Fq & Aq) _].
  pose proof (pc_push_list (u.[PC]) u Hwu) as Lq. set (q := exec (pc_stack_push_val _) u) in *.
  assert (u.[PC] = s.[PC] + 1) as Epc by (rewrite Fu by done; unfold r; by gets).
  assert (forall a k, loop_push_a a = false -> calm_a a = false -> a <> PC_STACK ->
    q.{a, k} = s.{a, k}) as Aqs.
  { intros a k H1 H2 H3. unfold aget. rewrite Aq by (by destruct a).
    rewrite Au by done. unfold r. rewrite ars_set. by apply Ap. }
  constructor; [done|..].
  - rewrite Fq by done. lia.
  - by rewrite !Fq, L2, L3, V1, V2.
  - rewrite Fq, Fu, Fr by done. lia.
  - rewrite Lq, Fu, Fr, Epc by done. assert (s.[PC_SP] <? 16 = true) as -> by lia.
    f_equal; [apply conv_id; cbn; lia|]. rewrite <- Tp. apply pc_stack_of_frame; [by rewrite Fu|by rewrite Au].
  - rewrite !Fq, L1 by done. by rewrite Fu, !Fr.
  - intros k Hk. unfold aget at 1. rewrite Aq by done. fold (u.{LOOP_STACK, k}). rewrite Fr in L4 by done.
    rewrite L4 by lia. by apply Ap.
  - intros k. by apply Aqs.
  - intros a. unfold fetched. rewrite !eval_RWORD_PGM by done. unfold mem_read, pm_cell.
    rewrite Fq, Fu, Fr, !Aqs by done. destruct (_ && _); cbn [fst snd]; by rewrite Aqs.
Qed.

(** C7: DO loops. Let the word at PC be [DO last UNTIL CE], the words after it
    up to [last] straight-line instructions, CNTR = [n] and both stacks have
    room. Then the pass of the execution loop after the first [1 + i*size + j]
    finds PC at the [j]-th instruction of the body and fetches the word it was
    before the DO, for each of the [n] times round and in order, and after [1 + n*size] passes control is past [last], the PC stack
    and the loop registers are as before the DO and CNTR is the count below
    on the counter stack. *)
Theorem do_loop_runs_n_times s last n :
  Wf s -> Coherent s ->
  fetched s (s.[PC]) = do_ce last -> s.[PC] < last <= 0x3fff -> s.[PC] <> s.[LOOP] ->
  (forall a, s.[PC] < a <= last -> straight (fetched s a) = true) ->
  s.[CNTR] = n -> 1 <= n < 2 ^ 31 -> s.[PC_SP] < 16 -> s.[LOOP_SP] < 4 ->
  let size := last - s.[PC] in
  (forall i j, 0 <= i < n -> 0 <= j < size ->
     let t := steps (1 + Z.to_nat (i * size + j)) s in
     t.[PC] = s.[PC] + 1 + j /\ fetched t (t.[PC]) = fetched s (s.[PC] + 1 + j)) /\
  let t := steps (1 + Z.to_nat (n * size)) s in
  t.[PC] = last + 1 /\ pc_stack_of t = pc_stack_of s /\
  t.[LOOP_SP] = s.[LOOP_SP] /\ t.[LOOP] = s.[LOOP] /\ t.[LOOP_CONDITION] = s.[LOOP_CONDITION] /\
  t.[CNTR] = (if s.[CNTR_SP] >? 0 then s.{CNTR_STACK, s.[CNTR_SP] - 1} else 0).
Proof.
  intros Hs Hco Hop Hl Hne Hbody Hn Hr Hp Hls size.
  pose proof (do_enters s last n Hs Hl Hop Hne Hp Hls Hn) as H0.
  assert (forall k, steps (1 + k) s = steps k (exec step s)) as E
    by (intros k; unfold steps; by rewrite Nat.iter_succ_r).
  split.
  - intros i j Hi Hj. rewrite E.
    assert (inside s last n i j (steps (Z.to_nat (i * size + j)) (exec step s))) as H
      by (apply (inside_run s last n Hs Hl Hbody Hr _ _ i j H0 Hi Hj); unfold size in *; nia).
    cbv zeta. rewrite (in_pc _ _ _ _ _ _ H). split; [done|apply H].
  - rewrite E. destruct (leave_run s last n Hs Hl Hbody Hr _ Hco H0) as [_ H1 H2 (H3 & H4 & H5) H6]. done.
Qed.
End Run.

(** ** Witness *)

(** [DO 2 UNTIL CE; AR = AR + AY0; DM(0x0100) = AR] with a count of 3. *)
Definition loop_demo : state :=
  set CNTR 3 (set CNTR_VALID 1 (load_pm [(0, 0x14002e); (1, 0x22620f); (2, 0x90100a)] demo)).
Lemma loop_demo_wf : Wf loop_demo.
Proof.
  apply wf_set; [apply wf_set; [apply load_pm_wf, demo_wf|by vm_compute]|by vm_compute].
Qed.
Lemma do_loop_runs_n_times_witness :
  (let t := steps (host := null_host) 6 loop_demo in
   t.[PC] = 2 /\ fetched t (t.[PC]) = 0x90100a) /\
  (steps (host := null_host) 7 loop_demo).[PC] = 3.
Proof.
  destruct (do_loop_runs_n_times (host := null_host) loop_demo 2 3 loop_demo_wf) as [H1 [H2 _]].
  - split; vm_compute; try reflexivity. split; reflexivity.
  - vm_compute. reflexivity.
  - vm_compute. split; [reflexivity|discriminate].
  - vm_compute. discriminate.
  - intros a Ha. assert (loop_demo.[PC] = 0) as E by (vm_compute; reflexivity). rewrite E in Ha.
    assert (a = 1 \/ a = 2) as [-> | ->] by lia; vm_compute; reflexivity.
  - vm_compute. reflexivity.
  - lia.
  - vm_compute. reflexivity.
  - vm_compute. reflexivity.
  - destruct (H1 2 1 ltac:(lia) ltac:(vm_compute; split; [discriminate|reflexivity])) as [H3 H4].
    split; [split; [exact H3|etransitivity; [exact H4|vm_compute; reflexivity]]|exact H2].
Defined.
