(* ===== verification/AluSpec.v ===== *)
(** * Specification of the ALU

    The additions and subtractions compute the exact sum of their operands
    with the flags that describe it (V of X + Y + C with one exception, stated
    exactly), and saturate it when asked to; the branch conditions after a subtraction
    are the comparisons of the operands; saturation clamps; and sixteen divide
    steps divide. *)
From S2P Require Import Prelude State Tables Memory Stacks Regs Alu Mac Shift Exec Api Effects EffectsOps EffectsExec Invariants Safety StacksSpec.

(** ** Definitions *)

(** The additions and subtractions of the switch, by operation number. *)
Definition add_sub (kind : Z) : bool :=
  match kind with 2 | 3 | 6 | 7 | 9 | 10 => true | _ => false end.

(** The exact result, with operands read by [v] (unsigned, or [s16]). *)
Definition exact (v : Z -> Z) (kind x y c : Z) : Z :=
  match kind with
  | 2 => v x + v y + c
  | 3 => v x + v y
  | 6 => v x - v y + c - 1
  | 7 => v x - v y
  | 9 => v y - v x
  | _ => v y - v x + c - 1
  end.
(** The carry out: of an addition past [2^16 - 1], of a subtraction when it
    does not borrow. *)
Definition carry (kind x y c : Z) : bool :=
  match kind with
  | 2 | 3 => 0xffff <? exact id kind x y c
  | _ => 0 <=? exact id kind x y c
  end.
Definition overflows (r : Z) : bool := (r <? -32768) || (32767 <? r).

(** Whether V accumulates ([mstat]'s AV_LATCH) is kept in [astat_clear]. *)
Definition clears (sticky : bool) (s : state) : Prop :=
  s.[ASTAT_CLEAR] =
  u32 (~~~(if sticky then CFLAG ||| NFLAG ||| ZFLAG else CFLAG ||| VFLAG ||| NFLAG ||| ZFLAG)).

(** The operand for which the code misses (or invents) an overflow of X+Y+C. *)
Definition carry_wraps (kind y c : Z) : bool :=
  (kind =? 2) && (c =? 1) && ((y =? 0x7fff) || (y =? 0xffff)).

(** The condition codes of the program sequencer, on the flags. *)
Definition cond_ref (c : Z) (z n v ac mv sgn : bool) : bool :=
  match c with
  | 0 => z | 1 => negb z
  | 2 => negb (xorb n v || z) | 3 => xorb n v || z
  | 4 => xorb n v | 5 => negb (xorb n v)
  | 6 => v | 7 => negb v | 8 => ac | 9 => negb ac
  | 10 => sgn | 11 => negb sgn | 12 => mv | 13 => negb mv
  | _ => true
  end.

Definition clamp16 (r : Z) : Z := Z.max (-32768) (Z.min 32767 r).

(** ** Flag arithmetic *)
Lemma tst_lor a b k : 0 <= k -> tst (a ||| b) (2 ^ k) = tst a (2 ^ k) || tst b (2 ^ k).
Proof. intros Hk. by rewrite !tst_pow2, Z.lor_spec by done. Qed.
Lemma tst_land a b k : 0 <= k -> tst (a &&& b) (2 ^ k) = tst a (2 ^ k) && tst b (2 ^ k).
Proof. intros Hk. by rewrite !tst_pow2, Z.land_spec by done. Qed.
(** [(r >> j) & (1 << k)] *)
Lemma tst_shifted r j k i : 0 <= j -> 0 <= k -> 0 <= i ->
  tst ((r >>> j) &&& 2 ^ k) (2 ^ i) = (i =? k) && Z.testbit r (j + k).
Proof.
  intros Hj Hk Hi. rewrite tst_pow2, Z.land_spec, Z.shiftr_spec, Z.pow2_bits_eqb by done.
  rewrite (Z.eqb_sym k). destruct (Z.eqb_spec i k) as [->|]; [|by rewrite andb_false_r].
  rewrite andb_true_r, andb_true_l. f_equal. lia.
Qed.
Lemma tst_b2z b i : 0 <= i -> tst (b2z b) (2 ^ i) = (i =? 0) && b.
Proof.
  intros Hi. destruct b; cbn [b2z].
  - rewrite andb_true_r. rewrite tst_pow2 by done. change 1 with (2 ^ 0). rewrite (Z.pow2_bits_eqb 0) by done. apply Z.eqb_sym.
  - rewrite andb_false_r. unfold tst. by rewrite Z.land_0_l.
Qed.

Lemma s16_eq x : 0 <= x <= 0xffff -> s16 x = if x <? 0x8000 then x else x - 0x10000.
Proof.
  intros Hx. unfold_conv. conv_lits. destruct (Z.ltb_spec x 32768).
  - rewrite Z.mod_small; lia.
  - replace (x + 32768) with (x - 32768 + 1 * 65536) by lia. rewrite Z.mod_add, Z.mod_small; lia.
Qed.

(** Bit [n] of an integer as arithmetic. *)
Lemma testbit_mod r n : 0 <= n -> Z.testbit r n = ((r / 2 ^ n) mod 2 =? 1).
Proof. apply Z.testbit_eqb. Qed.

Ltac zdiv := Z.to_euclidean_division_equations; lia.

(** The overflow formula [(x ^ y ^ r ^ (r >> 1)) >> 13] for a sum, and for a
    difference. *)
Lemma bit15 x : 0 <= x <= 0xffff -> Z.testbit x 15 = (0x8000 <=? x).
Proof.
  intros Hx. rewrite testbit_mod by done. change (2 ^ 15) with 32768.
  destruct (Z.leb_spec 32768 x), (Z.eqb_spec ((x / 32768) mod 2) 1); try done; exfalso; zdiv.
Qed.
Lemma bits_15_16 r : -0x20000 <= r < 0x20000 ->
  xorb (Z.testbit r 15) (Z.testbit r 16) =
  (-0x18000 <=? r) && (r <? -0x8000) || (0x8000 <=? r) && (r <? 0x18000).
Proof.
  intros Hr. rewrite !testbit_mod by done. change (2 ^ 15) with 32768. change (2 ^ 16) with 65536.
  assert (r / 32768 = -4 \/ r / 32768 = -3 \/ r / 32768 = -2 \/ r / 32768 = -1 \/ r / 32768 = 0 \/
    r / 32768 = 1 \/ r / 32768 = 2 \/ r / 32768 = 3) as E by zdiv.
  assert (r / 65536 = r / 32768 / 2) as -> by (by rewrite Z.div_div by lia).
  pose proof (Z.mul_div_le r 32768 ltac:(lia)). pose proof (Z.mul_succ_div_gt r 32768 ltac:(lia)).
  generalize dependent (r / 32768). intros q E H1 H2.
  repeat destruct E as [->|E]; [..|subst q];
    match goal with |- ?l = _ => let v := eval vm_compute in l in change l with v end; lia.
Qed.
Lemma overflow_add x y c : 0 <= x <= 0xffff -> 0 <= y <= 0xffff -> 0 <= c <= 1 ->
  let r := x + y + c in
  xorb (xorb (xorb (Z.testbit x 15) (Z.testbit y 15)) (Z.testbit r 15)) (Z.testbit r 16) =
  overflows (s16 x + s16 y + c).
Proof.
  intros Hx Hy Hc. cbv zeta. rewrite xorb_assoc, bits_15_16, !bit15, !s16_eq by lia.
  unfold overflows.
  destruct (Z.leb_spec 32768 x), (Z.leb_spec 32768 y), (Z.ltb_spec x 32768), (Z.ltb_spec y 32768);
    try lia;
    rewrite ?xorb_nilpotent, ?xorb_false_l, ?xorb_true_l, ?xorb_false_r; cbn [negb]; rewrite ?xorb_true_l, ?xorb_false_l; lia.
Qed.
Lemma overflow_sub x y b : 0 <= x <= 0xffff -> 0 <= y <= 0xffff -> 0 <= b <= 1 ->
  let r := x - y - b in
  xorb (xorb (xorb (Z.testbit x 15) (Z.testbit y 15)) (Z.testbit r 15)) (Z.testbit r 16) =
  overflows (s16 x - s16 y - b).
Proof.
  intros Hx Hy Hc. cbv zeta. rewrite xorb_assoc, bits_15_16, !bit15, !s16_eq by lia.
  unfold overflows.
  destruct (Z.leb_spec 32768 x), (Z.leb_spec 32768 y), (Z.ltb_spec x 32768), (Z.ltb_spec y 32768);
    try lia;
    rewrite ?xorb_nilpotent, ?xorb_false_l, ?xorb_true_l, ?xorb_false_r; cbn [negb]; rewrite ?xorb_true_l, ?xorb_false_l; lia.
Qed.

(** *** The flag macros *)
Lemma clears_bit sticky s k : clears sticky s -> 0 <= k <= 3 ->
  tst (s.[ASTAT_CLEAR]) (2 ^ k) = sticky && (k =? 2).
Proof.
  intros H Hk. rewrite H. assert (k = 0 \/ k = 1 \/ k = 2 \/ k = 3) as Hd by lia.
  destruct sticky; repeat destruct Hd as [-> | Hd]; try subst k; vm_compute; reflexivity.
Qed.

(** The flags of a state. *)
Definition az s := tst (s.[ASTAT]) ZFLAG.
Definition an s := tst (s.[ASTAT]) NFLAG.
Definition av s := tst (s.[ASTAT]) VFLAG.
Definition ac s := tst (s.[ASTAT]) CFLAG.

Lemma exec_CLR_FLAGS s : exec CLR_FLAGS s = set ASTAT (u32 (s.[ASTAT] &&& s.[ASTAT_CLEAR])) s.
Proof. done. Qed.
Lemma exec_SET_F m s : exec (SET_F m) s = set ASTAT (u32 (s.[ASTAT] ||| m)) s.
Proof. done. Qed.

Lemma exec_CALC_N r s : exec (CALC_N r) s = set ASTAT (u32 (s.[ASTAT] ||| ((r >>> 14) &&& 2 ^ 1))) s.
Proof. done. Qed.
Lemma exec_CALC_Z r s : exec (CALC_Z r) s = set ASTAT (u32 (s.[ASTAT] ||| b2z (r &&& 0xffff =? 0))) s.
Proof. done. Qed.
Lemma exec_CALC_V x y r s : exec (CALC_V x y r) s =
  set ASTAT (u32 (s.[ASTAT] ||| (((x ^^^ y ^^^ r ^^^ (r >>> 1)) >>> 13) &&& 2 ^ 2))) s.
Proof. done. Qed.
Lemma exec_CALC_C r s : exec (CALC_C r) s = set ASTAT (u32 (s.[ASTAT] ||| ((r >>> 13) &&& 2 ^ 3))) s.
Proof. done. Qed.
Lemma exec_CALC_C_SUB r s :
  exec (CALC_C_SUB r) s = set ASTAT (u32 (s.[ASTAT] ||| ((~~~r >>> 13) &&& 2 ^ 3))) s.
Proof. done. Qed.

Ltac flag_bits H :=
  repeat first
    [ rewrite (tst_conv U32) by (cbn; lia) | rewrite tst_lor by lia
    | rewrite tst_shifted by lia | rewrite tst_b2z by lia | rewrite tst_land by lia
    | rewrite (clears_bit _ _ _ H) by lia ].

Ltac each_flag k :=
  let Hd := fresh in
  assert (k = 0 \/ k = 1 \/ k = 2 \/ k = 3) as Hd by lia;
  repeat destruct Hd as [-> | Hd]; try subst k; cbn [Z.eqb Pos.eqb andb orb];
  rewrite ?andb_false_r, ?orb_false_r, ?andb_true_r; cbn [orb]; try done.

Lemma calc_nz_bits sticky s r k : clears sticky s -> 0 <= k <= 3 ->
  tst ((exec (CALC_NZ r) s).[ASTAT]) (2 ^ k) =
  match k with
  | 0 => (r &&& 0xffff) =? 0 | 1 => Z.testbit r 15
  | 2 => sticky && av s | _ => false
  end.
Proof.
  intros H Hk. unfold CALC_NZ. rewrite !exec_bind, exec_CLR_FLAGS, exec_CALC_N, exec_CALC_Z.
  gets. flag_bits H. each_flag k. apply andb_comm.
Qed.

Lemma overflow_bit x y r :
  Z.testbit (x ^^^ y ^^^ r ^^^ (r >>> 1)) (13 + 2) =
  xorb (xorb (xorb (Z.testbit x 15) (Z.testbit y 15)) (Z.testbit r 15)) (Z.testbit r 16).
Proof. rewrite !Z.lxor_spec, Z.shiftr_spec by lia. done. Qed.

Lemma calc_nzvc_bits sticky s x y r k : clears sticky s -> 0 <= k <= 3 ->
  tst ((exec (CALC_NZVC x y r) s).[ASTAT]) (2 ^ k) =
  match k with
  | 0 => (r &&& 0xffff) =? 0 | 1 => Z.testbit r 15
  | 2 => xorb (xorb (xorb (Z.testbit x 15) (Z.testbit y 15)) (Z.testbit r 15)) (Z.testbit r 16)
         || sticky && av s
  | _ => Z.testbit r 16
  end.
Proof.
  intros H Hk. unfold CALC_NZVC.
  rewrite !exec_bind, exec_CLR_FLAGS, exec_CALC_N, exec_CALC_Z, exec_CALC_V, exec_CALC_C.
  gets. flag_bits H. each_flag k. by rewrite overflow_bit, orb_comm, (andb_comm sticky).
Qed.
Lemma calc_nzvc_sub_bits sticky s x y r k : clears sticky s -> 0 <= k <= 3 ->
  tst ((exec (CALC_NZVC_SUB x y r) s).[ASTAT]) (2 ^ k) =
  match k with
  | 0 => (r &&& 0xffff) =? 0 | 1 => Z.testbit r 15
  | 2 => xorb (xorb (xorb (Z.testbit x 15) (Z.testbit y 15)) (Z.testbit r 15)) (Z.testbit r 16)
         || sticky && av s
  | _ => negb (Z.testbit r 16)
  end.
Proof.
  intros H Hk. unfold CALC_NZVC_SUB.
  rewrite !exec_bind, exec_CLR_FLAGS, exec_CALC_N, exec_CALC_Z, exec_CALC_V, exec_CALC_C_SUB.
  gets. flag_bits H. each_flag k.
  - by rewrite overflow_bit, orb_comm, (andb_comm sticky).
  - by rewrite Z.lnot_spec by done.
Qed.

(** *** Operands *)
Lemma exec_rd_u x s : exec (rd_u x) s = s.
Proof. by destruct x. Qed.
Lemma piece16_range k v : 0 <= piece16 k v <= 0xffff.
Proof. unfold piece16. apply land_range_r. lia. Qed.
Lemma eval_rd_u_range x s : Wf s -> 0 <= eval (rd_u x) s <= 0xffff \/ x = Full MR \/ x = Full SR.
Proof.
  intros Hs. destruct x as [r| | | | |]; try (left; apply piece16_range).
  destruct r; try (by right; auto); left; cbn;
    match goal with |- context [s.[?f]] => pose proof (wf_field s Hs f) as H end;
    unfold in_frange in H; cbn in H; lia.
Qed.
Lemma alu_x_range op s : Wf s -> 0 <= eval (alu_get_x op) s <= 0xffff.
Proof.
  intros Hs. unfold alu_get_x, ALU_GETXREG_UNSIGNED.
  destruct (eval_rd_u_range (alu_xregs ((op >>> 8) &&& 7)) s Hs) as [H|H]; [done|].
  unfold alu_xregs in H. repeat case_match; by destruct H.
Qed.
Lemma alu_y_range op s : Wf s -> 0 <= eval (alu_get_y op) s <= 0xffff.
Proof.
  intros Hs. unfold alu_get_y, ALU_GETYREG_UNSIGNED.
  destruct (eval_rd_u_range (alu_yregs ((op >>> 11) &&& 3)) s Hs) as [H|H]; [done|].
  unfold alu_yregs in H. repeat case_match; by destruct H.
Qed.

Lemma get_c_eval s : eval GET_C s >>> 3 = b2z (ac s).
Proof.
  unfold GET_C, ac, CFLAG. run. change 8 with (2 ^ 3). rewrite tst_pow2 by lia.
  assert (s.[ASTAT] &&& 2 ^ 3 = b2z (Z.testbit (s.[ASTAT]) 3) * 8) as ->.
  { apply Z.bits_inj'. intros n Hn. rewrite Z.land_spec, Z.pow2_bits_eqb by lia.
    destruct (Z.eqb_spec 3 n) as [<-|Hne].
    - rewrite andb_true_r. by destruct (Z.testbit _ _).
    - rewrite andb_false_r. symmetry. destruct (Z.testbit (s.[ASTAT]) 3); [|apply Z.bits_0].
      change (b2z true * 8) with (2 ^ 3). by apply Z.pow2_bits_false. }
  by destruct (Z.testbit _ _).
Qed.

Lemma low16_zero r : ((r &&& 0xffff) =? 0) = (r mod 0x10000 =? 0).
Proof. change 0xffff with (2 ^ 16 - 1). by rewrite land_mask_mod. Qed.
Lemma testbit15_mod r : Z.testbit r 15 = (0x8000 <=? r mod 0x10000).
Proof.
  rewrite <- bit15 by (pose proof (Z.mod_pos_bound r 0x10000); lia).
  change 0x10000 with (2 ^ 16). by rewrite Z.mod_pow2_bits_low by lia.
Qed.
Lemma testbit16_add r : 0 <= r < 0x20000 -> Z.testbit r 16 = (0xffff <? r).
Proof.
  intros Hr. rewrite testbit_mod by done. change (2 ^ 16) with 65536.
  destruct (Z.ltb_spec 0xffff r), (Z.eqb_spec ((r / 65536) mod 2) 1); try done; exfalso; zdiv.
Qed.
Lemma testbit16_sub r : -0x10000 <= r < 0x10000 -> negb (Z.testbit r 16) = (0 <=? r).
Proof.
  intros Hr. rewrite testbit_mod by done. change (2 ^ 16) with 65536.
  destruct (Z.leb_spec 0 r), (Z.eqb_spec ((r / 65536) mod 2) 1); try done; exfalso; zdiv.
Qed.

Definition alu_kind (op : Z) : Z := (op >>> 13) &&& 15.

(** What an addition or subtraction leaves in the flags. *)
Definition sums_up (sticky : bool) (kind x y : Z) (s t : state) : Prop :=
  let c := b2z (ac s) in let r := exact id kind x y c mod 0x10000 in
  az t = (r =? 0) /\ an t = (0x8000 <=? r) /\ ac t = carry kind x y c /\
  av t = xorb (carry_wraps kind y c) (overflows (exact s16 kind x y c)) || sticky && av s.

Section Switch.
Context {host : Host}.
Variables (getx gety : M Z) (s : state) (op x y : Z).
Hypothesis getx_pure : forall t, exec getx t = t.
Hypothesis gety_pure : forall t, exec gety t = t.
Hypothesis getx_val : eval getx s = x.
Hypothesis gety_val : eval gety s = y.

Lemma exec_GET_C t : exec GET_C t = t.
Proof using Type. done. Qed.

(** Each operation is one of the two flag macros on an exact sum. *)
Lemma switch_add_sub : add_sub (alu_kind op) = true ->
  let c := b2z (ac s) in let r := exact id (alu_kind op) x y c in
  let m := match alu_kind op with
    | 2 => CALC_NZVC x (y + c) r | 3 => CALC_NZVC x y r
    | 6 | 7 => CALC_NZVC_SUB x y r | _ => CALC_NZVC_SUB y x r end in
  eval (alu_switch op getx gety) s = r /\ exec (alu_switch op getx gety) s = exec m s.
Proof.
  intros Hk. cbv zeta. unfold alu_switch. fold (alu_kind op). generalize dependent (alu_kind op).
  intros kind Hk. pose proof (get_c_eval s) as Hc.
  destruct kind as [|p|]; try discriminate Hk. do 4 (try destruct p as [p|p|]; try discriminate Hk);
    run; rewrite ?getx_pure, ?gety_pure, ?getx_val, ?gety_val, ?exec_GET_C, ?Hc;
    cbn [exact id]; (split; [unfold id; try lia|try (do 2 f_equal; unfold id; lia)]).
Qed.
End Switch.

(** The flags the two macros leave for an exact sum describe it. *)
Lemma sum_flags_add sticky x y c s : clears sticky s -> 0 <= x <= 0xffff -> 0 <= y <= 0xffff ->
  0 <= c <= 1 -> forall d,
  let r := x + y + c in let t := exec (CALC_NZVC x d r) s in
  az t = (r mod 0x10000 =? 0) /\ an t = (0x8000 <=? r mod 0x10000) /\ ac t = (0xffff <? r) /\
  av t = xorb (xorb (Z.testbit d 15) (Z.testbit y 15)) (overflows (s16 x + s16 y + c)) || sticky && av s.
Proof.
  intros Hcl Hx Hy Hc d r t.
  pose proof (calc_nzvc_bits sticky s x d r) as H. fold t in H.
  change (az t) with (tst (t.[ASTAT]) (2 ^ 0)). change (an t) with (tst (t.[ASTAT]) (2 ^ 1)).
  change (av t) with (tst (t.[ASTAT]) (2 ^ 2)). change (ac t) with (tst (t.[ASTAT]) (2 ^ 3)).
  rewrite (H 0), (H 1), (H 3) by (done || lia).
  rewrite low16_zero, testbit15_mod, testbit16_add by (unfold r; lia).
  do 3 (split; [done|]). rewrite (H 2) by (done || lia).
  unfold r. rewrite <- overflow_add by done.
  by destruct (Z.testbit x 15), (Z.testbit d 15), (Z.testbit y 15), (Z.testbit (x + y + c) 15), (Z.testbit (x + y + c) 16).
Qed.
Lemma sum_flags_sub sticky x y b s : clears sticky s -> 0 <= x <= 0xffff -> 0 <= y <= 0xffff ->
  0 <= b <= 1 ->
  let r := x - y - b in let t := exec (CALC_NZVC_SUB x y r) s in
  az t = (r mod 0x10000 =? 0) /\ an t = (0x8000 <=? r mod 0x10000) /\ ac t = (0 <=? r) /\
  av t = overflows (s16 x - s16 y - b) || sticky && av s.
Proof.
  intros Hcl Hx Hy Hb r t.
  pose proof (calc_nzvc_sub_bits sticky s x y r) as H. fold t in H.
  change (az t) with (tst (t.[ASTAT]) (2 ^ 0)). change (an t) with (tst (t.[ASTAT]) (2 ^ 1)).
  change (av t) with (tst (t.[ASTAT]) (2 ^ 2)). change (ac t) with (tst (t.[ASTAT]) (2 ^ 3)).
  rewrite (H 0), (H 1), (H 3) by (done || lia).
  rewrite low16_zero, testbit15_mod, testbit16_sub by (unfold r; lia).
  do 3 (split; [done|]). rewrite (H 2) by (done || lia). unfold r. by rewrite overflow_sub.
Qed.

(** Adding a carry changes bit 15 exactly when it crosses it. *)
Lemma carry_bit15 y c : 0 <= y <= 0xffff -> 0 <= c <= 1 ->
  xorb (Z.testbit (y + c) 15) (Z.testbit y 15) = carry_wraps 2 y c.
Proof.
  intros Hy Hc. unfold carry_wraps. cbn [Z.eqb Pos.eqb andb].
  rewrite (bit15 y Hy). assert (forall b, xorb b (0x8000 <=? y) = if 0x8000 <=? y then negb b else b) as ->
    by (by intros []; destruct (_ <=? _)).
  destruct (Z.eq_dec (y + c) 0x10000) as [E|E].
  - rewrite E. change (Z.testbit 0x10000 15) with false. destruct (Z.leb_spec 0x8000 y); lia.
  - rewrite bit15 by lia. destruct (Z.leb_spec 0x8000 y); lia.
Qed.

Lemma add_sub_cases kind : add_sub kind = true ->
  kind = 2 \/ kind = 3 \/ kind = 6 \/ kind = 7 \/ kind = 9 \/ kind = 10.
Proof.
  intros Hk. destruct kind as [|p|]; try discriminate Hk.
  do 4 (try destruct p as [p|p|]; try discriminate Hk); lia.
Qed.

Section Sum.
Context {host : Host}.
Lemma switch_sums op getx gety x y sticky s :
  (forall t, exec getx t = t) -> (forall t, exec gety t = t) ->
  eval getx s = x -> eval gety s = y -> 0 <= x <= 0xffff -> 0 <= y <= 0xffff -> clears sticky s ->
  add_sub (alu_kind op) = true ->
  eval (alu_switch op getx gety) s = exact id (alu_kind op) x y (b2z (ac s)) /\
  sums_up sticky (alu_kind op) x y s (exec (alu_switch op getx gety) s).
Proof.
  intros Hgx Hgy Hx Hy Rx Ry Hcl Hk.
  destruct (switch_add_sub getx gety s op x y Hgx Hgy Hx Hy Hk) as [-> ->].
  split; [done|]. unfold sums_up. pose proof (b2z_range (ac s)) as Hb.
  generalize dependent (b2z (ac s)). intros c Hb.
  pose proof (sum_flags_add sticky x y c s Hcl Rx Ry Hb) as A2.
  pose proof (sum_flags_add sticky x y 0 s Hcl Rx Ry ltac:(lia)) as A3.
  pose proof (sum_flags_sub sticky x y (1 - c) s Hcl Rx Ry ltac:(lia)) as S6.
  pose proof (sum_flags_sub sticky x y 0 s Hcl Rx Ry ltac:(lia)) as S7.
  pose proof (sum_flags_sub sticky y x (1 - c) s Hcl Ry Rx ltac:(lia)) as S10.
  pose proof (sum_flags_sub sticky y x 0 s Hcl Ry Rx ltac:(lia)) as S9.
  destruct (add_sub_cases _ Hk) as [E|[E|[E|[E|[E|E]]]]]; rewrite E in *;
    cbn [exact carry]; unfold id; cbv zeta in *.
  - destruct (A2 (y + c)) as (H1 & H2 & H3 & H4). rewrite carry_bit15 in H4 by done. split_and!; auto.
  - destruct (A3 y) as (H1 & H2 & H3 & H4). rewrite xorb_nilpotent, !Z.add_0_r in *. split_and!; auto.
  - replace (x - y + c - 1) with (x - y - (1 - c)) by lia.
    replace (s16 x - s16 y + c - 1) with (s16 x - s16 y - (1 - c)) by lia.
    destruct S6 as (H1 & H2 & H3 & H4). split_and!; auto.
  - rewrite !Z.sub_0_r in S7. destruct S7 as (H1 & H2 & H3 & H4). split_and!; auto.
  - rewrite !Z.sub_0_r in S9. destruct S9 as (H1 & H2 & H3 & H4). split_and!; auto.
  - replace (y - x + c - 1) with (y - x - (1 - c)) by lia.
    replace (s16 y - s16 x + c - 1) with (s16 y - s16 x - (1 - c)) by lia.
    destruct S10 as (H1 & H2 & H3 & H4). split_and!; auto.
Qed.
End Sum.

(** ** The ALU instructions *)
Lemma condition_flags c s : Wf s -> 0 <= c <= 15 -> c <> 14 ->
  eval (CONDITION c) s =
  cond_ref c (az s) (an s) (av s) (ac s) (tst (s.[ASTAT]) MVFLAG) (tst (s.[ASTAT]) SFLAG) /\
  exec (CONDITION c) s = s.
Proof.
  intros Hs Hc Hne. pose proof (wf_field s Hs ASTAT) as Ha. unfold in_frange in Ha. cbn in Ha.
  assert (forall c, In c [0;1;2;3;4;5;6;7;8;9;10;11;12;13;15] ->
    all_below 256 (fun a => ((c <<< 8) ||| a <? 0x1000) &&
      Bool.eqb (nz (condition_table ((c <<< 8) ||| a)))
        (cond_ref c (tst a ZFLAG) (tst a NFLAG) (tst a VFLAG) (tst a CFLAG) (tst a MVFLAG) (tst a SFLAG)))
    = true) as Hall.
  { intros k Hk. repeat (destruct Hk as [<-|Hk]; [vm_compute; reflexivity|]). destruct Hk. }
  assert (In c [0;1;2;3;4;5;6;7;8;9;10;11;12;13;15]) as Hin.
  { assert (c = 0 \/ c = 1 \/ c = 2 \/ c = 3 \/ c = 4 \/ c = 5 \/ c = 6 \/ c = 7 \/ c = 8 \/ c = 9 \/
      c = 10 \/ c = 11 \/ c = 12 \/ c = 13 \/ c = 15) as Hd by lia.
    cbn. repeat destruct Hd as [-> | Hd]; try subst c; tauto. }
  pose proof (all_below_spec _ _ (Hall c Hin) (s.[ASTAT]) ltac:(lia)) as H. cbv beta in H.
  apply andb_true_iff in H as [H1 H2%eqb_prop].
  unfold CONDITION. assert (negb (c =? 14) = true) as -> by lia.
  unfold eval, exec, mbind, M_bind, rd. rewrite H1. cbn. by rewrite H2.
Qed.

Section Claims.
Context {host : Host}.

(** The operands an ALU instruction reads. *)
Definition xop_of (op : Z) (s : state) : Z := eval (alu_get_x op) s.
Definition yop_of (op : Z) (s : state) : Z := eval (alu_get_y op) s.

Lemma saturate_eval res s :
  exec (alu_saturate res) s = s /\
  eval (alu_saturate res) s =
  if tst (s.[MSTAT]) MSTAT_SATURATE && av s then (if ac s then -32768 else 32767) else res.
Proof. split; [done|]. done. Qed.

Lemma alu_op_ar_sums op s sticky : Wf s -> clears sticky s -> add_sub (alu_kind op) = true ->
  let t := exec (alu_op_ar op) s in
  sums_up sticky (alu_kind op) (xop_of op s) (yop_of op s) s t /\
  t.[Core AR] = u16 (if tst (t.[MSTAT]) MSTAT_SATURATE && av t then (if ac t then -32768 else 32767)
     else exact id (alu_kind op) (xop_of op s) (yop_of op s) (b2z (ac s))).
Proof.
  intros Hs Hcl Hk. cbv zeta. unfold alu_op_ar. rewrite !exec_bind.
  destruct (switch_sums op (alu_get_x op) (alu_get_y op) (xop_of op s) (yop_of op s) sticky s)
    as [Hr Hf]; try done.
  - intros t. apply exec_rd_u.
  - intros t. apply exec_rd_u.
  - by apply alu_x_range.
  - by apply alu_y_range.
  - set (t := exec (alu_switch _ _ _) s) in *. rewrite Hr.
    destruct (saturate_eval (exact id (alu_kind op) (xop_of op s) (yop_of op s) (b2z (ac s))) t)
      as [-> ->].
    rewrite exec_wr. split; [exact Hf|]. by rewrite get_set_eq.
Qed.

Lemma alu_op_ar_mstat op s : add_sub (alu_kind op) = true ->
  (exec (alu_op_ar op) s).[MSTAT] = s.[MSTAT].
Proof.
  intros Hk. unfold alu_op_ar. rewrite !exec_bind, exec_wr. gets.
  destruct (switch_add_sub (alu_get_x op) (alu_get_y op) s op _ _ (exec_rd_u _) (exec_rd_u _)
    eq_refl eq_refl Hk) as [_ E].
  rewrite (proj1 (saturate_eval _ _)), E. by destruct (add_sub_cases _ Hk) as [-> |[-> |[-> |[-> |[-> | ->]]]]].
Qed.

(** C8: addition and subtraction. For the six additive operations (X+Y, X+Y+C,
    X-Y, X-Y+C-1, Y-X, Y-X+C-1) let [r] be the exact result modulo [2^16].
    Z, N and C describe the exact result (zero and bit 15 of [r], carry out or
    no borrow). V says whether the exact signed result leaves 16 bits, except
    for X+Y+C when adding the carry to Y crosses bit 15 ([carry_wraps]: Y is
    0x7fff or 0xffff with C set), where it says the opposite; it accumulates
    when MSTAT makes it sticky. AR gets [r], or, when MSTAT asks for saturation
    and V is set, 0x8000 or 0x7fff as C says. *)
Theorem alu_add_sub_exact op s sticky :
  Wf s -> clears sticky s -> add_sub (alu_kind op) = true ->
  let x := xop_of op s in let y := yop_of op s in let c := b2z (ac s) in
  let r := exact id (alu_kind op) x y c mod 0x10000 in
  let t := exec (alu_op_ar op) s in
  az t = (r =? 0) /\ an t = (0x8000 <=? r) /\ ac t = carry (alu_kind op) x y c /\
  av t = xorb (carry_wraps (alu_kind op) y c) (overflows (exact s16 (alu_kind op) x y c))
         || sticky && av s /\
  t.[Core AR] = (if tst (s.[MSTAT]) MSTAT_SATURATE && av t
                 then (if ac t then 0x8000 else 0x7fff) else r).
Proof.
  intros Hs Hcl Hk x y c r t.
  destruct (alu_op_ar_sums op s sticky Hs Hcl Hk) as [(H1 & H2 & H3 & H4) Har].
  pose proof (alu_op_ar_mstat op s Hk) as E. fold t x y c in H1, H2, H3, H4, Har, E.
  rewrite E in Har.
  split_and!; [done..|]. rewrite Har. destruct (_ && av t); [by destruct (ac t)|].
  by rewrite (conv_unsigned U16).
Qed.

(** Congruent results, one unsigned and one signed. *)
Lemma exact_congruent kind x y c : 0 <= x <= 0xffff -> 0 <= y <= 0xffff ->
  exact id kind x y c mod 0x10000 = exact s16 kind x y c mod 0x10000.
Proof.
  intros Hx Hy. rewrite <- (Z.mod_add (exact s16 kind x y c) ((exact id kind x y c - exact s16 kind x y c) / 0x10000)) by lia.
  f_equal. unfold exact, id. rewrite !s16_eq by done.
  destruct (x <? 0x8000), (y <? 0x8000); repeat case_match; zdiv.
Qed.

(** Saturation. With saturation on and V not sticky, the additive
    operations leave in AR the exact signed result clamped to 16 bits. *)
Theorem alu_saturates op s :
  Wf s -> clears false s -> add_sub (alu_kind op) = true ->
  tst (s.[MSTAT]) MSTAT_SATURATE = true ->
  let x := xop_of op s in let y := yop_of op s in let c := b2z (ac s) in
  carry_wraps (alu_kind op) y c = false ->
  s16 ((exec (alu_op_ar op) s).[Core AR]) = clamp16 (exact s16 (alu_kind op) x y c).
Proof.
  intros Hs Hcl Hk Hsat x y c Hw.
  destruct (alu_op_ar_sums op s false Hs Hcl Hk) as [(H1 & H2 & H3 & H4) Har].
  fold x y c in H1, H2, H3, H4, Har. set (t := exec (alu_op_ar op) s) in *.
  pose proof (alu_op_ar_mstat op s Hk) as E. fold t in E.
  rewrite E, Hsat, H3, H4, Hw in Har. cbn [andb] in Har. rewrite xorb_false_l, orb_false_r in Har.
  pose proof (alu_x_range op s Hs) as Rx. pose proof (alu_y_range op s Hs) as Ry.
  fold (xop_of op s) in Rx. fold (yop_of op s) in Ry. fold x in Rx. fold y in Ry.
  pose proof (b2z_range (ac s)) as Rc. fold c in Rc.
  pose proof (exact_congruent (alu_kind op) x y c Rx Ry) as Hcong.
  rewrite Har. clear Har H1 H2 H3 H4 E Hw.
  unfold clamp16, overflows. set (S := exact s16 (alu_kind op) x y c) in *.
  assert (S < -32768 -> carry (alu_kind op) x y c = true) as Hneg.
  { unfold S. destruct (add_sub_cases _ Hk) as [-> |[-> |[-> |[-> |[-> | ->]]]]];
      cbn [exact carry]; unfold id; rewrite !s16_eq by done;
      destruct (Z.ltb_spec x 0x8000), (Z.ltb_spec y 0x8000); lia. }
  assert (32767 < S -> carry (alu_kind op) x y c = false) as Hpos.
  { unfold S. destruct (add_sub_cases _ Hk) as [-> |[-> |[-> |[-> |[-> | ->]]]]];
      cbn [exact carry]; unfold id; rewrite !s16_eq by done;
      destruct (Z.ltb_spec x 0x8000), (Z.ltb_spec y 0x8000); lia. }
  destruct (Z.ltb_spec S (-32768)); [|destruct (Z.ltb_spec 32767 S)]; cbn [orb].
  - rewrite Hneg by done. rewrite Z.min_r, Z.max_l by lia. done.
  - rewrite Hpos by done. rewrite Z.min_l by lia. done.
  - rewrite Z.min_r, Z.max_r by lia.
    assert (s16 S = S) as <- by (apply conv_id; cbn; lia).
    apply conv_eq_mod. change (2 ^ cbits S16) with 0x10000.
    transitivity (exact id (alu_kind op) x y c mod 0x10000); [|exact Hcong].
    apply (conv_low U16).
Qed.

(** X+Y+C computes its overflow flag from X and Y+C, not from X and Y.
    When the carry takes Y+C across bit 15 (Y is 0x7fff or 0xffff and C is
    set), V is therefore the opposite of what it should be, for every X. *)
Theorem add_carry_overflow_wrong op s :
  Wf s -> clears false s -> alu_kind op = 2 -> ac s = true ->
  yop_of op s = 0x7fff \/ yop_of op s = 0xffff ->
  av (exec (alu_op_ar op) s) = negb (overflows (s16 (xop_of op s) + s16 (yop_of op s) + 1)).
Proof.
  intros Hs Hcl Hk Hc Hy.
  destruct (alu_op_ar_sums op s false Hs Hcl ltac:(by rewrite Hk)) as [(_ & _ & _ & H) _].
  rewrite H, Hk, Hc. cbn [b2z exact].
  assert (carry_wraps 2 (yop_of op s) 1 = true) as -> by (by destruct Hy as [-> | ->]).
  by rewrite orb_false_r.
Qed.

(** C9: comparisons. After X - Y (V not sticky), the sequencer's conditions
    EQ, NE, GT, LE, LT and GE are the comparisons of X and Y as signed
    integers, overflow or not, and AC and NOT AC compare them as unsigned. *)
Theorem compare_and_branch op s :
  Wf s -> clears false s -> alu_kind op = 7 ->
  let x := xop_of op s in let y := yop_of op s in
  let branch c := eval (CONDITION c) (exec (alu_op_ar op) s) in
  branch 0 = (s16 x =? s16 y) /\ branch 1 = negb (s16 x =? s16 y) /\
  branch 2 = (s16 y <? s16 x) /\ branch 3 = (s16 x <=? s16 y) /\
  branch 4 = (s16 x <? s16 y) /\ branch 5 = (s16 y <=? s16 x) /\
  branch 8 = (y <=? x) /\ branch 9 = (x <? y).
Proof.
  intros Hs Hcl Hk x y branch.
  destruct (alu_op_ar_sums op s false Hs Hcl ltac:(by rewrite Hk)) as [(H1 & H2 & H3 & H4) _].
  fold x y in H1, H2, H3, H4. rewrite Hk in *. change (carry_wraps 7 _ _) with false in H4. rewrite xorb_false_l in H4.
  destruct (ok_kept _ _ (ok_alu_op_ar op) s Hs) as [Hw _]. specialize (Hw Hs).
  pose proof (alu_x_range op s Hs) as Rx. pose proof (alu_y_range op s Hs) as Ry.
  fold (xop_of op s) in Rx. fold (yop_of op s) in Ry. fold x in Rx. fold y in Ry.
  unfold branch. rewrite !(fun c H1 H2 => proj1 (condition_flags c _ Hw H1 H2)) by lia.
  set (t := exec (alu_op_ar op) s) in *. cbn [cond_ref]. rewrite H1, H2, H3, H4.
  cbn [exact carry andb]. unfold id, overflows. rewrite orb_false_r, !s16_eq by done.
  clear H1 H2 H3 H4 Hw. clearbody x y. clear t branch.
  assert (((if x <? 0x8000 then x else x - 0x10000) =? (if y <? 0x8000 then y else y - 0x10000)) = (x =? y)) as ->
    by (destruct (Z.ltb_spec x 0x8000), (Z.ltb_spec y 0x8000); lia).
  assert ((x - y) mod 0x10000 = if x <? y then x - y + 0x10000 else x - y) as Em.
  { destruct (Z.ltb_spec x y); [|apply Z.mod_small; lia].
    rewrite <- (Z.mod_add (x - y) 1), Z.mod_small; lia. }
  rewrite Em. clear Em.
  assert (forall a b, xorb a b = (a && negb b) || (negb a && b)) as Ex by (by intros [] []).
  rewrite !Ex. clear Ex.
  destruct (Z.ltb_spec x 0x8000), (Z.ltb_spec y 0x8000), (Z.ltb_spec x y); split_and!; lia.
Qed.

(** The other operations, except Y-1: their exact result... *)
Definition unary_logic (kind : Z) : bool :=
  match kind with 0 | 1 | 4 | 5 | 11 | 12 | 13 | 14 | 15 => true | _ => false end.
Definition unary_ref (kind x y : Z) : Z :=
  match kind with
  | 0 => y
  | 1 => s16 y + 1
  | 4 => ~~~y
  | 5 => - s16 y
  | 11 => ~~~x
  | 12 => x &&& y
  | 13 => x ||| y
  | 14 => x ^^^ y
  | _ => Z.abs (s16 x)
  end.
(** ... whether it can leave 16 bits, and the carry of Y+1 and of 0-Y. *)
Definition unary_overflow (kind x y : Z) : bool :=
  match kind with 1 | 5 | 15 => overflows (unary_ref kind x y) | _ => false end.
Definition unary_carry (kind y : Z) : bool :=
  match kind with 1 => y =? 0xffff | 5 => y =? 0 | _ => false end.

Lemma lnot16 v : (v ^^^ 0xffff) mod 0x10000 = (~~~v) mod 0x10000.
Proof.
  change 0x10000 with (2 ^ 16). apply Z.bits_inj'. intros n Hn.
  destruct (Z.lt_ge_cases n 16).
  - rewrite !Z.mod_pow2_bits_low, Z.lxor_spec, Z.lnot_spec by lia.
    change 0xffff with (Z.ones 16). rewrite Z.ones_spec_low by lia. apply xorb_true_r.
  - by rewrite !Z.mod_pow2_bits_high by lia.
Qed.

Lemma set_f_bits m k s j : 0 <= k <= 7 -> m = 2 ^ k -> 0 <= j <= 7 ->
  tst ((exec (SET_F m) s).[ASTAT]) (2 ^ j) = (k =? j) || tst (s.[ASTAT]) (2 ^ j).
Proof.
  intros Hk -> Hj. rewrite exec_SET_F, get_set_eq, (tst_conv U32), tst_set by (cbn; lia). done.
Qed.
Lemma clr_f_bits m k s j : 0 <= k <= 7 -> m = 2 ^ k -> 0 <= j <= 7 ->
  tst ((exec (CLR_F m) s).[ASTAT]) (2 ^ j) = negb (k =? j) && tst (s.[ASTAT]) (2 ^ j).
Proof.
  intros Hk -> Hj. unfold CLR_F. run. rewrite get_set_eq, (tst_conv U32), tst_clr by (cbn; lia). done.
Qed.
(** [CALC_NZ], then V and C set on conditions. *)
Definition nzvc_if (r : Z) (v c : bool) : M unit :=
  CALC_NZ r ;; when v (SET_F VFLAG) ;; when c (SET_F CFLAG).
Lemma nzvc_if_bits sticky s r v c k : clears sticky s -> 0 <= k <= 3 ->
  tst ((exec (nzvc_if r v c) s).[ASTAT]) (2 ^ k) =
  match k with
  | 0 => r mod 0x10000 =? 0 | 1 => 0x8000 <=? r mod 0x10000
  | 2 => v || sticky && av s | _ => c end.
Proof using Type.
  intros Hcl Hk. pose proof (calc_nz_bits sticky s r) as H. unfold nzvc_if. rewrite !exec_bind.
  set (u := exec (CALC_NZ r) s) in *. rewrite !exec_when.
  assert (tst ((if c then exec (SET_F CFLAG) (if v then exec (SET_F VFLAG) u else u)
      else if v then exec (SET_F VFLAG) u else u).[ASTAT]) (2 ^ k) =
    (c && (3 =? k)) || (v && (2 =? k)) || tst (u.[ASTAT]) (2 ^ k)) as ->.
  { destruct c, v; rewrite ?(set_f_bits CFLAG 3), ?(set_f_bits VFLAG 2) by (done || lia);
      cbn [andb orb]; rewrite ?orb_false_r, ?orb_assoc; done. }
  rewrite (H k Hcl Hk), low16_zero, testbit15_mod. each_flag k; by destruct v, c.
Qed.

(** The operations but ABS are that pattern. *)
Lemma switch_unary op s (x := xop_of op s) (y := yop_of op s) :
  unary_logic (alu_kind op) = true -> alu_kind op <> 15 ->
  exists r, eval (alu_switch op (alu_get_x op) (alu_get_y op)) s = r /\
  r mod 0x10000 = unary_ref (alu_kind op) x y mod 0x10000 /\
  exec (alu_switch op (alu_get_x op) (alu_get_y op)) s =
  exec (nzvc_if r (match alu_kind op with 1 => y =? 0x7fff | 5 => y =? 0x8000 | _ => false end)
                  (unary_carry (alu_kind op) y)) s.
Proof using Type.
  intros Hk Hne.
  assert (forall t, exec (alu_get_x op) t = t) as Gx by (intros; apply exec_rd_u).
  assert (forall t, exec (alu_get_y op) t = t) as Gy by (intros; apply exec_rd_u).
  assert (forall v, s16 v mod 0x10000 = v mod 0x10000) as Es by (intros; apply (conv_low S16)).
  unfold alu_switch. fold (alu_kind op). revert Hk Hne. generalize (alu_kind op). intros kind Hk Hne.
  destruct kind as [|p|]; try discriminate Hk; [|do 4 (try destruct p as [p|p|]; try discriminate Hk)];
    try done; cbn [unary_ref unary_carry]; unfold nzvc_if; run; rewrite ?Gx, ?Gy;
    fold (xop_of op s) (yop_of op s); fold x y;
    (eexists; split; [reflexivity|]; split; [try done|try done]).
  all: try apply lnot16.
  all: try (rewrite <- (Z.sub_0_l y), <- (Z.sub_0_l (s16 y)), Zminus_mod, (Zminus_mod 0 (s16 y)), Es; reflexivity).
  all: try (rewrite Zplus_mod, (Zplus_mod (s16 y) 1), Es; reflexivity).
  all: run; try reflexivity.
  all: destruct (Z.eqb_spec y 32767) as [->|]; reflexivity.
Qed.

(** ABS: the sign of X goes to S, and 0x8000 has no absolute value. *)
Lemma switch_abs op s (x := xop_of op s) : 0 <= x <= 0xffff -> alu_kind op = 15 ->
  let r := if tst x 0x8000 then - x else x in
  eval (alu_switch op (alu_get_x op) (alu_get_y op)) s = r /\
  exec (alu_switch op (alu_get_x op) (alu_get_y op)) s =
  exec (CALC_NZ r ;; when (x =? 0x8000) (SET_F NFLAG ;; SET_F VFLAG) ;; CLR_F SFLAG ;;
        when (tst x 0x8000) (SET_F SFLAG)) s.
Proof using Type.
  intros Rx Hk. assert (forall t, exec (alu_get_x op) t = t) as Gx by (intros; apply exec_rd_u).
  unfold alu_switch. fold (alu_kind op). rewrite Hk. run. rewrite ?Gx.
  fold (xop_of op s). fold x. split; [done|]. by destruct (x =? 0x8000).
Qed.

Lemma abs_bits b c v k : 0 <= k <= 4 ->
  tst ((exec (when c (SET_F SFLAG)) (exec (CLR_F SFLAG)
    (exec (when b (SET_F NFLAG ;; SET_F VFLAG)) v))).[ASTAT]) (2 ^ k) =
  (c && (4 =? k)) || (negb (4 =? k) && ((b && (2 =? k)) || (b && (1 =? k)) || tst (v.[ASTAT]) (2 ^ k))).
Proof using Type.
  intros Hk. rewrite exec_when.
  assert (forall w, tst ((if c then exec (SET_F SFLAG) w else w).[ASTAT]) (2 ^ k) =
    (c && (4 =? k)) || tst (w.[ASTAT]) (2 ^ k)) as ->
    by (intros w; destruct c; [by rewrite (set_f_bits SFLAG 4) by (done || lia)|done]).
  rewrite (clr_f_bits SFLAG 4), exec_when by (done || lia). destruct b; [|done].
  rewrite exec_bind, (set_f_bits VFLAG 2), (set_f_bits NFLAG 1) by (done || lia).
  cbn [andb]. by rewrite orb_assoc.
Qed.
Lemma unary_abs op s sticky (x := xop_of op s) (y := yop_of op s)
  (u := exec (alu_switch op (alu_get_x op) (alu_get_y op)) s)
  (r := eval (alu_switch op (alu_get_x op) (alu_get_y op)) s) :
  clears sticky s -> 0 <= x <= 0xffff -> alu_kind op = 15 ->
  u.[MSTAT] = s.[MSTAT] /\ r mod 0x10000 = unary_ref (alu_kind op) x y mod 0x10000 /\
  (forall k, 0 <= k <= 3 -> tst (u.[ASTAT]) (2 ^ k) =
    match k with
    | 0 => r mod 0x10000 =? 0 | 1 => 0x8000 <=? r mod 0x10000
    | 2 => unary_overflow (alu_kind op) x y || sticky && av s
    | _ => unary_carry (alu_kind op) y end) /\
  (alu_kind op = 15 -> tst (u.[ASTAT]) (2 ^ 4) = (0x8000 <=? x)).
Proof using Type.
  intros Hcl Rx Hk. destruct (switch_abs op s Rx Hk) as [Er Eu]. fold x in Er, Eu.
  fold u in Eu. fold r in Er. rewrite Eu. clear Eu. subst u.
  assert (tst x 0x8000 = (0x8000 <=? x)) as Et
    by (change 0x8000 with (2 ^ 15) at 1; rewrite tst_pow2 by lia; by apply bit15).
  rewrite Et in *. split; [run; by repeat case_match|].
  split; [|split].
  - rewrite Er, Hk. cbn [unary_ref]. rewrite s16_eq by done.
    destruct (Z.leb_spec 0x8000 x), (Z.ltb_spec x 0x8000); try lia.
    + rewrite <- (Z.mod_add (- x) 1) by lia. f_equal. lia.
    + f_equal. lia.
  - intros k Hkk. rewrite !exec_bind, abs_bits, (calc_nz_bits sticky), low16_zero, testbit15_mod, <- Er by (done || lia).
    rewrite Hk. unfold unary_overflow, unary_ref, overflows. rewrite s16_eq by done.
    each_flag k; destruct (Z.eqb_spec x 0x8000) as [Ex|Ex]; cbn [andb orb]; try done.
    + rewrite Er, Ex. done.
    + rewrite Ex. done.
    + cbn [negb andb].
      assert ((Z.abs (if x <? 32768 then x else x - 65536) <? -32768) ||
        (32767 <? Z.abs (if x <? 32768 then x else x - 65536)) = false) as ->; [|done].
      clearbody x. clear - Rx Ex. destruct (Z.ltb_spec x 0x8000); lia.
  - intros _. rewrite !exec_bind, abs_bits by lia. cbn. by rewrite andb_true_r, orb_false_r.
Qed.

(** The remaining operations. Y, Y+1, NOT Y, -Y, NOT X, X AND Y, X OR Y,
    X XOR Y and ABS X (without saturation) leave in AR the named function of
    the operands modulo [2^16]; Z and N describe it; V is set exactly when
    Y+1, -Y or ABS X leaves the signed range; C is the carry of Y+1 and of
    0-Y and otherwise clear; ABS records the sign of X. *)
Theorem alu_unary_logic_exact op s sticky :
  Wf s -> clears sticky s -> unary_logic (alu_kind op) = true ->
  tst (s.[MSTAT]) MSTAT_SATURATE = false ->
  let x := xop_of op s in let y := yop_of op s in
  let t := exec (alu_op_ar op) s in
  t.[Core AR] = unary_ref (alu_kind op) x y mod 0x10000 /\
  az t = (t.[Core AR] =? 0) /\ an t = (0x8000 <=? t.[Core AR]) /\
  av t = unary_overflow (alu_kind op) x y || sticky && av s /\
  ac t = unary_carry (alu_kind op) y /\
  (alu_kind op = 15 -> tst (t.[ASTAT]) SFLAG = (0x8000 <=? x)).
Proof.
  intros Hs Hcl Hk Hsat x y t.
  pose proof (alu_x_range op s Hs) as Rx. pose proof (alu_y_range op s Hs) as Ry.
  fold (xop_of op s) in Rx. fold (yop_of op s) in Ry. fold x in Rx. fold y in Ry.
  set (u := exec (alu_switch op (alu_get_x op) (alu_get_y op)) s).
  set (r := eval (alu_switch op (alu_get_x op) (alu_get_y op)) s).
  assert (u.[MSTAT] = s.[MSTAT] /\ r mod 0x10000 = unary_ref (alu_kind op) x y mod 0x10000 /\
    (forall k, 0 <= k <= 3 -> tst (u.[ASTAT]) (2 ^ k) =
      match k with
      | 0 => r mod 0x10000 =? 0 | 1 => 0x8000 <=? r mod 0x10000
      | 2 => unary_overflow (alu_kind op) x y || sticky && av s
      | _ => unary_carry (alu_kind op) y end) /\
    (alu_kind op = 15 -> tst (u.[ASTAT]) (2 ^ 4) = (0x8000 <=? x))) as (Hm & Hr & Hb & Hss).
  { destruct (Z.eq_dec (alu_kind op) 15) as [E|E].
    - apply (unary_abs op s sticky Hcl Rx E).
    - destruct (switch_unary op s Hk E) as (v & Ev & Em & Eu). unfold r, u. rewrite Ev, Eu.
      split; [unfold nzvc_if; run; by repeat case_match|]. split; [exact Em|].
      split; [|done]. intros k Hkk. rewrite (nzvc_if_bits sticky) by done.
      assert (match alu_kind op with 1 => y =? 0x7fff | 5 => y =? 0x8000 | _ => false end =
        unary_overflow (alu_kind op) x y) as <-; [|done].
      unfold unary_overflow, unary_ref, overflows. rewrite !s16_eq by done.
      repeat case_match; lia || done. }
  assert (t.[Core AR] = r mod 0x10000 /\ t.[ASTAT] = u.[ASTAT]) as [Har Ha].
  { unfold t, alu_op_ar. rewrite !exec_bind. fold u r. rewrite (proj1 (saturate_eval _ _)).
    rewrite (proj2 (saturate_eval _ _)), Hm, Hsat. cbn [andb]. rewrite exec_wr. gets.
    split; [|done]. apply (conv_unsigned U16). done. }
  unfold az, an, av, ac. rewrite Har, Ha, Hr, <- Hr. change ZFLAG with (2 ^ 0). change NFLAG with (2 ^ 1).
  change VFLAG with (2 ^ 2). change CFLAG with (2 ^ 3). change SFLAG with (2 ^ 4).
  rewrite (Hb 0), (Hb 1), (Hb 2), (Hb 3) by lia. unfold av. auto 10.
Qed.

(** *** Division *)
Definition aq (s : state) : bool := tst (s.[ASTAT]) QFLAG.
Fixpoint divide_steps (k : nat) (op : Z) (s : state) : state :=
  match k with O => s | S k => exec (divq op) (divide_steps k op s) end.

Lemma lor_bit y b : 0 <= b <= 1 -> (y <<< 1) ||| b = 2 * y + b.
Proof using Type.
  intros Hb. rewrite Z.shiftl_mul_pow2, Z.lor_comm by lia. rewrite lor_add by lia. lia.
Qed.
Lemma u16_mod z : u16 z = z mod 0x10000.
Proof using Type. by apply conv_unsigned. Qed.
Lemma top_bit d : 0 <= d <= 0xffff -> d >>> 15 = b2z (0x8000 <=? d) /\ 0 <= d >>> 15 <= 1.
Proof using Type.
  intros Hd. rewrite Z.shiftr_div_pow2 by lia. change (2 ^ 15) with 32768.
  destruct (Z.leb_spec 0x8000 d); cbn [b2z]; zdiv.
Qed.

(** One step on the partial remainder, the quotient word and Q. *)
Lemma divq_step op s : Wf s -> xop_of op s < 0x8000 ->
  let x := xop_of op s in let t := exec (divq op) s in
  let res := if aq s then s.[Core AF] + x else s.[Core AF] - x in
  let neg := Z.testbit res 15 in
  t.[Core AF] = (2 * res + b2z (0x8000 <=? s.[Core AY0])) mod 0x10000 /\
  t.[Core AY0] = (2 * s.[Core AY0] + b2z (negb neg)) mod 0x10000 /\
  aq t = neg /\ xop_of op t = x.
Proof using Type.
  intros Hs Hx x t res neg.
  pose proof (alu_x_range op s Hs) as Rx. fold (xop_of op s) in Rx. fold x in Rx, Hx.
  pose proof (wf_field s Hs (Core AY0)) as Ry. unfold in_frange in Ry. cbn in Ry.
  destruct (top_bit (s.[Core AY0]) Ry) as [Et Er].
  assert (forall y, nz (y &&& QFLAG) = tst y QFLAG) as Eq by done.
  assert (Z.testbit x 15 = false) as Hx15 by (rewrite bit15 by done; lia).
  set (temp := u32 (res ^^^ x)).
  assert (Z.testbit temp 15 = neg) as Ht.
  { unfold temp. rewrite conv_testbit, Z.lxor_spec, Hx15 by (cbn; lia). apply xorb_false_r. }
  assert (t = set (Core AY0) (u16 ((s.[Core AY0] <<< 1) ||| ((~~~temp >>> 15) &&& 1)))
    (set (Core AF) (u16 ((u32 res <<< 1) ||| (s.[Core AY0] >>> 15)))
      (set ASTAT (u32 ((s.[ASTAT] &&& ~~~QFLAG) ||| ((temp >>> 10) &&& QFLAG))) s))) as ->.
  { unfold t, divq, ALU_GETXREG_UNSIGNED, GET_Q. run. rewrite !exec_rd_u.
    change (eval (rd_u (alu_xregs ((op >>> 8) &&& 7))) s) with x. rewrite Eq. fold (aq s).
    fold res. fold temp. gets. reflexivity. }
  gets. rewrite Et in *. split; [|split; [|split]].
  - rewrite lor_bit, u16_mod by done.
    rewrite Zplus_mod, (Zplus_mod (2 * res)), Zmult_mod, (Zmult_mod 2 res).
    do 3 f_equal. f_equal. rewrite (conv_unsigned U32) by done. symmetry.
    apply Znumtheory.Zmod_div_mod; [lia|done|]. by exists 0x10000.
  - assert ((~~~temp >>> 15) &&& 1 = b2z (negb neg)) as ->.
    { change 1 with (Z.ones 1). rewrite Z.land_ones, <- Z.bit0_mod by lia.
      rewrite Z.shiftr_spec, Z.lnot_spec by lia. change (0 + 15) with 15. rewrite Ht. by destruct neg. }
    rewrite lor_bit, u16_mod by (destruct neg; cbn; lia). done.
  - unfold aq, QFLAG. gets. change 0x20 with (2 ^ 5).
    rewrite (tst_conv U32), tst_lor, tst_shifted, tst_clr by (cbn; lia). cbn.
    exact Ht.
  - subst x. unfold xop_of, alu_get_x, ALU_GETXREG_UNSIGNED.
    generalize ((op >>> 8) &&& 7). intros j. unfold alu_xregs. repeat case_match; done.
Qed.

(** The state after some steps of dividing [a0 : d0] by [x]: the partial
    remainder [res] is kept modulo [2^16] with its sign in Q; [q] is the
    quotient of the dividend bits consumed, [h] and [b] the bits shifted out
    of the quotient word, [l] those still in it; [w = 2^(k-1)], [v = 2^(16-k)]. *)
Record divide_inv (a0 d0 x w v : Z) (t : state) : Prop := {
  di_wv : 2 * w * v = 0x10000; di_v : 0 < v; di_w : 0 < w;
  di_ex : exists res q h b l,
    - x <= res < x /\ 0 <= q < 2 * w /\ 0 <= b <= 1 /\ 0 <= l < v /\
    d0 = (2 * h + b) * v + l /\ a0 * w + h = q * x + (if res <? 0 then res + x else res) /\
    t.[Core AF] = (2 * res + b) mod 0x10000 /\ t.[Core AY0] = l * (2 * w) + q /\
    aq t = (res <? 0);
}.

(** Sign of a 16-bit remainder. *)
Lemma sign_mod r z : r mod 0x10000 = z mod 0x10000 -> -0x8000 <= z < 0x8000 ->
  Z.testbit r 15 = (z <? 0).
Proof using Type.
  intros E Hz. rewrite testbit15_mod, E. destruct (Z.ltb_spec z 0).
  - assert (z mod 0x10000 = z + 0x10000) as -> by (rewrite <- (Z.mod_add z 1), Z.mod_small; lia). lia.
  - rewrite Z.mod_small; lia.
Qed.

Lemma divide_first op s : Wf s -> aq s = false ->
  let x := xop_of op s in 0 < x < 0x8000 -> s.[Core AF] < 2 * x ->
  divide_inv (s.[Core AF]) (s.[Core AY0]) x 1 0x8000 (exec (divq op) s).
Proof using Type.
  intros Hs Hq x Hx Ha.
  pose proof (wf_field s Hs (Core AF)) as Ra. pose proof (wf_field s Hs (Core AY0)) as Rd.
  unfold in_frange in *. cbn in Ra, Rd.
  destruct (divq_step op s Hs ltac:(apply Hx)) as (E1 & E2 & E3 & _). fold x in E1, E2, E3.
  rewrite Hq in *. set (a0 := s.[Core AF]) in *. set (d0 := s.[Core AY0]) in *.
  rewrite (sign_mod _ (a0 - x)) in E2, E3 by (done || lia).
  split; try lia.
  exists (a0 - x), (b2z (negb (a0 - x <? 0))), 0, (b2z (0x8000 <=? d0)), (if 0x8000 <=? d0 then d0 - 0x8000 else d0).
  rewrite E1, E2, E3. destruct (Z.ltb_spec (a0 - x) 0), (Z.leb_spec 0x8000 d0); cbn [b2z negb];
    split_and!; try lia; try done; symmetry; rewrite <- (Z.mod_add _ (-1)) || idtac; zdiv.
Qed.

Lemma divide_next a0 d0 w v op s : Wf s ->
  let x := xop_of op s in 0 < x < 0x8000 ->
  divide_inv a0 d0 x w (2 * v) s -> 0 < v ->
  divide_inv a0 d0 x (2 * w) v (exec (divq op) s).
Proof using Type.
  intros Hs x Hx [Hwv Hv Hw (res & q & h & b & l & Hr & Hq & Hb & Hl & Hd & Hn & Ea & Ed & Eq)] Hv1.
  destruct (divq_step op s Hs ltac:(apply Hx)) as (E1 & E2 & E3 & _). fold x in E1, E2, E3.
  rewrite Eq, Ea, Ed in *.
  (* the next dividend bit *)
  set (b' := b2z (v <=? l)). set (l' := if v <=? l then l - v else l).
  assert (0 <= b' <= 1 /\ 0 <= l' < v /\ l = b' * v + l') as (Hb' & Hl' & El)
    by (unfold b', l'; destruct (Z.leb_spec v l); cbn [b2z]; lia).
  assert (0x8000 = 2 * w * v) as E15 by nia.
  assert (b2z (0x8000 <=? l * (2 * w) + q) = b') as Etop.
  { unfold b'. f_equal. rewrite E15.
    destruct (Z.leb_spec v l), (Z.leb_spec (2 * w * v) (l * (2 * w) + q)); try done; nia. }
  (* the true new remainder *)
  set (res' := if res <? 0 then 2 * res + b + x else 2 * res + b - x).
  assert (- x <= res' < x) as Hr' by (unfold res'; destruct (Z.ltb_spec res 0); lia).
  set (cr := if res <? 0 then (2 * res + b) mod 0x10000 + x else (2 * res + b) mod 0x10000 - x) in *.
  assert (cr mod 0x10000 = res' mod 0x10000) as Ecr.
  { unfold cr, res'. destruct (res <? 0).
    - by rewrite Zplus_mod_idemp_l.
    - by rewrite Zminus_mod_idemp_l. }
  rewrite (sign_mod _ res') in E2, E3 by (done || lia). rewrite Etop in E1.
  split; [lia|done|lia|].
  exists res', (2 * q + b2z (negb (res' <? 0))), (2 * h + b), b', l'.
  rewrite E1, E2, E3. split_and!; try lia.
  - destruct (res' <? 0); cbn [negb b2z]; lia.
  - destruct (res' <? 0); cbn [negb b2z]; lia.
  - unfold res'. destruct (Z.ltb_spec res 0);
      [destruct (Z.ltb_spec (2 * res + b + x) 0)|destruct (Z.ltb_spec (2 * res + b - x) 0)];
      cbn [negb b2z]; nia.
  - rewrite Zplus_mod, Zmult_mod, Ecr, <- Zmult_mod, <- Zplus_mod. done.
  - replace (2 * (l * (2 * w) + q) + b2z (negb (res' <? 0)))
      with (l' * (2 * (2 * w)) + (2 * q + b2z (negb (res' <? 0))) + b' * 0x10000)
      by (rewrite El; nia).
    rewrite Z.mod_add by lia. apply Z.mod_small.
    assert (b2z (negb (res' <? 0)) <= 1) by (destruct (res' <? 0); cbn; lia).
    assert (0 <= b2z (negb (res' <? 0))) by (destruct (res' <? 0); cbn; lia). nia.
Qed.

Lemma divide_steps_inv k op s : (k < 16)%nat -> Wf s -> aq s = false ->
  let x := xop_of op s in 0 < x < 0x8000 -> s.[Core AF] < 2 * x ->
  let t := divide_steps (S k) op s in
  Wf t /\ xop_of op t = x /\
  divide_inv (s.[Core AF]) (s.[Core AY0]) x (2 ^ Z.of_nat k) (2 ^ (15 - Z.of_nat k)) t.
Proof using Type.
  intros Hk Hs Hq x Hx Ha. induction k as [|k IH]; cbv zeta in *.
  - cbn [divide_steps]. split; [by apply (ok_kept _ _ (ok_divq op) s Hs)|].
    split; [by apply (divq_step op s Hs); apply Hx|]. by apply divide_first.
  - destruct (IH ltac:(lia)) as (Hw & Hxt & Hinv).
    set (u := divide_steps (S k) op s) in *.
    change (divide_steps (S (S k)) op s) with (exec (divq op) u).
    split; [by apply (ok_kept _ _ (ok_divq op) u Hw)|].
    split; [rewrite <- Hxt; apply (divq_step op u Hw); rewrite Hxt; lia|].
    replace (2 ^ Z.of_nat (S k)) with (2 * 2 ^ Z.of_nat k)
      by (rewrite Nat2Z.inj_succ, Z.pow_succ_r; lia).
    rewrite <- Hxt. apply divide_next; [done|by rewrite Hxt| |apply Z.pow_pos_nonneg; lia].
    rewrite Hxt, <- Z.pow_succ_r by lia.
    replace (Z.succ (15 - Z.of_nat (S k))) with (15 - Z.of_nat k) by lia. done.
Qed.

(** C10: division. With Q clear, sixteen divide steps (the non-restoring
    [DIVQ]) divide the 31-bit dividend in AF and the top 15 bits of AY0 by a
    positive 15-bit divisor: AY0 ends as the 16-bit quotient, provided the
    quotient fits ([AF < 2 * divisor]). *)
Theorem divq_divides op s :
  Wf s -> aq s = false -> 0 < xop_of op s < 0x8000 -> s.[Core AF] < 2 * xop_of op s ->
  (divide_steps 16 op s).[Core AY0] =
  (s.[Core AF] * 0x10000 + s.[Core AY0]) / 2 / xop_of op s.
Proof using Type.
  intros Hs Hq Hx Ha.
  destruct (divide_steps_inv 15 op s ltac:(lia) Hs Hq Hx Ha) as (_ & _ & [_ _ _ Hex]).
  destruct Hex as (res & q & h & b & l & Hr & Hq' & Hb & Hl & Hd & Hn & _ & Ed & _).
  change (2 ^ (15 - Z.of_nat 15)) with 1 in *. change (2 ^ Z.of_nat 15) with 0x8000 in *.
  assert (l = 0) as -> by lia. rewrite Ed, Hd.
  assert ((s.[Core AF] * 0x10000 + ((2 * h + b) * 1 + 0)) / 2 = s.[Core AF] * 0x8000 + h) as -> by zdiv.
  rewrite Hn. rewrite Z.div_add_l by lia. rewrite Z.div_small; [lia|].
  destruct (Z.ltb_spec res 0); lia.
Qed.
End Claims.

(** ** Witnesses *)

(** [demo] with operands in AX0 and AY0, AF, ASTAT and MSTAT. *)
Definition alu_demo (x y af astat mstat : Z) : state :=
  set (Core AX0) x (set (Core AY0) y (set (Core AF) af (set ASTAT astat (set MSTAT mstat demo)))).
Lemma alu_demo_wf x y af astat mstat :
  0 <= x <= 0xffff -> 0 <= y <= 0xffff -> 0 <= af <= 0xffff -> 0 <= astat <= 0xff -> 0 <= mstat <= 0x7f ->
  Wf (alu_demo x y af astat mstat).
Proof.
  intros. unfold alu_demo.
  do 4 (apply wf_set; [|by unfold in_frange; cbn]). apply wf_set; [apply demo_wf|by unfold in_frange; cbn].
Qed.
Ltac demo_wf_tac := apply alu_demo_wf; lia.

(** 0x7000 + 0x2000 overflows: AR = 0x9000, or 0x7fff when it saturates; and
    0 + 0x7fff + C overflows with V clear. *)
Lemma alu_add_sub_exact_witness :
  let run op s := exec (alu_op_ar (host := null_host) op) s in
  (run 0x6000 (alu_demo 0x7000 0x2000 0 0 0)).[Core AR] = 0x9000 /\
  (run 0x6000 (alu_demo 0x7000 0x2000 0 0 8)).[Core AR] = 0x7fff /\
  av (run 0x4000 (alu_demo 0 0x7fff 0 8 0)) = false.
Proof.
  assert (Wf (alu_demo 0x7000 0x2000 0 0 0)) as W1 by demo_wf_tac.
  assert (Wf (alu_demo 0x7000 0x2000 0 0 8)) as W2 by demo_wf_tac.
  assert (Wf (alu_demo 0 0x7fff 0 8 0)) as W3 by demo_wf_tac.
  cbv zeta. split; [|split].
  - destruct (alu_add_sub_exact (host := null_host) 0x6000 _ false W1 ltac:(by vm_compute) eq_refl)
      as (_ & _ & _ & _ & ->). vm_compute. reflexivity.
  - destruct (alu_add_sub_exact (host := null_host) 0x6000 _ false W2 ltac:(by vm_compute) eq_refl)
      as (_ & _ & _ & _ & ->). vm_compute. reflexivity.
  - destruct (alu_add_sub_exact (host := null_host) 0x4000 _ false W3 ltac:(by vm_compute) eq_refl)
      as (_ & _ & _ & -> & _). vm_compute. reflexivity.
Defined.
(** ... and saturates to 0x7fff. *)
Lemma alu_saturates_witness :
  s16 ((exec (alu_op_ar (host := null_host) 0x6000) (alu_demo 0x7000 0x2000 0 0 8)).[Core AR]) = 32767.
Proof.
  assert (Wf (alu_demo 0x7000 0x2000 0 0 8)) as Hw by demo_wf_tac.
  rewrite (alu_saturates (host := null_host) 0x6000 (alu_demo 0x7000 0x2000 0 0 8)
    Hw ltac:(by vm_compute) eq_refl ltac:(by vm_compute) eq_refl).
  vm_compute. reflexivity.
Defined.
(** 0 + 0xffff + 1 is 0, yet V is set. *)
Lemma add_carry_overflow_wrong_witness :
  av (exec (alu_op_ar (host := null_host) 0x4000) (alu_demo 0 0xffff 0 8 0)) = true.
Proof.
  assert (Wf (alu_demo 0 0xffff 0 8 0)) as Hw by demo_wf_tac.
  rewrite (add_carry_overflow_wrong (host := null_host) 0x4000 (alu_demo 0 0xffff 0 8 0)
    Hw ltac:(by vm_compute) eq_refl ltac:(by vm_compute) ltac:(right; by vm_compute)).
  vm_compute. reflexivity.
Defined.
(** -32768 < 1, although the difference overflows. *)
Lemma compare_and_branch_witness :
  eval (CONDITION 4) (exec (alu_op_ar (host := null_host) 0xe000) (alu_demo 0x8000 1 0 0 0)) = true.
Proof.
  assert (Wf (alu_demo 0x8000 1 0 0 0)) as Hw by demo_wf_tac.
  destruct (compare_and_branch (host := null_host) 0xe000 (alu_demo 0x8000 1 0 0 0)
    Hw ltac:(by vm_compute) eq_refl) as (_ & _ & _ & _ & H & _).
  rewrite H. vm_compute. reflexivity.
Defined.
(** |-5| = 5. *)
Lemma alu_unary_logic_exact_witness :
  (exec (alu_op_ar (host := null_host) 0x1e000) (alu_demo 0xfffb 0 0 0 0)).[Core AR] = 5.
Proof.
  assert (Wf (alu_demo 0xfffb 0 0 0 0)) as Hw by demo_wf_tac.
  rewrite (proj1 (alu_unary_logic_exact (host := null_host) 0x1e000 (alu_demo 0xfffb 0 0 0 0) false
    Hw ltac:(by vm_compute) eq_refl ltac:(by vm_compute))).
  vm_compute. reflexivity.
Defined.
(** (100 * 65536 + 6) / 2 / 1000 = 3276. *)
Lemma divq_divides_witness :
  (divide_steps 16 0 (alu_demo 1000 6 100 0 0)).[Core AY0] = 3276.
Proof.
  assert (Wf (alu_demo 1000 6 100 0 0)) as Hw by demo_wf_tac.
  rewrite (divq_divides 0 (alu_demo 1000 6 100 0 0) Hw eq_refl
    ltac:(by vm_compute) ltac:(by vm_compute)).
  vm_compute. reflexivity.
Defined.
