(* ===== verification/MacSpec.v ===== *)
(** * Specification of the multiplier/accumulator

    The accumulate instructions compute the exact sum of products modulo
    [2^40], the rounding ones round it half to even (or half up), MV says that
    the result does not fit 32 bits, and saturation clamps it. *)
From S2P Require Import Prelude State Tables Memory Stacks Regs Alu Mac Shift Exec Api Effects EffectsOps EffectsExec Invariants Safety StacksSpec AluSpec.

(** ** Definitions *)
Definition mac_kind (op : Z) : Z := (op >>> 13) &&& 15.

(** Signed-by-unsigned and so on: which operands of operation [kind] are signed. *)
Definition x_signed (kind : Z) : bool := match kind with 6 | 7 | 10 | 11 | 14 | 15 => false | _ => true end.
Definition y_signed (kind : Z) : bool := match kind with 5 | 7 | 9 | 11 | 13 | 15 => false | _ => true end.
Definition operand (signed : bool) (v : Z) : Z := if signed then s16 v else v.

(** The product, doubled in fractional mode. *)
Definition product (kind x y : Z) (integer : bool) : Z :=
  operand (x_signed kind) x * operand (y_signed kind) y * (if integer then 1 else 2).

(** The exact accumulation; [mr] is the signed 40-bit accumulator. *)
Definition accumulate (kind mr p : Z) : Z :=
  match kind with
  | 1 | 4 | 5 | 6 | 7 => p
  | 2 | 8 | 9 | 10 | 11 => mr + p
  | _ => mr - p
  end.

(** Rounding at bit 16: to nearest, ties to even, or up when biased. *)
Definition round_half_even (a : Z) : Z :=
  let q := (a + 0x8000) / 0x10000 in
  if (a mod 0x10000 =? 0x8000) && Z.odd q then q - 1 else q.
Definition round16 (biased : bool) (a : Z) : Z :=
  if biased then (a + 0x8000) / 0x10000 else round_half_even a.
(** The rounded accumulator keeps the low word of the sum. *)
Definition mac_result (kind mr p : Z) (biased : bool) : Z :=
  let a := accumulate kind mr p in
  if kind <=? 3 then round16 biased a * 0x10000 + (a + 0x8000) mod 0x10000 else a.

(** The accumulator as a signed integer, and whether it fits 32 bits. *)
Definition mr_of (s : state) : Z := wraps 40 (s.[Core MR]).
Definition fits32 (v : Z) : bool := (-0x80000000 <=? v) && (v <? 0x80000000).
Definition clamp32 (v : Z) : Z := Z.max (-0x80000000) (Z.min 0x7fffffff v).
Definition biased_rounding (s : state) : bool := tst (s.{DATA, 0x3ff3}) 0x4000.
Definition integer_mode (s : state) : bool := tst (s.[MSTAT]) MSTAT_INTEGER.

Definition mac_x (op : Z) (s : state) : Z := eval (MAC_GETXREG_UNSIGNED ((op >>> 8) &&& 7)) s.
Definition mac_y (op : Z) (s : state) : Z := eval (MAC_GETYREG_UNSIGNED ((op >>> 11) &&& 3)) s.
(** The result of instruction [op] in state [s]. *)
Definition mac_value (op : Z) (s : state) : Z :=
  mac_result (mac_kind op) (mr_of s)
    (product (mac_kind op) (mac_x op s) (mac_y op s) (integer_mode s)) (biased_rounding s).

(** ** Arithmetic *)
Lemma wraps_cong w a b : 0 < w -> a mod 2 ^ w = b mod 2 ^ w -> wraps w a = wraps w b.
Proof. intros Hw E. unfold wraps. by rewrite Zplus_mod, E, <- Zplus_mod. Qed.
Lemma wraps_mod_w w a : 0 < w -> wraps w a mod 2 ^ w = a mod 2 ^ w.
Proof.
  intros Hw. unfold wraps. rewrite Zminus_mod, Zmod_mod, <- Zminus_mod. f_equal. lia.
Qed.

Lemma mac_shift_eval s : exec mac_shift s = s /\ 1 <<< eval mac_shift s = if integer_mode s then 1 else 2.
Proof.
  split; [done|]. unfold mac_shift, integer_mode, MSTAT_INTEGER. run. change 0x10 with (2 ^ 4).
  rewrite tst_pow2 by lia.
  assert (s.[MSTAT] &&& 2 ^ 4 = b2z (Z.testbit (s.[MSTAT]) 4) * 16) as ->; [|by destruct (Z.testbit _ _)].
  apply Z.bits_inj'. intros n Hn. rewrite Z.land_spec, Z.pow2_bits_eqb by lia.
  destruct (Z.eqb_spec 4 n) as [<-|Hne].
  - rewrite andb_true_r. by destruct (Z.testbit _ _).
  - rewrite andb_false_r. symmetry. destruct (Z.testbit (s.[MSTAT]) 4); [|apply Z.bits_0].
    change (b2z true * 16) with (2 ^ 4). by apply Z.pow2_bits_false.
Qed.

Lemma operand_range b v : 0 <= v <= 0xffff -> -0x8000 <= operand b v <= 0xffff.
Proof. intros Hv. unfold operand. destruct b; [|lia]. pose proof (s16_range v). lia. Qed.
Lemma product_range kind x y i : 0 <= x <= 0xffff -> 0 <= y <= 0xffff ->
  - 2 ^ 33 <= product kind x y i <= 2 ^ 33.
Proof.
  intros Hx Hy. unfold product.
  pose proof (operand_range (x_signed kind) x Hx). pose proof (operand_range (y_signed kind) y Hy).
  destruct i; nia.
Qed.
Lemma mr_range s : - 2 ^ 39 <= mr_of s <= 2 ^ 39 - 1.
Proof. apply (wraps_range 40). lia. Qed.

(** MV tests bits 39..31 of the result. *)
Lemma mv_bits r :
  let temp := (r >>> 31) &&& 0x1ff in
  negb (temp =? 0) && negb (temp =? 0x1ff) = negb (fits32 (wraps 40 r)).
Proof.
  cbv zeta. rewrite Z.shiftr_div_pow2 by lia. change 0x1ff with (2 ^ 9 - 1). rewrite land_mask_mod by lia.
  pose proof (wraps_range 40 r ltac:(lia)) as Hw. pose proof (wraps_mod_w 40 r ltac:(lia)) as Hm.
  generalize dependent (wraps 40 r). intros w Hw Hm. unfold fits32.
  change (2 ^ 40) with 1099511627776 in *. change (2 ^ 9) with 512. change (2 ^ 31) with 2147483648.
  change (2 ^ (40 - 1)) with 549755813888 in Hw.
  assert ((r / 2147483648) mod 512 = (w / 2147483648) mod 512) as ->.
  { assert (r = w + ((r - w) / 1099511627776) * 1099511627776) as -> by zdiv.
    replace (w + (r - w) / 1099511627776 * 1099511627776)
      with (w + (r - w) / 1099511627776 * 512 * 2147483648) by lia.
    rewrite Z.div_add, Z.mod_add by lia. done. }
  assert (-256 <= w / 2147483648 <= 255) as Hq by zdiv.
  destruct (Z.leb_spec (-2147483648) w), (Z.ltb_spec w 2147483648),
    (Z.eqb_spec ((w / 2147483648) mod 512) 0), (Z.eqb_spec ((w / 2147483648) mod 512) (512 - 1));
    cbn [andb negb]; try done; exfalso; zdiv.
Qed.

Lemma clear_bit z k : 0 <= k ->
  z &&& ~~~(2 ^ k) = if Z.testbit z k then z - 2 ^ k else z.
Proof.
  intros Hk. rewrite <- Z.ldiff_land. destruct (Z.testbit z k) eqn:E.
  - symmetry. apply Z.sub_nocarry_ldiff. apply Z.bits_inj'. intros n Hn.
    rewrite Z.ldiff_spec, Z.bits_0, Z.pow2_bits_eqb by done.
    destruct (Z.eqb_spec k n) as [<-|]; [by rewrite E|done].
  - apply Z.bits_inj'. intros n Hn. rewrite Z.ldiff_spec, Z.pow2_bits_eqb by done.
    destruct (Z.eqb_spec k n) as [<-|]; [by rewrite E|by rewrite andb_true_r].
Qed.

Lemma round_eval a s : - 2 ^ 62 <= a <= 2 ^ 62 ->
  exec (mac_round_mode a) s = s /\
  eval (mac_round_mode a) s =
  round16 (biased_rounding s) a * 0x10000 + (a + 0x8000) mod 0x10000.
Proof.
  intros Ha. unfold mac_round_mode. run. split; [done|]. fold (biased_rounding s).
  assert (s64 (a + 0x8000) = a + 0x8000) as -> by (apply conv_id; cbn; lia).
  change 0xffff with (2 ^ 16 - 1). rewrite land_mask_mod by lia. change (2 ^ 16) with 0x10000.
  pose proof (Z.div_mod (a + 0x8000) 0x10000 ltac:(lia)) as Hd.
  unfold round16, round_half_even. destruct (biased_rounding s); cbn [negb andb]; [lia|].
  destruct (Z.eqb_spec (a mod 0x10000) 0x8000) as [E|E]; cbn [andb]; [|lia].
  assert ((a + 0x8000) mod 0x10000 = 0) as E0 by zdiv. rewrite E0 in *.
  change 0x10000 with (2 ^ 16) at 1. rewrite clear_bit by lia.
  assert (Z.testbit (a + 0x8000) 16 = Z.odd ((a + 0x8000) / 0x10000)) as ->.
  { rewrite <- Z.bit0_odd. change 0x10000 with (2 ^ 16). rewrite <- Z.shiftr_div_pow2, Z.shiftr_spec by lia. done. }
  change (2 ^ 16) with 0x10000. destruct (Z.odd _); lia.
Qed.

(** ** The instructions *)
Lemma mac_operand_range op s : Wf s -> 0 <= mac_x op s <= 0xffff /\ 0 <= mac_y op s <= 0xffff.
Proof.
  intros Hs. unfold mac_x, mac_y, MAC_GETXREG_UNSIGNED, MAC_GETYREG_UNSIGNED. split.
  - destruct (eval_rd_u_range (mac_xregs ((op >>> 8) &&& 7)) s Hs) as [H|H]; [done|].
    unfold mac_xregs in H. repeat case_match; by destruct H.
  - destruct (eval_rd_u_range (mac_yregs ((op >>> 11) &&& 3)) s Hs) as [H|H]; [done|].
    unfold mac_yregs in H. repeat case_match; by destruct H.
Qed.
Lemma rd_s_eq x s : exec (rd_s x) s = s /\ eval (rd_s x) s = s16 (eval (rd_u x) s).
Proof. unfold rd_s. run. by rewrite exec_rd_u. Qed.

Lemma mr_add_eval p s : - 2 ^ 33 <= p <= 2 ^ 33 -> mr_normal (s.[Core MR]) ->
  eval (mr_plus p) s = mr_of s + p /\ eval (mr_minus p) s = mr_of s - p.
Proof.
  intros Hp Hn. unfold mr_plus, mr_minus. run. pose proof (mr_range s) as Hr.
  assert (s.[Core MR] mod 2 ^ 64 = mr_of s mod 2 ^ 64) as E.
  { rewrite Hn. rewrite sign_extend_mr40_wraps. fold (mr_of s). apply (conv_low U64). }
  assert (forall v, v mod 2 ^ 64 = (mr_of s + p) mod 2 ^ 64 -> s64 v = mr_of s + p) as H1.
  { intros v Hv. transitivity (s64 (mr_of s + p)); [by apply conv_eq_mod|]. apply conv_id. cbn. lia. }
  assert (forall v, v mod 2 ^ 64 = (mr_of s - p) mod 2 ^ 64 -> s64 v = mr_of s - p) as H2.
  { intros v Hv. transitivity (s64 (mr_of s - p)); [by apply conv_eq_mod|]. apply conv_id. cbn. lia. }
  split; [apply H1; by rewrite Zplus_mod, E, <- Zplus_mod
         |apply H2; by rewrite Zminus_mod, E, <- Zminus_mod].
Qed.

Lemma mac_kind_range op : 0 <= mac_kind op <= 15.
Proof. apply land_range_r. lia. Qed.

(** Reading the two operands, signed or not, and multiplying. *)
Definition read_op (signed : bool) (r : rref) : M Z := if signed then rd_s r else rd_u r.
Lemma prod_eval bx by_ rx ry sh s :
  let m := (x ← read_op bx rx; y ← read_op by_ ry; mret (mac_product x y sh)) in
  exec m s = s /\ eval m s = operand bx (eval (rd_u rx) s) * operand by_ (eval (rd_u ry) s) * (1 <<< sh).
Proof.
  cbv zeta. assert (forall b r, exec (read_op b r) s = s) as He
    by (intros [] r; [apply rd_s_eq|apply exec_rd_u]).
  assert (forall b r, eval (read_op b r) s = operand b (eval (rd_u r) s)) as Hv
    by (intros [] r; [apply rd_s_eq|done]).
  rewrite !exec_bind, !eval_bind, !He, !Hv. done.
Qed.

(** The three shapes of a case: with the product, accumulate and round. *)
Lemma mac_case (prod : M Z) p s : exec prod s = s -> eval prod s = p ->
  - 2 ^ 33 <= p <= 2 ^ 33 -> mr_normal (s.[Core MR]) ->
  let rnd a := round16 (biased_rounding s) a * 0x10000 + (a + 0x8000) mod 0x10000 in
  let gives (m : M (option Z)) v := exec m s = s /\ eval m s = Some v in
  gives (temp ← prod; mret (Some temp)) p /\
  gives (temp ← prod; res ← mr_plus temp; mret (Some res)) (mr_of s + p) /\
  gives (temp ← prod; res ← mr_minus temp; mret (Some res)) (mr_of s - p) /\
  gives (temp ← prod; res ← mac_round_mode temp; mret (Some res)) (rnd p) /\
  gives (temp ← prod; res ← mr_plus temp; res ← mac_round_mode res; mret (Some res)) (rnd (mr_of s + p)) /\
  gives (temp ← prod; res ← mr_minus temp; res ← mac_round_mode res; mret (Some res)) (rnd (mr_of s - p)).
Proof.
  intros He Hv Hp Hn rnd gives. pose proof (mr_range s) as Hmr.
  destruct (mr_add_eval p s Hp Hn) as [A1 A2].
  assert (exec (mr_plus p) s = s /\ exec (mr_minus p) s = s) as [E1 E2] by done.
  pose proof (fun a Ha => proj1 (round_eval a s Ha)) as R1.
  pose proof (fun a Ha => proj2 (round_eval a s Ha)) as R2.
  unfold gives, rnd. split_and!; repeat first [rewrite exec_bind | rewrite eval_bind];
    rewrite ?He, ?Hv, ?E1, ?E2, ?A1, ?A2, ?R1, ?R2 by lia; done.
Qed.

Lemma mac_switch_value op s : Wf s -> mr_normal (s.[Core MR]) -> mac_kind op <> 0 ->
  let x := (op >>> 8) &&& 7 in let y := (op >>> 11) &&& 3 in
  let m := mac_switch op (MAC_GETXREG_SIGNED x) (MAC_GETXREG_UNSIGNED x)
                         (MAC_GETYREG_SIGNED y) (MAC_GETYREG_UNSIGNED y) in
  exec m s = s /\ eval m s = Some (mac_value op s).
Proof.
  intros Hs Hn Hk x y m. destruct (mac_operand_range op s Hs) as [Rx Ry].
  pose proof (mac_kind_range op) as Hkr.
  destruct (mac_shift_eval s) as [_ Es].
  assert (forall bx by_, let p := operand bx (mac_x op s) * operand by_ (mac_y op s) *
      (if integer_mode s then 1 else 2) in - 2 ^ 33 <= p <= 2 ^ 33) as Hp.
  { intros bx by_. pose proof (operand_range bx _ Rx). pose proof (operand_range by_ _ Ry).
    destruct (integer_mode s); nia. }
  assert (forall bx by_, let prod := (x ← read_op bx (mac_xregs x); y ← read_op by_ (mac_yregs y);
      mret (mac_product x y (eval mac_shift s))) in
    exec prod s = s /\ eval prod s = operand bx (mac_x op s) * operand by_ (mac_y op s) *
      (if integer_mode s then 1 else 2)) as Hprod.
  { intros bx by_. cbv zeta. destruct (prod_eval bx by_ (mac_xregs x) (mac_yregs y) (eval mac_shift s) s)
      as [-> ->]. by rewrite Es. }
  unfold m, mac_switch, mac_value, mac_result, product. fold (mac_kind op).
  rewrite exec_bind, eval_bind. change (exec mac_shift s) with s.
  generalize dependent (mac_kind op). intros kind Hk Hkr.
  assert (kind = 1 \/ kind = 2 \/ kind = 3 \/ kind = 4 \/ kind = 5 \/ kind = 6 \/ kind = 7 \/ kind = 8 \/
    kind = 9 \/ kind = 10 \/ kind = 11 \/ kind = 12 \/ kind = 13 \/ kind = 14 \/ kind = 15) as Hd by lia.
  repeat destruct Hd as [-> | Hd]; try subst kind; cbn [x_signed y_signed accumulate Z.leb Z.compare Pos.compare Pos.compare_cont];
  match goal with
  | |- context [operand ?bx (mac_x op s) * operand ?b2 (mac_y op s) * _] =>
      destruct (Hprod bx b2) as [P1 P2];
      destruct (mac_case _ _ s P1 P2 (Hp bx b2) Hn) as (H1 & H2 & H3 & H4 & H5 & H6)
  end; first [exact H1|exact H2|exact H3|exact H4|exact H5|exact H6].
Qed.

Lemma u64_mod40 v : u64 v mod 2 ^ 40 = v mod 2 ^ 40.
Proof.
  rewrite (conv_unsigned U64) by done. change (cbits U64) with 64. symmetry.
  apply Znumtheory.Zmod_div_mod; [lia|lia|]. by exists (2 ^ 24).
Qed.

Lemma tst_mv_set res s : 
  tst ((exec (mac_set_mv res) s).[ASTAT]) MVFLAG = negb (fits32 (wraps 40 res)).
Proof.
  rewrite <- mv_bits. cbv zeta. unfold mac_set_mv. rewrite exec_bind, exec_when.
  destruct (negb (_ =? 0) && _).
  - etransitivity; [apply (set_f_bits MVFLAG 6 _ 6); done || lia|done].
  - etransitivity; [apply (clr_f_bits MVFLAG 6 _ 6); done || lia|done].
Qed.

Lemma exec_mac_op_mr op s : Wf s -> mr_normal (s.[Core MR]) -> mac_kind op <> 0 ->
  exec (mac_op_mr op) s =
  set (Core MR) (u64 (wraps 40 (mac_value op s))) (exec (mac_set_mv (mac_value op s)) s).
Proof.
  intros Hs Hn Hk. unfold mac_op_mr. rewrite exec_bind.
  destruct (mac_switch_value op s Hs Hn Hk) as [-> ->]. cbn [mac_to_mr].
  rewrite exec_bind, exec_wr, sign_extend_mr40_wraps. f_equal. change (fty (Core MR)) with U64.
  rewrite conv_conv. f_equal. apply wraps_cong; [lia|]. apply u64_mod40.
Qed.

Lemma wraps_u64 v : - 2 ^ 39 <= v <= 2 ^ 39 - 1 -> wraps 40 (u64 v) = v.
Proof.
  intros Hv. transitivity (wraps 40 v).
  - apply wraps_cong; [lia|]. apply u64_mod40.
  - unfold wraps. rewrite Z.mod_small; lia.
Qed.

(** C11: multiply/accumulate. Every form of the MAC instruction (product, MR
    plus or minus product; signed and unsigned operands; fractional or integer
    mode; rounded or not) leaves in MR the exact result reduced to a signed 40
    bits, kept sign-extended, and sets MV exactly when that result does not
    fit 32 bits. Rounding is to the nearest multiple of [2^16], ties to even,
    or half up when the biased-rounding bit of the control word at DM 0x3ff3
    is set; the low word is what the sum left there. *)
Theorem mac_exact op s :
  Wf s -> mr_normal (s.[Core MR]) -> mac_kind op <> 0 ->
  let t := exec (mac_op_mr op) s in
  mr_of t = wraps 40 (mac_value op s) /\ mr_normal (t.[Core MR]) /\
  tst (t.[ASTAT]) MVFLAG = negb (fits32 (mr_of t)).
Proof.
  intros Hs Hn Hk t.
  pose proof (wraps_range 40 (mac_value op s) ltac:(lia)) as Hw.
  assert (mr_of t = wraps 40 (mac_value op s)) as E.
  { unfold t, mr_of. rewrite exec_mac_op_mr by done. rewrite get_set_eq. by apply wraps_u64. }
  rewrite E. split; [done|].
  unfold t. rewrite exec_mac_op_mr by done. split.
  - rewrite get_set_eq. apply mr_normal_u64. lia.
  - rewrite get_set_ne by done. apply tst_mv_set.
Qed.

(** Feedback register. The MF forms compute the same result but put its
    middle word, bits 31 to 16, in MF, leave MR alone, and set MV the same way. *)
Theorem mac_feedback_exact op s :
  Wf s -> mr_normal (s.[Core MR]) -> mac_kind op <> 0 ->
  let t := exec (mac_op_mf op) s in
  t.[Core MF] = (mac_value op s / 0x10000) mod 0x10000 /\ t.[Core MR] = s.[Core MR] /\
  tst (t.[ASTAT]) MVFLAG = negb (fits32 (wraps 40 (mac_value op s))).
Proof.
  intros Hs Hn Hk t.
  assert (t = set (Core MF) (u16 (u32 (mac_value op s) >>> 16)) (exec (mac_set_mv (mac_value op s)) s)) as ->.
  { unfold t, mac_op_mf. rewrite exec_bind.
    destruct (mac_switch_value op s Hs Hn Hk) as [-> ->]. cbn [mac_to_mf].
    by rewrite exec_bind, exec_wr. }
  rewrite get_set_eq, !get_set_ne by done. split; [|split; [|apply tst_mv_set]].
  - rewrite u16_mod, Z.shiftr_div_pow2 by lia. change (2 ^ 16) with 65536.
    rewrite (conv_unsigned U32) by done. change (2 ^ cbits U32) with 4294967296. zdiv.
  - unfold mac_set_mv, CLR_F, SET_F. run. case_match; by gets.
Qed.

(** ** Saturation *)
Lemma set_piece16_bit k v x n : 0 <= k -> 0 <= n ->
  Z.testbit (set_piece16 k v x) n =
  if (16 * k <=? n) && (n <? 16 * k + 16) then Z.testbit x (n - 16 * k) else Z.testbit v n.
Proof.
  intros Hk Hn. unfold set_piece16. rewrite Z.lor_spec, Z.land_spec, Z.lnot_spec, !Z.shiftl_spec by lia.
  destruct (Z.leb_spec (16 * k) n); cbn [andb].
  - rewrite Z.land_spec. change 0xffff with (Z.ones 16). rewrite Z.testbit_ones_nonneg by lia.
    destruct (Z.ltb_spec n (16 * k + 16)), (Z.ltb_spec (n - 16 * k) 16); try lia; cbn [negb].
    + by rewrite andb_false_r, andb_true_r.
    + by rewrite andb_true_r, andb_false_r, orb_false_r.
  - rewrite !(Z.testbit_neg_r _ (n - 16 * k)) by lia. cbn [negb]. by rewrite andb_true_r, orb_false_r.
Qed.

(** Writing all three pieces fixes the low 40 bits. *)
Lemma set_pieces v a b c :
  set_piece16 0 (set_piece16 1 (set_piece16 2 v a) b) c mod 2 ^ 40 =
  set_piece16 0 (set_piece16 1 (set_piece16 2 0 a) b) c mod 2 ^ 40.
Proof.
  apply Z.bits_inj'. intros n Hn. destruct (Z.lt_ge_cases n 40).
  - rewrite !Z.mod_pow2_bits_low by lia. repeat rewrite set_piece16_bit by lia.
    do 3 match goal with |- (if ?b then _ else _) = _ => destruct b eqn:?; [done|] end. lia.
  - by rewrite !Z.mod_pow2_bits_high by lia.
Qed.

Lemma wr_pieces s a b c :
  exec ((wr_r MR2 a ;; wr_r MR1 b ;; wr_r MR0 c) ;; normalize_mr) s =
  set (Core MR) (u64 (wraps 40 (set_piece16 0 (set_piece16 1 (set_piece16 2 0 a) b) c)))
    (exec (wr_r MR2 a ;; wr_r MR1 b ;; wr_r MR0 c) s).
Proof.
  unfold wr_r, normalize_mr. run. gets. rewrite sign_extend_mr40_wraps. f_equal.
  change (fty (Core MR)) with U64. rewrite conv_conv. f_equal. apply wraps_cong; [lia|].
  rewrite <- set_pieces with (v := s.[Core MR]).
  apply Z.bits_inj'. intros n Hn. destruct (Z.lt_ge_cases n 40).
  - rewrite !Z.mod_pow2_bits_low by lia.
    repeat first [rewrite conv_testbit by (change (cbits U64) with 64; lia) | rewrite set_piece16_bit by lia].
    done.
  - by rewrite !Z.mod_pow2_bits_high by lia.
Qed.

(** Bit 7 of MR2 is the sign of the accumulator. *)
Lemma mr_negative s : tst (piece16 2 (s.[Core MR])) 0x80 = (mr_of s <? 0).
Proof.
  change 0x80 with (2 ^ 7). rewrite tst_pow2 by lia. unfold piece16.
  rewrite Z.land_spec, Z.shiftr_spec by lia. change (Z.testbit 0xffff 7) with true.
  rewrite andb_true_r. change (7 + 16 * 2) with 39.
  pose proof (mr_range s) as Hr. pose proof (wraps_mod_w 40 (s.[Core MR]) ltac:(lia)) as Hm.
  fold (mr_of s) in Hm. rewrite testbit_mod by lia.
  change (2 ^ 39) with 549755813888 in *. change (2 ^ 40) with 1099511627776 in *.
  destruct (Z.ltb_spec (mr_of s) 0), (Z.eqb_spec ((s.[Core MR] / 549755813888) mod 2) 1);
    try done; exfalso; generalize dependent (mr_of s); intros m; intros; zdiv.
Qed.

(** MR saturation. After a multiply/accumulate, SAT MR leaves in MR the
    40-bit result clamped to 32 bits. *)
Theorem mac_saturates op s :
  Wf s -> mr_normal (s.[Core MR]) -> mac_kind op <> 0 ->
  let t := exec (mac_op_mr op ;; saturate_mr) s in
  mr_of t = clamp32 (wraps 40 (mac_value op s)).
Proof.
  intros Hs Hn Hk t. destruct (mac_exact op s Hs Hn Hk) as (E & Hn' & Hmv). cbv zeta in *.
  unfold t. rewrite exec_bind. set (u := exec (mac_op_mr op) s) in *. clearbody u. rewrite <- E.
  unfold saturate_mr, GET_MV. rewrite exec_bind, eval_bind, exec_bind, exec_rd, eval_rd, exec_ret, eval_ret.
  change (nz (u.[ASTAT] &&& MVFLAG)) with (tst (u.[ASTAT]) MVFLAG). rewrite Hmv.
  pose proof (mr_range u) as Hr. unfold fits32, clamp32.
  destruct (Z.leb_spec (-0x80000000) (mr_of u)); cbn [andb negb].
  - destruct (Z.ltb_spec (mr_of u) 0x80000000); cbn [negb]; [rewrite Z.min_r, Z.max_r by lia; done|].
    rewrite Z.min_l, Z.max_r by lia. cbv iota. rewrite exec_bind, eval_rd, exec_rd, mr_negative.
    assert (mr_of u <? 0 = false) as -> by lia. cbv iota. rewrite wr_pieces. unfold mr_of.
    rewrite get_set_eq, wraps_u64; [by vm_compute|vm_compute; split; discriminate].
  - rewrite Z.min_r, Z.max_l by lia. cbv iota. rewrite exec_bind, eval_rd, exec_rd, mr_negative.
    assert (mr_of u <? 0 = true) as -> by lia. cbv iota. rewrite wr_pieces. unfold mr_of.
    rewrite get_set_eq, wraps_u64; [by vm_compute|vm_compute; split; discriminate].
Qed.

(** ** Witnesses *)

(** [demo] with operands in MX0 and MY0 and an accumulator. *)
Definition mac_demo (x y mr : Z) : state :=
  set (Core MX0) x (set (Core MY0) y (set (Core MR) (u64 mr) demo)).
Lemma mac_demo_wf x y mr : 0 <= x <= 0xffff -> 0 <= y <= 0xffff -> Wf (mac_demo x y mr).
Proof.
  intros. unfold mac_demo.
  do 2 (apply wf_set; [|by unfold in_frange; cbn]). apply wf_set; [apply demo_wf|].
  apply (conv_range U64).
Qed.

(** 0.5 * -0.5 added to 1 (fractional): [MR = MR + MX0 * MY0 (SS)]. *)
Lemma mac_exact_witness :
  mr_of (exec (mac_op_mr 0x10000) (mac_demo 0x4000 0xc000 0x80000000)) = 0x60000000.
Proof.
  assert (Wf (mac_demo 0x4000 0xc000 0x80000000)) as Hw by (apply mac_demo_wf; lia).
  rewrite (proj1 (mac_exact 0x10000 (mac_demo 0x4000 0xc000 0x80000000) Hw
    ltac:(by vm_compute) ltac:(by vm_compute))).
  vm_compute. reflexivity.
Defined.
(** A tie rounds to even: [MF = MX0 * MY0 (RND)] of 1.5 * 2^16 is 2. *)
Lemma mac_feedback_exact_witness :
  (exec (mac_op_mf 0x2000) (mac_demo 0x3000 4 0)).[Core MF] = 2.
Proof.
  assert (Wf (mac_demo 0x3000 4 0)) as Hw by (apply mac_demo_wf; lia).
  rewrite (proj1 (mac_feedback_exact 0x2000 (mac_demo 0x3000 4 0) Hw
    ltac:(by vm_compute) ltac:(by vm_compute))).
  vm_compute. reflexivity.
Defined.
(** (-1) * (-1) overflows 32 bits and saturates. *)
Lemma mac_saturates_witness :
  mr_of (exec (mac_op_mr 0x8000 ;; saturate_mr) (mac_demo 0x8000 0x8000 0)) = 0x7fffffff.
Proof.
  assert (Wf (mac_demo 0x8000 0x8000 0)) as Hw by (apply mac_demo_wf; lia).
  rewrite (mac_saturates 0x8000 (mac_demo 0x8000 0x8000 0) Hw
    ltac:(by vm_compute) ltac:(by vm_compute)).
  vm_compute. reflexivity.
Defined.
