(* ===== verification/ShiftSpec.v ===== *)
(** * Specification of the barrel shifter

    Logical and arithmetic shifts multiply by a power of two, in either
    direction and for every count. *)
From S2P Require Import Prelude State Tables Memory Stacks Regs Alu Mac Shift Exec Api Effects EffectsOps EffectsExec Invariants Safety StacksSpec AluSpec MacSpec.

(** ** Definitions *)
Definition shift_kind (op : Z) : Z := (op >>> 11) &&& 15.
Definition shift_x (op : Z) (s : state) : Z := eval (SHIFT_GETXREG_UNSIGNED ((op >>> 8) &&& 7)) s.

(** [o * 2^sc], rounded down, in 32 bits. *)
Definition shifted (o sc : Z) : Z :=
  (if 0 <=? sc then o * 2 ^ sc else o / 2 ^ (- sc)) mod 2 ^ 32.

(** The operand of operation [kind]: logical shifts take it unsigned,
    arithmetic ones signed; the HI forms place it in the upper half. *)
Definition shift_operand (kind v : Z) : Z :=
  (if kind <? 4 then v else s16 v) * (if Z.odd (kind / 2) then 1 else 0x10000).

(** Redundant sign bits of a 32-bit word. *)
Definition sign_bits32 (w : Z) : Z :=
  let m := if w <? 0 then ~~~w else w in if m =? 0 then 31 else 30 - Z.log2 m.

(** ** Shifts *)
Lemma lshift_shifted xop sc : 0 <= xop < 2 ^ 32 -> lshift xop sc = shifted xop sc.
Proof.
  intros Hx. unfold lshift, shifted.
  assert (u32 xop = xop) as -> by (apply conv_id; cbn; lia).
  destruct (Z.gtb_spec sc 0).
  - assert (0 <=? sc = true) as -> by lia. destruct (Z.ltb_spec sc 32).
    + rewrite Z.shiftl_mul_pow2 by lia. by apply conv_unsigned.
    + symmetry. apply Z.mod_divide; [lia|]. exists (xop * 2 ^ (sc - 32)).
      rewrite <- Z.mul_assoc, <- Z.pow_add_r by lia. do 2 f_equal. lia.
  - assert (forall n, 0 <= n -> (xop / 2 ^ n) mod 2 ^ 32 = xop / 2 ^ n) as Hd.
    { intros n Hn. apply Z.mod_small. split; [apply Z.div_pos; lia|].
      apply Z.div_lt_upper_bound; [lia|]. nia. }
    assert ((if 0 <=? sc then xop * 2 ^ sc else xop / 2 ^ (- sc)) = xop / 2 ^ (- sc)) as ->.
    { destruct (Z.leb_spec 0 sc); [|done]. assert (sc = 0) as -> by lia. change (2 ^ 0) with 1.
      change (2 ^ (-0)) with 1. rewrite Z.div_1_r. lia. }
    rewrite Hd by lia. destruct (Z.gtb_spec sc (-32)).
    + apply Z.shiftr_div_pow2. lia.
    + symmetry. apply Z.div_small. split; [lia|]. assert (2 ^ 32 <= 2 ^ (- sc)); [|lia].
      apply Z.pow_le_mono_r; lia.
Qed.

Lemma ashift_shifted xop sc : - 2 ^ 31 <= xop < 2 ^ 31 -> ashift xop sc = shifted xop sc.
Proof.
  intros Hx. unfold ashift, shifted. destruct (Z.gtb_spec sc 0).
  - assert (0 <=? sc = true) as -> by lia. destruct (Z.ltb_spec sc 32).
    + rewrite Z.shiftl_mul_pow2 by lia. rewrite !(conv_unsigned U32) by done.
      change (2 ^ cbits U32) with (2 ^ 32). by rewrite Zmult_mod_idemp_l.
    + symmetry. apply Z.mod_divide; [lia|]. exists (xop * 2 ^ (sc - 32)).
      rewrite <- Z.mul_assoc, <- Z.pow_add_r by lia. do 2 f_equal. lia.
  - assert ((if 0 <=? sc then xop * 2 ^ sc else xop / 2 ^ (- sc)) = xop / 2 ^ (- sc)) as ->.
    { destruct (Z.leb_spec 0 sc); [|done]. assert (sc = 0) as -> by lia. change (2 ^ 0) with 1.
      change (2 ^ (-0)) with 1. rewrite Z.div_1_r. lia. }
    destruct (Z.gtb_spec sc (-32)).
    + rewrite Z.shiftr_div_pow2 by lia. by apply conv_unsigned.
    + rewrite Z.shiftr_div_pow2, (conv_unsigned U32) by done. change (2 ^ cbits U32) with (2 ^ 32).
      f_equal. assert (2 ^ 31 < 2 ^ (- sc)) as Hp by (apply Z.pow_lt_mono_r; lia).
      destruct (Z.lt_ge_cases xop 0).
      * transitivity (-1); [|symmetry].
        -- symmetry. apply (Z.div_unique _ _ _ (xop + 2 ^ 31)); lia.
        -- symmetry. apply (Z.div_unique _ _ _ (xop + 2 ^ (- sc))); lia.
      * rewrite !Z.div_small; lia.
Qed.

Lemma shift_x_range op s : Wf s -> 0 <= shift_x op s <= 0xffff.
Proof.
  intros Hs. unfold shift_x, SHIFT_GETXREG_UNSIGNED.
  destruct (eval_rd_u_range (shift_xregs ((op >>> 8) &&& 7)) s Hs) as [H|H]; [done|].
  unfold shift_xregs in H. repeat case_match; by destruct H.
Qed.

Lemma lshift_hi v sc : 0 <= v <= 0xffff -> lshift (shift_hi_u v) sc = shifted (v * 0x10000) sc.
Proof.
  intros Hv. rewrite <- lshift_shifted by lia.
  assert (u32 (shift_hi_u v) = u32 (v * 0x10000)) as E.
  { unfold shift_hi_u. rewrite (conv_id U32 v) by (cbn; lia). rewrite Z.shiftl_mul_pow2 by lia.
    apply conv_eq_mod. apply (conv_low S32). }
  unfold lshift. by rewrite E.
Qed.

(** The left shift NORM (HI) and NORM (LO) use for a negative count. *)
Lemma norm_left xop sc : -32 < sc <= 0 ->
  u32 (u32 xop <<< (- sc)) = (xop * 2 ^ (- sc)) mod 2 ^ 32.
Proof.
  intros Hsc. rewrite Z.shiftl_mul_pow2, !(conv_unsigned U32) by (done || lia).
  change (2 ^ cbits U32) with (2 ^ 32). by rewrite Zmult_mod_idemp_l.
Qed.

Section Claims.
Context {host : Host}.

Lemma exec_shift_kind op sc s : Wf s -> 0 <= shift_kind op <= 7 ->
  exec (shift_into_sr op sc) s =
  let r := shifted (shift_operand (shift_kind op) (shift_x op s)) sc in
  set (Core SR) (u32 (if Z.odd (shift_kind op) then s.[Core SR] ||| r else r)) s.
Proof.
  intros Hs Hk. pose proof (shift_x_range op s Hs) as Hx.
  unfold shift_into_sr. fold (shift_kind op).
  pose proof (s16_range (shift_x op s)) as Hsx.
  assert (forall sc, ashift (shift_hi_s (s16 (shift_x op s))) sc =
    shifted (s16 (shift_x op s) * 0x10000) sc) as Ha.
  { intros k. rewrite shift_hi_s_eq by done. apply ashift_shifted. lia. }
  assert (forall sc, ashift (s16 (shift_x op s)) sc = shifted (s16 (shift_x op s) * 1) sc) as Hl
    by (intros k; rewrite Z.mul_1_r; apply ashift_shifted; lia).
  assert (forall sc, lshift (shift_x op s) sc = shifted (shift_x op s * 1) sc) as Hll
    by (intros k; rewrite Z.mul_1_r; apply lshift_shifted; lia).
  pose proof (fun k => lshift_hi (shift_x op s) k Hx) as Hlh.
  generalize dependent (shift_kind op). intros kind Hk.
  assert (kind = 0 \/ kind = 1 \/ kind = 2 \/ kind = 3 \/ kind = 4 \/ kind = 5 \/ kind = 6 \/ kind = 7) as Hd by lia.
  repeat destruct Hd as [-> | Hd]; try subst kind; cbv zeta; unfold sr_set, sr_or, SHIFT_GETXREG_SIGNED, rd_s;
    run; unfold SHIFT_GETXREG_UNSIGNED; rewrite ?exec_rd_u;
    change (eval (rd_u (shift_xregs ((op >>> 8) &&& 7))) s) with (shift_x op s);
    rewrite ?Ha, ?Hl, ?Hll, ?Hlh; reflexivity.
Qed.

(** C12: shifts. The logical and arithmetic shifts, by SE or immediate, HI or
    LO, replace SR by the operand (unsigned or signed, times [2^16] in the HI
    forms) times [2^count] rounded down, modulo [2^32], or or it into SR;
    every 8-bit count is covered, and no other member changes. *)
Theorem shift_exact op s :
  Wf s -> 0 <= shift_kind op <= 7 ->
  let by_ sc t := exists r, t = set (Core SR) r s /\
    let v := shifted (shift_operand (shift_kind op) (shift_x op s)) sc in
    r = if Z.odd (shift_kind op) then s.[Core SR] ||| v else v in
  by_ (s8 (s.[Core SE])) (exec (shift_op op) s) /\ by_ (s8 op) (exec (shift_op_imm op) s).
Proof.
  intros Hs Hk by_.
  assert (forall sc, by_ sc (exec (shift_into_sr op sc) s)) as Hby.
  { intros sc. rewrite exec_shift_kind by done. cbv zeta. eexists. split; [reflexivity|].
    pose proof (wf_field s Hs (Core SR)) as Hr. unfold in_frange in Hr. cbn in Hr.
    assert (0 <= shifted (shift_operand (shift_kind op) (shift_x op s)) sc <= 2 ^ 32 - 1) as Hv
      by (unfold shifted; pose proof (Z.mod_pos_bound (if 0 <=? sc then shift_operand (shift_kind op) (shift_x op s) * 2 ^ sc
        else shift_operand (shift_kind op) (shift_x op s) / 2 ^ (- sc)) (2 ^ 32)); lia).
    apply conv_id. cbv [cmin cmax csigned cbits]. destruct (Z.odd _); [|done].
    apply (lor_range _ _ 32); [lia| |done]. lia. }
  split; [|apply Hby].
  assert (exec (shift_op op) s = exec (shift_into_sr op (s8 (s.[Core SE]))) s) as ->; [|apply Hby].
  unfold shift_op. fold (shift_kind op). rewrite exec_bind.
  destruct (rd_s_eq (Full SE) s) as [-> ->].
  assert (s8 (s16 (eval (rd_u (Full SE)) s)) = s8 (s.[Core SE])) as ->.
  { apply conv_eq_mod. change (eval (rd_u (Full SE)) s) with (s.[Core SE]).
    pose proof (conv_low S16 (s.[Core SE])) as H. change (2 ^ cbits S16) with 65536 in H.
    change (2 ^ cbits S8) with 256. zdiv. }
  assert (shift_kind op = 0 \/ shift_kind op = 1 \/ shift_kind op = 2 \/ shift_kind op = 3 \/
    shift_kind op = 4 \/ shift_kind op = 5 \/ shift_kind op = 6 \/ shift_kind op = 7) as Hd by lia.
  by repeat destruct Hd as [-> | Hd]; [..|rewrite Hd].
Qed.
End Claims.

(** ASHIFT SI BY -4 (HI) of -256. *)
Lemma shift_exact_witness : exists r,
  exec (shift_op_imm (host := null_host) 0x20fc) (set (Core SI) 0xff00 demo) =
    set (Core SR) r (set (Core SI) 0xff00 demo) /\
  r = shifted (-256 * 0x10000) (-4).
Proof.
  assert (Wf (set (Core SI) 0xff00 demo)) as Hw by (apply wf_set; [apply demo_wf|by vm_compute]).
  destruct (proj2 (shift_exact (host := null_host) 0x20fc (set (Core SI) 0xff00 demo) Hw
    ltac:(by vm_compute))) as (r & He & Hr).
  exists r. split; [exact He|]. rewrite Hr. vm_compute. reflexivity.
Defined.
