(* ===== verification/Dasm.v ===== *)
(** * The disassembler

    [dasm/2100dasm.c]: the mnemonic tables and [disassemble] with its helpers
    [alumac] and [aluconst], one definition per group of cases of its switch;
    and the pieces of [dasm/dasm_main.cpp] it runs on: [BIT], [stream_format]
    (printf into a 256-byte buffer), [data_buffer.r32] and the listing loop of
    the stand-alone program.

    The operations give [None] where C++ has undefined behaviour: a table
    indexed out of bounds, a printf directive without an argument of its
    type, a read outside the program-memory array. *)
From S2P Require Import Prelude.
From Stdlib Require Export Ascii.
From stdpp Require Export strings.
Open Scope string_scope.
Open Scope Z_scope.
Open Scope c_scope.

(** ** printf *)
Inductive arg := AStr (s : string) | AInt (z : Z).

Definition digit (d : Z) : Ascii.ascii :=
  default "?"%char (String.get (Z.to_nat d) "0123456789ABCDEF").

(** The digits of a nonnegative number in front of [acc]; [fuel] digits at
    most (a 32-bit number has at most 10). *)
Fixpoint digits (fuel : nat) (base z : Z) (acc : string) : string :=
  match fuel with
  | O => acc
  | S fuel =>
      let acc := String (digit (z mod base)) acc in
      if z / base =? 0 then acc else digits fuel base (z / base) acc
  end.

(** [%d] of an [int]; [%0wX] of an [unsigned] ([%X] is width 0). *)
Definition show_d (z : Z) : string :=
  let z := s32 z in
  if z <? 0 then "-" +:+ digits 10 10 (- z) "" else digits 10 10 z "".
Fixpoint zeros (n : nat) (s : string) : string :=
  match n with O => s | S n => String "0" (zeros n s) end.
Definition show_X (w : nat) (z : Z) : string :=
  let s := digits 8 16 (u32 z) "" in zeros (w - String.length s) s.

(** The directives the tables use: [%s], [%d], [%X], [%04X], [%06X]. *)
Definition width_digit (c : Ascii.ascii) : option nat :=
  if Ascii.eqb c "4" then Some 4%nat else if Ascii.eqb c "6" then Some 6%nat else None.

Fixpoint format (f : string) (args : list arg) : option string :=
  match f with
  | EmptyString => Some ""
  | String c f =>
      if negb (Ascii.eqb c "%") then String c <$> format f args
      else match f with
      | EmptyString => None
      | String d f =>
          if Ascii.eqb d "s" then
            match args with AStr s :: args => String.append s <$> format f args | _ => None end
          else if Ascii.eqb d "d" then
            match args with AInt z :: args => String.append (show_d z) <$> format f args | _ => None end
          else if Ascii.eqb d "X" then
            match args with AInt z :: args => String.append (show_X 0 z) <$> format f args | _ => None end
          else if Ascii.eqb d "0" then
            match f with
            | String w (String x f) =>
                if Ascii.eqb x "X" then
                  match width_digit w, args with
                  | Some w, AInt z :: args => String.append (show_X w z) <$> format f args
                  | _, _ => None
                  end
                else None
            | _ => None
            end
          else None
      end
  end.

(** [snprintf(buf, 256, ...)]: what does not fit is cut off. *)
Definition stream_format (f : string) (args : list arg) : option string :=
  String.substring 0 255 <$> format f args.

(** ** Fields and tables *)
Definition BIT (x n w : Z) : Z := (u32 x >>> n) &&& (u32 (1 <<< w) - 1).
Definition BIT1 (x n : Z) : bool := nz ((u32 x >>> n) &&& 1).

Definition at_ {A} (t : list A) (i : Z) : option A :=
  if i <? 0 then None else t !! Z.to_nat i.

Definition STEP_OVER : Z := 1.
Definition STEP_COND : Z := 2.
Definition STEP_OUT : Z := 4.
Definition SUPPORTED : Z := 0x80000000.

(** ** Mnemonic tables *)
Definition flag_change : list string := [""; "TOGGLE %s "; "RESET %s "; "SET %s "].
Definition mode_change : list string := [""; ""; "DIS %s "; "ENA %s "].
Definition alu_xop : list string := ["AX0"; "AX1"; "AR"; "MR0"; "MR1"; "MR2"; "SR0"; "SR1"].
Definition alu_yop : list string := ["AY0"; "AY1"; "AF"; "0"].
Definition alu_dst : list string := ["AR"; "AF"; "NONE"].
Definition mac_xop : list string := ["MX0"; "MX1"; "AR"; "MR0"; "MR1"; "MR2"; "SR0"; "SR1"].
Definition mac_yop : list string := ["MY0"; "MY1"; "MF"; "0"].
Definition mac_dst : list string := ["MR"; "MF"; "NONE"].
Definition shift_xop : list string := ["SI"; "??"; "AR"; "MR0"; "MR1"; "MR2"; "SR0"; "SR1"].
Definition reg_grp : list (list string) :=
  [ ["AX0"; "AX1"; "MX0"; "MX1"; "AY0"; "AY1"; "MY0"; "MY1"; "SI"; "SE"; "AR"; "MR0"; "MR1"; "MR2"; "SR0"; "SR1"];
    ["I0"; "I1"; "I2"; "I3"; "M0"; "M1"; "M2"; "M3"; "L0"; "L1"; "L2"; "L3"; "??"; "??"; "PMOVLAY"; "DMOVLAY"];
    ["I4"; "I5"; "I6"; "I7"; "M4"; "M5"; "M6"; "M7"; "L4"; "L5"; "L6"; "L7"; "??"; "??"; "??"; "??"];
    ["ASTAT"; "MSTAT"; "SSTAT"; "IMASK"; "ICNTL"; "CNTR"; "SB"; "PX"; "RX0"; "TX0"; "RX1"; "TX1"; "IFC"; "OWRCNTR"; "??"; "??"] ].
Definition dual_xreg : list string := ["AX0"; "AX1"; "MX0"; "MX1"].
Definition dual_yreg : list string := ["AY0"; "AY1"; "MY0"; "MY1"].
Definition condition : list string :=
  [ "IF EQ "; "IF NE "; "IF GT "; "IF LE ";
    "IF LT "; "IF GE "; "IF AV "; "IF NOT AV ";
    "IF AC "; "IF NOT AC "; "IF NEG "; "IF POS ";
    "IF MV "; "IF NOT MV "; "IF NOT CE "; "" ].
Definition do_condition : list string :=
  [ "NE"; "EQ"; "LE"; "GT";
    "GE"; "LT"; "NOT AV"; "AV";
    "NOT AC"; "AC"; "POS"; "NEG";
    "NOT MV"; "MV"; "CE"; "FOREVER" ].
Definition alumac_op : list (string * string) :=
  [ ("", "");
    ("%s = %s * %s (RND)", "%s = %s * %s (RND)");
    ("%s = MR + %s * %s (RND)", "%s = MR + %s * %s (RND)");
    ("%s = MR - %s * %s (RND)", "%s = MR - %s * %s (RND)");
    ("%s = %s * %s (SS)", "%s = 0");
    ("%s = %s * %s (SU)", "%s = %s * %s (SU)");
    ("%s = %s * %s (US)", "%s = %s * %s (US)");
    ("%s = %s * %s (UU)", "%s = %s * %s (UU)");
    ("%s = MR + %s * %s (SS)", "%s = MR + %s * %s (SS)");
    ("%s = MR + %s * %s (SU)", "%s = MR + %s * %s (SU)");
    ("%s = MR + %s * %s (US)", "%s = MR + %s * %s (US)");
    ("%s = MR + %s * %s (UU)", "%s = MR + %s * %s (UU)");
    ("%s = MR - %s * %s (SS)", "%s = MR - %s * %s (SS)");
    ("%s = MR - %s * %s (SS)", "%s = MR - %s * %s (SS)");
    ("%s = MR - %s * %s (US)", "%s = MR - %s * %s (US)");
    ("%s = MR - %s * %s (UU)", "%s = MR - %s * %s (UU)");
    ("!%s = %s", "%s = 0");
    ("!%s = %s + 1", "%s = 1");
    ("%s = %s + %s + C", "%s = %s + %s + C");
    ("%s = %s + %s", "%s = %s");
    ("!%s = NOT %s", "!%s = NOT %s");
    ("!%s = -%s", "!%s = -%s");
    ("%s = %s - %s + C - 1", "%s = %s + C - 1");
    ("%s = %s - %s", "%s = %s - %s");
    ("!%s = %s - 1", "%s = -1");
    ("!%s = %s - %s", "%s = -%s");
    ("!%s = %s - %s + C - 1", "%s = -%s + C - 1");
    ("%s = NOT %s", "%s = NOT %s");
    ("%s = %s AND %s", "%s = %s AND %s");
    ("%s = %s OR %s", "%s = %s OR %s");
    ("%s = %s XOR %s", "%s = %s XOR %s");
    ("%s = ABS %s", "%s = ABS %s") ].
Definition dasm_shift_op : list string :=
  [ "SR = LSHIFT %s (HI)"; "SR = SR OR LSHIFT %s (HI)";
    "SR = LSHIFT %s (LO)"; "SR = SR OR LSHIFT %s (LO)";
    "SR = ASHIFT %s (HI)"; "SR = SR OR ASHIFT %s (HI)";
    "SR = ASHIFT %s (LO)"; "SR = SR OR ASHIFT %s (LO)";
    "SR = NORM %s (HI)"; "SR = SR OR NORM %s (HI)";
    "SR = NORM %s (LO)"; "SR = SR OR NORM %s (LO)";
    "SE = EXP %s (HI)"; "SE = EXP %s (HIX)";
    "SE = EXP %s (LO)"; "SB = EXPADJ %s" ].
Definition shift_by_op : list string :=
  [ "SR = LSHIFT %s BY %d (HI)"; "SR = SR OR LSHIFT %s BY %d (HI)";
    "SR = LSHIFT %s BY %d (LO)"; "SR = SR OR LSHIFT %s BY %d (LO)";
    "SR = ASHIFT %s BY %d (HI)"; "SR = SR OR ASHIFT %s BY %d (HI)";
    "SR = ASHIFT %s BY %d (LO)"; "SR = SR OR ASHIFT %s BY %d (LO)";
    "???"; "???";
    "???"; "???";
    "???"; "???";
    "???"; "???" ].
Definition dasm_constants : list string :=
  [ "$0001"; "$FFFE"; "$0002"; "$FFFD"; "$0004"; "$FFFB"; "$0008"; "$FFF7";
    "$0010"; "$FFEF"; "$0020"; "$FFDF"; "$0040"; "$FFBF"; "$0080"; "$FF7F";
    "$0100"; "$FEFF"; "$0200"; "$FDFF"; "$0400"; "$FBFF"; "$0800"; "$F7FF";
    "$1000"; "$EFFF"; "$2000"; "$DFFF"; "$4000"; "$BFFF"; "$8000"; "$7FFF" ].

Definition reg_at (g i : Z) : option string := t ← at_ reg_grp g; at_ t i.

(** What a case writes to the stream, and its [dasmflags]. *)
Definition dout : Type := option string.
Definition then_ (a b : dout) : dout := x ← a; y ← b; Some (x +:+ y).
Infix "<<" := then_ (at level 61, left associativity) : dasm_scope.
Delimit Scope dasm_scope with dasm.
Open Scope dasm_scope.
Definition nothing : dout := Some "".
Definition unknown (op : Z) : dout := stream_format "??? (%06X)" [AInt op].
Definition cond_text (op : Z) : dout :=
  c ← at_ condition (BIT op 0 4); stream_format "%s" [AStr c].

(** ** Computations *)

(** [if (opstring[0] == '!') ... opstring + 1, dst, yop, xop ... else ...] *)
Definition write_op (opstring dst xop yop : string) : dout :=
  match opstring with
  | String c rest =>
      if Ascii.eqb c "!" then stream_format rest [AStr dst; AStr yop; AStr xop]
      else stream_format opstring [AStr dst; AStr xop; AStr yop]
  | EmptyString => stream_format opstring [AStr dst; AStr xop; AStr yop]
  end.

Definition alumac (dest op : Z) : dout :=
  let opindex := BIT op 13 5 in
  '(xop, yop, dst) ←
    (if BIT1 opindex 4 then
       x ← at_ alu_xop (BIT op 8 3); y ← at_ alu_yop (BIT op 11 2); d ← at_ alu_dst dest;
       Some (x, y, d)
     else
       x ← at_ mac_xop (BIT op 8 3); y ← at_ mac_yop (BIT op 11 2); d ← at_ mac_dst dest;
       Some (x, y, d));
  ops ← at_ alumac_op opindex;
  write_op (if BIT op 11 2 =? 3 then ops.2 else ops.1) dst xop yop.

Definition aluconst (dest op : Z) : dout :=
  let opindex := BIT op 13 5 in
  '(xop, cval, dst) ←
    (if BIT1 opindex 4 then
       x ← at_ alu_xop (BIT op 8 3);
       c ← at_ dasm_constants (BIT op 5 3 ||| u32 (BIT op 11 2 <<< 3));
       d ← at_ alu_dst dest;
       Some (x, c, d)
     else
       x ← at_ mac_xop (BIT op 8 3); d ← at_ mac_dst dest; Some (x, x, d));
  ops ← at_ alumac_op opindex;
  write_op (if BIT op 11 2 =? 3 then ops.2 else ops.1) dst xop cval.

(** ** The cases of [disassemble] *)

(** 0x01 *)
Definition dasm_io (op : Z) : dout :=
  r ← reg_at 0 (BIT op 0 4);
  if negb (BIT1 op 15) then stream_format "%s = IO($%X)" [AStr r; AInt (BIT op 4 11)]
  else stream_format "IO($%X) = %s" [AInt (BIT op 4 11); AStr r].

(** 0x02 *)
Definition dasm_flag (op n : Z) (name : string) : dout :=
  f ← at_ flag_change (BIT op n 2); stream_format f [AStr name].
Definition dasm_flags_idle (op : Z) : dout :=
  if BIT op 12 4 =? 0 then
    cond_text op << dasm_flag op 4 "FLAG_OUT" << dasm_flag op 6 "FL0" <<
    dasm_flag op 8 "FL1" << dasm_flag op 10 "FL2"
  else if BIT op 4 12 =? 0x800 then
    if BIT op 0 4 =? 0 then Some "IDLE"
    else stream_format "IDLE(%d)" [AInt (u32 (BIT op 0 4 <<< 4))]
  else unknown op.

(** 0x03 *)
Definition dasm_flagin (op : Z) : dout * Z :=
  let first := if BIT1 op 1 then stream_format "%s" [AStr "IF FLAG_IN "]
               else stream_format "%s" [AStr "IF NOT FLAG_IN "] in
  let target := stream_format "$%04X" [AInt (s32 (BIT op 4 12 ||| u32 (BIT op 2 2 <<< 12)))] in
  if BIT1 op 0 then (first << stream_format "%s" [AStr "CALL "] << target, STEP_OVER ||| STEP_COND)
  else (first << stream_format "%s" [AStr "JUMP "] << target, STEP_COND).

(** 0x04 *)
Definition word_if (b : bool) (w : string) : dout :=
  if b then stream_format "%s" [AStr w] else nothing.
Definition dasm_stack (op : Z) : dout * Z :=
  if BIT op 5 11 =? 0 then
    (word_if (BIT1 op 4) "POP PC " << word_if (BIT1 op 3) "POP LOOP " <<
     word_if (BIT1 op 2) "POP CNTR " <<
     (if BIT op 0 2 =? 2 then stream_format "%s" [AStr "PUSH STAT "]
      else word_if (BIT op 0 2 =? 3) "POP STAT "),
     if BIT1 op 4 then STEP_OUT else 0)
  else (unknown op, 0).

(** 0x05 *)
Definition dasm_satmr (op : Z) : dout :=
  if BIT op 0 16 =? 0 then stream_format "%s" [AStr "IF MV SAT MR"] else unknown op.

(** 0x06, 0x07 *)
Definition dasm_divs (op : Z) : dout :=
  if u32 op &&& 0x00e0ff =? 0x000000 then
    y ← at_ alu_yop (BIT op 11 2); x ← at_ alu_xop (BIT op 8 3);
    stream_format "DIVS %s,%s" [AStr y; AStr x]
  else unknown op.
Definition dasm_divq (op : Z) : dout :=
  if u32 op &&& 0x00f8ff =? 0x001000 then
    x ← at_ alu_xop (BIT op 8 3); stream_format "DIVQ %s" [AStr x]
  else unknown op.

(** 0x09 *)
Definition dasm_modify (op : Z) : dout :=
  if BIT op 5 11 =? 0 then
    let temp := s32 (BIT op 2 3) in
    stream_format "MODIFY (I%d,M%d)" [AInt temp; AInt (u32 ((temp &&& 4) + BIT op 0 2))]
  else unknown op.

(** [if (BIT(op, 0, 4) != 15) dasmflags |= STEP_COND] *)
Definition or_cond (op flags : Z) : Z :=
  if negb (BIT op 0 4 =? 15) then flags ||| STEP_COND else flags.

(** 0x0a *)
Definition dasm_return (op : Z) : dout * Z :=
  if BIT op 5 11 =? 0 then
    (cond_text op << stream_format "%s" [AStr (if BIT1 op 4 then "RTI" else "RTS")],
     or_cond op STEP_OUT)
  else (unknown op, 0).

(** 0x0b *)
Definition dasm_jump_indirect (op : Z) : dout * Z :=
  if BIT op 8 8 =? 0 then
    if BIT1 op 4 then
      (cond_text op << stream_format "CALL (I%d)" [AInt (u32 (4 + BIT op 6 2))], or_cond op STEP_OVER)
    else
      (cond_text op << stream_format "JUMP (I%d)" [AInt (u32 (4 + BIT op 6 2))], or_cond op 0)
  else (unknown op, 0).

(** 0x0c *)
Definition dasm_mode_word (op n : Z) (name : string) : dout :=
  f ← at_ mode_change (BIT op n 2); stream_format f [AStr name].
Definition dasm_mode (op : Z) : dout :=
  dasm_mode_word op 4 "SEC_REG" << dasm_mode_word op 6 "BIT_REV" <<
  dasm_mode_word op 8 "AV_LATCH" << dasm_mode_word op 10 "AR_SAT" <<
  dasm_mode_word op 12 "M_MODE" << dasm_mode_word op 14 "TIMER" <<
  dasm_mode_word op 2 "G_MODE".

(** 0x0d *)
Definition dasm_move (op : Z) : dout :=
  if BIT op 12 4 =? 0 then
    d ← reg_at (BIT op 10 2) (BIT op 4 4); s ← reg_at (BIT op 8 2) (BIT op 0 4);
    stream_format "%s = %s" [AStr d; AStr s]
  else unknown op.

(** [stream_format(stream, shift_op[BIT(op, 11, 4)], shift_xop[BIT(op, 8, 3)])] *)
Definition shift_text (op : Z) : dout :=
  f ← at_ dasm_shift_op (BIT op 11 4); x ← at_ shift_xop (BIT op 8 3); stream_format f [AStr x].

(** 0x0e, 0x0f, 0x10 *)
Definition dasm_cond_shift (op : Z) : dout :=
  if u32 op &&& 0x0080f0 =? 0x000000 then cond_text op << shift_text op else unknown op.
Definition dasm_shift_imm (op : Z) : dout :=
  if negb (BIT1 op 15) then
    f ← at_ shift_by_op (BIT op 11 4); x ← at_ shift_xop (BIT op 8 3);
    stream_format f [AStr x; AInt (s8 op)]
  else unknown op.
Definition dasm_shift_move (op : Z) : dout :=
  if negb (BIT1 op 15) then
    shift_text op <<
    (d ← reg_at 0 (BIT op 4 4); s ← reg_at 0 (BIT op 0 4);
     stream_format ", %s = %s" [AStr d; AStr s])
  else unknown op.

(** The memory operand of 0x11-0x13 and 0x50-0x7f: [base] is the first DAG
    register, [sep] what the format starts with. *)
Definition mem_text (sep space : string) (base op : Z) (write : bool) : dout :=
  r ← reg_at 0 (BIT op 4 4);
  let i := AInt (u32 (base + BIT op 2 2)) in
  let m := AInt (u32 (base + BIT op 0 2)) in
  if write then stream_format (sep +:+ space +:+ "(I%d,M%d) = %s") [i; m; AStr r]
  else stream_format (sep +:+ "%s = " +:+ space +:+ "(I%d,M%d)") [AStr r; i; m].

Definition dasm_shift_pm (op : Z) : dout := shift_text op << mem_text ", " "PM" 4 op (BIT1 op 15).
Definition dasm_shift_dm (op : Z) : dout :=
  shift_text op << mem_text ", " "DM" (if BIT1 op 16 then 4 else 0) op (BIT1 op 15).

(** 0x14-0x17 *)
Definition dasm_do (op : Z) : dout :=
  c ← at_ do_condition (BIT op 0 4);
  stream_format "DO $%04X UNTIL %s" [AInt (BIT op 4 14); AStr c].

(** 0x18-0x1f *)
Definition dasm_jump (op : Z) : dout * Z :=
  let text f := c ← at_ condition (BIT op 0 4); stream_format f [AStr c; AInt (BIT op 4 14)] in
  if BIT1 op 18 then (text "%sCALL $%04X", or_cond op STEP_OVER)
  else (text "%sJUMP $%04X", or_cond op 0).

(** 0x20-0x27 *)
Definition dasm_compute (op : Z) : dout :=
  cond_text op <<
  (if negb (BIT1 op 4) then alumac (b2z (BIT1 op 18)) op else aluconst (b2z (BIT1 op 18)) op).

(** [if (BIT(op, 13, 5) != 0) { alumac(stream, dest, op); stream << ", " }] *)
Definition alumac_first (dest op : Z) : dout :=
  if negb (BIT op 13 5 =? 0) then alumac dest op << stream_format ", " [] else nothing.

(** 0x28-0x2f *)
Definition dasm_compute_move (op : Z) : dout :=
  if u32 op &&& 0x0600ff =? 0x0200aa then alumac 2 op
  else
    alumac_first (b2z (BIT1 op 18)) op <<
    (d ← reg_at 0 (BIT op 4 4); s ← reg_at 0 (BIT op 0 4);
     stream_format "%s = %s" [AStr d; AStr s]).

(** 0x30-0x3f, 0x40-0x4f *)
Definition dasm_load_nondata (op : Z) : dout :=
  r ← reg_at (BIT op 18 2) (BIT op 0 4); stream_format "%s = $%04X" [AStr r; AInt (BIT op 4 14)].
Definition dasm_load_data (op : Z) : dout :=
  r ← reg_at 0 (BIT op 0 4); stream_format "%s = $%04X" [AStr r; AInt (BIT op 4 16)].

(** 0x50-0x5f, 0x60-0x7f *)
Definition dasm_compute_pm (op : Z) : dout :=
  alumac_first (b2z (BIT1 op 18)) op << mem_text "" "PM" 4 op (BIT1 op 19).
Definition dasm_compute_dm (op : Z) : dout :=
  alumac_first (b2z (BIT1 op 18)) op <<
  mem_text "" "DM" (if BIT1 op 20 then 4 else 0) op (BIT1 op 19).

(** 0x80-0x9f, 0xa0-0xbf *)
Definition dasm_dm_direct (op : Z) : dout :=
  r ← reg_at (BIT op 18 2) (BIT op 0 4);
  if BIT1 op 20 then stream_format "DM($%04X) = %s" [AInt (BIT op 4 14); AStr r]
  else stream_format "%s = DM($%04X)" [AStr r; AInt (BIT op 4 14)].
Definition dasm_dm_imm (op : Z) : dout :=
  let temp := if BIT1 op 20 then 4 else 0 in
  stream_format "DM(I%d,M%d) = $%04X"
    [AInt (u32 (temp + BIT op 2 2)); AInt (u32 (temp + BIT op 0 2)); AInt (BIT op 4 16)].

(** 0xc0-0xff *)
Definition dasm_dual (op : Z) : dout :=
  alumac_first 0 op <<
  (x ← at_ dual_xreg (BIT op 18 2); y ← at_ dual_yreg (BIT op 20 2);
   stream_format "%s = DM(I%d,M%d), %s = PM(I%d,M%d)"
     [AStr x; AInt (BIT op 2 2); AInt (BIT op 0 2);
      AStr y; AInt (u32 (4 + BIT op 6 2)); AInt (u32 (4 + BIT op 4 2))]).

(** ** [disassemble] of the 32-bit word [op]: the text and the result *)
Definition dasm_case (op : Z) : dout * Z :=
  match BIT op 16 8 with
  | 0x00 => (Some "NOP", 0)
  | 0x01 => (dasm_io op, 0)
  | 0x02 => (dasm_flags_idle op, 0)
  | 0x03 => dasm_flagin op
  | 0x04 => dasm_stack op
  | 0x05 => (dasm_satmr op, 0)
  | 0x06 => (dasm_divs op, 0)
  | 0x07 => (dasm_divq op, 0)
  | 0x08 => (unknown op, 0)
  | 0x09 => (dasm_modify op, 0)
  | 0x0a => dasm_return op
  | 0x0b => dasm_jump_indirect op
  | 0x0c => (dasm_mode op, 0)
  | 0x0d => (dasm_move op, 0)
  | 0x0e => (dasm_cond_shift op, 0)
  | 0x0f => (dasm_shift_imm op, 0)
  | 0x10 => (dasm_shift_move op, 0)
  | 0x11 => (dasm_shift_pm op, 0)
  | 0x12 | 0x13 => (dasm_shift_dm op, 0)
  | 0x14 | 0x15 | 0x16 | 0x17 => (dasm_do op, 0)
  | 0x18 | 0x19 | 0x1a | 0x1b | 0x1c | 0x1d | 0x1e | 0x1f => dasm_jump op
  | c =>
      if c <? 0x28 then (dasm_compute op, 0)
      else if c <? 0x30 then (dasm_compute_move op, 0)
      else if c <? 0x40 then (dasm_load_nondata op, 0)
      else if c <? 0x50 then (dasm_load_data op, 0)
      else if c <? 0x60 then (dasm_compute_pm op, 0)
      else if c <? 0x80 then (dasm_compute_dm op, 0)
      else if c <? 0xa0 then (dasm_dm_direct op, 0)
      else if c <? 0xc0 then (dasm_dm_imm op, 0)
      else (dasm_dual op, 0)
  end.

Definition disassemble (op : Z) : option (string * Z) :=
  let '(text, dasmflags) := dasm_case op in
  t ← text; Some (t, u32 (1 ||| dasmflags ||| SUPPORTED)).

(** ** The stand-alone program *)

(** [static uint32_t pm[0x4000]] filled from the packed 24-bit image: the loop
    stops at the first incomplete word. *)
Fixpoint load_image (n : nat) (bytes : list Z) : list Z :=
  match n with
  | O => []
  | S n =>
      match bytes with
      | b0 :: b1 :: b2 :: bytes =>
          (b0 ||| (b1 <<< 8) ||| (b2 <<< 16)) :: load_image n bytes
      | _ => replicate (S n) 0
      end
  end.

(** Byte [k] of the array [pm] (little-endian host). *)
Definition pm_byte (pm : list Z) (k : Z) : option Z :=
  w ← at_ pm (k / 4); Some ((w >>> (8 * (k mod 4))) &&& 0xff).

(** [data_buffer{p = (u8 * )&pm[start]}.r32(a)] *)
Definition r32 (pm : list Z) (start a : Z) : option Z :=
  b0 ← pm_byte pm (4 * start + a);
  b1 ← pm_byte pm (4 * start + (a + 1));
  b2 ← pm_byte pm (4 * start + (a + 2));
  b3 ← pm_byte pm (4 * start + (a + 3));
  Some (b0 ||| (b1 <<< 8) ||| (b2 <<< 16) ||| u32 (b3 <<< 24)).

(** One line of the listing: the address, the word and the text printed. *)
Definition list_line (pm : list Z) (a : Z) : option (Z * Z * string) :=
  w ← at_ pm a;
  op ← r32 pm a (u32 a);
  '(text, _) ← disassemble op;
  Some (a, w &&& 0xffffff, text).

(** [for (long a = start; a < end; a++)] *)
Fixpoint listing (pm : list Z) (start : Z) (n : nat) : option (list (Z * Z * string)) :=
  match n with
  | O => Some []
  | S n => l ← list_line pm start; ls ← listing pm (start + 1) n; Some (l :: ls)
  end.
