(* ===== verification/DasmSpec.v ===== *)
(** * Specification of the disassembler

    Every 32-bit word disassembles without undefined behaviour to a short
    line; the names printed for registers, operands, constants and conditions
    are those the core executes with; numbers printed after a dollar sign by
    printf can be read back from the text; and where the text is wrong. *)
From S2P Require Import Prelude State Tables Memory Stacks Regs Alu Mac Shift Exec Api Effects EffectsOps EffectsExec Invariants Safety StacksSpec AluSpec MacSpec Dasm.

(** ** Fields *)
Lemma BIT_eq x n w : 0 <= x < 2 ^ 32 -> 0 <= n -> 0 <= w < 32 ->
  BIT x n w = (x / 2 ^ n) mod 2 ^ w.
Proof.
  intros Hx Hn Hw. unfold BIT.
  rewrite (conv_id U32 x) by (cbn; lia).
  rewrite (conv_id U32 (1 <<< w)).
  - rewrite Z.shiftl_1_l, Z.shiftr_div_pow2 by done. apply land_mask_mod; lia.
  - rewrite Z.shiftl_1_l. cbv [cmin cmax cbits csigned].
    pose proof (Z.pow_pos_nonneg 2 w). pose proof (Z.pow_lt_mono_r 2 w 32). lia.
Qed.

Lemma BIT_range x n w : 0 <= w < 32 -> 0 <= BIT x n w <= 2 ^ w - 1.
Proof.
  intros Hw. unfold BIT. rewrite (conv_id U32 (1 <<< w)).
  - rewrite Z.shiftl_1_l. apply land_range_r. pose proof (Z.pow_pos_nonneg 2 w). lia.
  - rewrite Z.shiftl_1_l. cbv [cmin cmax cbits csigned].
    pose proof (Z.pow_pos_nonneg 2 w). pose proof (Z.pow_lt_mono_r 2 w 32). lia.
Qed.

(** ** Output of bounded length *)
Definition Ok (n : nat) (t : dout) : Prop := exists s, t = Some s /\ (String.length s <= n)%nat.

Lemma length_app_string a b : String.length (a +:+ b) = (String.length a + String.length b)%nat.
Proof. induction a as [|c a IH]; [done|]. change (S (String.length (a +:+ b)) = S (String.length a + String.length b))%nat. by rewrite IH. Qed.

Lemma digits_length fuel base z acc :
  (String.length (digits fuel base z acc) <= fuel + String.length acc)%nat.
Proof.
  revert z acc; induction fuel as [|fuel IH]; intros z acc; cbn [digits]; [lia|].
  destruct (_ =? 0); cbn; [lia|]. pose proof (IH (z / base) (String (digit (z mod base)) acc)).
  cbn in *. lia.
Qed.

Lemma zeros_length n s : String.length (zeros n s) = (n + String.length s)%nat.
Proof. induction n; cbn; lia. Qed.

Lemma show_d_length z : (String.length (show_d z) <= 11)%nat.
Proof.
  unfold show_d. case_match; [rewrite length_app_string|].
  - pose proof (digits_length 10 10 (- s32 z) ""). cbn in *. lia.
  - pose proof (digits_length 10 10 (s32 z) ""). cbn in *. lia.
Qed.
Lemma show_X_length w z : (w <= 8)%nat -> (String.length (show_X w z) <= 8)%nat.
Proof.
  intros Hw. unfold show_X. rewrite zeros_length.
  pose proof (digits_length 8 16 (u32 z) ""). cbn in *. lia.
Qed.

Definition arg_length (a : arg) : nat :=
  match a with AStr s => String.length s | AInt _ => 11 end.
Definition args_length (l : list arg) : nat := sum_list_with arg_length l.

(** A format whose directives match the kinds of the arguments. *)
Definition arg_kind (a : arg) : bool := match a with AStr _ => true | AInt _ => false end.
Definition kind_sample (k : bool) : arg := if k then AStr "" else AInt 0.
Definition fits (f : string) (kinds : list bool) : bool :=
  bool_decide (is_Some (format f (map kind_sample kinds))).

Lemma format_fits f args : is_Some (format f (map kind_sample (map arg_kind args))) ->
  exists s, format f args = Some s /\ (String.length s <= String.length f + args_length args)%nat.
Proof.
  revert args. remember (String.length f) as n eqn:E. revert f E.
  induction n as [n IH] using lt_wf_ind; intros f -> args.
  destruct f as [|c f]; [intros _; exists ""; cbn; split; [done|lia]|].
  cbn [format]. destruct (negb (Ascii.eqb c "%")).
  { intros [s Hs]. destruct (format f (map kind_sample (map arg_kind args))) eqn:Hf; [|done].
    destruct (IH (String.length f) ltac:(cbn; lia) f eq_refl args ltac:(by rewrite Hf)) as (s' & -> & Hl).
    exists (String c s'). cbn. split; [done|lia]. }
  destruct f as [|d f]; [by intros []|].
  assert (forall (a : arg) (args : list arg) (f' : string) w,
    (String.length f' <= String.length f)%nat -> (String.length w <= arg_length a)%nat ->
    is_Some (format f' (map kind_sample (map arg_kind args))) ->
    exists s, String.append w <$> format f' args = Some s /\
      (String.length s <= String.length (String c (String d f)) + args_length (a :: args))%nat) as Harg.
  { intros a l f' w Hf' Hw Hs. destruct (IH (String.length f') ltac:(cbn; lia) f' eq_refl l Hs)
      as (s' & -> & Hl). exists (w +:+ s'). cbn. split; [done|]. rewrite length_app_string.
    unfold args_length in *. cbn. lia. }
  destruct (Ascii.eqb d "s").
  { destruct args as [|[s|z] args]; [by intros []| |by intros []]. cbn.
    intros [? [? [? _]]%fmap_Some]. apply (Harg (AStr s)); [lia|done|by eexists]. }
  destruct (Ascii.eqb d "d").
  { destruct args as [|[s|z] args]; [by intros []|by intros []|]. cbn.
    intros [? [? [? _]]%fmap_Some]. apply (Harg (AInt z)); [lia|apply show_d_length|by eexists]. }
  destruct (Ascii.eqb d "X").
  { destruct args as [|[s|z] args]; [by intros []|by intros []|]. cbn.
    intros [? [? [? _]]%fmap_Some]. apply (Harg (AInt z)); [lia|etrans; [by apply (show_X_length 0); lia|cbn; lia]|by eexists]. }
  destruct (Ascii.eqb d "0"); [|by intros []].
  destruct f as [|w [|x f]]; [by intros []..|].
  destruct (Ascii.eqb x "X"); [|by intros []].
  destruct (width_digit w) as [k|] eqn:Ew; [|by intros []].
  destruct args as [|[s|z] args]; [by intros []|by intros []|]. cbn [map arg_kind kind_sample].
  intros [? [? [? _]]%fmap_Some]. apply (Harg (AInt z)); [cbn; lia| |by eexists].
  assert (k <= 8)%nat as Hk by (unfold width_digit in Ew; repeat case_match; simplify_eq; lia).
  etrans; [by apply show_X_length|cbn; lia].
Qed.

Lemma Ok_weaken n m t : Ok n t -> (n <= m)%nat -> Ok m t.
Proof. intros (s & -> & Hs) Hn. exists s. split; [done|lia]. Qed.
Lemma Ok_app n m k a b : Ok n a -> Ok m b -> (n + m <= k)%nat -> Ok k (a << b)%dasm.
Proof.
  intros (x & -> & Hx) (y & -> & Hy) Hk. exists (x +:+ y). split; [done|].
  rewrite length_app_string. lia.
Qed.
Lemma Ok_some n s : (String.length s <= n)%nat -> Ok n (Some s).
Proof. by exists s. Qed.

Lemma substring_short s n : (String.length s <= n)%nat -> String.substring 0 n s = s.
Proof.
  revert n; induction s as [|c s IH]; intros [|n] Hn; cbn in *; try done; [lia|].
  f_equal. apply IH. lia.
Qed.

(** A call of [stream_format]: it is defined and nothing is cut off. *)
Lemma Ok_format kinds n f args :
  fits f kinds = true -> map arg_kind args = kinds ->
  (String.length f + args_length args <= n)%nat -> (n <= 255)%nat -> Ok n (stream_format f args).
Proof.
  intros Hf <- Hn H255. apply bool_decide_eq_true in Hf.
  destruct (format_fits f args Hf) as (s & Hs & Hl). exists s. split; [|lia].
  unfold stream_format. rewrite Hs. cbn. by rewrite substring_short by lia.
Qed.

(** Lookups in the tables, all of whose entries satisfy [P]. *)
Lemma at_in_bounds {A} (P : A -> bool) (t : list A) i :
  0 <= i < Z.of_nat (length t) -> forallb P t = true -> exists x, at_ t i = Some x /\ P x = true.
Proof.
  intros Hi HP. unfold at_. assert (i <? 0 = false) as -> by lia.
  destruct (lookup_lt_is_Some_2 t (Z.to_nat i)) as [x Hx]; [lia|].
  exists x. split; [done|]. rewrite forallb_forall in HP. apply HP.
  apply list_elem_of_In. by eapply list_elem_of_lookup_2.
Qed.

Definition short (k : nat) (s : string) : bool := (String.length s <=? k)%nat.
Definition good_format (k : nat) (kinds : list bool) (s : string) : bool :=
  short k s && fits s kinds.

Lemma Ok_at n (P : string -> bool) (t : list string) i (f : string -> dout) :
  0 <= i < Z.of_nat (length t) -> forallb P t = true ->
  (forall x, P x = true -> Ok n (f x)) -> Ok n (x ← at_ t i; f x).
Proof. intros Hi HP Hf. destruct (at_in_bounds P t i Hi HP) as (x & -> & Hx). by apply Hf. Qed.

Lemma Ok_reg n g i (f : string -> dout) :
  0 <= g <= 3 -> 0 <= i <= 15 ->
  (forall r, (String.length r <= 7)%nat -> Ok n (f r)) -> Ok n (r ← reg_at g i; f r).
Proof.
  intros Hg Hi Hf. unfold reg_at.
  destruct (at_in_bounds (fun t => (length t =? 16)%nat && forallb (short 7) t) reg_grp g)
    as (t & -> & [Ht Ht']%andb_true_iff); [cbn; lia|reflexivity|].
  apply Nat.eqb_eq in Ht. destruct (at_in_bounds (short 7) t i) as (r & Hr & Hs); [lia|done|].
  cbn. rewrite Hr. apply Hf. by apply Nat.leb_le in Hs.
Qed.

Ltac bit_range :=
  repeat match goal with
  | |- context [BIT ?x ?n ?w] => pose proof (BIT_range x n w ltac:(lia)); generalize dependent (BIT x n w)
  end; cbn; intros; lia.
Ltac name_at k :=
  apply (Ok_at _ (short k)); [bit_range|reflexivity|];
  let s := fresh "s" in let H := fresh "Hs" in intros s H; apply Nat.leb_le in H.
Ltac reg_at := apply Ok_reg; [first [lia|bit_range]|bit_range|];
  let s := fresh "s" in let H := fresh "Hs" in intros s H.
Ltac fmt := eapply Ok_format; [|reflexivity|unfold args_length; cbn; lia|lia]; reflexivity.

(** ** Every case is defined *)
Section Defined.
Context (op : Z).

Lemma unknown_ok : Ok 22 (unknown op). Proof. unfold unknown. fmt. Qed.
Lemma cond_ok : Ok 13 (cond_text op).
Proof. unfold cond_text. name_at 11%nat. fmt. Qed.

(** A line of [alumac_op]: three strings fit, after the '!' if there is one. *)
Definition good_op (f : string) : bool :=
  short 26 f &&
  fits (match f with String c r => if Ascii.eqb c "!" then r else f | _ => f end) [true; true; true].

Lemma write_op_ok f a b c : good_op f = true ->
  (String.length a <= 7)%nat -> (String.length b <= 7)%nat -> (String.length c <= 7)%nat ->
  Ok 47 (write_op f a b c).
Proof.
  intros [Hf Hk]%andb_true_iff Ha Hb Hc. apply Nat.leb_le in Hf. unfold write_op.
  destruct f as [|x f]; [|destruct (Ascii.eqb x "!")];
    (eapply Ok_format; [exact Hk|done|unfold args_length; cbn in *; lia|lia]).
Qed.

Lemma ops_ok i : 0 <= i <= 31 -> exists ops, at_ alumac_op i = Some ops /\
  forall b : bool, good_op (if b then ops.2 else ops.1) = true.
Proof.
  intros Hi. destruct (at_in_bounds (fun ops => good_op ops.1 && good_op ops.2) alumac_op i)
    as (ops & -> & [H1 H2]%andb_true_iff); [cbn; lia|vm_compute; reflexivity|].
  exists ops. split; [done|]. by intros [].
Qed.

Lemma lookup_ok (t : list string) i k : 0 <= i < Z.of_nat (length t) -> forallb (short k) t = true ->
  exists x, at_ t i = Some x /\ (String.length x <= k)%nat.
Proof.
  intros Hi Ht. destruct (at_in_bounds _ t i Hi Ht) as (x & Hx & H). exists x.
  split; [done|]. by apply Nat.leb_le.
Qed.
Ltac look t i := let x := fresh "x" in let E := fresh "E" in let H := fresh "H" in
  destruct (lookup_ok t i 7) as (x & E & H); [bit_range|reflexivity|rewrite E; clear E].

Lemma alumac_ok dest : 0 <= dest <= 2 -> Ok 47 (alumac dest op).
Proof.
  intros Hd. unfold alumac. pose proof (BIT_range op 13 5 ltac:(lia)) as Hi.
  destruct (ops_ok (BIT op 13 5) ltac:(lia)) as (ops & -> & Ho).
  look alu_xop (BIT op 8 3). look alu_yop (BIT op 11 2). look mac_xop (BIT op 8 3).
  look mac_yop (BIT op 11 2).
  destruct (lookup_ok alu_dst dest 7) as (d & -> & ?); [cbn; lia|reflexivity|].
  destruct (lookup_ok mac_dst dest 7) as (d' & -> & ?); [cbn; lia|reflexivity|].
  destruct (BIT1 (BIT op 13 5) 4); cbn [mbind option_bind];
    by apply write_op_ok.
Qed.

Lemma aluconst_ok dest : 0 <= dest <= 2 -> Ok 47 (aluconst dest op).
Proof.
  intros Hd. unfold aluconst. pose proof (BIT_range op 13 5 ltac:(lia)) as Hi.
  destruct (ops_ok (BIT op 13 5) ltac:(lia)) as (ops & -> & Ho).
  look alu_xop (BIT op 8 3). look mac_xop (BIT op 8 3).
  destruct (lookup_ok dasm_constants (BIT op 5 3 ||| u32 (BIT op 11 2 <<< 3)) 7) as (k & -> & ?); [|reflexivity|].
  { pose proof (BIT_range op 5 3 ltac:(lia)). pose proof (BIT_range op 11 2 ltac:(lia)).
    rewrite Z.shiftl_mul_pow2 by lia. rewrite (conv_id U32) by (cbn in *; lia).
    rewrite (lor_add _ _ 3) by lia. cbn in *. lia. }
  destruct (lookup_ok alu_dst dest 7) as (d & -> & ?); [cbn; lia|reflexivity|].
  destruct (lookup_ok mac_dst dest 7) as (d' & -> & ?); [cbn; lia|reflexivity|].
  destruct (BIT1 (BIT op 13 5) 4); cbn [mbind option_bind]; by apply write_op_ok.
Qed.

Lemma alumac_first_ok dest : 0 <= dest <= 2 -> Ok 49 (alumac_first dest op).
Proof.
  intros Hd. unfold alumac_first. case_match; [|by apply Ok_some; cbn; lia].
  eapply (Ok_app 47 2); [by apply alumac_ok| |lia]. fmt.
Qed.

Lemma mem_text_ok sep space base w :
  (sep = "" \/ sep = ", ") -> (space = "PM" \/ space = "DM") -> Ok 47 (mem_text sep space base op w).
Proof. intros [-> | ->] [-> | ->]; unfold mem_text; reg_at; cbn zeta; destruct w; cbv [String.append]; fmt. Qed.

Lemma shift_text_ok : Ok 36 (shift_text op).
Proof.
  unfold shift_text. apply (Ok_at _ (good_format 26 [true])); [bit_range|vm_compute; reflexivity|].
  intros f [Hf Hk]%andb_true_iff. apply Nat.leb_le in Hf. name_at 3%nat.
  eapply Ok_format; [exact Hk|done|unfold args_length; cbn in *; lia|lia].
Qed.

Lemma word_ok (t : list string) n m k name : 0 <= n -> forallb (good_format m [true]) t = true ->
  length t = 4%nat -> (m + String.length name <= k)%nat -> (k <= 255)%nat ->
  Ok k (f ← at_ t (BIT op n 2); stream_format f [AStr name]).
Proof.
  intros Hn Ht Hl Hk H255. apply (Ok_at _ (good_format m [true])); [rewrite Hl; bit_range|done|].
  intros f [Hf Hg]%andb_true_iff. apply Nat.leb_le in Hf.
  eapply Ok_format; [exact Hg|done|unfold args_length; cbn in *; lia|lia].
Qed.

Lemma word_if_ok b w : (String.length w <= 10)%nat -> Ok 12 (word_if b w).
Proof.
  intros Hw. unfold word_if. destruct b; [|by apply Ok_some; cbn; lia].
  fmt.
Qed.

Lemma io_ok : Ok 40 (dasm_io op).
Proof. unfold dasm_io. reg_at. case_match; fmt. Qed.
Lemma flags_idle_ok : Ok 80 (dasm_flags_idle op).
Proof.
  unfold dasm_flags_idle, dasm_flag. repeat case_match.
  - eapply (Ok_app 67 13); [|by apply (word_ok _ _ 10); [lia|reflexivity..|cbn; lia|lia]|lia].
    eapply (Ok_app 54 13); [|by apply (word_ok _ _ 10); [lia|reflexivity..|cbn; lia|lia]|lia].
    eapply (Ok_app 41 13); [|by apply (word_ok _ _ 10); [lia|reflexivity..|cbn; lia|lia]|lia].
    eapply (Ok_app 13 18); [apply cond_ok|by apply (word_ok _ _ 10); [lia|reflexivity..|cbn; lia|lia]|lia].
  - apply Ok_some. cbn. lia.
  - fmt.
  - eapply Ok_weaken; [apply unknown_ok|lia].
Qed.

(** The definedness of [a << b] from that of its parts, with the lengths. *)
Ltac piece n m := apply (Ok_app n m); [| |lia].

Lemma flagin_ok : Ok 45 (dasm_flagin op).1.
Proof.
  unfold dasm_flagin. repeat case_match; cbn [fst]; (piece 27%nat 18%nat; [piece 19%nat 8%nat|]); fmt.
Qed.
Lemma stack_ok : Ok 48 (dasm_stack op).1.
Proof.
  unfold dasm_stack. repeat case_match; cbn [fst];
    [..|eapply Ok_weaken; [apply unknown_ok|lia]];
    (piece 36%nat 12%nat; [piece 24%nat 12%nat; [piece 12%nat 12%nat|]|]);
    solve [apply word_if_ok; cbn; lia|fmt].
Qed.
Lemma satmr_ok : Ok 22 (dasm_satmr op).
Proof. unfold dasm_satmr. case_match; [fmt|apply unknown_ok]. Qed.
Lemma divs_ok : Ok 30 (dasm_divs op).
Proof.
  unfold dasm_divs. case_match; [name_at 7%nat; name_at 7%nat; fmt|].
  eapply Ok_weaken; [apply unknown_ok|lia].
Qed.
Lemma divq_ok : Ok 30 (dasm_divq op).
Proof.
  unfold dasm_divq. case_match; [name_at 7%nat; fmt|]. eapply Ok_weaken; [apply unknown_ok|lia].
Qed.
Lemma modify_ok : Ok 50 (dasm_modify op).
Proof. unfold dasm_modify. case_match; [fmt|]. eapply Ok_weaken; [apply unknown_ok|lia]. Qed.
Lemma return_ok : Ok 40 (dasm_return op).1.
Proof.
  unfold dasm_return. case_match; cbn [fst]; [|eapply Ok_weaken; [apply unknown_ok|lia]].
  piece 13%nat 27%nat; [apply cond_ok|case_match; fmt].
Qed.
Lemma jump_indirect_ok : Ok 40 (dasm_jump_indirect op).1.
Proof.
  unfold dasm_jump_indirect. repeat case_match; cbn [fst];
    [..|eapply Ok_weaken; [apply unknown_ok|lia]];
    (piece 13%nat 27%nat; [apply cond_ok|fmt]).
Qed.
Lemma mode_ok : Ok 105 (dasm_mode op).
Proof.
  unfold dasm_mode, dasm_mode_word.
  piece 90%nat 15%nat; [piece 75%nat 15%nat; [piece 60%nat 15%nat; [piece 45%nat 15%nat;
    [piece 30%nat 15%nat; [piece 15%nat 15%nat|]|]|]|]|];
    (apply (word_ok _ _ 7); [lia|reflexivity..|cbn; lia|lia]).
Qed.
Lemma move_ok : Ok 30 (dasm_move op).
Proof.
  unfold dasm_move. case_match; [reg_at; reg_at; fmt|]. eapply Ok_weaken; [apply unknown_ok|lia].
Qed.
Lemma cond_shift_ok : Ok 49 (dasm_cond_shift op).
Proof.
  unfold dasm_cond_shift. case_match; [|eapply Ok_weaken; [apply unknown_ok|lia]].
  piece 13%nat 36%nat; [apply cond_ok|apply shift_text_ok].
Qed.
Lemma shift_imm_ok : Ok 49 (dasm_shift_imm op).
Proof.
  unfold dasm_shift_imm. case_match; [|eapply Ok_weaken; [apply unknown_ok|lia]].
  apply (Ok_at _ (good_format 32 [true; false])); [bit_range|vm_compute; reflexivity|].
  intros f [Hf Hk]%andb_true_iff. apply Nat.leb_le in Hf. name_at 3%nat.
  eapply Ok_format; [exact Hk|done|unfold args_length; cbn in *; lia|lia].
Qed.
Lemma shift_move_ok : Ok 60 (dasm_shift_move op).
Proof.
  unfold dasm_shift_move. case_match; [|eapply Ok_weaken; [apply unknown_ok|lia]].
  piece 36%nat 24%nat; [apply shift_text_ok|reg_at; reg_at; fmt].
Qed.
Lemma shift_pm_ok : Ok 83 (dasm_shift_pm op).
Proof. piece 36%nat 47%nat; [apply shift_text_ok|apply mem_text_ok; auto]. Qed.
Lemma shift_dm_ok : Ok 83 (dasm_shift_dm op).
Proof. piece 36%nat 47%nat; [apply shift_text_ok|apply mem_text_ok; auto]. Qed.
Lemma do_ok : Ok 40 (dasm_do op).
Proof. unfold dasm_do. name_at 11%nat. fmt. Qed.
Lemma jump_ok : Ok 40 (dasm_jump op).1.
Proof. unfold dasm_jump. case_match; cbn [fst]; name_at 11%nat; fmt. Qed.
Lemma b2z_dest b : 0 <= b2z b <= 2.
Proof. destruct b; cbn; lia. Qed.
Lemma compute_ok : Ok 60 (dasm_compute op).
Proof.
  piece 13%nat 47%nat; [apply cond_ok|].
  case_match; [apply alumac_ok|apply aluconst_ok]; apply b2z_dest.
Qed.
Lemma compute_move_ok : Ok 80 (dasm_compute_move op).
Proof.
  unfold dasm_compute_move. case_match.
  - eapply Ok_weaken; [apply alumac_ok; lia|lia].
  - piece 49%nat 31%nat; [apply alumac_first_ok, b2z_dest|reg_at; reg_at; fmt].
Qed.
Lemma load_nondata_ok : Ok 40 (dasm_load_nondata op).
Proof. unfold dasm_load_nondata. reg_at. fmt. Qed.
Lemma load_data_ok : Ok 40 (dasm_load_data op).
Proof. unfold dasm_load_data. reg_at. fmt. Qed.
Lemma compute_pm_ok : Ok 96 (dasm_compute_pm op).
Proof. piece 49%nat 47%nat; [apply alumac_first_ok, b2z_dest|apply mem_text_ok; auto]. Qed.
Lemma compute_dm_ok : Ok 96 (dasm_compute_dm op).
Proof. piece 49%nat 47%nat; [apply alumac_first_ok, b2z_dest|apply mem_text_ok; auto]. Qed.
Lemma dm_direct_ok : Ok 40 (dasm_dm_direct op).
Proof. unfold dasm_dm_direct. reg_at. case_match; fmt. Qed.
Lemma dm_imm_ok : Ok 60 (dasm_dm_imm op).
Proof. unfold dasm_dm_imm. cbn zeta. fmt. Qed.
Lemma dual_ok : Ok 142 (dasm_dual op).
Proof.
  piece 49%nat 93%nat; [apply alumac_first_ok; lia|]. name_at 7%nat. name_at 7%nat. fmt.
Qed.

Create HintDb dasm discriminated.
#[local] Hint Resolve io_ok flags_idle_ok flagin_ok stack_ok satmr_ok divs_ok divq_ok unknown_ok
  modify_ok return_ok jump_indirect_ok mode_ok move_ok cond_shift_ok shift_imm_ok shift_move_ok
  shift_pm_ok shift_dm_ok do_ok jump_ok compute_ok compute_move_ok load_nondata_ok load_data_ok
  compute_pm_ok compute_dm_ok dm_direct_ok dm_imm_ok dual_ok : dasm.

Lemma case_ok : Ok 142 (dasm_case op).1.
Proof.
  unfold dasm_case. repeat case_match; cbn [fst];
    solve [eapply Ok_weaken; [eauto 2 with dasm nocore|lia]|apply Ok_some; cbn; lia].
Qed.
End Defined.

Lemma mask_kept z m : 0 <= m < 2 ^ 32 -> u32 (z ||| m) &&& m = m.
Proof.
  intros Hm. apply Z.bits_inj'. intros n Hn. rewrite Z.land_spec.
  destruct (Z.lt_ge_cases n 32).
  - rewrite conv_testbit, Z.lor_spec by done. by destruct (Z.testbit z n), (Z.testbit m n).
  - by rewrite (bits_high_0 m 32), andb_false_r by lia.
Qed.

(** C35: the disassembler is total. Every word, of any value, disassembles
    without undefined behaviour (no table indexed out of bounds, every printf
    directive given an argument of its kind) to a line of at most 142
    characters, none of whose pieces the 256-byte buffer cuts off, and the
    result word always reports one supported instruction. *)
Theorem disassemble_total op :
  exists text flags, disassemble op = Some (text, flags) /\
    (String.length text <= 142)%nat /\ flags &&& 1 = 1 /\ flags &&& SUPPORTED = SUPPORTED.
Proof.
  destruct (case_ok op) as (t & Ht & Hl). unfold disassemble. destruct (dasm_case op) as [text f].
  cbn in Ht. subst text. exists t, (u32 (1 ||| f ||| SUPPORTED)).
  split_and!; [done|done| |apply mask_kept; by vm_compute].
  rewrite (Z.lor_comm 1), <- Z.lor_assoc, (Z.lor_comm 1), Z.lor_assoc. by apply mask_kept.
Qed.

(** ** Reading numeric operands back

    An assembler for the instructions that print a number after a dollar sign
    with a printf directive: immediate loads of a named register, direct data
    memory accesses, stores of an immediate to data memory, I/O accesses,
    jumps, calls, jumps and calls on FLAG_IN, and DO loops. The text before
    the dollar sign and the text after the hexadecimal digits name the
    instruction. *)
Fixpoint split_dollar (t : string) : option (string * string) :=
  match t with
  | EmptyString => None
  | String c t => if Ascii.eqb c "$" then Some ("", t) else '(p, r) ← split_dollar t; Some (String c p, r)
  end.

Definition hex_value (c : ascii) : option Z :=
  let n := Z.of_N (N_of_ascii c) in
  if (48 <=? n) && (n <=? 57) then Some (n - 48)
  else if (65 <=? n) && (n <=? 70) then Some (n - 55) else None.
(** The number at the start of a text, and the rest of the text. *)
Fixpoint hex_number (n : Z) (t : string) : Z * string :=
  match t with
  | EmptyString => (n, "")
  | String c r => match hex_value c with Some d => hex_number (n * 16 + d) r | None => (n, t) end
  end.

Definition sixteen : list Z := [0; 1; 2; 3; 4; 5; 6; 7; 8; 9; 10; 11; 12; 13; 14; 15].
Definition reg_name (g i : Z) : string := default "??" (reg_at g i).
Definition named (g i : Z) : bool := negb (String.eqb (reg_name g i) "??").

Definition dm_modified (i m : Z) : string := "DM(I" +:+ show_d i +:+ ",M" +:+ show_d m +:+ ") = ".

(** The text before the dollar sign, the text after the number, and the word
    with the number 0. *)
Definition forms : list (string * string * Z) :=
  let each f := map f sixteen in
  let regs gs f := flat_map (fun g => omap (fun i => if named g i then Some (f g i) else None) sixteen) gs in
  each (fun i => (reg_name 0 i +:+ " = ", "", 0x400000 + i)) ++
  regs [1; 2; 3] (fun g i => (reg_name g i +:+ " = ", "", 0x300000 + 0x40000 * g + i)) ++
  regs [0; 1; 2; 3] (fun g i => (reg_name g i +:+ " = DM(", ")", 0x800000 + 0x40000 * g + i)) ++
  regs [0; 1; 2; 3] (fun g i => ("DM(", ") = " +:+ reg_name g i, 0x900000 + 0x40000 * g + i)) ++
  flat_map (fun dag => each (fun n => (dm_modified (4 * dag + n / 4) (4 * dag + n mod 4), "",
    0xa00000 + 0x100000 * dag + n))) [0; 1] ++
  each (fun i => (reg_name 0 i +:+ " = IO(", ")", 0x10000 + i)) ++
  each (fun i => ("IO(", ") = " +:+ reg_name 0 i, 0x18000 + i)) ++
  [("IF NOT FLAG_IN JUMP ", "", 0x30000); ("IF NOT FLAG_IN CALL ", "", 0x30001);
   ("IF FLAG_IN JUMP ", "", 0x30002); ("IF FLAG_IN CALL ", "", 0x30003)] ++
  each (fun c => ("DO ", " UNTIL " +:+ default "" (at_ do_condition c), 0x140000 + c)) ++
  each (fun c => (default "" (at_ condition c) +:+ "JUMP ", "", 0x180000 + c)) ++
  each (fun c => (default "" (at_ condition c) +:+ "CALL ", "", 0x1c0000 + c)).

Definition find_form (p s : string) : option Z :=
  snd <$> head (filter (fun f => f.1 = (p, s)) forms).

(** The number goes to the bits from 4 on; of a jump on FLAG_IN the upper two
    address bits are bits 2 and 3. *)
Definition place (b v : Z) : Z :=
  if b / 0x10000 =? 3 then b + 16 * (v mod 4096) + 4 * (v / 4096) else b + 16 * v.

Definition assemble (t : string) : option Z :=
  '(p, r) ← split_dollar t;
  let '(v, s) := hex_number 0 r in
  b ← find_form p s;
  Some (place b v).

(** The instructions concerned: I/O, jumps and calls on FLAG_IN, DO, JUMP,
    CALL, loads and direct accesses of a register that has a name, and stores
    of an immediate. *)
Definition immediate (op : Z) : bool :=
  let c := BIT op 16 8 in
  let reg_named := named (BIT op 18 2) (BIT op 0 4) in
  (c =? 0x01) || (c =? 0x03) || (0x14 <=? c) && (c <? 0x20) ||
  (0x34 <=? c) && (c <? 0x40) && reg_named || (0x40 <=? c) && (c <? 0x50) ||
  (0x80 <=? c) && (c <? 0xa0) && reg_named || (0xa0 <=? c) && (c <? 0xc0).

Lemma app_string_assoc a b c : (a +:+ b) +:+ c = a +:+ (b +:+ c).
Proof. induction a as [|x a IH]; [done|]. change (String x ((a +:+ b) +:+ c) = String x (a +:+ (b +:+ c))). by rewrite IH. Qed.

Lemma split_dollar_app p r : split_dollar p = None ->
  split_dollar (p +:+ String "$" r) = Some (p, r).
Proof.
  induction p as [|c p IH]; [done|]. change (String c p +:+ String "$" r) with (String c (p +:+ String "$" r)).
  cbn [split_dollar]. destruct (Ascii.eqb c "$"); [done|]. intros Hp.
  destruct (split_dollar p) as [[]|]; [done|]. by rewrite IH.
Qed.

Lemma hex_number_app n t s v :
  match s with String c _ => hex_value c = None | EmptyString => True end ->
  hex_number n t = (v, "") -> hex_number n (t +:+ s) = (v, s).
Proof.
  intros Hs. revert n; induction t as [|c t IH]; intros n Ht.
  - cbn in Ht. injection Ht as ->. change ("" +:+ s) with s. destruct s as [|c s]; cbn; [done|by rewrite Hs].
  - change (String c t +:+ s) with (String c (t +:+ s)). cbn [hex_number] in *.
    destruct (hex_value c); [by apply IH|done].
Qed.

Lemma hex_number_show w v : (w = 4 \/ w = 0)%nat -> 0 <= v < 65536 -> hex_number 0 (show_X w v) = (v, "").
Proof.
  intros Hw Hv. apply (bool_decide_eq_true_1 _).
  destruct Hw as [-> | ->]; [set (w := 4%nat)|set (w := 0%nat)];
    refine (all_below_spec 65536 (fun v => bool_decide (hex_number 0 (show_X w v) = (v, ""))) _ v Hv);
    vm_cast_no_check (eq_refl true).
Qed.

Lemma stream_exact f args s : format f args = Some s -> (String.length s <= 255)%nat ->
  stream_format f args = Some s.
Proof. intros H Hs. unfold stream_format. rewrite H. cbn. by rewrite substring_short. Qed.

(** What the tables say about a name, a condition, a form: finite checks. *)
Definition not_hex (s : string) : bool :=
  match s with String c _ => bool_decide (hex_value c = None) | EmptyString => true end.
Definition key_ok (p s : string) (b : Z) : bool :=
  bool_decide (split_dollar p = None) && bool_decide (find_form p s = Some b) &&
  not_hex s && short 60 (p +:+ s).
Lemma key_assemble w p s b v t : (w = 4 \/ w = 0)%nat -> key_ok p s b = true -> 0 <= v < 65536 ->
  t = p +:+ "$" +:+ show_X w v +:+ s ->
  (String.length t <= 255)%nat /\ assemble t = Some (place b v).
Proof.
  intros Hw [[[Hp%bool_decide_eq_true_1 Hf%bool_decide_eq_true_1]%andb_true_iff Hs]%andb_true_iff
    Hl%Nat.leb_le]%andb_true_iff Hv ->. split.
  - rewrite !length_app_string in *. pose proof (show_X_length w v ltac:(lia)). cbn [String.length]. lia.
  - unfold assemble. change ("$" +:+ show_X w v +:+ s) with (String "$" (show_X w v +:+ s)).
    rewrite split_dollar_app by done. cbn [mbind option_bind].
    rewrite (hex_number_app 0 _ _ v); [by rewrite Hf| |by apply hex_number_show].
    destruct s; [done|]. by apply bool_decide_eq_true_1 in Hs.
Qed.

Lemma BIT1_eq x n : 0 <= x < 2 ^ 32 -> 0 <= n -> BIT1 x n = ((x / 2 ^ n) mod 2 =? 1).
Proof.
  intros Hx Hn. unfold BIT1. rewrite (conv_id U32 x) by (cbn; lia).
  rewrite Z.shiftr_div_pow2 by done. change 1 with (2 ^ 1 - 1) at 1. rewrite land_mask_mod by lia.
  change (2 ^ 1) with 2. unfold nz. pose proof (Z.mod_pos_bound (x / 2 ^ n) 2). lia.
Qed.

Lemma place_other b v : 0 <= b < 0x30000 -> place b v = b + 16 * v.
Proof. intros Hb. unfold place. destruct (Z.eqb_spec (b / 0x10000) 3); [zdiv|done]. Qed.

(** [c] is one of the [n] values from [lo]. *)
Ltac enum_from c lo n :=
  lazymatch n with
  | O => exfalso; lia
  | S ?n => destruct (Z.eq_dec c lo) as [->|]; [|let lo' := eval vm_compute in (lo + 1) in enum_from c lo' n]
  end.
Ltac pick_case op lo n :=
  unfold dasm_case; let c := fresh "c" in
  generalize dependent (BIT op 16 8); intros c; intros; enum_from c lo n; reflexivity.

Lemma case_io op : BIT op 16 8 = 0x01 -> dasm_case op = (dasm_io op, 0).
Proof. intros H. unfold dasm_case. by rewrite H. Qed.
Lemma case_flagin op : BIT op 16 8 = 0x03 -> dasm_case op = dasm_flagin op.
Proof. intros H. unfold dasm_case. by rewrite H. Qed.
Lemma case_dm_imm op : 0xa0 <= BIT op 16 8 < 0xc0 -> dasm_case op = (dasm_dm_imm op, 0).
Proof. intros H. pick_case op 0xa0 32%nat. Qed.
Lemma case_do op : 0x14 <= BIT op 16 8 < 0x18 -> dasm_case op = (dasm_do op, 0).
Proof. intros H. pick_case op 0x14 4%nat. Qed.
Lemma case_jump op : 0x18 <= BIT op 16 8 < 0x20 -> dasm_case op = dasm_jump op.
Proof. intros H. pick_case op 0x18 8%nat. Qed.
Lemma case_nondata op : 0x30 <= BIT op 16 8 < 0x40 -> dasm_case op = (dasm_load_nondata op, 0).
Proof. intros H. pick_case op 0x30 16%nat. Qed.
Lemma case_data op : 0x40 <= BIT op 16 8 < 0x50 -> dasm_case op = (dasm_load_data op, 0).
Proof. intros H. pick_case op 0x40 16%nat. Qed.
Lemma case_dm op : 0x80 <= BIT op 16 8 < 0xa0 -> dasm_case op = (dasm_dm_direct op, 0).
Proof. intros H. pick_case op 0x80 32%nat. Qed.

Lemma reg_at_name g i : 0 <= g <= 3 -> 0 <= i <= 15 -> reg_at g i = Some (reg_name g i).
Proof.
  intros Hg Hi. unfold reg_name, reg_at.
  destruct (at_in_bounds (fun t => (length t =? 16)%nat) reg_grp g) as (t & -> & Ht);
    [cbn; lia|reflexivity|]. apply Nat.eqb_eq in Ht.
  destruct (at_in_bounds (fun _ => true) t i) as (r & Hr & _); [lia|by apply forallb_forall|].
  cbn. by rewrite Hr.
Qed.

(** The instruction as its text names it, and the text it prints. *)
Definition read_back (op : Z) (t : dout) : Prop := exists s, t = Some s /\ assemble s = Some op.

Lemma read_back_format w op f args p s b v : (w = 4 \/ w = 0)%nat ->
  format f args = Some (p +:+ "$" +:+ show_X w v +:+ s) -> key_ok p s b = true ->
  0 <= v < 65536 -> op = place b v -> read_back op (stream_format f args).
Proof.
  intros Hw Hf Hk Hv ->. destruct (key_assemble w p s b v _ Hw Hk Hv eq_refl) as [Hl Ha].
  exists (p +:+ "$" +:+ show_X w v +:+ s). split; [by apply stream_exact|done].
Qed.

Lemma place_above b v : 0x40000 <= b -> place b v = b + 16 * v.
Proof. intros Hb. unfold place. destruct (Z.eqb_spec (b / 0x10000) 3); [zdiv|done]. Qed.

Lemma app_string_nil a : a +:+ "" = a.
Proof. induction a as [|c a IH]; [done|]. change (String c (a +:+ "") = String c a). by rewrite IH. Qed.

Section Classes.
#[local] Set Default Proof Using "All".
Context (op : Z) (Hop : 0 <= op < 2 ^ 24).
Let i := BIT op 0 4.
Let g := BIT op 18 2.
Let four : (4 = 4 \/ 4 = 0)%nat := or_introl eq_refl.
Let zero : (0 = 4 \/ 0 = 0)%nat := or_intror eq_refl.
Lemma fields : i = op mod 16 /\ BIT op 4 14 = (op / 16) mod 16384 /\
  BIT op 4 16 = (op / 16) mod 65536 /\ g = (op / 262144) mod 4 /\ BIT op 16 8 = op / 65536 /\
  BIT1 op 18 = ((op / 262144) mod 2 =? 1) /\ BIT1 op 20 = ((op / 1048576) mod 2 =? 1).
Proof.
  unfold i, g. rewrite !BIT_eq, !BIT1_eq by lia. split_and!; try done; [by rewrite Z.div_1_r|].
  apply Z.mod_small. change (2 ^ 8) with 256. change (2 ^ 16) with 65536. zdiv.
Qed.

Lemma data_read_back : 0x40 <= BIT op 16 8 < 0x50 -> read_back op (dasm_load_data op).
Proof.
  destruct fields as (Hi & _ & Hv & _ & Hc & _). intros Hr. unfold dasm_load_data. fold i.
  rewrite reg_at_name by (lia || zdiv). cbn [mbind option_bind].
  eapply (read_back_format 4 _ _ _ (reg_name 0 i +:+ " = ") "" (0x400000 + i) (BIT op 4 16) four).
  - rewrite app_string_assoc. reflexivity.
  - refine (all_below_spec 16 (fun i => key_ok (reg_name 0 i +:+ " = ") "" (0x400000 + i)) _ i _);
      [vm_compute; reflexivity|zdiv].
  - zdiv.
  - rewrite place_above; zdiv.
Qed.

Lemma named_check (f : Z -> Z -> bool) :
  all_below 4 (fun g => all_below 16 (fun i => negb (named g i) || f g i)) = true ->
  named g i = true -> f g i = true.
Proof.
  destruct fields as (Hi & _ & _ & Hg & _). intros H Hn.
  pose proof (all_below_spec 16 _ (all_below_spec 4 _ H g ltac:(zdiv)) i ltac:(zdiv)) as Hk.
  cbn beta in Hk. rewrite Hn in Hk. done.
Qed.

Lemma nondata_read_back : 0x34 <= BIT op 16 8 < 0x40 -> named g i = true ->
  read_back op (dasm_load_nondata op).
Proof.
  destruct fields as (Hi & Hv & _ & Hg & Hc & _). intros Hr Hn. unfold dasm_load_nondata. fold i g.
  rewrite reg_at_name by zdiv. cbn [mbind option_bind].
  eapply (read_back_format 4 _ _ _ (reg_name g i +:+ " = ") "" (0x300000 + 0x40000 * g + i) (BIT op 4 14) four).
  - rewrite app_string_assoc. reflexivity.
  - assert (g =? 0 = false) as Hg0 by (apply Z.eqb_neq; zdiv).
    pose proof (named_check (fun g i => (g =? 0) ||
      key_ok (reg_name g i +:+ " = ") "" (0x300000 + 0x40000 * g + i)) ltac:(vm_compute; reflexivity) Hn) as Hk.
    cbn beta in Hk. by rewrite Hg0 in Hk.
  - zdiv.
  - rewrite place_above; zdiv.
Qed.

Lemma dm_read_back : 0x80 <= BIT op 16 8 < 0xa0 -> named g i = true ->
  read_back op (dasm_dm_direct op).
Proof.
  destruct fields as (Hi & Hv & _ & Hg & Hc & _ & Hw). intros Hr Hn. unfold dasm_dm_direct. fold i g.
  rewrite reg_at_name by zdiv. cbn [mbind option_bind]. rewrite Hw.
  destruct (Z.eqb_spec ((op / 1048576) mod 2) 1).
  - eapply (read_back_format 4 _ _ _ "DM(" (") = " +:+ reg_name g i) (0x900000 + 0x40000 * g + i) (BIT op 4 14) four).
    + transitivity (Some ("DM(" +:+ "$" +:+ show_X 4 (BIT op 4 14) +:+ ") = " +:+ (reg_name g i +:+ "")));
        [reflexivity|by rewrite app_string_nil].
    + apply (named_check (fun g i => key_ok "DM(" (") = " +:+ reg_name g i) (0x900000 + 0x40000 * g + i)));
        [vm_compute; reflexivity|done].
    + zdiv.
    + rewrite place_above; zdiv.
  - eapply (read_back_format 4 _ _ _ (reg_name g i +:+ " = DM(") ")" (0x800000 + 0x40000 * g + i) (BIT op 4 14) four).
    + rewrite app_string_assoc. reflexivity.
    + apply (named_check (fun g i => key_ok (reg_name g i +:+ " = DM(") ")" (0x800000 + 0x40000 * g + i)));
        [vm_compute; reflexivity|done].
    + zdiv.
    + rewrite place_above; zdiv.
Qed.
Lemma do_read_back : 0x14 <= BIT op 16 8 < 0x18 -> read_back op (dasm_do op).
Proof.
  destruct fields as (Hi & Hv & _ & _ & Hc & _). intros Hr. unfold dasm_do. fold i.
  destruct (at_in_bounds (fun _ => true) do_condition i) as (c & Ec & _); [cbn; zdiv|done|].
  rewrite Ec. cbn [mbind option_bind].
  eapply (read_back_format 4 _ _ _ "DO " (" UNTIL " +:+ c) (0x140000 + i) (BIT op 4 14) four).
  - transitivity (Some ("DO " +:+ "$" +:+ show_X 4 (BIT op 4 14) +:+ " UNTIL " +:+ (c +:+ "")));
      [reflexivity|by rewrite app_string_nil].
  - pose proof (all_below_spec 16 (fun i => key_ok "DO " (" UNTIL " +:+ default "" (at_ do_condition i))
      (0x140000 + i)) ltac:(vm_compute; reflexivity) i ltac:(zdiv)) as Hk.
    cbn beta in Hk. by rewrite Ec in Hk.
  - zdiv.
  - rewrite place_above; zdiv.
Qed.

Lemma jump_read_back : 0x18 <= BIT op 16 8 < 0x20 -> read_back op (dasm_jump op).1.
Proof.
  destruct fields as (Hi & Hv & _ & _ & Hc & Hw & _). intros Hr. unfold dasm_jump. fold i. rewrite Hw.
  destruct (at_in_bounds (fun _ => true) condition i) as (c & Ec & _); [cbn; zdiv|done|].
  rewrite Ec. destruct (Z.eqb_spec ((op / 262144) mod 2) 1); cbn [fst mbind option_bind].
  - eapply (read_back_format 4 _ _ _ (c +:+ "CALL ") "" (0x1c0000 + i) (BIT op 4 14) four).
    + rewrite app_string_assoc. reflexivity.
    + pose proof (all_below_spec 16 (fun i => key_ok (default "" (at_ condition i) +:+ "CALL ") ""
        (0x1c0000 + i)) ltac:(vm_compute; reflexivity) i ltac:(zdiv)) as Hk.
      cbn beta in Hk. by rewrite Ec in Hk.
    + zdiv.
    + rewrite place_above; zdiv.
  - eapply (read_back_format 4 _ _ _ (c +:+ "JUMP ") "" (0x180000 + i) (BIT op 4 14) four).
    + rewrite app_string_assoc. reflexivity.
    + pose proof (all_below_spec 16 (fun i => key_ok (default "" (at_ condition i) +:+ "JUMP ") ""
        (0x180000 + i)) ltac:(vm_compute; reflexivity) i ltac:(zdiv)) as Hk.
      cbn beta in Hk. by rewrite Ec in Hk.
    + zdiv.
    + rewrite place_above; zdiv.
Qed.

(** Of an I/O access: bit 15 says whether it writes. *)
Lemma io_read_back : BIT op 16 8 = 0x01 -> read_back op (dasm_io op).
Proof.
  destruct fields as (Hi & _ & _ & _ & Hc & _). intros Hr. unfold dasm_io. fold i.
  rewrite reg_at_name by (lia || zdiv). cbn [mbind option_bind].
  assert (BIT op 4 11 = (op / 16) mod 2048 /\ BIT1 op 15 = ((op / 32768) mod 2 =? 1)) as [Hv ->]
    by (by rewrite BIT_eq, BIT1_eq by lia).
  destruct (Z.eqb_spec ((op / 32768) mod 2) 1); cbn [negb].
  - eapply (read_back_format 0 _ _ _ "IO(" (") = " +:+ reg_name 0 i) (0x18000 + i) (BIT op 4 11) zero).
    + transitivity (Some ("IO(" +:+ "$" +:+ show_X 0 (BIT op 4 11) +:+ ") = " +:+ (reg_name 0 i +:+ "")));
        [reflexivity|by rewrite app_string_nil].
    + refine (all_below_spec 16 (fun i => key_ok "IO(" (") = " +:+ reg_name 0 i) (0x18000 + i)) _ i _);
        [vm_compute; reflexivity|zdiv].
    + zdiv.
    + rewrite place_other; zdiv.
  - eapply (read_back_format 0 _ _ _ (reg_name 0 i +:+ " = IO(") ")" (0x10000 + i) (BIT op 4 11) zero).
    + rewrite app_string_assoc. reflexivity.
    + refine (all_below_spec 16 (fun i => key_ok (reg_name 0 i +:+ " = IO(") ")" (0x10000 + i)) _ i _);
        [vm_compute; reflexivity|zdiv].
    + zdiv.
    + rewrite place_other; zdiv.
Qed.

(** Of a store of an immediate: bit 20 says which address generator. *)
Lemma dm_imm_read_back : 0xa0 <= BIT op 16 8 < 0xc0 -> read_back op (dasm_dm_imm op).
Proof.
  destruct fields as (_ & _ & Hv & _ & Hc & _ & Hw). intros Hr. unfold dasm_dm_imm. rewrite Hw. cbv zeta.
  assert (BIT op 2 2 = (op / 4) mod 4 /\ BIT op 0 2 = op mod 4) as [Hi' Hm]
    by (rewrite !BIT_eq by lia; by rewrite Z.div_1_r).
  set (temp := if (op / 1048576) mod 2 =? 1 then 4 else 0).
  assert (temp = 4 * ((op / 1048576) mod 2)) as Ht by (unfold temp; case_match; zdiv).
  rewrite !(conv_id U32) by (cbv [cmin cmax cbits csigned]; zdiv).
  eapply (read_back_format 4 _ _ _ (dm_modified (temp + BIT op 2 2) (temp + BIT op 0 2)) ""
    (0xa00000 + 0x40000 * temp + op mod 16) (BIT op 4 16) four).
  - unfold dm_modified. rewrite !app_string_assoc. reflexivity.
  - pose proof (all_below_spec 16 _ (all_below_spec 2 (fun dag => all_below 16 (fun n =>
      key_ok (dm_modified (4 * dag + n / 4) (4 * dag + n mod 4)) "" (0xa00000 + 0x100000 * dag + n)))
      ltac:(vm_compute; reflexivity) ((op / 1048576) mod 2) ltac:(zdiv)) (op mod 16) ltac:(zdiv)) as Hk.
    cbn beta in Hk. rewrite <- Hk. f_equal; [f_equal|]; zdiv.
  - zdiv.
  - rewrite place_above; zdiv.
Qed.

(** Of a jump or call on FLAG_IN: the address is bits 4 to 15 below bits 2
    and 3. *)
Lemma flagin_target : BIT op 16 8 = 0x03 ->
  exists v, 0 <= v < 16384 /\ op = place (0x30000 + op mod 4) v /\
    forall p t, key_ok p "" (0x30000 + op mod 4) = true -> t = Some p ->
      read_back op (t << stream_format "$%04X" [AInt (s32 (BIT op 4 12 ||| u32 (BIT op 2 2 <<< 12)))]).
Proof.
  destruct fields as (_ & _ & _ & _ & Hc & _). intros Hr.
  assert (BIT op 4 12 = (op / 16) mod 4096 /\ BIT op 2 2 = (op / 4) mod 4) as [Hl Hh]
    by (by rewrite !BIT_eq by lia).
  assert (s32 (BIT op 4 12 ||| u32 (BIT op 2 2 <<< 12)) = (op / 16) mod 4096 + 4096 * ((op / 4) mod 4)) as Hv.
  { rewrite Hl, Hh, Z.shiftl_mul_pow2 by lia.
    rewrite (conv_id U32) by (cbv [cmin cmax cbits csigned]; zdiv).
    rewrite lor_add by (change (2 ^ 12) with 4096; zdiv). change (2 ^ 12) with 4096.
    rewrite (conv_id S32) by (cbv [cmin cmax cbits csigned]; zdiv). lia. }
  set (v := (op / 16) mod 4096 + 4096 * ((op / 4) mod 4)) in *.
  assert (op = place (0x30000 + op mod 4) v) as Hp
    by (unfold place, v; destruct (Z.eqb_spec ((0x30000 + op mod 4) / 0x10000) 3); zdiv).
  exists v. split; [unfold v; zdiv|]. split; [done|]. intros p t Hk ->.
  destruct (key_assemble 4 p "" _ v _ four Hk ltac:(unfold v; zdiv) eq_refl) as [Hlen Ha].
  exists (p +:+ "$" +:+ show_X 4 v +:+ ""). split; [|by rewrite Ha, <- Hp]. rewrite Hv. unfold then_. cbn [mbind option_bind].
  rewrite (stream_exact _ _ ("$" +:+ show_X 4 v +:+ "")); [done|reflexivity|].
  rewrite !length_app_string in *. lia.
Qed.

Lemma flagin_read_back : BIT op 16 8 = 0x03 -> read_back op (dasm_flagin op).1.
Proof.
  intros Hr. destruct (flagin_target Hr) as (v & _ & _ & Ht). unfold dasm_flagin. cbv zeta.
  assert (BIT1 op 0 = (op mod 2 =? 1) /\ BIT1 op 1 = ((op / 2) mod 2 =? 1)) as [-> ->]
    by (rewrite !BIT1_eq by lia; by rewrite Z.div_1_r).
  assert (op mod 4 = 2 * ((op / 2) mod 2) + op mod 2) as Hb by zdiv. rewrite Hb in Ht.
  assert ((op mod 2 = 0 \/ op mod 2 = 1) /\ ((op / 2) mod 2 = 0 \/ (op / 2) mod 2 = 1)) as [[E0|E0] [E1|E1]] by zdiv;
    rewrite E0, E1 in *; cbn [Z.eqb fst]; eapply Ht; try reflexivity; by vm_compute.
Qed.
End Classes.

(** A 14-bit load of a data register prints the unextended number, like the
    16-bit load of that register; the core loads different values. *)
Example short_load_looks_long :
  disassemble 0x320000 = Some ("AX0 = $2000", 2147483649) /\
  disassemble 0x420000 = disassemble 0x320000 /\
  (exec (exec_3x (host := null_host) 0x320000) demo).[Core AX0] = 0xe000 /\
  (exec (exec_4x (host := null_host) 0x420000) demo).[Core AX0] = 0x2000.
Proof. by vm_compute. Qed.

(** C36: printed numbers round trip. For every instruction that prints a
    number after a dollar sign with a printf directive and whose register has
    a name (I/O accesses, jumps and calls, also on FLAG_IN, DO loops, immediate
    loads, direct data memory accesses, stores of an immediate to data memory),
    reading the disassembly back with [assemble] gives exactly the instruction
    word: no bit is lost in the text. Not among them are the constants of the
    ALU forms, which are strings of a table and can be missing from the text;
    the 14-bit loads of a data register (0x30 to 0x33), whose text is that of
    another instruction ([short_load_looks_long]); and the numbers printed in
    decimal (shift amounts, IDLE). *)
Theorem immediate_round_trip op :
  0 <= op < 2 ^ 24 -> immediate op = true ->
  exists text flags, disassemble op = Some (text, flags) /\ assemble text = Some op.
Proof.
  intros Hop Him. assert (read_back op (dasm_case op).1) as (t & Ht & Ha).
  { unfold immediate in Him.
    repeat match goal with H : (_ || _ = true) |- _ => apply orb_true_iff in H as [H|H] end;
      repeat match goal with H : (_ && _ = true) |- _ => apply andb_true_iff in H as [H ?] end.
    - rewrite case_io by lia. apply io_read_back; lia.
    - rewrite case_flagin by lia. apply flagin_read_back; lia.
    - destruct (Z.lt_ge_cases (BIT op 16 8) 0x18).
      + rewrite case_do by lia. apply do_read_back; lia.
      + rewrite case_jump by lia. apply jump_read_back; lia.
    - rewrite case_nondata by lia. apply nondata_read_back; [lia|lia|done].
    - rewrite case_data by lia. apply data_read_back; lia.
    - rewrite case_dm by lia. apply dm_read_back; [lia|lia|done].
    - rewrite case_dm_imm by lia. apply dm_imm_read_back; lia. }
  unfold disassemble. destruct (dasm_case op) as [text f]. cbn in Ht. subst text.
  eexists t, _. split; [reflexivity|done].
Qed.

(** [IF LE CALL $1234], [DM($0123) = L5], [IF FLAG_IN CALL $2345],
    [SI = IO($3FF)] and [DM(I6,M5) = $ABCD]. *)
Lemma immediate_round_trip_witness :
  (exists text flags, disassemble 0x1d2343 = Some (text, flags) /\ assemble text = Some 0x1d2343) /\
  (exists text flags, disassemble 0x981239 = Some (text, flags) /\ assemble text = Some 0x981239) /\
  (exists text flags, disassemble 0x03345b = Some (text, flags) /\ assemble text = Some 0x03345b) /\
  (exists text flags, disassemble 0x013ff8 = Some (text, flags) /\ assemble text = Some 0x013ff8) /\
  (exists text flags, disassemble 0xbabcd9 = Some (text, flags) /\ assemble text = Some 0xbabcd9).
Proof. split_and!; apply immediate_round_trip; by vm_compute. Defined.

(** ** Where the text hides an operand

    [alumac_op] has a second format for operations whose Y operand is the
    constant zero, chosen when bits 12 and 11 are both set. In the forms with
    a constant those bits belong to the number of the constant. *)

(** The word with field 7 down to 5 replaced. *)
Definition with_field (hi k lo : Z) : Z := hi * 256 + k * 32 + lo.

(** Operations whose second format does not mention the Y operand. *)
Definition hides_y (kind : Z) : bool :=
  (kind =? 0) || (kind =? 1) || (kind =? 3) || (kind =? 6) || (kind =? 8) || (kind =? 9) || (kind =? 10).

Lemma with_field_bits hi k lo n w : 0 <= hi < 0x10000 -> 0 <= k < 8 -> 0 <= lo < 32 -> 0 <= w < 32 ->
  (8 <= n -> BIT (with_field hi k lo) n w = BIT hi (n - 8) w) /\
  (0 <= n -> n + w <= 5 -> BIT (with_field hi k lo) n w = BIT lo n w).
Proof.
  intros Hh Hk Hl Hw. unfold with_field. split; intros Hn; [|intros Hnw]; rewrite !BIT_eq by lia.
  - replace n with (8 + (n - 8)) at 1 by lia. rewrite Z.pow_add_r, <- Z.div_div by lia.
    do 2 f_equal. change (2 ^ 8) with 256. zdiv.
  - replace (hi * 256 + k * 32 + lo) with (lo + (hi * 8 + k) * 2 ^ (5 - n) * 2 ^ n).
    + rewrite Z.div_add by (apply Z.pow_nonzero; lia).
      replace (5 - n) with (w + (5 - n - w)) by lia. rewrite Z.pow_add_r by lia.
      replace (lo / 2 ^ n + (hi * 8 + k) * (2 ^ w * 2 ^ (5 - n - w)))
        with (lo / 2 ^ n + (hi * 8 + k) * 2 ^ (5 - n - w) * 2 ^ w) by lia.
      apply Z.mod_add. apply Z.pow_nonzero; lia.
    + rewrite <- Z.mul_assoc, <- Z.pow_add_r by lia. replace (5 - n + n) with 5 by lia. lia.
Qed.

Lemma aluconst_hides dest op op' :
  BIT op 13 5 = BIT op' 13 5 -> BIT op 8 3 = BIT op' 8 3 -> BIT op 11 2 = 3 -> BIT op' 11 2 = 3 ->
  16 <= BIT op 13 5 -> hides_y (BIT op 13 5 - 16) = true -> aluconst dest op = aluconst dest op'.
Proof.
  intros E1 E2 E3 E4 Hk Hh. unfold aluconst. rewrite <- E1, <- E2, E3, E4.
  pose proof (BIT_range op 13 5 ltac:(lia)).
  assert (forall k, exists c, at_ dasm_constants (BIT k 5 3 ||| u32 (3 <<< 3)) = Some c) as Hc.
  { intros k. pose proof (BIT_range k 5 3 ltac:(lia)).
    destruct (at_in_bounds (fun _ => true) dasm_constants (BIT k 5 3 ||| u32 (3 <<< 3))) as (c & Ec & _);
      [|done|by exists c].
    change (u32 (3 <<< 3)) with (3 * 2 ^ 3). rewrite lor_add by lia. cbn in *. lia. }
  destruct (Hc op) as [c ->], (Hc op') as [c' ->].
  destruct (at_ alu_xop (BIT op 8 3)), (at_ alu_dst dest); try done; try (by destruct (BIT1 (BIT op 13 5) 4)).
  clear E1 E2. unfold hides_y in Hh. generalize dependent (BIT op 13 5). intros kind Hk Hh Hr.
  assert (kind = 16 \/ kind = 17 \/ kind = 19 \/ kind = 22 \/ kind = 24 \/ kind = 25 \/ kind = 26)
    as Hd by lia.
  by repeat destruct Hd as [-> | Hd]; [..|subst kind].
Qed.

Lemma case_compute op : 0x20 <= BIT op 16 8 < 0x28 -> dasm_case op = (dasm_compute op, 0).
Proof. intros H. pick_case op 0x20 8%nat. Qed.

Section Hidden.
Context {host : Host}.

(** The sum an addition with a constant computes, without saturation. *)
Lemma alu_op_ar_const_sum op s : Wf s -> alu_kind op = 3 -> tst (s.[MSTAT]) MSTAT_SATURATE = false ->
  0 <= constant_of op <= 0xffff ->
  (exec (alu_op_ar_const op) s).[Core AR] = (xop_of op s + constant_of op) mod 0x10000.
Proof.
  intros Hs Hk Hsat Hc. unfold alu_op_ar_const. rewrite !exec_bind, exec_wr, get_set_eq.
  pose proof (switch_add_sub (alu_get_x op) (alu_get_const op) s op (xop_of op s) (constant_of op)
    (exec_rd_u _) (fun _ => eq_refl) eq_refl eq_refl ltac:(by rewrite Hk)) as [Hr Ht].
  rewrite Hr. destruct (saturate_eval (exact id (alu_kind op) (xop_of op s) (constant_of op) (b2z (ac s)))
    (exec (alu_switch op (alu_get_x op) (alu_get_const op)) s)) as [_ ->].
  assert ((exec (alu_switch op (alu_get_x op) (alu_get_const op)) s).[MSTAT] = s.[MSTAT]) as ->
    by (rewrite Ht, Hk; done).
  rewrite Hsat, Hk. cbn [andb]. rewrite (conv_unsigned (fty (Core AR))) by done. done.
Qed.
End Hidden.

Lemma with_field_alu hi k lo : 0 <= hi < 0x10000 -> 0 <= k < 8 -> 0 <= lo < 32 ->
  (with_field hi k lo >>> 8) = hi /\ alu_kind (with_field hi k lo) = BIT hi 5 4 /\
  constant_of (with_field hi k lo) = nth (Z.to_nat (k ||| (hi &&& 0x18))) constants 0.
Proof.
  intros Hh Hk Hl. assert (with_field hi k lo >>> 8 = hi) as E8.
  { unfold with_field. rewrite Z.shiftr_div_pow2 by lia. change (2 ^ 8) with 256. zdiv. }
  split_and!; [done|..].
  - unfold alu_kind. rewrite BIT_eq by lia. change 15 with (2 ^ 4 - 1). rewrite land_mask_mod by lia.
    unfold with_field. rewrite Z.shiftr_div_pow2 by lia. f_equal. change (2 ^ 13) with 8192.
    change (2 ^ 5) with 32. zdiv.
  - unfold constant_of. rewrite E8. do 4 f_equal. change 0x07 with (2 ^ 3 - 1).
    rewrite land_mask_mod by lia. unfold with_field. rewrite Z.shiftr_div_pow2 by lia.
    change (2 ^ 5) with 32. change (2 ^ 3) with 8. zdiv.
Qed.

Lemma high_constants hi : 0 <= hi < 0x10000 -> BIT hi 3 2 = 3 -> hi &&& 0x18 = 24.
Proof.
  intros Hh Hb. rewrite BIT_eq in Hb by lia. apply Z.bits_inj'. intros n Hn. rewrite Z.land_spec.
  destruct (Z.lt_ge_cases n 5).
  - assert (n = 0 \/ n = 1 \/ n = 2 \/ n = 3 \/ n = 4) as Hd by lia.
    assert (Z.testbit hi 3 = true /\ Z.testbit hi 4 = true) as [H3 H4].
    { rewrite !Z.testbit_true by lia. change (2 ^ 3) with 8 in *. change (2 ^ 4) with 16.
      change (2 ^ 2) with 4 in Hb. zdiv. }
    repeat destruct Hd as [-> | Hd]; [..|subst n]; rewrite ?H3, ?H4, ?andb_false_r; done.
  - rewrite (bits_high_0 24 5), andb_false_r by lia. done.
Qed.

(** A listing can hide the constant of an instruction. In the conditional
    ALU forms with a constant, for the last eight constants (those with bits
    12 and 11 set) and the operations whose second format has no Y operand,
    the eight instructions that differ only in the constant disassemble to
    the same text; yet for X plus a constant they leave eight different
    results in AR, from any state without saturation. *)
Theorem listing_drops_constant {host : Host} hi lo k k' s :
  0 <= hi < 0x10000 -> 16 <= lo < 32 -> 0 <= k < 8 -> 0 <= k' < 8 -> k <> k' ->
  0x20 <= BIT hi 8 8 < 0x28 -> BIT hi 3 2 = 3 ->
  16 <= BIT hi 5 5 -> hides_y (BIT hi 5 5 - 16) = true ->
  disassemble (with_field hi k lo) = disassemble (with_field hi k' lo) /\
  (BIT hi 5 4 = 3 -> Wf s -> tst (s.[MSTAT]) MSTAT_SATURATE = false ->
   (exec (alu_op_ar_const (with_field hi k lo)) s).[Core AR] <>
   (exec (alu_op_ar_const (with_field hi k' lo)) s).[Core AR]).
Proof.
  intros Hh Hl Hk Hk' Hne Hc H3 H16 Hy. split.
  - assert (forall k, 0 <= k < 8 ->
      dasm_case (with_field hi k lo) = (dasm_compute (with_field hi k lo), 0) /\
      BIT1 (with_field hi k lo) 4 = true /\ BIT1 (with_field hi k lo) 18 = BIT1 hi 10 /\
      BIT (with_field hi k lo) 0 4 = BIT lo 0 4 /\ BIT (with_field hi k lo) 13 5 = BIT hi 5 5 /\
      BIT (with_field hi k lo) 8 3 = BIT hi 0 3 /\ BIT (with_field hi k lo) 11 2 = 3) as Hf.
    { intros j Hj. pose proof (with_field_bits hi j lo) as Hb.
      rewrite case_compute by (rewrite (proj1 (Hb 16 8 Hh Hj ltac:(lia) ltac:(lia))) by lia; done).
      split_and!; [done|..|apply (Hb 0 4); lia|apply (Hb 13 5); lia|apply (Hb 8 3); lia|].
      - rewrite BIT1_eq by (unfold with_field; lia). unfold with_field. change (2 ^ 4) with 16. zdiv.
      - rewrite !BIT1_eq by (unfold with_field; lia). unfold with_field.
        change (2 ^ 18) with 262144. change (2 ^ 10) with 1024. f_equal. f_equal. zdiv.
      - rewrite (proj1 (Hb 11 2 Hh Hj ltac:(lia) ltac:(lia))) by lia. done. }
    unfold disassemble. destruct (Hf k Hk) as (-> & B1 & B2 & B3 & B4 & B5 & B6).
    destruct (Hf k' Hk') as (-> & B1' & B2' & B3' & B4' & B5' & B6').
    unfold dasm_compute, cond_text. rewrite B1, B1', B2, B2', B3, B3'. cbn [negb].
    rewrite (aluconst_hides _ (with_field hi k lo) (with_field hi k' lo)); [done|congruence..| |].
    + rewrite B4. lia.
    + by rewrite B4.
  - intros Hk3 Hs Hsat.
    assert (forall j, 0 <= j < 8 -> constant_of (with_field hi j lo) = nth (Z.to_nat (j + 24)) constants 0 /\
      (exec (alu_op_ar_const (with_field hi j lo)) s).[Core AR] =
      (eval (ALU_GETXREG_UNSIGNED (hi &&& 7)) s + nth (Z.to_nat (j + 24)) constants 0) mod 0x10000) as Hr.
    { intros j Hj. destruct (with_field_alu hi j lo Hh Hj ltac:(lia)) as (E8 & Ek & Ec).
      rewrite (high_constants hi Hh H3) in Ec. change 24 with (3 * 2 ^ 3) in Ec at 1.
      rewrite lor_add in Ec by lia. split; [exact Ec|].
      rewrite alu_op_ar_const_sum; [|done|by rewrite Ek|done|].
      - rewrite Ec. unfold xop_of, alu_get_x. by rewrite E8.
      - rewrite Ec.
        pose proof (all_below_spec 8 (fun j => let c := nth (Z.to_nat (j + 24)) constants 0 in
          (0 <=? c) && (c <=? 0xffff)) ltac:(vm_compute; reflexivity) j Hj) as Hb. cbv beta zeta in Hb.
        change (j + 3 * 2 ^ 3) with (j + 24). apply andb_true_iff in Hb as [H1%Z.leb_le H2%Z.leb_le]. by split. }
    destruct (Hr k Hk) as [_ ->], (Hr k' Hk') as [_ ->].
    pose proof (all_below_spec 8 _ (all_below_spec 8 (fun a => all_below 8 (fun b => (a =? b) ||
      negb ((nth (Z.to_nat (a + 24)) constants 0 - nth (Z.to_nat (b + 24)) constants 0) mod 0x10000 =? 0)))
      ltac:(vm_compute; reflexivity) k Hk) k' Hk') as Hd. cbn beta in Hd.
    intros E. apply orb_true_iff in Hd as [Hd|Hd]; [lia|]. apply negb_true_iff, Z.eqb_neq in Hd. apply Hd.
    set (c := nth (Z.to_nat (k + 24)) constants 0) in *. set (c' := nth (Z.to_nat (k' + 24)) constants 0) in *.
    set (x := eval _ s) in *. replace (c - c') with ((x + c) - (x + c')) by lia.
    by rewrite Zminus_mod, E, Z.sub_diag.
Qed.

(** [AR = AX0 + $1000] and [AR = AX0 + $EFFF] both print as [AR = AX0]. *)
Lemma listing_drops_constant_witness :
  disassemble 0x22781f = disassemble 0x22783f /\ (exists fl, disassemble 0x22781f = Some ("AR = AX0", fl)) /\
  (exec (alu_op_ar_const (host := null_host) 0x22781f) demo).[Core AR] <>
  (exec (alu_op_ar_const (host := null_host) 0x22783f) demo).[Core AR].
Proof.
  destruct (listing_drops_constant (host := null_host) 0x2278 0x1f 0 1 demo) as [H1 H2];
    [lia..|by vm_compute|by vm_compute|by vm_compute|by vm_compute|].
  split; [exact H1|]. split; [eexists; by vm_compute|].
  apply H2; [by vm_compute|apply demo_wf|by vm_compute].
Defined.

(** ** The stand-alone program *)
Lemma pm_byte_range pm k b : pm_byte pm k = Some b -> 0 <= b <= 0xff.
Proof.
  unfold pm_byte. destruct (at_ pm (k / 4)); [|done]. cbn. intros [= <-]. by apply land_range_r.
Qed.

Lemma pm_byte_some pm k : 0 <= k < 4 * Z.of_nat (length pm) -> is_Some (pm_byte pm k).
Proof.
  intros Hk. unfold pm_byte.
  destruct (at_in_bounds (fun _ => true) pm (k / 4)) as (w & -> & _); [zdiv|by apply forallb_forall|].
  by eexists.
Qed.

Lemma pm_byte_out pm k : 4 * Z.of_nat (length pm) <= k -> pm_byte pm k = None.
Proof.
  intros Hk. unfold pm_byte, at_. assert (k / 4 <? 0 = false) as -> by (apply Z.ltb_ge; zdiv).
  rewrite lookup_ge_None_2; [done|]. zdiv.
Qed.

Lemma pm_byte_insert pm a w k : 0 <= a -> k / 4 <> a -> pm_byte (<[Z.to_nat a := w]> pm) k = pm_byte pm k.
Proof.
  intros Ha Hk. unfold pm_byte, at_. destruct (k / 4 <? 0) eqn:E; [done|].
  rewrite list_lookup_insert_ne; [done|]. lia.
Qed.

Lemma r32_first pm w : pm !! O = Some w -> 0 <= w < 2 ^ 32 -> r32 pm 0 0 = Some w.
Proof.
  intros Hw Hr. unfold r32, pm_byte.
  change ((4 * 0 + 0) / 4) with 0. change ((4 * 0 + (0 + 1)) / 4) with 0.
  change ((4 * 0 + (0 + 2)) / 4) with 0. change ((4 * 0 + (0 + 3)) / 4) with 0.
  change (at_ pm 0) with (pm !! O). rewrite Hw. cbn [mbind option_bind]. f_equal.
  change (8 * ((4 * 0 + 0) mod 4)) with 0. change (8 * ((4 * 0 + (0 + 1)) mod 4)) with 8.
  change (8 * ((4 * 0 + (0 + 2)) mod 4)) with 16. change (8 * ((4 * 0 + (0 + 3)) mod 4)) with 24.
  change 255 with (2 ^ 8 - 1). rewrite !land_mask_mod, !Z.shiftr_div_pow2, !Z.shiftl_mul_pow2 by lia.
  change (2 ^ 0) with 1. rewrite Z.div_1_r.
  assert (forall x, 0 <= x mod 2 ^ 8 < 256) as Hb by (intros x; apply Z.mod_pos_bound; lia).
  rewrite (conv_id U32) by (pose proof (Hb (w / 2 ^ 24)); cbn; lia).
  pose proof (Hb w). pose proof (Hb (w / 2 ^ 8)). pose proof (Hb (w / 2 ^ 16)).
  rewrite (lor_add _ _ 8), (lor_add _ _ 16), (lor_add _ _ 24) by lia.
  change (2 ^ 8) with 256 in *. change (2 ^ 16) with 65536. change (2 ^ 24) with 16777216. zdiv.
Qed.

(** The stand-alone program lists the wrong words. [main] hands
    [disassemble] a buffer that already starts at word [a] together with the
    address [a], which [r32] adds again as a byte offset. The listing is right
    at address 0; from address 4 on the text on a line does not depend on the
    word printed on it; and from address 13107 the read is outside the array
    (undefined behaviour). *)
Theorem standalone_reads_wrong_word pm a :
  length pm = Z.to_nat 0x4000 -> Forall (fun w => 0 <= w < 2 ^ 24) pm -> 0 <= a < 0x4000 ->
  (a = 0 -> exists w text fl, pm !! O = Some w /\ disassemble w = Some (text, fl) /\
     list_line pm a = Some (a, w, text)) /\
  (4 <= a < 13107 -> forall w, 0 <= w < 2 ^ 24 ->
     is_Some (list_line pm a) /\ snd <$> list_line (<[Z.to_nat a := w]> pm) a = snd <$> list_line pm a) /\
  (13107 <= a -> list_line pm a = None).
Proof.
  intros Hl Hpm Ha. assert (u32 a = a) as Eu by (apply conv_id; cbn; lia).
  unfold list_line. rewrite Eu. split_and!.
  - intros ->. destruct (lookup_lt_is_Some_2 pm O) as [w Hw]; [rewrite Hl; lia|].
    pose proof (proj1 (Forall_lookup _ _) Hpm _ _ Hw) as Hr. cbn beta in Hr.
    destruct (disassemble_total w) as (text & fl & Hd & _). exists w, text, fl. split_and!; [done|done|].
    change (at_ pm 0) with (pm !! O). rewrite Hw. cbn [mbind option_bind].
    rewrite (r32_first pm w) by (done || lia). cbn [mbind option_bind]. rewrite Hd. cbn.
    do 3 f_equal. change 16777215 with (2 ^ 24 - 1). rewrite land_mask_mod by lia. by apply Z.mod_small.
  - intros Hr w Hw.
    destruct (at_in_bounds (fun _ => true) pm a) as (v & Hv & _); [lia|by apply forallb_forall|].
    assert (r32 (<[Z.to_nat a := w]> pm) a a = r32 pm a a) as Er
      by (unfold r32; rewrite !pm_byte_insert by first [lia|zdiv]; done).
    assert (is_Some (r32 pm a a)) as [op Hop].
    { unfold r32. edestruct (pm_byte_some pm (4 * a + a)) as [b0 ->]; [lia|].
      edestruct (pm_byte_some pm (4 * a + (a + 1))) as [b1 ->]; [lia|].
      edestruct (pm_byte_some pm (4 * a + (a + 2))) as [b2 ->]; [lia|].
      edestruct (pm_byte_some pm (4 * a + (a + 3))) as [b3 ->]; [lia|]. by eexists. }
    destruct (disassemble_total op) as (text & fl & Hd & _).
    rewrite Er, Hv, Hop. cbn [mbind option_bind]. rewrite Hd.
    destruct (at_in_bounds (fun _ => true) (<[Z.to_nat a := w]> pm) a) as (v' & Hv' & _);
      [rewrite length_insert; lia|by apply forallb_forall|].
    rewrite Hv'. cbn. split; [by eexists|done].
  - intros Hr.
    destruct (at_in_bounds (fun _ => true) pm a) as (v & -> & _); [lia|by apply forallb_forall|].
    unfold r32. cbn [mbind option_bind]. rewrite (pm_byte_out pm (4 * a + (a + 3))) by lia.
    by repeat match goal with |- context [pm_byte pm ?k] => destruct (pm_byte pm k) end.
Qed.

(** An image of NOPs with one jump at address 8: the listing does not show it. *)
Lemma standalone_reads_wrong_word_witness :
  let pm := <[8%nat := 0x18000f]> (replicate (Z.to_nat 0x4000) 0) in
  snd <$> list_line pm 8 = Some "NOP".
Proof.
  cbv zeta. assert (length (replicate (Z.to_nat 0x4000) 0) = Z.to_nat 0x4000) as Hl by apply length_replicate.
  assert (Forall (fun w => 0 <= w < 2 ^ 24) (replicate (Z.to_nat 0x4000) 0)) as Hf by (apply Forall_replicate; lia).
  destruct (standalone_reads_wrong_word (replicate (Z.to_nat 0x4000) 0) 8 Hl Hf ltac:(lia)) as (_ & H & _).
  destruct (H ltac:(lia) 0x18000f ltac:(lia)) as [_ E]. change 8%nat with (Z.to_nat 8). rewrite E.
  by vm_compute.
Defined.
