(* ===== verification/Ham.v ===== *)
(** * The Ambient/Intel HaM probe driver

    [ambient_ham_probe.c]: a PCI driver that resets the modem's DSP, loads its
    power-on overlay, exchanges command packets with it through a shared
    window (CRAM), serves the overlays it asks for, and can dial or answer.

    The device is not in the repository: it is an instance of [Device], any
    state machine that answers register reads and sees register writes and the
    time that passes. Every access is also logged, newest first, so that the
    order of accesses can be specified. The two loops without a bound in the
    source take [fuel]; a computation that runs out of it gives [None]. *)
From S2P Require Import Prelude.

(** ** The device and the log *)
Class Device (D : Type) := {
  dev_read : Z -> D -> Z * D;
  dev_write : Z -> Z -> D -> D;
  dev_sleep : Z -> D -> D;
  (** [jiffies] at this moment *)
  dev_jiffies : D -> Z * D;
  (** ticks per second, a constant of the kernel *)
  HZ : Z;
  (** what a read outside an array finds *)
  dev_stray : D -> Z
}.

Inductive hevent :=
  | EvRead (reg v : Z)
  | EvWrite (reg v : Z)
  | EvSleep (ms : Z)
  | EvOutside (index : Z)
  | EvPciCommand (v : Z).

#[global] Instance hevent_eq_dec : EqDecision hevent.
Proof. solve_decision. Defined.

Record hw (D : Type) := Hw { hdev : D; hlog : list hevent }.
Arguments Hw {D}. Arguments hdev {D}. Arguments hlog {D}.

Definition H (D A : Type) : Type := hw D -> option A * hw D.
#[global] Instance H_ret {D} : MRet (H D) := fun A x w => (Some x, w).
#[global] Instance H_bind {D} : MBind (H D) := fun A B f m w =>
  match m w with (Some x, w) => f x w | (None, w) => (None, w) end.

(** ** Definitions *)
Definition HAM_REG_RESET_STATUS : Z := 0x42.
Definition HAM_REG_DSP_CFG : Z := 0xf6.
Definition HAM_REG_INT_EVENT : Z := 0xf7.
Definition HAM_REG_PATCH_ADDR_L : Z := 0xf8.
Definition HAM_REG_PATCH_ADDR_H : Z := 0xf9.
Definition HAM_REG_PATCH_DATA : Z := 0xfa.
Definition HAM_REG_RESET : Z := 0xfc.
Definition HAM_REG_HOST_TRIGGER : Z := 0xfe.
Definition HAM_REG_DSP_ACK : Z := 0xff.
Definition HAM_CRAM_DSP_PACKET : Z := 0x00.
Definition HAM_CRAM_HOST_PACKET : Z := 0x40.
Definition HAM_PATCH_SIZE : Z := 0x747c.
Definition HAM_PATCH_END : Z := 0x30.
Definition HAM_POWERON_OVERLAY : Z := 0x00.
Definition HAM_POWERON_REQUEST : Z := 0x60.

(** Linux error numbers. *)
Definition ENOENT : Z := 2.
Definition ENOMEM : Z := 12.
Definition ENODEV : Z := 19.
Definition EINVAL : Z := 22.
Definition EPROTO : Z := 71.
Definition EOPNOTSUPP : Z := 95.
Definition ETIMEDOUT : Z := 110.

(** The module parameters. *)
Record params := Params {
  do_reset : bool; load_patch : bool; survey_speakerphone : bool; survey_mode : Z;
  dial_number : option (list Z); answer_mode : Z }.

(** [data[i]] where the source has checked [i] against the size. *)
Definition byte_at (data : list Z) (i : Z) : Z := nth (Z.to_nat i) data 0.
(** [get_unaligned_le16] *)
Definition le16 (data : list Z) (i : Z) : Z := byte_at data i ||| (byte_at data (i + 1) <<< 8).
Definition slice (data : list Z) (from len : Z) : list Z :=
  take (Z.to_nat len) (drop (Z.to_nat from) data).

Section Ham.
Context {D : Type} {dev : Device D}.
Implicit Types w : hw D.

Definition log (e : hevent) : H D unit := fun w => (Some tt, Hw (hdev w) (e :: hlog w)).
Definition ioread8 (reg : Z) : H D Z := fun w =>
  let '(v, d) := dev_read reg (hdev w) in (Some (u8 v), Hw d (EvRead reg (u8 v) :: hlog w)).
Definition iowrite8 (reg v : Z) : H D unit := fun w =>
  (Some tt, Hw (dev_write reg (u8 v) (hdev w)) (EvWrite reg (u8 v) :: hlog w)).
Definition msleep (ms : Z) : H D unit := fun w =>
  (Some tt, Hw (dev_sleep ms (hdev w)) (EvSleep ms :: hlog w)).
Definition jiffies : H D Z := fun w =>
  let '(t, d) := dev_jiffies (hdev w) in (Some (u64 t), Hw d (hlog w)).
(** A read past the end of an array: whatever is there, and it is logged. *)
Definition outside (i : Z) : H D Z := fun w =>
  (Some (u8 (dev_stray (hdev w))), Hw (hdev w) (EvOutside i :: hlog w)).
Definition diverge {A} : H D A := fun w => (None, w).

Definition ham_read (reg : Z) : H D Z := ioread8 reg.
Definition ham_write (reg value : Z) : H D unit :=
  iowrite8 reg value ;; ioread8 HAM_REG_INT_EVENT ;; mret tt.

Definition ham_log_registers : H D unit :=
  ham_read HAM_REG_RESET_STATUS ;; ham_read HAM_REG_DSP_CFG ;; ham_read HAM_REG_INT_EVENT ;;
  ham_read HAM_REG_PATCH_ADDR_L ;; ham_read HAM_REG_PATCH_ADDR_H ;; ham_read HAM_REG_RESET ;; mret tt.

(** [for (elapsed = 0; elapsed < n; elapsed++) { msleep(1); status = ...; if (status == 0) break; }] *)
Fixpoint wait_status (n : nat) (elapsed status : Z) : H D (Z * Z) :=
  match n with
  | O => mret (elapsed, status)
  | S n =>
      msleep 1 ;;
      status ← ham_read HAM_REG_RESET_STATUS;
      if status =? 0 then mret (elapsed, status) else wait_status n (elapsed + 1) status
  end.

Definition ham_reset_dsp : H D Z :=
  ham_write HAM_REG_RESET 0x02 ;;
  ham_write HAM_REG_INT_EVENT 0x00 ;;
  cfg ← ham_read HAM_REG_DSP_CFG;
  ham_write HAM_REG_DSP_CFG (cfg ||| 0x01) ;;
  ham_write HAM_REG_RESET_STATUS 0x01 ;;
  ham_write HAM_REG_RESET 0x01 ;;
  '(_, status) ← wait_status 500 0 0xff;
  if negb (status =? 0) then mret (- ETIMEDOUT) else msleep 150 ;; mret 0.

Definition ham_quiesce : H D unit :=
  v ← ham_read 0xf0; ham_write 0xf0 (v ||| 0x04) ;;
  v ← ham_read 0xf3; ham_write 0xf3 (v &&& ~~~0x04) ;;
  v ← ham_read 0xf2; ham_write 0xf2 (v ||| 0x04) ;;
  ham_write HAM_REG_INT_EVENT 0x00 ;;
  ham_read HAM_REG_DSP_ACK ;;
  ham_write HAM_REG_RESET 0x0a.

Definition ham_set_hook (off_hook : bool) : H D unit :=
  v ← ham_read 0xf0; ham_write 0xf0 (v ||| 0x04) ;;
  v ← ham_read 0xf3; ham_write 0xf3 (v &&& ~~~0x04) ;;
  v ← ham_read 0xf2;
  ham_write 0xf2 (if off_hook then v &&& ~~~0x04 else v ||| 0x04).

Definition ham_wait_reset : H D Z :=
  '(_, status) ← wait_status 500 0 0xff;
  if negb (status =? 0) then mret (- ETIMEDOUT) else msleep 150 ;; mret 0.

(** [for (elapsed = 0; elapsed < n; elapsed++) { if (stop) break; ... }]: the
    value [elapsed] ends with. *)
Fixpoint for_break (n : nat) (elapsed : Z) (body : H D bool) : H D Z :=
  match n with
  | O => mret elapsed
  | S n => stop ← body; if (stop : bool) then mret elapsed else for_break n (elapsed + 1) body
  end.

(** [for (i = 1; i < wire_size; i++) ham_write(HOST_PACKET + i, command[i]);] *)
Definition command_byte (command : list Z) (i : Z) : H D Z :=
  match command !! Z.to_nat i with Some v => mret v | None => outside i end.
Fixpoint put_bytes (n : nat) (i : Z) (command : list Z) : H D unit :=
  match n with
  | O => mret tt
  | S n =>
      v ← command_byte command i;
      ham_write (HAM_CRAM_HOST_PACKET + i) v ;; put_bytes n (i + 1) command
  end.

Definition ham_put_command (command : list Z) : H D Z :=
  let command_size := Z.of_nat (length command) in
  if (command_size <? 4) || (command_size >? 64) || (byte_at command 2 + 4 >? command_size)
  then mret (- EINVAL)
  else
    elapsed ← for_break 1000 0
      (v ← ham_read HAM_CRAM_HOST_PACKET;
       if v =? 0 then mret true else msleep 1 ;; mret false);
    if elapsed =? 1000 then mret (- ETIMEDOUT)
    else
      let wire_size := byte_at command 2 + 4 in
      let wire_size := if tst wire_size 1 then wire_size + 1 else wire_size in
      put_bytes (Z.to_nat (wire_size - 1)) 1 command ;;
      ham_write HAM_CRAM_HOST_PACKET (byte_at command 0) ;;
      ham_write HAM_REG_HOST_TRIGGER 0x01 ;;
      mret 0.

Fixpoint get_bytes (n : nat) (i : Z) : H D (list Z) :=
  match n with
  | O => mret []
  | S n => v ← ham_read i; l ← get_bytes n (i + 1); mret (v :: l)
  end.

(** The number of bytes received, or the error, and the packet. *)
Definition ham_get_packet (packet_size : Z) : H D (Z * list Z) :=
  elapsed ← for_break 1000 0
    (msleep 1 ;;
     event ← ham_read HAM_REG_INT_EVENT;
     if tst event 0x01 then mret true
     else v ← ham_read HAM_CRAM_DSP_PACKET; mret (negb (v =? 0)));
  if elapsed =? 1000 then mret (- ETIMEDOUT, [])
  else
    n ← ham_read 2;
    let received := (n + 4) `min` packet_size in
    packet ← get_bytes (Z.to_nat received) 0;
    ham_write HAM_CRAM_DSP_PACKET 0x00 ;;
    ham_read HAM_REG_DSP_ACK ;;
    mret (received, packet).

(** *** Overlays *)

(** [u8 command[20] = { 0x0c, 0, 0, 0 }; ...] *)
Definition overlay_command (type address : Z) (chunk : list Z) : list Z :=
  let n := Z.of_nat (length chunk) in
  [0x0c; 0; u8 (n + 4); 0; address &&& 0xff; address >>> 8; u8 ((type &&& 0x0e) <<< 4); 0] ++
  chunk ++ replicate (12 - length chunk) 0.

(** [while (done < bytes)]: the error or 0. *)
Fixpoint send_chunks (fuel : nat) (type address : Z) (data : list Z) (done_ : Z) : H D Z :=
  match fuel with
  | O => diverge
  | S fuel =>
      let bytes := Z.of_nat (length data) in
      if done_ <? bytes then
        let chunk := 12 `min` (bytes - done_) in
        let chunk_address := u16 (address + done_ / 2) in
        ret ← ham_put_command (overlay_command type chunk_address (slice data done_ chunk));
        if nz ret then mret ret else send_chunks fuel type address data (done_ + chunk)
      else mret 0
  end.

(** [while (offset < fw->size && fw->data[offset] != HAM_PATCH_END)] of
    [ham_service_overlay]: the error (or 0) and the number of records. *)
Fixpoint service_records (fuel : nat) (fw : list Z) (overlay offset records : Z) : H D (Z * Z) :=
  match fuel with
  | O => diverge
  | S fuel =>
      let size := Z.of_nat (length fw) in
      if (offset <? size) && negb (byte_at fw offset =? HAM_PATCH_END) then
        if offset + 6 >? size then mret (- EINVAL, records)
        else
          let type := byte_at fw offset in
          let record_overlay := byte_at fw (offset + 1) in
          let address := le16 fw (offset + 2) in
          let words := le16 fw (offset + 4) in
          let bytes := words * 2 in
          if offset + 6 + bytes >? size then mret (- EINVAL, records)
          else if record_overlay =? overlay then
            if negb (tst type 0x01) then mret (- EOPNOTSUPP, records)
            else
              ret ← send_chunks (S (length fw)) type address (slice fw (offset + 6) bytes) 0;
              if nz ret then mret (ret, records)
              else service_records fuel fw overlay (offset + (6 + bytes)) (records + 1)
          else service_records fuel fw overlay (offset + (6 + bytes)) records
      else mret (0, records)
  end.

Definition ham_service_overlay (fw : list Z) (request overlay : Z) : H D Z :=
  '(ret, records) ← service_records (S (length fw)) fw overlay 0 0;
  if nz ret then mret ret
  else if records =? 0 then mret (- ENOENT)
  else ham_put_command [0xa3; 0x00; 0x02; 0x00; overlay; request].

(** *** Command and response *)
Definition unsolicited (p : Z) : bool :=
  (p =? 0xc4) || (p =? 0xce) || (p =? 0xcf) || (p =? 0xd1) || (p =? 0xd4) || (p =? 0xd5) || (p =? 0xd7).

(** [for (;;)] of [ham_send_and_wait]: the result and the response copied. *)
Fixpoint wait_response (fuel : nat) (fw : list Z) (command0 : Z) (want_response : bool)
    (result_size : Z) : H D (Z * list Z) :=
  match fuel with
  | O => diverge
  | S fuel =>
      let again := wait_response fuel fw command0 want_response result_size in
      '(ret, packet) ← ham_get_packet 64;
      let packet0 := byte_at packet 0 in
      if ret =? - ETIMEDOUT then mret (- ETIMEDOUT, [])
      else if ret <? 0 then mret (ret, [])
      else if (packet0 =? 0xd6) && (ret >=? 6) then
        r ← ham_service_overlay fw (byte_at packet 4) (byte_at packet 5);
        if nz r then mret (r, []) else again
      else if (packet0 =? 0xc0) && (ret >=? 5) && (byte_at packet 4 =? command0) then
        if negb want_response then mret (0, []) else again
      else if packet0 =? 0xc0 then again
      else if unsolicited packet0 then again
      else if want_response then
        let copied := ret `min` result_size in mret (copied, slice packet 0 copied)
      else again
  end.

Definition ham_send_and_wait (fuel : nat) (fw command : list Z) (want_response : bool) : H D (Z * list Z) :=
  ret ← ham_put_command command;
  if nz ret then mret (ret, []) else wait_response fuel fw (byte_at command 0) want_response 64.

(** [time_before(a, b)] *)
Definition time_before (a b : Z) : bool := s64 (a - b) <? 0.

Fixpoint observe_until (fuel : nat) (fw : list Z) (end_ : Z) : H D Z :=
  match fuel with
  | O => diverge
  | S fuel =>
      now ← jiffies;
      if time_before now end_ then
        '(ret, packet) ← ham_get_packet 64;
        if ret =? - ETIMEDOUT then observe_until fuel fw end_
        else if ret <? 0 then mret ret
        else if (byte_at packet 0 =? 0xd6) && (ret >=? 6) then
          r ← ham_service_overlay fw (byte_at packet 4) (byte_at packet 5);
          if nz r then mret r else observe_until fuel fw end_
        else observe_until fuel fw end_
      else mret 0
  end.
Definition ham_observe (fuel : nat) (fw : list Z) (seconds : Z) : H D Z :=
  now ← jiffies; observe_until fuel fw (u64 (now + seconds * HZ)).

(** *** Calls *)

(** The result code of a command whose response is not wanted. *)
Definition ham_command (fuel : nat) (fw command : list Z) : H D Z :=
  '(ret, _) ← ham_send_and_wait fuel fw command false; mret ret.

(** [if (number[i] < '0' || number[i] > '9') return -EINVAL;] *)
Definition is_digit (c : Z) : bool := (48 <=? c) && (c <=? 57).

Fixpoint dial_digits (fuel : nat) (fw number : list Z) : H D Z :=
  match number with
  | [] => mret 0
  | c :: number =>
      ret ← ham_command fuel fw [0x67; 0x00; 0x01; 0x00; u8 (if c =? 48 then 0 else c - 48)];
      if nz ret then mret ret else msleep 250 ;; dial_digits fuel fw number
  end.

(** What happens between going off hook and [on_hook]. *)
Definition dial_off_hook (fuel : nat) (fw number : list Z) : H D Z :=
  ret ← ham_command fuel fw [0x65; 0x00; 0x02; 0x00; 0x01; 0x01];
  if nz ret then mret ret else
  ret ← ham_command fuel fw [0x66; 0x00; 0x06; 0x00; 100; 100; 0; 0; 100; 0];
  if nz ret then mret ret else
  ret ← dial_digits fuel fw number;
  if nz ret then mret ret else ham_observe fuel fw 15.

Definition ham_dial_playground (fuel : nat) (fw number : list Z) : H D Z :=
  let length := Z.of_nat (length number) in
  if (length =? 0) || (length >? 16) then mret (- EINVAL)
  else if negb (forallb is_digit number) then mret (- EINVAL)
  else
    ham_set_hook true ;;
    msleep 500 ;;
    ret ← dial_off_hook fuel fw number;
    ham_set_hook false ;;
    mret ret.

Definition answer_connect (mode : Z) : list Z :=
  [0x68; 0x00; 0x06; 0x00;
   (if mode =? 0 then 0x02 else if mode =? 16 then 0x09 else 0x00); u8 mode; 0x04; 0x00; 0x00; 0x00].

Definition answer_off_hook (fuel : nat) (fw : list Z) (mode : Z) : H D Z :=
  ret ← ham_command fuel fw [0x7b; 0x00; 0x04; 0x00; 10; 10; 0; 0];
  if nz ret then mret ret else
  ret ← ham_command fuel fw (answer_connect mode);
  if nz ret then mret ret else ham_observe fuel fw 30.

Definition ham_answer_playground (fuel : nat) (fw : list Z) (mode : Z) : H D Z :=
  if (mode <? 0) || (mode >? 24) then mret (- EINVAL)
  else
    ret ← ham_observe fuel fw 5;
    if nz ret then mret ret
    else
      ham_set_hook true ;;
      msleep 250 ;;
      ret ← answer_off_hook fuel fw mode;
      ham_set_hook false ;;
      mret ret.

(** *** Loading the power-on patch *)
Fixpoint write_patch (data : list Z) : H D unit :=
  match data with
  | [] => mret tt
  | v :: data => ham_write HAM_REG_PATCH_DATA v ;; write_patch data
  end.

(** The record loop of [ham_load_poweron_patch]: [None] when malformed, or
    the final offset and the counts of records and words loaded. *)
Fixpoint load_records (fuel : nat) (fw : list Z) (offset loaded words_ : Z) : H D (option (Z * Z * Z)) :=
  match fuel with
  | O => diverge
  | S fuel =>
      let size := Z.of_nat (length fw) in
      if (offset <? size) && negb (byte_at fw offset =? HAM_PATCH_END) then
        if offset + 6 >? size then mret None
        else
          let overlay := byte_at fw (offset + 1) in
          let address := le16 fw (offset + 2) in
          let words := le16 fw (offset + 4) in
          let bytes := words * 2 in
          if offset + 6 + bytes >? size then mret None
          else if overlay =? HAM_POWERON_OVERLAY then
            ham_write HAM_REG_PATCH_ADDR_H (address >>> 8) ;;
            ham_write HAM_REG_PATCH_ADDR_L (address &&& 0xff) ;;
            write_patch (slice fw (offset + 6) bytes) ;;
            load_records fuel fw (offset + (6 + bytes)) (loaded + 1) (words_ + words)
          else load_records fuel fw (offset + (6 + bytes)) loaded words_
      else mret (Some (offset, loaded, words_))
  end.

(** The version query: the response must have a payload. *)
Definition query_version (fuel : nat) (fw : list Z) : H D Z :=
  '(ret, _) ← ham_send_and_wait fuel fw [0x94; 0x00; 0x00; 0x00] true;
  mret (if ret >=? 5 then 0 else if ret >=? 0 then - EPROTO else ret).

Definition survey_speaker (fuel : nat) (fw : list Z) : H D Z :=
  ret ← ham_command fuel fw [0xa2; 0x00; 0x02; 0x00; 0x01; 0x00];
  if nz ret then mret ret else
  ret ← ham_command fuel fw [0xa2; 0x00; 0x02; 0x00; 0x00; 0x00];
  if nz ret then mret ret else
  ham_command fuel fw [0x60; 0x00; 0x02; 0x00; 0x00; 0x00].

Definition survey_modulation (fuel : nat) (fw : list Z) (mode : Z) : H D Z :=
  if mode >? 24 then mret (- EINVAL)
  else
    ret ← ham_command fuel fw [0x68; 0x00; 0x06; 0x00; 0x00; u8 mode; 0x00; 0x00; 0x00; 0x00];
    if nz ret then mret ret else ham_command fuel fw [0x60; 0x00; 0x02; 0x00; 0x00; 0x00].

(** After the version query. [goto out] keeps the result. *)
Definition after_version (fuel : nat) (p : params) (fw : list Z) (ret : Z) : H D Z :=
  (* a failing survey leaves at once, a working one replaces [ret] *)
  '(ret, out) ← (if survey_speakerphone p then
                   r ← survey_speaker fuel fw; mret (r, nz r)
                 else mret (ret, false));
  if (out : bool) then mret ret else
  ret ← (if (ret =? 0) && (survey_mode p >=? 0) then survey_modulation fuel fw (survey_mode p)
         else mret ret);
  ret ← (match dial_number p with
         | Some number => if ret =? 0 then ham_dial_playground fuel fw number else mret ret
         | None => mret ret
         end);
  if (ret =? 0) && (answer_mode p >=? 0) then ham_answer_playground fuel fw (answer_mode p)
  else mret ret.

(** [request] is the result of [request_firmware_direct]. *)
Definition ham_load_poweron_patch (fuel : nat) (p : params) (request : Z) (fw : list Z) : H D Z :=
  if nz request then mret request
  else if negb (Z.of_nat (length fw) =? HAM_PATCH_SIZE) then mret (- EINVAL)
  else
    ham_write HAM_REG_RESET 0x0a ;;
    res ← load_records (S (length fw)) fw 0 0 0;
    match res with
    | None => mret (- EINVAL)
    | Some (offset, loaded_records, loaded_words) =>
        if (offset >=? Z.of_nat (length fw)) || negb (loaded_records =? 3) || negb (loaded_words =? 823)
        then mret (- EINVAL)
        else
          ham_write HAM_REG_RESET_STATUS 0x01 ;;
          ham_write HAM_REG_RESET 0x09 ;;
          ret ← ham_wait_reset;
          if nz ret then mret ret
          else
            ret ← ham_command fuel fw [0xa3; 0x00; 0x02; 0x00; 0x00; HAM_POWERON_REQUEST];
            if ret <? 0 then mret ret
            else ret ← query_version fuel fw; after_version fuel p fw ret
    end.

(** *** Probing and removal *)

(** What the PCI core and the allocator answer. *)
Record pci := Pci {
  pci_command : Z; enable_device : Z; bar0_ok : bool; request_regions : Z; alloc_ok : bool;
  iomap_ok : bool; request_firmware : Z; firmware : list Z }.

Definition pci_write_command (v : Z) : H D unit := log (EvPciCommand v).

Definition restore_command (original : Z) (ret : Z) : H D Z :=
  ham_quiesce ;; pci_write_command original ;; mret ret.

Definition ham_probe (fuel : nat) (p : params) (e : pci) : H D Z :=
  if nz (enable_device e) then mret (enable_device e)
  else if negb (bar0_ok e) then mret (- ENODEV)
  else if nz (request_regions e) then mret (request_regions e)
  else if negb (alloc_ok e) then mret (- ENOMEM)
  else if negb (iomap_ok e) then mret (- ENOMEM)
  else
    ham_log_registers ;;
    ret ← (if do_reset p then r ← ham_reset_dsp; ham_log_registers ;; mret r else mret 0);
    if nz ret then restore_command (pci_command e) ret
    else
      ret ← (if load_patch p then
               r ← ham_load_poweron_patch fuel p (request_firmware e) (firmware e);
               ham_log_registers ;; mret r
             else mret 0);
      if nz ret then restore_command (pci_command e) ret else mret 0.

Definition ham_remove (original_pci_command : Z) : H D unit :=
  ham_quiesce ;; pci_write_command original_pci_command.
End Ham.
