(* ===== verification/HamSpec.v ===== *)
(** * Specification of the HaM driver

    What the driver does to any device: the order of the accesses that publish
    a command, how an overlay reaches the DSP, what must hold before the DSP is
    released, and the line and PCI state it leaves on every path after BAR0 was
    mapped (before, it touches nothing). *)
From S2P Require Import Prelude Ham.

Section Spec.
Context {D : Type} {dev : Device D}.

(** ** What a computation adds to the log

    [Emits m P]: from every state, [m] appends some accesses [l] (oldest
    first) to the log, and [P] holds of its result and [l]. *)
Definition Emits {A} (m : H D A) (P : option A -> list hevent -> Prop) : Prop :=
  forall w, exists l, hlog (m w).2 = rev l ++ hlog w /\ P (m w).1 l.

Lemma Emits_ret {A} (x : A) P : P (Some x) [] -> Emits (mret x) P.
Proof. intros HP w. by exists []. Qed.

Lemma Emits_bind {A B} (m : H D A) (f : A -> H D B) P Q :
  Emits m P ->
  (forall x l, P (Some x) l -> Emits (f x) (fun r l' => Q r (l ++ l'))) ->
  (forall l, P None l -> Q None l) -> Emits (m ≫= f) Q.
Proof.
  intros Hm Hf Hn w. destruct (Hm w) as (l & Hl & HP).
  unfold mbind, H_bind. destruct (m w) as [[x|] w1]; cbn in *.
  - destruct (Hf x l HP w1) as (l' & Hl' & HQ). exists (l ++ l').
    rewrite Hl', Hl, rev_app_distr, app_assoc. done.
  - exists l. split; [done|by apply Hn].
Qed.

Lemma Emits_weaken {A} (m : H D A) (P Q : option A -> list hevent -> Prop) :
  Emits m P -> (forall r l, P r l -> Q r l) -> Emits m Q.
Proof. intros Hm HPQ w. destruct (Hm w) as (l & Hl & HP). exists l. auto. Qed.

(** The writes among some accesses. *)
Definition writes (l : list hevent) : list (Z * Z) :=
  omap (fun e => match e with EvWrite r v => Some (r, v) | _ => None end) l.
Lemma writes_app l l' : writes (l ++ l') = writes l ++ writes l'.
Proof. apply omap_app. Qed.

(** A computation that only writes [ws], stays inside its arrays, and returns
    a value of [P]. *)
Definition Writes {A} (m : H D A) (P : A -> Prop) (ws : list (Z * Z)) : Prop :=
  Emits m (fun r l => (exists x, r = Some x /\ P x) /\ writes l = ws /\ forall i, EvOutside i ∉ l).

Lemma Writes_ret {A} (x : A) (P : A -> Prop) : P x -> Writes (mret x) P [].
Proof. intros HP. apply Emits_ret. split_and!; [by exists x|done|]. intros i. apply not_elem_of_nil. Qed.

Lemma Writes_bind {A B} (m : H D A) (f : A -> H D B) P Q ws ws' :
  Writes m P ws -> (forall x, P x -> Writes (f x) Q ws') -> Writes (m ≫= f) Q (ws ++ ws').
Proof.
  intros Hm Hf. eapply Emits_bind; [exact Hm|..]; cbn beta.
  - intros x l ((y & [= <-] & HP) & Hw & Ho). eapply Emits_weaken; [by apply Hf|]. intros r l' (Hr & Hw' & Ho').
    split_and!; [done|by rewrite writes_app, Hw, Hw'|]. intros i [?|?]%elem_of_app; [by eapply Ho|by eapply Ho'].
  - by intros l ((? & ? & _) & _).
Qed.

Lemma Writes_one {A} (m : H D A) P e (v : option (Z * Z)) :
  (forall w, exists x, P x /\ (m w).1 = Some x /\ hlog (m w).2 = e w x :: hlog w /\
     match e w x with EvWrite r v' => v = Some (r, v') | EvOutside _ => False | _ => v = None end) ->
  Writes m P (match v with Some p => [p] | None => [] end).
Proof.
  intros Hm w. destruct (Hm w) as (x & HP & Hr & Hl & He). exists [e w x]. split; [done|].
  split_and!; [by exists x| |].
  - cbn. by destruct (e w x); try subst v.
  - intros i Hi%list_elem_of_singleton. by rewrite <- Hi in He.
Qed.

Definition any {A} (_ : A) : Prop := True.
Lemma Writes_read reg : Writes (ham_read reg) any [].
Proof.
  apply (Writes_one _ _ (fun _ v => EvRead reg v) None). intros w. unfold ham_read, ioread8.
  destruct (dev_read reg (hdev w)) as [v d]. by exists (u8 v).
Qed.
Lemma Writes_sleep ms : Writes (msleep ms) any [].
Proof. apply (Writes_one _ _ (fun _ _ => EvSleep ms) None). intros w. by exists tt. Qed.
Lemma Writes_write reg v : Writes (ham_write reg v) any [(reg, u8 v)].
Proof.
  unfold ham_write. eapply (Writes_bind _ _ any _ [(reg, u8 v)] []).
  - apply (Writes_one _ _ (fun _ _ => EvWrite reg (u8 v)) (Some (reg, u8 v))). intros w. by exists tt.
  - intros [] _. eapply (Writes_bind _ _ any _ [] []); [apply Writes_read|intros _ _; by apply Writes_ret].
Qed.

(** ** Publishing a command *)
Definition bad_size (cmd : list Z) : bool :=
  let n := Z.of_nat (length cmd) in (n <? 4) || (n >? 64) || (byte_at cmd 2 + 4 >? n).
Definition wire_size (cmd : list Z) : Z :=
  let n := byte_at cmd 2 + 4 in if tst n 1 then n + 1 else n.
Definition payload_writes (cmd : list Z) (ks : list Z) : list (Z * Z) :=
  map (fun k => (0x40 + k, u8 (byte_at cmd k))) ks.
(** The writes that publish [cmd]: the body, the command byte, the trigger. *)
Definition published (cmd : list Z) : list (Z * Z) :=
  payload_writes cmd (seqZ 1 (wire_size cmd - 1)) ++ [(0x40, u8 (byte_at cmd 0)); (0xfe, 1)].

(** The window found occupied, once per value read. *)
Definition busy (vs : list Z) : list hevent := flat_map (fun v => [EvRead 0x40 v; EvSleep 1]) vs.

Lemma ret_bind {A B} (x : A) (f : A -> H D B) : mret x ≫= f = f x.
Proof. done. Qed.

Lemma Writes_put_bytes n i cmd : 0 <= i -> i + Z.of_nat n <= Z.of_nat (length cmd) ->
  Writes (put_bytes n i cmd) any (payload_writes cmd (seqZ i (Z.of_nat n))).
Proof.
  revert i; induction n as [|n IH]; intros i Hi Hn; cbn [put_bytes]; [by apply Writes_ret|].
  rewrite seqZ_cons by lia. replace (Z.pred (Z.of_nat (S n))) with (Z.of_nat n) by lia.
  assert (command_byte cmd i = mret (byte_at cmd i)) as ->.
  { unfold command_byte, byte_at. destruct (lookup_lt_is_Some_2 cmd (Z.to_nat i)) as [v Hv]; [lia|].
    rewrite Hv. by rewrite (nth_lookup_Some _ _ _ _ Hv). }
  rewrite ret_bind. cbn [payload_writes map].
  apply (Writes_bind _ _ any _ [(0x40 + i, u8 (byte_at cmd i))]); [apply Writes_write|].
  intros _ _. apply IH; lia.
Qed.

Lemma Emits_read reg :
  Emits (ham_read reg) (fun r l => exists v, r = Some v /\ l = [EvRead reg v] /\ 0 <= v <= 255).
Proof.
  intros w. unfold ham_read, ioread8. destruct (dev_read reg (hdev w)) as [v d].
  exists [EvRead reg (u8 v)]. split; [done|]. exists (u8 v). split_and!; [done|done| |]; apply (conv_range U8).
Qed.
Lemma Emits_sleep ms : Emits (msleep ms) (fun r l => r = Some tt /\ l = [EvSleep ms]).
Proof. intros w. by exists [EvSleep ms]. Qed.

(** One look at the window. *)
Lemma look_spec : Emits
  (v ← ham_read HAM_CRAM_HOST_PACKET; if v =? 0 then mret true else msleep 1 ;; mret false)
  (fun r l => r = Some true /\ l = [EvRead 0x40 0] \/
     exists v, v <> 0 /\ r = Some false /\ l = [EvRead 0x40 v; EvSleep 1]).
Proof.
  eapply Emits_bind; [apply Emits_read| |by intros l (? & ? & _)].
  intros v l (v' & [= <-] & -> & _). destruct (Z.eqb_spec v 0) as [->|Hv].
  - apply Emits_ret. by left.
  - eapply Emits_bind; [apply Emits_sleep| |by intros l []].
    intros [] l [_ ->]. apply Emits_ret. right. by exists v.
Qed.

Lemma wait_free n e : Emits
  (for_break n e (v ← ham_read HAM_CRAM_HOST_PACKET; if v =? 0 then mret true else msleep 1 ;; mret false))
  (fun r l => exists vs, Forall (fun v => v <> 0) vs /\
     (length vs = n /\ l = busy vs \/ (length vs < n)%nat /\ l = busy vs ++ [EvRead 0x40 0]) /\
     r = Some (e + Z.of_nat (length vs))).
Proof.
  revert e; induction n as [|n IH]; intros e; cbn [for_break].
  - apply Emits_ret. exists []. split_and!; [done|by left|]. by rewrite Z.add_0_r.
  - eapply Emits_bind; [apply look_spec| |by intros l [[? _]|(? & _ & ? & _)]].
    intros b l [([= ->] & ->)|(v & Hv & [= ->] & ->)].
    + apply Emits_ret. exists []. split_and!; [done| |by rewrite Z.add_0_r].
      right. cbn. split; [lia|done].
    + eapply Emits_weaken; [apply IH|]. intros r l (vs & Hvs & Hc & ->). exists (v :: vs).
      split_and!; [by constructor| |cbn [length]; f_equal; lia].
      cbn [length busy flat_map]. destruct Hc as [[Hc ->]|[Hc ->]]; [left|right]; (split; [lia|done]).
Qed.

(** The writes after the window was found free. *)
Lemma Writes_publish cmd : wire_size cmd <= Z.of_nat (length cmd) ->
  Writes (put_bytes (Z.to_nat (wire_size cmd - 1)) 1 cmd ;;
    ham_write HAM_CRAM_HOST_PACKET (byte_at cmd 0) ;; ham_write HAM_REG_HOST_TRIGGER 0x01 ;; mret 0)
    (eq 0) (published cmd).
Proof.
  intros Hw. unfold published. apply (Writes_bind _ _ any).
  - destruct (decide (wire_size cmd <= 1)).
    + replace (Z.to_nat (wire_size cmd - 1)) with O by lia.
      replace (seqZ 1 (wire_size cmd - 1)) with (@nil Z) by (symmetry; apply seqZ_nil; lia). by apply Writes_ret.
    + replace (wire_size cmd - 1) with (Z.of_nat (Z.to_nat (wire_size cmd - 1))) at 2 by lia.
      apply Writes_put_bytes; lia.
  - intros [] _. apply (Writes_bind _ _ any _ [(0x40, u8 (byte_at cmd 0))] [(0xfe, 1)]); [apply Writes_write|].
    intros [] _. apply (Writes_bind _ _ any _ [(0xfe, 1)] []); [apply (Writes_write 0xfe 1)|].
    intros [] _. by apply Writes_ret.
Qed.

Lemma Emits_any_write reg v : Emits (ham_write reg v) (fun r _ => is_Some r).
Proof. eapply Emits_weaken; [apply Writes_write|]. intros r l ((x & -> & _) & _). by eexists. Qed.
Lemma Emits_put_bytes n i cmd : Emits (put_bytes n i cmd) (fun _ _ => True).
Proof.
  revert i; induction n as [|n IH]; intros i; cbn [put_bytes]; [by apply Emits_ret|].
  eapply (Emits_bind _ _ (fun _ _ => True)); [|intros v _ _|done].
  - unfold command_byte. destruct (cmd !! Z.to_nat i); [by apply Emits_ret|].
    intros w. by exists [EvOutside i].
  - eapply Emits_bind; [apply Emits_any_write|intros [] _ _; apply IH|done].
Qed.
Lemma Emits_finish cmd : Emits (ham_write HAM_CRAM_HOST_PACKET (byte_at cmd 0) ;;
  ham_write HAM_REG_HOST_TRIGGER 0x01 ;; mret 0) (fun _ _ => True).
Proof.
  eapply Emits_bind; [apply Emits_any_write| |done]. intros [] _ _.
  eapply Emits_bind; [apply Emits_any_write| |done]. intros [] _ _. by apply Emits_ret.
Qed.

(** Publishing a command. Against any device, [ham_put_command] refuses a
    malformed command without touching the device; otherwise it polls the
    window, at most 1000 times; if it never finds it free it writes nothing
    and reports the timeout; once it does, it publishes the body first, then
    the command byte that hands the window over, then the trigger, and nothing
    else (for a command whose padded size fits its array). *)
Theorem put_command_protocol cmd :
  Emits (ham_put_command cmd) (fun r l =>
    if bad_size cmd then r = Some (- EINVAL) /\ l = []
    else exists vs, Forall (fun v => v <> 0) vs /\
      ((length vs = 1000%nat /\ r = Some (- ETIMEDOUT) /\ l = busy vs) \/
       ((length vs < 1000)%nat /\ (wire_size cmd <= Z.of_nat (length cmd) ->
          r = Some 0 /\ exists l', l = busy vs ++ EvRead 0x40 0 :: l' /\ writes l' = published cmd)))).
Proof.
  unfold ham_put_command. fold (bad_size cmd). destruct (bad_size cmd); [by apply Emits_ret|].
  eapply Emits_bind; [apply wait_free| |].
  - intros e l (vs & Hvs & Hc & [= ->]). rewrite Z.add_0_l.
    destruct (Z.eqb_spec (Z.of_nat (length vs)) 1000) as [E|E].
    + apply Emits_ret. exists vs. split; [done|]. left. rewrite app_nil_r.
      destruct Hc as [[_ ->]|[? _]]; [split_and!; [lia|done|done]|lia].
    + destruct Hc as [[? _]|[Hlt ->]]; [lia|]. fold (wire_size cmd).
      destruct (decide (wire_size cmd <= Z.of_nat (length cmd))) as [Hw|Hw].
      * eapply Emits_weaken; [by apply Writes_publish|]. intros r l ((x & -> & <-) & Hl & _).
        exists vs. split; [done|]. right. split; [done|]. intros _. split; [done|].
        exists l. by rewrite <- app_assoc.
      * eapply Emits_weaken; [apply (Emits_bind _ _ (fun _ _ => True) (fun _ _ => True))|];
          [apply Emits_put_bytes|intros [] _ _; apply Emits_finish|done|].
        intros r l _. exists vs. split; [done|]. right. split; [done|]. intros H. lia.
  - intros l (? & _ & _ & [=]).
Qed.

Lemma put_bytes_outside n i cmd : 0 <= i ->
  Emits (put_bytes n i cmd) (fun r l => r = Some tt /\
    (i <= Z.of_nat (length cmd) < i + Z.of_nat n -> EvOutside (Z.of_nat (length cmd)) ∈ l)).
Proof.
  revert i; induction n as [|n IH]; intros i Hi; cbn [put_bytes].
  { apply Emits_ret. split; [done|lia]. }
  eapply (Emits_bind _ _ (fun r l => is_Some r /\ (i = Z.of_nat (length cmd) -> EvOutside i ∈ l))).
  - unfold command_byte. destruct (cmd !! Z.to_nat i) eqn:E.
    + apply Emits_ret. split; [by eexists|]. intros ->. rewrite Nat2Z.id in E.
      apply lookup_lt_Some in E. lia.
    + intros w. exists [EvOutside i]. split; [done|]. split; [by eexists|]. intros _. apply list_elem_of_here.
  - intros v l [_ Hl]. eapply Emits_bind; [apply Emits_any_write| |by intros l' []].
    intros [] l' _. eapply Emits_weaken; [apply IH; lia|]. intros r l'' [-> Hl'']. split; [done|].
    intros Hb. destruct (Z.eq_dec i (Z.of_nat (length cmd))) as [->|Hne].
    + apply elem_of_app. left. by apply Hl.
    + do 2 (apply elem_of_app; right). apply Hl''. lia.
  - by intros l [[] _].
Qed.

(** Dialling reads outside an array. A command is padded to an even number
    of bytes by reading one byte more; the digit commands [ham_dial_playground]
    sends are five bytes long and so is their array, so that each of them that
    reaches the device publishes the byte found after the array. *)
Theorem digit_command_overreads d :
  Emits (ham_put_command [0x67; 0x00; 0x01; 0x00; d]) (fun r l => r = Some 0 -> EvOutside 5 ∈ l).
Proof.
  unfold ham_put_command. cbn [length]. change ((_ <? 4) || _ || _) with false.
  eapply Emits_bind; [apply wait_free| |by intros l (? & _ & _ & ?)].
  intros e l (vs & _ & _ & [= ->]). destruct (_ =? 1000); [by apply Emits_ret|].
  change (Z.to_nat _) with 5%nat.
  eapply Emits_bind; [by apply put_bytes_outside| |by intros l' [? _]]. intros [] l' [_ Ho].
  eapply Emits_weaken; [apply Emits_finish|]. intros r l'' _ _.
  apply elem_of_app. right. apply elem_of_app. left. apply Ho. cbn. lia.
Qed.


(** ** What command traffic may write *)
Section Only.
Context (ok : Z * Z -> Prop).
Definition Only {A} (m : H D A) : Prop := Emits m (fun _ l => Forall ok (writes l)).

Lemma Only_ret {A} (x : A) : Only (mret x).
Proof. by apply Emits_ret. Qed.
Lemma Only_bind {A B} (m : H D A) (f : A -> H D B) : Only m -> (forall x, Only (f x)) -> Only (m ≫= f).
Proof.
  intros Hm Hf. eapply Emits_bind; [exact Hm| |done]. intros x l Hl.
  eapply Emits_weaken; [apply Hf|]. intros r l' Hl'. rewrite writes_app. by apply Forall_app.
Qed.
Lemma Only_quiet {A} (m : H D A) P : Writes m P [] -> Only m.
Proof. intros Hm. eapply Emits_weaken; [exact Hm|]. intros r l (_ & -> & _). done. Qed.
Lemma Only_read reg : Only (ham_read reg). Proof. eapply Only_quiet, Writes_read. Qed.
Lemma Only_sleep ms : Only (msleep ms). Proof. eapply Only_quiet, Writes_sleep. Qed.
Lemma Only_write reg v : ok (reg, u8 v) -> Only (ham_write reg v).
Proof.
  intros Hok. eapply Emits_weaken; [apply Writes_write|]. intros r l (_ & -> & _). by constructor.
Qed.
Lemma Only_jiffies : Only jiffies.
Proof. intros w. unfold jiffies. destruct (dev_jiffies (hdev w)). by exists []. Qed.
Lemma Only_diverge {A} : Only (@diverge D A).
Proof. intros w. by exists []. Qed.
Lemma Only_outside i : Only (outside i).
Proof. intros w. by exists [EvOutside i]. Qed.
Lemma Only_for n e body : Only body -> Only (for_break n e body).
Proof.
  intros Hb. revert e; induction n as [|n IH]; intros e; cbn [for_break]; [apply Only_ret|].
  apply Only_bind; [done|]. intros []; [apply Only_ret|apply IH].
Qed.
Lemma Only_if {A} (b : bool) (m m' : H D A) : Only m -> Only m' -> Only (if b then m else m').
Proof. by destruct b. Qed.
End Only.

(** The registers of the command window and its trigger. *)
Definition window (p : Z * Z) : Prop := p.1 = 0 \/ 0x40 <= p.1 < 0x80 \/ p.1 = 0xfe.
Notation Traffic := (Only window).

Create HintDb traffic discriminated.
Ltac confined := repeat first
  [ solve [eauto 2 with traffic nocore] | apply Only_ret | apply Only_read | apply Only_sleep | apply Only_jiffies | apply Only_diverge
  | apply Only_outside | apply Only_write | apply Only_if | apply Only_for
  | apply Only_bind; [|intros] ].

Lemma put_bytes_traffic n i cmd : 0 <= i -> i + Z.of_nat n <= 64 -> Traffic (put_bytes n i cmd).
Proof.
  revert i; induction n as [|n IH]; intros i Hi Hn; cbn [put_bytes]; [confined|].
  apply Only_bind; [unfold command_byte; case_match; confined|intros v].
  apply Only_bind; [confined; right; left; cbn; unfold HAM_CRAM_HOST_PACKET; lia|]. intros _. apply IH; lia.
Qed.

Lemma put_command_traffic cmd : Traffic (ham_put_command cmd).
Proof.
  unfold ham_put_command. fold (bad_size cmd). destruct (bad_size cmd) eqn:E; [confined|].
  apply Only_bind; [confined|]. intros e. apply Only_if; [confined|].
  assert (Z.of_nat (Z.to_nat (wire_size cmd - 1)) + 1 <= 64) as Hw.
  { unfold bad_size in E. apply orb_false_iff in E as [[E1 E2]%orb_false_iff E3].
    unfold wire_size. destruct (tst _ 1) eqn:Et; [|lia].
    assert (byte_at cmd 2 + 4 <> 64); [|lia]. intros E4. by rewrite E4 in Et. }
  fold (wire_size cmd). apply Only_bind; [apply put_bytes_traffic; lia|]. intros _.
  confined; [right; left; cbn; unfold HAM_CRAM_HOST_PACKET; lia|by right; right].
Qed.
Lemma get_bytes_traffic n i : Traffic (get_bytes n i).
Proof. revert i; induction n as [|n IH]; intros i; cbn [get_bytes]; confined. Qed.
Lemma get_packet_traffic n : Traffic (ham_get_packet n).
Proof. unfold ham_get_packet. confined; [apply get_bytes_traffic|by left]. Qed.

#[local] Hint Resolve put_command_traffic get_packet_traffic : traffic.

Lemma send_chunks_traffic fuel type address data done_ :
  Traffic (send_chunks fuel type address data done_).
Proof.
  revert done_; induction fuel as [|fuel IH]; intros done_; cbn [send_chunks]; cbv zeta; confined.
Qed.
#[local] Hint Resolve send_chunks_traffic : traffic.
Lemma service_records_traffic fuel fw ov off n : Traffic (service_records fuel fw ov off n).
Proof.
  revert off n; induction fuel as [|fuel IH]; intros off n; cbn [service_records]; cbv zeta; confined.
Qed.
#[local] Hint Resolve service_records_traffic : traffic.
Lemma service_overlay_traffic fw rq ov : Traffic (ham_service_overlay fw rq ov).
Proof. unfold ham_service_overlay. apply Only_bind; [confined|]. intros [ret records]. confined. Qed.
#[local] Hint Resolve service_overlay_traffic : traffic.
Lemma wait_response_traffic fuel fw c want n : Traffic (wait_response fuel fw c want n).
Proof.
  induction fuel as [|fuel IH]; cbn [wait_response]; [confined|]. cbv zeta.
  apply Only_bind; [confined|]. intros [ret packet]. confined.
Qed.
#[local] Hint Resolve wait_response_traffic : traffic.
Lemma command_traffic fuel fw cmd : Traffic (ham_command fuel fw cmd).
Proof.
  unfold ham_command, ham_send_and_wait. apply Only_bind; [confined|]. intros [ret packet]. confined.
Qed.
#[local] Hint Resolve command_traffic : traffic.
Lemma observe_traffic fuel fw s : Traffic (ham_observe fuel fw s).
Proof.
  unfold ham_observe. apply Only_bind; [confined|]. intros now.
  induction fuel as [|fuel IH]; cbn [observe_until]; [confined|].
  apply Only_bind; [confined|]. intros t. apply Only_if; [|confined].
  apply Only_bind; [confined|]. intros [ret packet]. confined.
Qed.
#[local] Hint Resolve observe_traffic : traffic.
Lemma dial_digits_traffic fuel fw l : Traffic (dial_digits fuel fw l).
Proof. induction l as [|c l IH]; cbn [dial_digits]; confined. Qed.
#[local] Hint Resolve dial_digits_traffic : traffic.
Lemma dial_off_hook_traffic fuel fw l : Traffic (dial_off_hook fuel fw l).
Proof. unfold dial_off_hook. confined. Qed.
Lemma answer_off_hook_traffic fuel fw mode : Traffic (answer_off_hook fuel fw mode).
Proof. unfold answer_off_hook. confined. Qed.


(** ** The line and the PCI device *)

(** Off hook after the writes [ws]: the relay latch is bit 2 of 0xf2, low for
    off hook. *)
Definition line (ws : list (Z * Z)) (off : bool) : bool :=
  fold_left (fun off p => if p.1 =? 0xf2 then negb (Z.testbit p.2 2) else off) ws off.
(** The last value written to [reg]. *)
Definition last_write (reg : Z) (ws : list (Z * Z)) (v : Z) : Z :=
  fold_left (fun v p => if p.1 =? reg then p.2 else v) ws v.

Lemma line_app ws ws' off : line (ws ++ ws') off = line ws' (line ws off).
Proof. apply fold_left_app. Qed.
Lemma line_window ws off : Forall window ws -> line ws off = off.
Proof.
  intros Hw. revert off; induction Hw as [|[r v] ws Hp _ IH]; intros off; cbn [line fold_left fst snd]; [done|].
  assert (r =? 0xf2 = false) as -> by (destruct Hp as [?|[?|?]]; cbn in *; lia). apply IH.
Qed.

Lemma set_bit2 v : Z.testbit (u8 (v ||| 4)) 2 = true.
Proof. rewrite conv_testbit, Z.lor_spec by done. by rewrite orb_true_r. Qed.
Lemma clear_bit2 v : Z.testbit (u8 (v &&& ~~~4)) 2 = false.
Proof. rewrite conv_testbit, Z.land_spec by done. by rewrite andb_false_r. Qed.

(** Reads and writes one after another, where the writes follow the reads. *)
Lemma Writes_read_write {A} reg (g : Z -> Z) reg' (m : H D A) (P : list (Z * Z) -> Prop) :
  (forall v, Emits m (fun r l => is_Some r /\ P ((reg', u8 (g v)) :: writes l))) ->
  Emits (v ← ham_read reg; ham_write reg' (g v) ;; m) (fun r l => is_Some r /\ P (writes l)).
Proof.
  intros Hm. eapply Emits_bind; [apply Writes_read| |by intros l ((? & ? & _) & _)].
  intros v l (_ & Hl & _).
  eapply Emits_bind; [apply Writes_write| |by intros l' ((? & ? & _) & _)].
  intros [] l' (_ & Hl' & _). eapply Emits_weaken; [apply Hm|]. intros r l'' [Hr HP].
  split; [done|]. by rewrite !writes_app, Hl, Hl'.
Qed.

Lemma set_hook_line off : Emits (ham_set_hook off) (fun r l => is_Some r /\ forall b, line (writes l) b = off).
Proof.
  unfold ham_set_hook. apply (Writes_read_write 0xf0 (fun v => v ||| 4) 0xf0 _ (fun ws => forall b, line ws b = off)).
  intros v. eapply (Writes_read_write 0xf3 (fun v => v &&& ~~~4) 0xf3 _
    (fun ws => forall b, line ((0xf0, _) :: ws) b = off)).
  intros v'. eapply Emits_bind; [apply Writes_read| |by intros l ((? & ? & _) & _)].
  intros v'' l (_ & Hl & _). eapply Emits_weaken; [apply Writes_write|].
  intros r l' ((x & -> & _) & Hl' & _). split; [by eexists|]. intros b.
  rewrite writes_app, Hl, Hl'. cbn [line fold_left fst snd app]. change (0xf2 =? 0xf2) with true. cbn iota.
  destruct off; [by rewrite clear_bit2|by rewrite set_bit2].
Qed.

Lemma quiesce_writes : Emits ham_quiesce (fun r l => is_Some r /\
  (forall b, line (writes l) b = false) /\ (forall v, last_write 0xfc (writes l) v = 0x0a)).
Proof.
  unfold ham_quiesce. apply (Writes_read_write 0xf0 (fun v => v ||| 4) 0xf0 _
    (fun ws => (forall b, line ws b = false) /\ (forall v, last_write 0xfc ws v = 0x0a))).
  intros v. eapply (Writes_read_write 0xf3 (fun v => v &&& ~~~4) 0xf3 _
    (fun ws => (forall b, line ((0xf0, _) :: ws) b = false) /\ (forall v, last_write 0xfc ((0xf0, _) :: ws) v = 0x0a))).
  intros v'. eapply (Writes_read_write 0xf2 (fun v => v ||| 4) 0xf2 _
    (fun ws => (forall b, line ((0xf0, _) :: (0xf3, _) :: ws) b = false) /\
      (forall v, last_write 0xfc ((0xf0, _) :: (0xf3, _) :: ws) v = 0x0a))).
  intros v''. eapply Emits_weaken; [eapply (Writes_bind _ _ any any [(0xf7, 0)] [(0xfc, 0x0a)])|].
  - apply (Writes_write 0xf7 0).
  - intros [] _. apply (Writes_bind _ _ any _ [] [(0xfc, 0x0a)]); [apply Writes_read|]. intros _ _.
    apply (Writes_write 0xfc 0x0a).
  - intros r l ((x & -> & _) & -> & _). split; [by eexists|].
    split; intros b; cbn -[conv Z.lor Z.land Z.testbit]; [by rewrite set_bit2|done].
Qed.

(** C39: the line is on hook after a call. Whatever the device does, whenever
    dialling or answering returns (with success or an error) the hook relay,
    if it was on hook before, is on hook again. *)
Theorem calls_end_on_hook fuel fw number mode :
  Emits (ham_dial_playground fuel fw number) (fun r l => is_Some r -> line (writes l) false = false) /\
  Emits (ham_answer_playground fuel fw mode) (fun r l => is_Some r -> line (writes l) false = false).
Proof.
  assert (forall ms (m : H D Z), Traffic m ->
    Emits (ham_set_hook true ;; msleep ms ;; ret ← m; ham_set_hook false ;; mret ret)
      (fun r l => is_Some r -> forall b, line (writes l) b = false)) as Hcall.
  { intros ms m Hm. eapply Emits_bind; [apply set_hook_line| |by intros l _ []]. intros [] l [_ Hl].
    eapply Emits_bind; [apply Emits_sleep| |by intros l' _ []]. intros [] l' [_ ->].
    eapply Emits_bind; [exact Hm| |by intros l' _ []]. intros ret l' Hl'.
    eapply Emits_bind; [apply set_hook_line| |by intros l'' _ []]. intros [] l'' [_ Hl''].
    apply Emits_ret. intros _ b. rewrite !writes_app, !line_app. cbn [writes omap list_omap line fold_left].
    apply Hl''. }
  split.
  - unfold ham_dial_playground. repeat case_match; try by apply Emits_ret.
    eapply Emits_weaken; [apply Hcall, dial_off_hook_traffic|]. auto.
  - unfold ham_answer_playground. case_match; [by apply Emits_ret|].
    eapply Emits_bind; [apply (observe_traffic fuel fw 5)| |by intros l _ []]. intros ret l Hl.
    case_match; [apply Emits_ret; intros _; by rewrite app_nil_r, line_window|].
    eapply Emits_weaken; [apply Hcall, answer_off_hook_traffic|]. intros r l' Hr Hs.
    rewrite writes_app, line_app. by apply Hr.
Qed.

(** Everything the driver does extends the log. *)
Notation Logs := (Only (fun _ => True)).
Lemma traffic_logs {A} (m : H D A) : Traffic m -> Logs m.
Proof. intros Hm. eapply Emits_weaken; [exact Hm|]. intros r l _. by apply Forall_forall. Qed.
#[local] Hint Resolve dial_off_hook_traffic answer_off_hook_traffic : traffic.
Create HintDb logs discriminated.
Ltac logs := repeat first
  [ solve [eauto 2 with logs nocore] | apply traffic_logs; solve [eauto 2 with traffic nocore]
  | apply Only_ret | apply Only_read | apply Only_sleep | apply Only_diverge
  | apply Only_write; exact I | apply Only_if | apply Only_bind; [|intros] | case_match ].

Lemma log_registers_logs : Logs ham_log_registers. Proof. unfold ham_log_registers. logs. Qed.
Lemma wait_status_logs n e s : Logs (wait_status n e s).
Proof. revert e s; induction n as [|n IH]; intros e s; cbn [wait_status]; logs. Qed.
#[local] Hint Resolve log_registers_logs wait_status_logs : logs.
Lemma reset_dsp_logs : Logs ham_reset_dsp. Proof. unfold ham_reset_dsp. logs. Qed.
Lemma wait_reset_logs : Logs ham_wait_reset. Proof. unfold ham_wait_reset. logs. Qed.
Lemma set_hook_logs off : Logs (ham_set_hook off). Proof. unfold ham_set_hook. logs. Qed.
#[local] Hint Resolve reset_dsp_logs wait_reset_logs set_hook_logs : logs.
Lemma dial_logs fuel fw l : Logs (ham_dial_playground fuel fw l).
Proof. unfold ham_dial_playground. cbv zeta. logs. Qed.
Lemma answer_logs fuel fw mode : Logs (ham_answer_playground fuel fw mode).
Proof. unfold ham_answer_playground. logs. Qed.
Lemma write_patch_logs l : Logs (write_patch l).
Proof. induction l as [|v l IH]; cbn [write_patch]; logs. Qed.
#[local] Hint Resolve dial_logs answer_logs write_patch_logs : logs.
Lemma load_records_logs fuel fw o n k : Logs (load_records fuel fw o n k).
Proof. revert o n k; induction fuel as [|fuel IH]; intros o n k; cbn [load_records]; cbv zeta; logs. Qed.
Lemma send_and_wait_logs fuel fw cmd want : Logs (ham_send_and_wait fuel fw cmd want).
Proof. unfold ham_send_and_wait. logs. Qed.
#[local] Hint Resolve load_records_logs send_and_wait_logs : logs.
Lemma load_patch_logs fuel p rq fw : Logs (ham_load_poweron_patch fuel p rq fw).
Proof.
  unfold ham_load_poweron_patch, query_version, after_version, survey_speaker, survey_modulation. logs.
Qed.
#[local] Hint Resolve load_patch_logs : logs.
Lemma logs_any {A} (m : H D A) : Logs m -> Emits m (fun _ _ => True).
Proof. intros Hm. by eapply Emits_weaken. Qed.

(** The first five steps of [ham_probe] succeeded: BAR0 is mapped, and from
    here on the device registers can be reached. *)
Definition mapped (e : pci) : bool :=
  (enable_device e =? 0) && bar0_ok e && (request_regions e =? 0) && alloc_ok e && iomap_ok e.

(** The log ends with the PCI command word going back to [original], and the
    writes before it leave the line on hook and the DSP in reset. *)
Definition restored (original : Z) (l : list hevent) : Prop :=
  exists l', l = l' ++ [EvPciCommand original] /\
    line (writes l') true = false /\ last_write 0xfc (writes l') 0 = 0x0a.

Lemma quiesce_restores pc : Emits (ham_quiesce ;; pci_write_command pc)
  (fun r l => is_Some r /\ forall l0, restored pc (l0 ++ l)).
Proof.
  eapply Emits_bind; [apply quiesce_writes| |by intros l ([] & _)]. intros [] l (_ & Hl & Hr) w.
  exists [EvPciCommand pc]. split; [done|]. split; [by eexists|]. intros l0. exists (l0 ++ l).
  rewrite app_assoc, writes_app. split_and!; [done|by rewrite line_app|].
  unfold last_write in *. by rewrite fold_left_app.
Qed.
Lemma restore_restores pc ret : Emits (restore_command pc ret) (fun r l => forall l0, restored pc (l0 ++ l)).
Proof.
  intros w. destruct (quiesce_restores pc w) as (l & Hl & Hs & Hr).
  unfold restore_command. exists l. split; [|exact Hr].
  unfold mbind, H_bind in *. destruct (ham_quiesce w) as [[[]|] w']; exact Hl.
Qed.

(** C40: failing and leaving. Whatever the device answers, when the driver is
    removed, and when probing returns an error after BAR0 was mapped, the line
    is on hook, the DSP is held in reset, and the last access writes the PCI
    command word read before. When one of the steps up to the mapping fails,
    probing returns an error without one register access and without a write
    of the PCI command word: there the driver restores nothing itself. *)
Theorem failure_restores_device fuel p e original :
  Emits (ham_probe fuel p e) (fun r l => forall ret, r = Some ret ->
    if mapped e then ret <> 0 -> restored (pci_command e) l else ret <> 0 /\ l = []) /\
  Emits (ham_remove original) (fun r l => is_Some r /\ restored original l).
Proof.
  split.
  - destruct (mapped e) eqn:Hm; unfold mapped in Hm; unfold ham_probe.
    + apply andb_true_iff in Hm as [[[[H1 H2]%andb_true_iff H3]%andb_true_iff H4]%andb_true_iff H5].
      unfold nz at 1 2. rewrite H1, H2, H3, H4, H5. cbn [negb].
      eapply Emits_bind; [apply logs_any; logs| |done]. intros [] l1 _.
      eapply Emits_bind; [apply logs_any; logs| |done]. intros ret1 l2 _.
      case_match; [eapply Emits_weaken; [apply restore_restores|]; intros r l Hl ret _ _; rewrite app_assoc; apply Hl|].
      eapply Emits_bind; [apply logs_any; logs| |done]. intros ret2 l3 _.
      case_match; [eapply Emits_weaken; [apply restore_restores|]; intros r l Hl ret _ _; rewrite !app_assoc; apply Hl|].
      apply Emits_ret. by intros ret [= <-] [].
    + repeat (case_match; [apply Emits_ret; intros ret [= <-]; split; [rewrite ?nz_true in *; done|done]|]).
      unfold nz in *. by destruct (enable_device e =? 0), (bar0_ok e), (request_regions e =? 0), (alloc_ok e), (iomap_ok e).
  - eapply Emits_weaken; [apply quiesce_restores|]. intros r l [Hs Hl]. split; [done|apply (Hl [])].
Qed.

Lemma diverging_call_off_hook fuel fw number :
  Emits (ham_dial_playground fuel fw number) (fun r l => r = None -> line (writes l) false = true).
Proof.
  unfold ham_dial_playground. repeat case_match; try by apply Emits_ret.
  eapply Emits_bind; [apply set_hook_line| |by intros l [[] _]]. intros [] l [_ Hl].
  eapply Emits_bind; [apply Emits_sleep| |by intros l' [? _]]. intros [] l' [_ ->].
  eapply Emits_bind; [apply (dial_off_hook_traffic fuel fw number)| |].
  - intros ret l' _. eapply Emits_bind; [apply set_hook_line| |by intros l'' [[] _]].
    intros [] l'' _. by apply Emits_ret.
  - intros l' Hl' _. rewrite !writes_app, !line_app. rewrite line_window by done. apply Hl.
Qed.
(** ** The patch image *)
Record prec := Prec { p_type : Z; p_overlay : Z; p_addr : Z; p_words : Z; p_data : list Z }.

(** The records from [offset] on, and where the image ends ([None] when a
    record does not fit). *)
Fixpoint parse (fuel : nat) (fw : list Z) (offset : Z) : list prec * option Z :=
  match fuel with
  | O => ([], None)
  | S fuel =>
      let size := Z.of_nat (length fw) in
      if (offset <? size) && negb (byte_at fw offset =? HAM_PATCH_END) then
        let bytes := le16 fw (offset + 4) * 2 in
        if (offset + 6 >? size) || (offset + 6 + bytes >? size) then ([], None)
        else
          let '(rs, e) := parse fuel fw (offset + (6 + bytes)) in
          (Prec (byte_at fw offset) (byte_at fw (offset + 1)) (le16 fw (offset + 2))
             (le16 fw (offset + 4)) (slice fw (offset + 6) bytes) :: rs, e)
      else ([], Some offset)
  end.
Definition image (fw : list Z) : list prec * option Z := parse (S (length fw)) fw 0.
Definition of_overlay (ov : Z) (rs : list prec) : list prec := filter (fun r => p_overlay r = ov) rs.

Definition bytes (l : list Z) : Prop := Forall (fun v => 0 <= v <= 255) l.
Lemma byte_at_range l i : bytes l -> 0 <= byte_at l i <= 255.
Proof.
  intros Hl. unfold byte_at. destruct (nth_in_or_default (Z.to_nat i) l 0) as [Hi| ->]; [|lia].
  exact (proj1 (List.Forall_forall _ _) Hl _ Hi).
Qed.
Lemma le16_eq l i : bytes l -> le16 l i = byte_at l i + 256 * byte_at l (i + 1).
Proof.
  intros Hl. pose proof (byte_at_range l i Hl). unfold le16.
  rewrite Z.shiftl_mul_pow2, lor_add by lia. change (2 ^ 8) with 256. lia.
Qed.
Lemma le16_range l i : bytes l -> 0 <= le16 l i <= 65535.
Proof.
  intros Hl. rewrite le16_eq by done. pose proof (byte_at_range l i Hl). pose proof (byte_at_range l (i + 1) Hl). lia.
Qed.
Lemma slice_bytes l i n : bytes l -> bytes (slice l i n).
Proof. intros Hl. by apply Forall_take, Forall_drop. Qed.
Lemma slice_length l i n : 0 <= i -> 0 <= n -> i + n <= Z.of_nat (length l) ->
  Z.of_nat (length (slice l i n)) = n.
Proof. intros Hi Hn Hl. unfold slice. rewrite length_take, length_drop. lia. Qed.


(** The writes that load one record into the patch memory. *)
Definition patch_writes (r : prec) : list (Z * Z) :=
  (HAM_REG_PATCH_ADDR_H, u8 (p_addr r >>> 8)) :: (HAM_REG_PATCH_ADDR_L, u8 (p_addr r &&& 0xff)) ::
  map (fun v => (HAM_REG_PATCH_DATA, u8 v)) (p_data r).
Definition words_of (rs : list prec) : Z := foldr (fun r n => p_words r + n) 0 rs.

Lemma Writes_patch l : Writes (write_patch l) any (map (fun v => (HAM_REG_PATCH_DATA, u8 v)) l).
Proof.
  induction l as [|v l IH]; cbn [write_patch map]; [by apply Writes_ret|].
  apply (Writes_bind _ _ any _ [(HAM_REG_PATCH_DATA, u8 v)]); [apply Writes_write|]. by intros [] _.
Qed.

Lemma Writes_records fuel fw offset n k : bytes fw -> 0 <= offset <= Z.of_nat (length fw) ->
  Z.of_nat (length fw) < offset + Z.of_nat fuel ->
  let '(rs, e) := parse fuel fw offset in let sel := of_overlay HAM_POWERON_OVERLAY rs in
  Writes (load_records fuel fw offset n k)
    (eq (o ← e; Some (o, n + Z.of_nat (length sel), k + words_of sel)))
    (flat_map patch_writes sel).
Proof.
  intros Hfw. revert offset n k; induction fuel as [|fuel IH]; intros offset n k Ho Hf; [lia|].
  cbn [parse load_records]. cbv zeta. pose proof (le16_range fw (offset + 4) Hfw) as Hw.
  destruct ((offset <? Z.of_nat (length fw)) && negb (byte_at fw offset =? HAM_PATCH_END)).
  2: { apply Writes_ret. cbn. by rewrite !Z.add_0_r. }
  destruct (offset + 6 >? Z.of_nat (length fw)) eqn:E1; cbn [orb]; [by apply Writes_ret|].
  destruct (offset + 6 + le16 fw (offset + 4) * 2 >? Z.of_nat (length fw)) eqn:E2; [by apply Writes_ret|].
  set (b := byte_at fw (offset + 1)). set (d := slice _ _ _).
  specialize (IH (offset + (6 + le16 fw (offset + 4) * 2))).
  destruct (parse fuel fw (offset + (6 + le16 fw (offset + 4) * 2))) as [rs e].
  unfold of_overlay. rewrite filter_cons. cbn [p_overlay].
  destruct (Z.eqb_spec b HAM_POWERON_OVERLAY) as [Hb|Hb].
  - rewrite decide_True by done. cbn [flat_map patch_writes p_addr p_data].
    eapply (Writes_bind _ _ any _ [_]); [apply Writes_write|]. intros [] _.
    eapply (Writes_bind _ _ any _ [_]); [apply Writes_write|]. intros [] _.
    eapply (Writes_bind _ _ any); [apply Writes_patch|]. intros [] _.
    eapply Emits_weaken; [apply IH; lia|]. cbn beta. intros r l ((x & -> & <-) & Hl). split; [|done].
    eexists. split; [done|]. destruct e; [|done]. cbn [mbind option_bind length words_of foldr p_words].
    unfold of_overlay, words_of. match goal with |- Some (_, ?a, ?b) = Some (_, ?a', ?b') =>
      replace a with a' by lia; replace b with b' by lia end. done.
  - rewrite decide_False by done. apply IH; lia.
Qed.

Lemma after_release_logs fuel p fw : Only (fun _ => True)
  (ret ← ham_wait_reset;
   if nz ret then mret ret
   else ret ← ham_command fuel fw [0xa3; 0x00; 0x02; 0x00; 0x00; HAM_POWERON_REQUEST];
        if ret <? 0 then mret ret else ret ← query_version fuel fw; after_version fuel p fw ret).
Proof. unfold query_version, after_version, survey_speaker, survey_modulation. logs. Qed.

(** What the power-on load accepts: the size, an end mark inside the image,
    three records of overlay 0 with 823 words. *)
Definition patch_valid (fw : list Z) : bool :=
  let '(rs, e) := image fw in let sel := of_overlay HAM_POWERON_OVERLAY rs in
  (Z.of_nat (length fw) =? HAM_PATCH_SIZE) &&
  match e with Some o => o <? Z.of_nat (length fw) | None => false end &&
  (Z.of_nat (length sel) =? 3) && (words_of sel =? 823).

(** C38: loading the power-on patch. Against any device: unless the firmware
    was found and is a valid image, the load fails, and the DSP, once put in
    reset, is never released; a valid image is written record by record to
    the patch memory, each at its address, all of it before the DSP is
    released, and nothing else is written in between. *)
Theorem poweron_patch_guarded fuel p request fw :
  bytes fw ->
  Emits (ham_load_poweron_patch fuel p request fw) (fun r l =>
    if (request =? 0) && patch_valid fw then
      exists ws, writes l = (HAM_REG_RESET, 0x0a) ::
        flat_map patch_writes (of_overlay HAM_POWERON_OVERLAY (image fw).1) ++
        [(HAM_REG_RESET_STATUS, 0x01); (HAM_REG_RESET, 0x09)] ++ ws
    else (exists ret, r = Some ret /\ ret <> 0) /\
      forall v, (HAM_REG_RESET_STATUS, v) ∉ writes l /\ (v <> 0x0a -> (HAM_REG_RESET, v) ∉ writes l)).
Proof.
  intros Hfw. unfold ham_load_poweron_patch, nz.
  destruct (Z.eqb_spec request 0) as [->|Hr]; cbn [negb andb].
  2: { apply Emits_ret. split; [by exists request|]. intros v. split; [|intros _]; apply not_elem_of_nil. }
  unfold patch_valid. destruct (image fw) as [rs e] eqn:Ei.
  destruct (Z.of_nat (length fw) =? HAM_PATCH_SIZE) eqn:Es; cbn [negb andb].
  2: { apply Emits_ret. split; [by eexists|]. intros v. split; [|intros _]; apply not_elem_of_nil. }
  eapply Emits_bind; [apply Writes_write| |by intros l ((? & ? & _) & _)]. intros [] l0 (_ & Hl0 & _).
  pose proof (Writes_records (S (length fw)) fw 0 0 0 Hfw ltac:(lia) ltac:(lia)) as HW.
  unfold image in Ei. rewrite Ei in HW. cbv zeta in HW. set (sel := of_overlay HAM_POWERON_OVERLAY rs) in *.
  eapply Emits_bind; [exact HW| |by intros l ((? & ? & _) & _)]. intros res l1 ((? & [= <-] & <-) & Hl1 & _).
  assert (forall v, (HAM_REG_RESET_STATUS, v) ∉ writes (l0 ++ l1 ++ []) /\
    (v <> 0x0a -> (HAM_REG_RESET, v) ∉ writes (l0 ++ l1 ++ []))) as Hno.
  { intros v. rewrite app_nil_r, writes_app, Hl0, Hl1.
    assert (forall r v, (r, v) ∈ flat_map patch_writes sel ->
      r = HAM_REG_PATCH_ADDR_H \/ r = HAM_REG_PATCH_ADDR_L \/ r = HAM_REG_PATCH_DATA) as Hreg.
    { intros r v' Hin. apply list_elem_of_In, in_flat_map in Hin as (pr & _ & [Hin|[Hin|Hin]]).
      - left. congruence.
      - right; left. congruence.
      - right; right. apply in_map_iff in Hin as (? & [= <- _] & _). done. }
    split; [|intros Hv]; (intros [Hin%list_elem_of_singleton|Hin%Hreg]%elem_of_app;
      [|by destruct Hin as [?|[?|?]]]); [done|]. apply Hv. by injection Hin. }
  destruct e as [o|]; cbn [mbind option_bind].
  2: { apply Emits_ret. split; [by eexists|exact Hno]. }
  rewrite !Z.add_0_l, Z.geb_leb, Z.leb_antisym.
  destruct (o <? Z.of_nat (length fw)), (Z.of_nat (length sel) =? 3), (words_of sel =? 823); cbn [negb orb andb];
    try (apply Emits_ret; split; [by eexists|exact Hno]).
  eapply (Emits_bind _ _ (fun r l => is_Some r /\ writes l = [(HAM_REG_RESET_STATUS, 0x01)])).
  { eapply Emits_weaken; [apply Writes_write|]. intros r l ((x & -> & _) & Hl & _). split; [by eexists|done]. }
  2: { by intros l [[] _]. }
  intros [] l2 [_ Hl2].
  eapply (Emits_bind _ _ (fun r l => is_Some r /\ writes l = [(HAM_REG_RESET, 0x09)])).
  { eapply Emits_weaken; [apply Writes_write|]. intros r l ((x & -> & _) & Hl & _). split; [by eexists|done]. }
  2: { by intros l [[] _]. }
  intros [] l3 [_ Hl3].
  eapply Emits_weaken; [apply logs_any; apply after_release_logs|].
  intros r l _. exists (writes l). rewrite !writes_app, Hl0, Hl1, Hl2, Hl3. done.
Qed.

(** ** Overlays on the DSP's side

    What the DSP sees of some writes: its window after each write of the
    command byte, and the program words a download command carries. *)
Fixpoint received (win : Z -> Z) (ws : list (Z * Z)) : list (Z -> Z) :=
  match ws with
  | [] => []
  | (r, v) :: ws =>
      let win' := fun k => if k =? r then v else win k in
      if r =? 0x40 then win' :: received win' ws else received win' ws
  end.

(** The words of a download command: bank, address, value. *)
Definition download (win : Z -> Z) : list (Z * Z * Z) :=
  if win 0x40 =? 0x0c then
    map (fun j => (win 0x46, u16 (win 0x44 + 256 * win 0x45 + j), win (0x48 + 2 * j) + 256 * win (0x49 + 2 * j)))
      (seqZ 0 ((win 0x42 - 4) / 2))
  else [].
Definition downloads (wins : list (Z -> Z)) : list (Z * Z * Z) := flat_map download wins.

(** Word [j] of a record, where it belongs. *)
Definition rec_word (type addr : Z) (data : list Z) (j : Z) : Z * Z * Z :=
  (u8 ((type &&& 0x0e) <<< 4), u16 (addr + j), byte_at data (2 * j) + 256 * byte_at data (2 * j + 1)).
Definition rec_words (r : prec) : list (Z * Z * Z) :=
  map (rec_word (p_type r) (p_addr r) (p_data r)) (seqZ 0 (p_words r)).

Lemma received_payload cmd ks win ws : Forall (fun k => 0 < k) ks ->
  exists win', received win (payload_writes cmd ks ++ ws) = received win' ws /\
    (forall k, k ∈ ks -> win' (0x40 + k) = u8 (byte_at cmd k)) /\
    (forall k, k ∉ ks -> win' (0x40 + k) = win (0x40 + k)).
Proof.
  intros Hks. revert win; induction Hks as [|k ks Hk Hks IH]; intros win.
  { exists win. split_and!; [done| |done]. by intros k ?%not_elem_of_nil. }
  cbn [payload_writes map app received]. assert (0x40 + k =? 0x40 = false) as -> by lia.
  edestruct IH as (win' & Hr & Hin & Hout). exists win'. split; [exact Hr|]. split.
  - intros j Hj. destruct (decide (j ∈ ks)) as [?|Hn]; [by apply Hin|].
    apply elem_of_cons in Hj as [-> |?]; [|done]. rewrite Hout by done. by rewrite Z.eqb_refl.
  - intros j Hj. rewrite not_elem_of_cons in Hj. destruct Hj as [Hne Hj]. rewrite Hout by done.
    assert (0x40 + j =? 0x40 + k = false) as -> by lia. done.
Qed.

(** The DSP receives one command, the one published. *)
Lemma received_published cmd win ws : exists win1 win2,
  received win (published cmd ++ ws) = win1 :: received win2 ws /\
  forall k, 0 <= k < wire_size cmd -> win1 (0x40 + k) = u8 (byte_at cmd k).
Proof.
  unfold published. rewrite <- app_assoc.
  destruct (received_payload cmd (seqZ 1 (wire_size cmd - 1)) win
    ([(0x40, u8 (byte_at cmd 0)); (0xfe, 1)] ++ ws)) as (win' & -> & Hin & _).
  { apply Forall_forall. intros k Hk. apply list_elem_of_In, elem_of_seqZ in Hk. lia. }
  cbn [app received]. change (0x40 =? 0x40) with true. change (0xfe =? 0x40) with false. cbn iota.
  eexists _, _. split; [reflexivity|]. intros k Hk. destruct (Z.eqb_spec (0x40 + k) 0x40) as [E|E].
  - by assert (k = 0) as -> by lia.
  - rewrite (proj2 (Z.eqb_neq _ _) E). apply Hin, elem_of_seqZ. lia.
Qed.

Lemma byte_at_app l l' i : 0 <= i -> byte_at (l ++ l') i =
  if i <? Z.of_nat (length l) then byte_at l i else byte_at l' (i - Z.of_nat (length l)).
Proof.
  intros Hi. unfold byte_at. destruct (Z.ltb_spec i (Z.of_nat (length l))).
  - rewrite app_nth1 by lia. done.
  - rewrite app_nth2 by lia. f_equal. lia.
Qed.
Lemma byte_at_slice l i n k : 0 <= i -> 0 <= k < n -> byte_at (slice l i n) k = byte_at l (i + k).
Proof.
  intros Hi Hk. unfold byte_at, slice. rewrite nth_firstn, nth_skipn.
  assert (Nat.ltb (Z.to_nat k) (Z.to_nat n) = true) as -> by (apply Nat.ltb_lt; lia).
  f_equal. lia.
Qed.

Lemma u8_id v : 0 <= v <= 255 -> u8 v = v.
Proof. intros Hv. by apply conv_id. Qed.

Lemma overlay_wire type addr chunk : 0 < Z.of_nat (length chunk) <= 12 ->
  Z.even (Z.of_nat (length chunk)) = true ->
  wire_size (overlay_command type addr chunk) = Z.of_nat (length chunk) + 8.
Proof.
  intros Hn He. set (n := Z.of_nat (length chunk)) in *. unfold wire_size.
  assert (byte_at (overlay_command type addr chunk) 2 = n + 4) as -> by (cbn; apply u8_id; lia).
  replace (n + 4 + 4) with (n + 8) by lia.
  assert (tst (n + 8) 1 = false) as ->; [|done]. change 1 with (2 ^ 0). rewrite tst_pow2, Z.bit0_odd by lia.
  rewrite Z.add_comm, Z.odd_add, <- (Z.negb_even n), He. done.
Qed.

(** A download command read back by the DSP. *)
Lemma download_chunk type addr chunk win :
  bytes chunk -> 0 < Z.of_nat (length chunk) <= 12 -> Z.even (Z.of_nat (length chunk)) = true ->
  0 <= addr <= 65535 ->
  (forall k, 0 <= k < wire_size (overlay_command type addr chunk) ->
     win (0x40 + k) = u8 (byte_at (overlay_command type addr chunk) k)) ->
  download win = map (rec_word type addr chunk) (seqZ 0 (Z.of_nat (length chunk) / 2)).
Proof.
  intros Hb Hn He Ha Hwin. set (n := Z.of_nat (length chunk)) in *.
  set (cmd := overlay_command type addr chunk) in *.
  assert (forall k, 0 <= k < n -> byte_at cmd (8 + k) = byte_at chunk k) as Hdata.
  { intros k Hk. unfold cmd, overlay_command. rewrite byte_at_app by lia. cbn [length].
    change (Z.of_nat 8) with 8. assert (8 + k <? 8 = false) as -> by lia. rewrite byte_at_app by lia.
    replace (8 + k - 8) with k by lia. fold n. assert (k <? n = true) as -> by lia. done. }
  assert (byte_at cmd 2 = n + 4) as E2 by (cbn; apply u8_id; lia).
  assert (wire_size cmd = n + 8) as Hw by (by apply overlay_wire).
  rewrite Hw in Hwin. unfold download.
  pose proof (land_range_r addr 0xff ltac:(lia)) as Hlo.
  assert (win 0x40 = 0x0c) as -> by exact (Hwin 0 ltac:(lia)).
  assert (win 0x42 = n + 4) as ->.
  { transitivity (u8 (byte_at cmd 2)); [exact (Hwin 2 ltac:(lia))|]. rewrite E2. apply u8_id. lia. }
  assert (win 0x44 + 256 * win 0x45 = addr) as ->.
  { pose proof (Hwin 4 ltac:(lia)) as H4. pose proof (Hwin 5 ltac:(lia)) as H5.
    change (0x40 + 4) with 0x44 in H4. change (0x40 + 5) with 0x45 in H5. rewrite H4, H5. change (byte_at cmd 4) with (addr &&& 0xff).
    change (byte_at cmd 5) with (addr >>> 8). change 0xff with (2 ^ 8 - 1).
    rewrite land_mask_mod, Z.shiftr_div_pow2 by lia. change (2 ^ 8) with 256.
    rewrite !u8_id by (Z.to_euclidean_division_equations; lia). Z.to_euclidean_division_equations; lia. }
  assert (win 0x46 = u8 ((type &&& 0x0e) <<< 4)) as ->.
  { transitivity (u8 (byte_at cmd 6)); [exact (Hwin 6 ltac:(lia))|]. change (byte_at cmd 6) with (u8 ((type &&& 0x0e) <<< 4)). apply conv_conv. }
  change (0x0c =? 0x0c) with true. cbn iota. replace (n + 4 - 4) with n by lia.
  apply map_ext_in. intros j Hj. rewrite <- list_elem_of_In, elem_of_seqZ in Hj.
  assert (2 * j + 1 < n) by (Z.to_euclidean_division_equations; lia).
  unfold rec_word. f_equal.
  replace (0x48 + 2 * j) with (0x40 + (8 + 2 * j)) by lia. replace (0x49 + 2 * j) with (0x40 + (8 + (2 * j + 1))) by lia.
  rewrite !Hwin, !Hdata, !u8_id by (lia || by apply byte_at_range). done.
Qed.

Lemma rec_word_slice type addr data i n j : 0 <= i -> Z.even i = true -> 0 <= j -> 2 * j + 1 < n ->
  rec_word type (u16 (addr + i / 2)) (slice data i n) j = rec_word type addr data (i / 2 + j).
Proof.
  intros Hi He Hj Hn. apply Z.even_spec in He as [h ->]. replace (2 * h / 2) with h by (Z.to_euclidean_division_equations; lia).
  unfold rec_word. rewrite !byte_at_slice by lia. f_equal; [f_equal|].
  - apply conv_eq_mod. pose proof (conv_low U16 (addr + h)) as E. rewrite <- Z.add_mod_idemp_l, E by done.
    rewrite Z.add_mod_idemp_l by done. f_equal. lia.
  - replace (2 * h + (2 * j + 1)) with (2 * (h + j) + 1) by lia.
    by replace (2 * h + 2 * j) with (2 * (h + j)) by lia.
Qed.

(** A command on the wire: refused by the device or seen by it exactly. *)
Lemma put_command_received cmd : bad_size cmd = false -> wire_size cmd <= Z.of_nat (length cmd) ->
  Emits (ham_put_command cmd) (fun r l => (r = Some (- ETIMEDOUT) \/ r = Some 0) /\
    (r = Some 0 -> forall win ws, exists win1 win2,
       received win (writes l ++ ws) = win1 :: received win2 ws /\
       forall k, 0 <= k < wire_size cmd -> win1 (0x40 + k) = u8 (byte_at cmd k))).
Proof.
  intros Hb Hw. eapply Emits_weaken; [apply put_command_protocol|]. cbn beta. rewrite Hb.
  intros r l (vs & _ & [(_ & -> & _)|(_ & H)]); [split; [by left|done]|].
  destruct (H Hw) as (-> & l' & -> & Hl'). split; [by right|]. intros _ win ws.
  assert (writes (busy vs ++ EvRead 0x40 0 :: l') = published cmd) as ->; [|apply received_published].
  rewrite writes_app. change (EvRead 0x40 0 :: l') with ([EvRead 0x40 0] ++ l'). rewrite writes_app, Hl'.
  assert (writes (busy vs) = []) as ->; [|done]. clear. unfold busy. induction vs as [|v vs IH]; [done|exact IH].
Qed.

Lemma overlay_command_size type addr chunk : 0 < Z.of_nat (length chunk) <= 12 ->
  Z.even (Z.of_nat (length chunk)) = true ->
  bad_size (overlay_command type addr chunk) = false /\
  wire_size (overlay_command type addr chunk) <= Z.of_nat (length (overlay_command type addr chunk)).
Proof.
  intros Hn He. assert (length (overlay_command type addr chunk) = 20%nat) as El.
  { unfold overlay_command. rewrite !length_app, length_replicate. cbn [length]. lia. }
  assert (byte_at (overlay_command type addr chunk) 2 = Z.of_nat (length chunk) + 4) as E2
    by (cbn; apply u8_id; lia).
  rewrite overlay_wire by done. unfold bad_size. rewrite El, E2. split; [|lia].
  change (Z.of_nat 20) with 20. cbn [Z.ltb Z.gtb Z.compare]. lia.
Qed.

Lemma downloads_cons win l : downloads (win :: l) = download win ++ downloads l.
Proof. done. Qed.

Lemma send_chunks_received fuel type address data done_ :
  bytes data -> Z.even (Z.of_nat (length data)) = true -> Z.even done_ = true ->
  0 <= done_ <= Z.of_nat (length data) -> Z.of_nat (length data) < done_ + Z.of_nat fuel ->
  Emits (send_chunks fuel type address data done_) (fun r l => is_Some r /\
    (r = Some 0 -> forall win ws, exists win',
       downloads (received win (writes l ++ ws)) =
       map (rec_word type address data) (seqZ (done_ / 2) (Z.of_nat (length data) / 2 - done_ / 2)) ++
       downloads (received win' ws))).
Proof.
  intros Hb He. revert done_; induction fuel as [|fuel IH]; intros done_ Hde Hd Hf; [lia|].
  cbn [send_chunks]. cbv zeta. set (n := Z.of_nat (length data)) in *.
  destruct (Z.ltb_spec done_ n) as [Hlt|Hge].
  2: { apply Emits_ret. split; [by eexists|]. intros _ win ws. exists win.
    assert (done_ = n) as -> by lia. by rewrite Z.sub_diag. }
  set (c := 12 `min` (n - done_)). set (chunk := slice data done_ c).
  assert (Z.of_nat (length chunk) = c) as Hc by (apply slice_length; lia).
  assert (Z.even c = true) as Hce.
  { unfold c. destruct (Z.min_spec 12 (n - done_)) as [[_ ->]|[_ ->]]; [done|].
    by rewrite Z.even_sub, He, Hde. }
  destruct (overlay_command_size type (u16 (address + done_ / 2)) chunk) as [H1 H2]; [lia|by rewrite Hc|].
  eapply Emits_bind; [by apply put_command_received| |by intros l ([?|?] & _)].
  intros ret l ([[= ->]|[= ->]] & Hret).
  { apply Emits_ret. split; [by eexists|done]. }
  cbn [nz Z.eqb negb]. eapply Emits_weaken; [apply IH; [by rewrite Z.even_add, Hde, Hce|lia|lia]|].
  intros r l' [Hs Hr]. split; [done|]. intros E win ws.
  destruct (Hret eq_refl win (writes l' ++ ws)) as (win1 & win2 & Hrec & Hwin).
  destruct (Hr E win2 ws) as (win' & Hw'). exists win'.
  rewrite writes_app, <- app_assoc, Hrec, downloads_cons, Hw', app_assoc. f_equal.
  rewrite (download_chunk type (u16 (address + done_ / 2)) chunk); cycle 1.
  { by apply slice_bytes. } { lia. } { by rewrite Hc. } { apply (conv_range U16). } { exact Hwin. }
  rewrite Hc. assert (seqZ (done_ / 2) (n / 2 - done_ / 2) =
    map (Z.add (done_ / 2)) (seqZ 0 (c / 2)) ++ seqZ ((done_ + c) / 2) (n / 2 - (done_ + c) / 2)) as ->.
  { apply Z.even_spec in He as [a ->], Hde as [b ->], Hce as [d Ec]. rewrite Ec.
    replace (2 * b + 2 * d) with (2 * (b + d)) by lia. rewrite !(Z.mul_comm 2), !Z.div_mul by lia.
    replace (a - b) with (d + (a - (b + d))) by lia. rewrite seqZ_app by lia. f_equal.
    symmetry. rewrite <- (Z.add_0_r b) at 2. apply fmap_add_seqZ. }
  rewrite map_app, map_map. f_equal. apply map_ext_in. intros j Hj.
  rewrite <- list_elem_of_In, elem_of_seqZ in Hj. symmetry. symmetry. apply rec_word_slice; [lia|done|lia|].
  Z.to_euclidean_division_equations; lia.
Qed.

Lemma service_records_received fuel fw ov offset n : bytes fw ->
  0 <= offset <= Z.of_nat (length fw) -> Z.of_nat (length fw) < offset + Z.of_nat fuel ->
  Emits (service_records fuel fw ov offset n) (fun r l => exists ret n', r = Some (ret, n') /\
    (ret = 0 -> let '(rs, e) := parse fuel fw offset in let sel := of_overlay ov rs in
       is_Some e /\ n' = n + Z.of_nat (length sel) /\ Forall (fun r => tst (p_type r) 1 = true) sel /\
       forall win ws, exists win', downloads (received win (writes l ++ ws)) =
         flat_map rec_words sel ++ downloads (received win' ws))).
Proof.
  intros Hfw. revert offset n; induction fuel as [|fuel IH]; intros offset n Ho Hf; [lia|].
  cbn [parse service_records]. cbv zeta. pose proof (le16_range fw (offset + 4) Hfw) as Hw.
  destruct ((offset <? Z.of_nat (length fw)) && negb (byte_at fw offset =? HAM_PATCH_END)).
  2: { apply Emits_ret. exists 0, n. split; [done|]. intros _. split_and!; [by eexists|cbn; lia|done|].
    intros win ws. by exists win. }
  destruct (offset + 6 >? Z.of_nat (length fw)) eqn:E1; cbn [orb].
  { apply Emits_ret. by exists (- EINVAL), n. }
  destruct (offset + 6 + le16 fw (offset + 4) * 2 >? Z.of_nat (length fw)) eqn:E2.
  { apply Emits_ret. by exists (- EINVAL), n. }
  set (d := slice fw (offset + 6) (le16 fw (offset + 4) * 2)).
  assert (Z.of_nat (length d) = le16 fw (offset + 4) * 2) as Hd by (apply slice_length; lia).
  assert (length d <= length fw)%nat as Hdl by (unfold d, slice; rewrite length_take, length_drop; lia).
  specialize (IH (offset + (6 + le16 fw (offset + 4) * 2))).
  destruct (parse fuel fw (offset + (6 + le16 fw (offset + 4) * 2))) as [rs e].
  unfold of_overlay in *. rewrite filter_cons. cbn [p_overlay].
  destruct (Z.eqb_spec (byte_at fw (offset + 1)) ov) as [Hov|Hov].
  2: { rewrite decide_False by done. apply IH; lia. }
  rewrite decide_True by done.
  destruct (tst (byte_at fw offset) 1) eqn:Et; cbn [negb].
  2: { apply Emits_ret. by exists (- EOPNOTSUPP), n. }
  eapply Emits_bind; [apply (send_chunks_received _ _ _ d)| |by intros l [[] _]].
  { by apply slice_bytes. } { rewrite Hd, Z.mul_comm. apply Z.even_mul. } { done. } { lia. } { lia. }
  intros ret l [_ Hr]. unfold nz. destruct (Z.eqb_spec ret 0) as [->|Hne]; cbn [negb].
  2: { apply Emits_ret. by exists ret, n. }
  eapply Emits_weaken; [apply IH; lia|]. intros r l' (ret & n' & -> & Hrest). exists ret, n'.
  split; [done|]. intros ->. destruct (Hrest eq_refl) as (He & -> & Ht & Hdl').
  split_and!; [done|cbn [length]; lia|by constructor|].
  intros win ws. destruct (Hr eq_refl win (writes l' ++ ws)) as (win1 & H1).
  destruct (Hdl' win1 ws) as (win' & H2). exists win'. rewrite writes_app, <- app_assoc, H1, H2.
  cbn [flat_map]. rewrite <- app_assoc. f_equal. unfold rec_words. cbn [p_type p_addr p_data p_words].
  rewrite Hd, Z.div_mul by lia. change (0 / 2) with 0. by rewrite Z.sub_0_r.
Qed.

Lemma received_app win ws ws' : exists win', received win (ws ++ ws') = received win ws ++ received win' ws'.
Proof.
  revert win; induction ws as [|[r v] ws IH]; intros win; [by exists win|]. cbn [app received].
  destruct (IH (fun k => if k =? r then v else win k)) as (win' & E). exists win'.
  destruct (r =? 0x40); by rewrite E.
Qed.

(** C37: an overlay reaches the DSP. Serving an overlay request always ends;
    when it reports success the image is well formed and has records of that
    overlay, all of a supported type, and what the DSP has then received
    through its command window, in the 12-byte pieces of the download
    commands, is exactly every word of those records, in order, each at its
    address (modulo [2^16]) and in its bank; the last command tells it that
    the overlay is loaded. *)
Theorem overlay_reaches_dsp fw request overlay :
  bytes fw -> 0 <= request <= 255 -> 0 <= overlay <= 255 ->
  Emits (ham_service_overlay fw request overlay) (fun r l => is_Some r /\
    (r = Some 0 -> let '(rs, e) := image fw in let sel := of_overlay overlay rs in
       is_Some e /\ sel <> [] /\ Forall (fun r => tst (p_type r) 1 = true) sel /\
       forall win, downloads (received win (writes l)) = flat_map rec_words sel /\
         exists before last_, received win (writes l) = before ++ [last_] /\
           last_ 0x40 = 0xa3 /\ last_ 0x44 = overlay /\ last_ 0x45 = request)).
Proof.
  intros Hfw Hrq Hov. unfold ham_service_overlay.
  eapply Emits_bind; [apply (service_records_received _ fw overlay 0 0 Hfw); lia| |by intros l (? & ? & ? & _)].
  intros [ret n'] l (ret' & n'' & [= <- <-] & Hrec). unfold nz, image.
  destruct (Z.eqb_spec ret 0) as [->|Hne]; cbn [negb].
  2: { apply Emits_ret. split; [by eexists|]. by intros [= ->]. }
  specialize (Hrec eq_refl). destruct (parse (S (length fw)) fw 0) as [rs e].
  destruct Hrec as (He & -> & Ht & Hdl). rewrite Z.add_0_l.
  destruct (Z.eqb_spec (Z.of_nat (length (of_overlay overlay rs))) 0) as [E0|E0].
  { apply Emits_ret. by split; [eexists|]. }
  set (cmd := [0xa3; 0x00; 0x02; 0x00; overlay; request]).
  eapply Emits_weaken; [by apply (put_command_received cmd)|].
  intros r l' [Hr Hrec]. split; [by destruct Hr as [-> | ->]; eexists|]. intros E.
  split_and!; [done|by intros Hn; rewrite Hn in E0|done|]. intros win.
  destruct (Hdl win (writes l')) as (win1 & H1). rewrite writes_app.
  destruct (Hrec E win1 []) as (w1 & w1' & H2 & Hwin). rewrite app_nil_r in H2. split.
  - rewrite H1, H2, downloads_cons. unfold download.
    assert (w1 0x40 = 0xa3) as -> by exact (Hwin 0 ltac:(by vm_compute)). cbn. by rewrite app_nil_r.
  - destruct (received_app win (writes l) (writes l')) as (win2 & H3).
    destruct (Hrec E win2 []) as (w2 & w2' & H4 & Hwin2). rewrite app_nil_r in H4.
    exists (received win (writes l)), w2. rewrite H3, H4. split; [done|].
    pose proof (Hwin2 4 ltac:(by vm_compute)) as Ho. pose proof (Hwin2 5 ltac:(by vm_compute)) as Hq.
    split_and!; [exact (Hwin2 0 ltac:(by vm_compute))|..].
    + transitivity (u8 overlay); [exact Ho|by apply u8_id].
    + transitivity (u8 request); [exact Hq|by apply u8_id].
Qed.
End Spec.

(** ** A device that never stops talking

    It always has an unsolicited packet ready and always leaves the command
    window free. *)
#[global] Instance chatty : Device unit := {|
  dev_read reg d := (if reg =? 0xf7 then 1 else if reg =? 0 then 0xc4 else 0, d);
  dev_write _ _ d := d;
  dev_sleep _ d := d;
  dev_jiffies d := (0, d);
  HZ := 250;
  dev_stray _ := 0 |}.

Lemma chatty_packet lg : exists lg', ham_get_packet (D := unit) 64 (Hw tt lg) = (Some (4, [0xc4; 0; 0; 0]), Hw tt lg').
Proof. eexists. vm_compute. reflexivity. Qed.

Lemma chatty_command lg : exists lg', ham_put_command (D := unit) [0x65; 0x00; 0x02; 0x00; 0x01; 0x01]
  (Hw tt lg) = (Some 0, Hw tt lg').
Proof. eexists. vm_compute. reflexivity. Qed.

Lemma chatty_waits fuel fw c n lg : (wait_response (D := unit) fuel fw c false n (Hw tt lg)).1 = None.
Proof.
  revert lg; induction fuel as [|fuel IH]; intros lg; [done|]. cbn [wait_response].
  unfold mbind, H_bind. destruct (chatty_packet lg) as [lg' ->]. exact (IH lg').
Qed.

(** A call against a device that keeps sending packets never ends. The
    waiting loop has no deadline of its own, only the one of a silent device:
    while unsolicited packets keep coming, dialling does not return however
    long it runs, and the line stays off hook. *)
Theorem chatty_device_holds_line fuel fw number :
  0 < Z.of_nat (length number) <= 16 -> forallb is_digit number = true ->
  let res := ham_dial_playground (D := unit) fuel fw number (Hw tt []) in
  res.1 = None /\ line (writes (rev (hlog res.2))) false = true.
Proof.
  intros Hl Hd res. assert (res.1 = None) as Hn.
  { unfold res, ham_dial_playground. cbv zeta. rewrite Hd.
    assert ((Z.of_nat (length number) =? 0) || (Z.of_nat (length number) >? 16) = false) as -> by lia.
    cbn [negb]. unfold mbind, H_bind, dial_off_hook, ham_command, ham_send_and_wait.
    destruct (ham_set_hook (D := unit) true (Hw tt [])) as [[[]|] [[] lg]] eqn:E; [|done].
    cbn [msleep hdev hlog dev_sleep chatty].
    unfold mbind, H_bind.
    destruct (chatty_command (EvSleep 500 :: lg)) as [lg' ->].
    cbn [nz Z.eqb negb].
    pose proof (chatty_waits fuel fw 0x65 64 lg') as Hw.
    change (byte_at [101; 0; 2; 0; 1; 1] 0) with 0x65.
    destruct (wait_response fuel fw 0x65 false 64 _) as [[[]|] w']; [done|]. done. }
  split; [done|]. destruct (diverging_call_off_hook (D := unit) fuel fw number (Hw tt [])) as (l & Hlog & Hline).
  fold res in Hlog, Hline. rewrite Hlog. cbn [hlog]. rewrite app_nil_r, rev_involutive. by apply Hline.
Qed.

(** Extension 42. *)
Lemma chatty_device_holds_line_witness :
  (ham_dial_playground (D := unit) 1000 [] [52; 50] (Hw tt [])).1 = None.
Proof. apply (chatty_device_holds_line 1000 [] [52; 50]); [cbn; lia|reflexivity]. Defined.

(** ** Witnesses *)
Lemma bytes_dec l : forallb (fun v => (0 <=? v) && (v <=? 255)) l = true -> bytes l.
Proof.
  intros Hl. apply List.Forall_forall. intros v Hv. rewrite forallb_forall in Hl.
  specialize (Hl v Hv). apply andb_true_iff in Hl as [?%Z.leb_le ?%Z.leb_le]. lia.
Qed.

(** Two words of overlay 5 for address 0x1234. *)
Lemma overlay_reaches_dsp_witness :
  let fw := [0x01; 5; 0x34; 0x12; 2; 0; 0x11; 0x22; 0x33; 0x44; 0x30] in
  exists l, hlog (ham_service_overlay (D := unit) fw 0x50 5 (Hw tt [])).2 = rev l ++ [] /\
    downloads (received (fun _ => 0) (writes l)) = [(0, 0x1234, 0x2211); (0, 0x1235, 0x4433)].
Proof.
  intros fw. assert (bytes fw) as Hb by (apply bytes_dec; reflexivity).
  destruct (overlay_reaches_dsp (D := unit) fw 0x50 5 Hb ltac:(lia) ltac:(lia) (Hw tt [])) as (l & Hl & _ & H).
  exists l. split; [exact Hl|].
  specialize (H ltac:(vm_compute; reflexivity)). destruct (image fw) as [rs e] eqn:E.
  vm_compute in E. injection E as <- <-. destruct H as (_ & _ & _ & H).
  rewrite (proj1 (H (fun _ => 0))). vm_compute. reflexivity.
Defined.

(** Three records of 800, 20 and 3 words, padded to the size of the image. *)
Definition demo_image : list Z :=
  let rec n := [1; 0; 0; 0; n mod 256; n / 256] ++ replicate (2 * Z.to_nat n) 7 in
  let l := rec 800 ++ rec 20 ++ rec 3 in
  l ++ replicate (Z.to_nat HAM_PATCH_SIZE - length l) 0x30.

(** The valid image is loaded before the release; an empty one never is. *)
Lemma poweron_patch_guarded_witness :
  let p := Params true true false (-1) None (-1) in
  (exists l ws, hlog (ham_load_poweron_patch (D := unit) 0 p 0 demo_image (Hw tt [])).2 = rev l ++ [] /\
     writes l = (HAM_REG_RESET, 0x0a) :: flat_map patch_writes (of_overlay 0 (image demo_image).1) ++
       [(HAM_REG_RESET_STATUS, 0x01); (HAM_REG_RESET, 0x09)] ++ ws) /\
  (exists l, hlog (ham_load_poweron_patch (D := unit) 0 p 0 [] (Hw tt [])).2 = rev l ++ [] /\
     (HAM_REG_RESET_STATUS, 1) ∉ writes l).
Proof.
  intros p. assert (bytes demo_image) as Hb by (apply bytes_dec; vm_compute; reflexivity).
  assert (bytes []) as Hn by (by apply Forall_nil). split.
  - destruct (poweron_patch_guarded (D := unit) 0 p 0 demo_image Hb (Hw tt [])) as (l & Hl & H).
    assert (patch_valid demo_image = true) as E by (vm_compute; reflexivity). rewrite E in H. cbn [Z.eqb andb] in H.
    destruct H as [ws H]. exists l, ws. split; [exact Hl|exact H].
  - destruct (poweron_patch_guarded (D := unit) 0 p 0 [] Hn (Hw tt [])) as (l & Hl & H).
    exists l. split; [exact Hl|]. destruct H as [_ H]. apply (H 1).
Defined.

(** Digit 4, to a device whose window is free. *)
Lemma digit_command_overreads_witness :
  EvOutside 5 ∈ hlog (ham_put_command (D := unit) [0x67; 0; 1; 0; 4] (Hw tt [])).2.
Proof.
  destruct (digit_command_overreads (D := unit) 4 (Hw tt [])) as (l & Hl & H). rewrite Hl, app_nil_r.
  apply list_elem_of_In. rewrite <- in_rev. apply list_elem_of_In, H. vm_compute. reflexivity.
Defined.
