(* ===== verification/Ring.v ===== *)
(** * Ring buffers of bits

    The queue representation the two event bridges share: an array of [cap]
    cells, a read position, a write position and a count; and what it stands
    for, the list of the queued bits from the read position on. *)
From S2P Require Import Prelude.

Section Ring.
Context (cap : Z).

(** [l] is the content of the ring. *)
Record ring_holds (m : gmap Z Z) (rd wr count : Z) (l : list Z) : Prop := {
  ring_rd : 0 <= rd < cap;
  ring_wr : wr = (rd + count) mod cap;
  ring_count : count = Z.of_nat (length l);
  ring_room : count <= cap;
  ring_cells (i : nat) x : l !! i = Some x -> default 0 (m !! ((rd + Z.of_nat i) mod cap)) = x;
}.

Lemma ring_empty : 0 < cap -> ring_holds ∅ 0 0 0 [].
Proof. intros H. split; try done; try lia; by rewrite Z.mod_0_l by lia. Qed.

Lemma ring_pop m rd wr count x l :
  ring_holds m rd wr count (x :: l) ->
  default 0 (m !! rd) = x /\ ring_holds m ((rd + 1) mod cap) wr (count - 1) l.
Proof.
  intros [Hr Hw Hc Hq Hm]. cbn [length] in Hc. split.
  - rewrite <- (Hm 0%nat x eq_refl). by rewrite Z.add_0_r, Z.mod_small.
  - split; try lia.
    + apply Z.mod_pos_bound. lia.
    + rewrite Zplus_mod_idemp_l, Hw. f_equal. lia.
    + intros i y Hi. rewrite <- (Hm (S i) y Hi), Zplus_mod_idemp_l. do 3 f_equal. lia.
Qed.

Lemma ring_push m rd wr count x l :
  count < cap -> ring_holds m rd wr count l ->
  ring_holds (<[wr := x]> m) rd ((wr + 1) mod cap) (count + 1) (l ++ [x]).
Proof.
  intros Hlt [Hr Hw Hc Hq Hm]. split; try done; try lia.
  - rewrite Hw, Zplus_mod_idemp_l. f_equal. lia.
  - rewrite length_app. cbn [length]. lia.
  - intros i y Hi. destruct (decide (i = length l)) as [->|Hne].
    + rewrite lookup_app_r, Nat.sub_diag in Hi by done. injection Hi as ->.
      rewrite Hw, Hc, lookup_insert. by rewrite decide_True.
    + rewrite lookup_app_l in Hi by (apply lookup_lt_Some in Hi; rewrite length_app in Hi; cbn in Hi; lia).
      rewrite lookup_insert_ne; [by apply Hm|]. apply lookup_lt_Some in Hi. rewrite Hw.
      intros E. apply Hne. revert E. generalize rd, Hr. intros r Hr'.
      rewrite !Z.mod_eq by lia. intros E.
      assert ((r + count) / cap = (r + Z.of_nat i) / cap) as E'.
      { assert (Z.abs (cap * ((r + count) / cap) - cap * ((r + Z.of_nat i) / cap)) < cap) by lia. nia. }
      rewrite E' in E. lia.
Qed.

Lemma ring_pos m rd wr count l : ring_holds m rd wr count l -> 0 <= wr < cap.
Proof. intros [Hr Hw _ _ _]. rewrite Hw. apply Z.mod_pos_bound. lia. Qed.
End Ring.

(** The 16-bit positions of a 32-bit ring: the increment does not wrap. *)
Lemma u32_succ cap rd : 0 <= rd < cap -> cap <= 2 ^ 31 -> u32 (rd + 1) = rd + 1.
Proof. intros H Hc. apply conv_id. cbn. lia. Qed.
