(* ===== verification/Bridge.v ===== *)
(** * The V.90 digital event bridge

    [v90_digital_phase3_event_bridge.c]: a child process that joins a V.90
    digital transmitter and a V.34 receiver to a PCM stream. Frames of 160
    octets come in; the bridge feeds the demodulators, reports the training
    events they recognise to the transmitter, looks for CP frames in a worker
    thread, hands the receiver over to data mode, and answers each frame with
    160 codewords. Payload bits pass through two ring buffers.

    The signal-processing library is not in the repository: it is an instance
    of [Sibling], with a state [L] of its own. Where it calls back into the
    bridge, its function returns the tree of the calls it makes. The worker
    thread runs between the main thread's critical sections as a schedule says. *)
From S2P Require Import Prelude.

(** ** The library *)

(** What a library function does: return, or call one of the registered
    callbacks with its state [l] in place and go on from the state it finds
    afterwards. *)
Inductive calls (L A : Type) :=
  | Ret (x : A) (l : L)
  | PutBit (bit : Z) (l : L) (k : L -> calls L A)
  | PutDataBit (bit : Z) (l : L) (k : L -> calls L A)
  | GetBit (l : L) (k : Z -> L -> calls L A).
Arguments Ret {L A}. Arguments PutBit {L A}. Arguments PutDataBit {L A}. Arguments GetBit {L A}.

(** The same for the streaming CP receiver, whose callback takes a frame (a
    null pointer is [None]). *)
Inductive cp_calls (L D : Type) :=
  | CpRet (l : L)
  | CpFrame (d : option D) (l : L) (k : L -> cp_calls L D).
Arguments CpRet {L D}. Arguments CpFrame {L D}.

Inductive p3_signal_type_t :=
  | P3_SIGNAL_S | P3_SIGNAL_S_BAR | P3_SIGNAL_J | P3_SIGNAL_UNKNOWN | P3_SIGNAL_SILENCE
  | P3_SIGNAL_PP | P3_SIGNAL_TRN | P3_SIGNAL_RU | P3_SIGNAL_UR | P3_SIGNAL_OTHER.
#[export] Instance signal_eq_dec : EqDecision p3_signal_type_t.
Proof. solve_decision. Defined.

Record p3_segment_t := Segment { start_sample : Z; seg_type : p3_signal_type_t }.
Inductive v90_rx_event_t := V90_RX_EVENT_NONE | V90_RX_EVENT_S | V90_RX_EVENT_J | V90_RX_EVENT_CP_VALID.

(** The members of [v90_cp_live_meta_t] the bridge changes. *)
Record v90_cp_live_meta_t := Meta { frame_sample : Z; last_sample : Z }.

Class Sibling (L : Type) := {
  vpcm_cp_diag_t : Type;
  diag_zero : vpcm_cp_diag_t;
  diag_valid : vpcm_cp_diag_t -> bool;
  diag_acknowledge : vpcm_cp_diag_t -> bool;
  symbol_t : Type;
  (** the enumerators of the transmitter's phases *)
  V90_TX_WAIT_JA : Z; V90_TX_JD : Z; V90_TX_DIL : Z; V90_TX_RI : Z; V90_TX_DATA : Z;
  P3_BAUD_3200 : Z; P3_BAUD_COUNT : Z; P3_CARRIER_LOW : Z; P3_CARRIER_HIGH : Z;
  (** the library calls of [bridge_init], given the baud code and carrier *)
  sibling_init : Z -> Z -> option L;
  p3_demod_process : list Z -> Z -> L -> L;
  p3_segment_symbols : L -> list p3_segment_t * L;
  result_symbols : L -> list symbol_t;
  set_result_symbols : list symbol_t -> L -> L;
  v90_get_tx_phase : L -> Z;
  v90_training_complete : L -> bool;
  v90_handle_rx_event : v90_rx_event_t -> L -> bool * L;
  v90_set_phase4_cp : vpcm_cp_diag_t -> L -> bool * L;
  (** one codeword, when the function returns 1 *)
  v90_phase3_tx_codewords : L -> calls L (option Z);
  v90_data_input_bytes_needed : L -> Z;
  (** the six codewords, when the function returns [DATA_FRAME] *)
  v90_tx_data_frame_codewords : list Z -> Z -> L -> calls L (option (list Z));
  v34_rx : list Z -> L -> calls L unit;
  v34_begin_rx_data : L -> Z * L;
  v34_v90_prepare_upstream_data : Z -> Z -> Z -> L -> Z * L;
  v34_v90_upstream_rx_acquired : L -> bool;
  v34_reject_v90_phase4_hypothesis : L -> L;
  cp_rx_rejected_frames : L -> Z;
  v90_cp_rx_put_bit : Z -> L -> cp_calls L vpcm_cp_diag_t;
  (** samples, hint, baud code, expected compatibility *)
  v90_cp_live_recover : list Z -> Z -> Z -> Z -> option (vpcm_cp_diag_t * v90_cp_live_meta_t)
}.

(** ** Definitions *)
Definition FRAME : Z := 160.
Definition DATA_FRAME : Z := 6.
Definition DATA_BYTES : Z := 256.
Definition DATA_BITS : Z := DATA_BYTES * 8.
Definition DATA_QUEUE_BITS : Z := 64 * 1024 * 1024.
Definition MAX_REPORTED_EVENTS : Z := 128.
Definition RESULT_TAIL_SYMBOLS : Z := 2048.
Definition SEGMENT_SCAN_FRAMES : Z := 4.
Definition CP_LIVE_MAX_SAMPLES : Z := 60 * 8000 + 160.
Definition CP_LIVE_FIRST_TRY_DELAY : Z := 800.
Definition CP_LIVE_SEARCH_TAIL : Z := 2000.
Definition CP_LIVE_RETRY_SAMPLES : Z := 320.
Definition CP_LIVE_MAX_ATTEMPTS : Z := 1024.

Record reported_event_t := Reported {
  rep_start : Z; rep_type : p3_signal_type_t; last_phase : Z; accepted : Z }.

(** The scalar members of [bridge_t]. *)
Inductive bfield :=
  | SAMPLE_OFFSET | EVENT_ARM_SAMPLE | SEGMENT_SCAN | LIVE_PHASE4_HINT | LIVE_NEXT_TRY
  | LIVE_ATTEMPTS | LIVE_CP_ACCEPTED | LIVE_DATA_CP_ACCEPTED | LIVE_CP_DONE | LIVE_ENABLED
  | CONNECTED_REPORTED | CONNECTED_SAMPLE | DATA_FRAME_POS | LAST_CODEWORD | DATA_FRAMES
  | TX_RD | TX_WR | TX_COUNT | TX_CONSUMED_FRAME | RX_RD | RX_WR | RX_COUNT
  | UPSTREAM_RX_STARTED | UPSTREAM_E_ONES | UPSTREAM_E_COMPLETE | UPSTREAM_E_POST_BITS
  | UPSTREAM_LOOK_FOR_E | UPSTREAM_PREPARED | UPSTREAM_REPLAYED | UPSTREAM_AUDIO_DELAY
  | UPSTREAM_PREPARE_AT | UPSTREAM_BEGIN_AT | UPSTREAM_BEGIN_PENDING | BAUD_CODE
  | HIGH_CARRIER | UPSTREAM_BPS | LIVE_SYNC_INITIALIZED | LIVE_STOP | LIVE_JOB
  | LIVE_WORKER_RUNNING | LIVE_JOB_OFFSET | LIVE_JOB_HINT | LIVE_JOB_EXPECTED
  | LIVE_RESULT_READY | LIVE_RESULT_FOUND | LIVE_RESULT_EXPECTED.

Definition bty (f : bfield) : cty :=
  match f with
  | TX_RD | TX_WR | TX_COUNT | TX_CONSUMED_FRAME | RX_RD | RX_WR | RX_COUNT => U32
  | LAST_CODEWORD => U8
  | _ => S32
  end.
#[export] Instance bfield_eq_dec : EqDecision bfield.
Proof. solve_decision. Defined.

(** Where the worker thread is: before [pthread_create], waiting in its first
    critical section, recovering a frame outside the lock (with the job it
    took), and returned. *)
Record job_t := Job { job_samples : option (list Z); job_offset : Z; job_hint : Z; job_expected : Z }.
Inductive worker_t := NotStarted | Waiting | Recovering (j : job_t) | Exited.

Section Bridge.
Context {L : Type} {sib : Sibling L}.

(** [bridge_t]. [reported] and [live_samples] are the first [reported_count]
    and [live_sample_count] elements of the arrays; a ring is a map from index
    to bit, 0 where nothing was stored. [sched] and [allocs] are the
    environment's choices: how many steps the worker takes before each of the
    main thread's critical sections, and whether [malloc] succeeds. *)
Record bridge_t := Bridge {
  bsc : bfield -> Z;
  lib : L;
  reported : list reported_event_t;
  live_samples : list Z;
  data_frame : list Z;
  tx_bits : gmap Z Z;
  rx_bits : gmap Z Z;
  live_job_samples : option (list Z);
  live_diag : vpcm_cp_diag_t;
  live_meta : v90_cp_live_meta_t;
  worker : worker_t;
  sched : list nat;
  allocs : list bool;
}.

Definition with_sc (f : bfield) (v : Z) (b : bridge_t) : bridge_t :=
  Bridge (fun g => if decide (g = f) then v else bsc b g) (lib b) (reported b) (live_samples b)
    (data_frame b) (tx_bits b) (rx_bits b) (live_job_samples b) (live_diag b) (live_meta b)
    (worker b) (sched b) (allocs b).
Definition with_lib (l : L) (b : bridge_t) : bridge_t :=
  Bridge (bsc b) l (reported b) (live_samples b) (data_frame b) (tx_bits b) (rx_bits b)
    (live_job_samples b) (live_diag b) (live_meta b) (worker b) (sched b) (allocs b).
Definition with_reported (r : list reported_event_t) (b : bridge_t) : bridge_t :=
  Bridge (bsc b) (lib b) r (live_samples b) (data_frame b) (tx_bits b) (rx_bits b)
    (live_job_samples b) (live_diag b) (live_meta b) (worker b) (sched b) (allocs b).
Definition with_live_samples (x : list Z) (b : bridge_t) : bridge_t :=
  Bridge (bsc b) (lib b) (reported b) x (data_frame b) (tx_bits b) (rx_bits b)
    (live_job_samples b) (live_diag b) (live_meta b) (worker b) (sched b) (allocs b).
Definition with_data_frame (x : list Z) (b : bridge_t) : bridge_t :=
  Bridge (bsc b) (lib b) (reported b) (live_samples b) x (tx_bits b) (rx_bits b)
    (live_job_samples b) (live_diag b) (live_meta b) (worker b) (sched b) (allocs b).
Definition with_tx_bits (x : gmap Z Z) (b : bridge_t) : bridge_t :=
  Bridge (bsc b) (lib b) (reported b) (live_samples b) (data_frame b) x (rx_bits b)
    (live_job_samples b) (live_diag b) (live_meta b) (worker b) (sched b) (allocs b).
Definition with_rx_bits (x : gmap Z Z) (b : bridge_t) : bridge_t :=
  Bridge (bsc b) (lib b) (reported b) (live_samples b) (data_frame b) (tx_bits b) x
    (live_job_samples b) (live_diag b) (live_meta b) (worker b) (sched b) (allocs b).
Definition with_job_samples (x : option (list Z)) (b : bridge_t) : bridge_t :=
  Bridge (bsc b) (lib b) (reported b) (live_samples b) (data_frame b) (tx_bits b) (rx_bits b)
    x (live_diag b) (live_meta b) (worker b) (sched b) (allocs b).
Definition with_result (d : vpcm_cp_diag_t) (m : v90_cp_live_meta_t) (b : bridge_t) : bridge_t :=
  Bridge (bsc b) (lib b) (reported b) (live_samples b) (data_frame b) (tx_bits b) (rx_bits b)
    (live_job_samples b) d m (worker b) (sched b) (allocs b).
Definition with_worker (x : worker_t) (b : bridge_t) : bridge_t :=
  Bridge (bsc b) (lib b) (reported b) (live_samples b) (data_frame b) (tx_bits b) (rx_bits b)
    (live_job_samples b) (live_diag b) (live_meta b) x (sched b) (allocs b).
Definition with_env (s : list nat) (a : list bool) (b : bridge_t) : bridge_t :=
  Bridge (bsc b) (lib b) (reported b) (live_samples b) (data_frame b) (tx_bits b) (rx_bits b)
    (live_job_samples b) (live_diag b) (live_meta b) (worker b) s a.

Definition B (A : Type) : Type := bridge_t -> A * bridge_t.
#[export] Instance B_ret : MRet B := fun _ x b => (x, b).
#[export] Instance B_bind : MBind B := fun _ _ f m b => let '(x, b') := m b in f x b'.

Definition get (f : bfield) : B Z := fun b => (bsc b f, b).
Definition put (f : bfield) (v : Z) : B unit := fun b => (tt, with_sc f (conv (bty f) v) b).
Definition gets_ {A} (p : bridge_t -> A) : B A := fun b => (p b, b).
Definition modify (f : bridge_t -> bridge_t) : B unit := fun b => (tt, f b).
Definition pass : B unit := mret tt.

(** A library function that only reads, and one that also changes its state. *)
Definition ask {A} (q : L -> A) : B A := fun b => (q (lib b), b).
Definition call {A} (q : L -> A * L) : B A := fun b =>
  let '(x, l) := q (lib b) in (x, with_lib l b).
Definition act (q : L -> L) : B unit := fun b => (tt, with_lib (q (lib b)) b).

(** *** The worker thread *)

(** The first critical section and the recovery's input. *)
Definition worker_take : B unit :=
  stop ← get LIVE_STOP; job ← get LIVE_JOB;
  if nz stop then modify (with_worker Exited)
  else if nz job then
    samples ← gets_ live_job_samples;
    modify (with_job_samples None) ;;
    offset ← get LIVE_JOB_OFFSET; hint ← get LIVE_JOB_HINT; expected ← get LIVE_JOB_EXPECTED;
    put LIVE_JOB 0 ;;
    put LIVE_WORKER_RUNNING 1 ;;
    modify (with_worker (Recovering (Job samples offset hint expected)))
  else pass.

(** The recovery and the second critical section. *)
Definition worker_recover (baud : Z) (j : job_t) : option (vpcm_cp_diag_t * v90_cp_live_meta_t) :=
  samples ← job_samples j;
  '(diag, meta) ← v90_cp_live_recover samples (job_hint j) baud (job_expected j);
  Some (diag, Meta (s32 (frame_sample meta + job_offset j)) (s32 (last_sample meta + job_offset j))).

Definition worker_publish (j : job_t) : B unit :=
  baud ← get BAUD_CODE;
  let found := worker_recover baud j in
  put LIVE_WORKER_RUNNING 0 ;;
  stop ← get LIVE_STOP;
  (if nz stop then pass
   else
     put LIVE_RESULT_FOUND (b2z (bool_decide (is_Some found))) ;;
     put LIVE_RESULT_EXPECTED (job_expected j) ;;
     (match found with Some (d, m) => modify (with_result d m) | None => pass end) ;;
     put LIVE_RESULT_READY 1) ;;
  modify (with_worker Waiting).

Definition bridge_live_cp_worker : B unit :=
  w ← gets_ worker;
  match w with
  | Waiting => worker_take
  | Recovering j => worker_publish j
  | _ => pass
  end.

Fixpoint worker_steps (n : nat) : B unit :=
  match n with O => pass | S n => bridge_live_cp_worker ;; worker_steps n end.

(** [pthread_mutex_lock] by the main thread: the worker may have run since. *)
Definition main_lock : B unit :=
  s ← gets_ sched; a ← gets_ allocs;
  match s with
  | [] => pass
  | n :: s => worker_steps n ;; modify (with_env s a)
  end.
Definition malloc_ok : B bool :=
  s ← gets_ sched; a ← gets_ allocs;
  match a with [] => mret true | ok :: a => modify (with_env s a) ;; mret ok end.

(** *** Bit queues *)
Definition ring_get (m : gmap Z Z) (k : Z) : Z := default 0 (m !! k).

Definition bridge_get_bit : B Z :=
  count ← get TX_COUNT;
  bit ← (if nz count then
           rd ← get TX_RD;
           m ← gets_ tx_bits;
           put TX_RD (u32 (rd + 1) mod DATA_QUEUE_BITS) ;;
           put TX_COUNT (count - 1) ;;
           mret (ring_get m rd)
         else mret 1);
  c ← get TX_CONSUMED_FRAME;
  put TX_CONSUMED_FRAME (c + 1) ;;
  mret bit.

Definition bridge_put_data_bit (bit : Z) : B unit :=
  acquired ← ask v34_v90_upstream_rx_acquired;
  count ← get RX_COUNT;
  if negb acquired || (negb (bit =? 0) && negb (bit =? 1)) || (count >=? DATA_QUEUE_BITS) then pass
  else
    wr ← get RX_WR;
    m ← gets_ rx_bits;
    modify (with_rx_bits (<[wr := bit &&& 1]> m)) ;;
    put RX_WR (u32 (wr + 1) mod DATA_QUEUE_BITS) ;;
    put RX_COUNT (count + 1).

(** [for (i = 0; i < count && b->tx_count < DATA_QUEUE_BITS; i++)] over the
    bits of [packed]; [n] passes are left. *)
Definition packed_bit (packed : list Z) (i : Z) : Z :=
  (nth (Z.to_nat (i >>> 3)) packed 0 >>> (i &&& 7)) &&& 1.
Fixpoint queue_bits (n : nat) (packed : list Z) (i : Z) : B unit :=
  match n with
  | O => pass
  | S n =>
      count ← get TX_COUNT;
      if count <? DATA_QUEUE_BITS then
        wr ← get TX_WR;
        m ← gets_ tx_bits;
        modify (with_tx_bits (<[wr := packed_bit packed i]> m)) ;;
        put TX_WR (u32 (wr + 1) mod DATA_QUEUE_BITS) ;;
        put TX_COUNT (count + 1) ;;
        queue_bits n packed (i + 1)
      else pass
  end.
Definition bridge_queue_input (packed : list Z) (count : Z) : B unit :=
  let count := if count >? DATA_BITS then DATA_BITS else count in
  queue_bits (Z.to_nat count) packed 0.

(** [packed[i >> 3] |= bit << (i & 7)] *)
Definition or_bit (packed : list Z) (i bit : Z) : list Z :=
  let k := Z.to_nat (i >>> 3) in
  <[k := u8 (nth k packed 0 ||| (bit <<< (i &&& 7)))]> packed.
Fixpoint pack_bits (n : nat) (packed : list Z) (i : Z) : B (list Z) :=
  match n with
  | O => mret packed
  | S n =>
      rd ← get RX_RD;
      m ← gets_ rx_bits;
      put RX_RD (u32 (rd + 1) mod DATA_QUEUE_BITS) ;;
      pack_bits n (or_bit packed i (ring_get m rd)) (i + 1)
  end.
Definition bridge_pack_output : B (list Z * Z) :=
  total ← get RX_COUNT;
  let count := if total <? DATA_BITS then total else DATA_BITS in
  packed ← pack_bits (Z.to_nat count) (replicate (Z.to_nat DATA_BYTES) 0) 0;
  put RX_COUNT (total - count) ;;
  mret (packed, count).

(** *** Callbacks *)
Definition bridge_begin_upstream_data : B Z := call v34_begin_rx_data.
Definition prepare_upstream : B bool :=
  baud ← get BAUD_CODE; high ← get HIGH_CARRIER; bps ← get UPSTREAM_BPS;
  r ← call (v34_v90_prepare_upstream_data baud high bps);
  mret (r =? 0).

Definition bridge_cp_frame (diag : option vpcm_cp_diag_t) : B unit :=
  match diag with
  | None => pass
  | Some diag =>
      if negb (diag_valid diag) then pass
      else
        live ← get LIVE_ENABLED;
        if nz live && negb (diag_acknowledge diag) then pass
        else
          ok ← call (v90_set_phase4_cp diag);
          if negb ok then pass
          else
            put UPSTREAM_LOOK_FOR_E 1 ;;
            prepared ← get UPSTREAM_PREPARED;
            (if nz prepared then pass
             else
               ok ← prepare_upstream;
               if (ok : bool) then put UPSTREAM_PREPARED 1 else pass) ;;
            call (v90_handle_rx_event V90_RX_EVENT_CP_VALID) ;;
            pass
  end.

Fixpoint run_cp (c : cp_calls L vpcm_cp_diag_t) : B unit :=
  match c with
  | CpRet l => modify (with_lib l)
  | CpFrame d l k =>
      modify (with_lib l) ;;
      bridge_cp_frame d ;;
      l ← gets_ lib;
      run_cp (k l)
  end.

(** The recovered E: twenty ones, then two more bits. *)
Definition count_e (bit : Z) : B unit :=
  complete ← get UPSTREAM_E_COMPLETE;
  if negb (nz complete) then
    ones ← get UPSTREAM_E_ONES;
    put UPSTREAM_E_ONES (if nz bit then ones + 1 else 0) ;;
    ones ← get UPSTREAM_E_ONES;
    if ones >=? 20 then put UPSTREAM_E_COMPLETE 1 else pass
  else
    post ← get UPSTREAM_E_POST_BITS;
    put UPSTREAM_E_POST_BITS (post + 1).

(** Until data mode the bit also goes to the CP receiver. *)
Definition put_cp_bit (bit : Z) : B unit :=
  started ← get UPSTREAM_RX_STARTED;
  if negb (nz started) then
    rejected_before ← ask cp_rx_rejected_frames;
    l ← gets_ lib;
    run_cp (v90_cp_rx_put_bit bit l) ;;
    rejected ← ask cp_rx_rejected_frames;
    if negb (rejected =? rejected_before) then act v34_reject_v90_phase4_hypothesis else pass
  else pass.

Definition bridge_put_bit (bit : Z) : B unit :=
  if negb (bit =? 0) && negb (bit =? 1) then pass
  else
    put_cp_bit bit ;;
    started ← get UPSTREAM_RX_STARTED;
    if nz started then pass
    else
      look ← get UPSTREAM_LOOK_FOR_E;
      if negb (nz look) then pass
      else
        count_e bit ;;
        complete ← get UPSTREAM_E_COMPLETE; post ← get UPSTREAM_E_POST_BITS;
        prepared ← get UPSTREAM_PREPARED; started ← get UPSTREAM_RX_STARTED;
        if nz complete && (post >=? 2) && nz prepared && negb (nz started) then
          r ← bridge_begin_upstream_data;
          if r =? 0 then put UPSTREAM_RX_STARTED 1 else pass
        else pass.

(** A library function with its callbacks. *)
Fixpoint run_calls {A} (c : calls L A) : B A :=
  match c with
  | Ret x l => modify (with_lib l) ;; mret x
  | PutBit bit l k => modify (with_lib l) ;; bridge_put_bit bit ;; l ← gets_ lib; run_calls (k l)
  | PutDataBit bit l k => modify (with_lib l) ;; bridge_put_data_bit bit ;; l ← gets_ lib; run_calls (k l)
  | GetBit l k => modify (with_lib l) ;; bit ← bridge_get_bit; l ← gets_ lib; run_calls (k bit l)
  end.
Definition call_back {A} (q : L -> calls L A) : B A := l ← gets_ lib; run_calls (q l).

(** *** Feeding the receiver *)
Definition scale4 (x : Z) : Z :=
  let sample := x * 4 in
  if sample >? 32767 then 32767 else if sample <? -32768 then -32768 else s16 sample.

(** Chunks of [FRAME] samples; each pass consumes at least one of the [n]
    samples left. *)
Fixpoint v34_rx_chunks (n : nat) (samples : list Z) : B unit :=
  match n with
  | O => pass
  | S n =>
      match samples with
      | [] => pass
      | _ =>
          call_back (v34_rx (map scale4 (take (Z.to_nat FRAME) samples))) ;;
          v34_rx_chunks n (drop (Z.to_nat FRAME) samples)
      end
  end.
Definition bridge_v34_rx (samples : list Z) : B unit := v34_rx_chunks (length samples) samples.

Definition bridge_feed_upstream (samples : list Z) (sample_start : Z) : B unit :=
  let count := Z.of_nat (length samples) in
  begin_at ← get UPSTREAM_BEGIN_AT;
  if count <=? 0 then pass
  else
    pending ← get UPSTREAM_BEGIN_PENDING; started ← get UPSTREAM_RX_STARTED;
    let before := if begin_at >=? sample_start + count then -1
                  else if begin_at <=? sample_start then 0 else begin_at - sample_start in
    if nz pending && negb (nz started) && (begin_at >=? 0) && negb (before <? 0) then
      (if before >? 0 then bridge_v34_rx (take (Z.to_nat before) samples) else pass) ;;
      r ← bridge_begin_upstream_data;
      (if r =? 0 then put UPSTREAM_RX_STARTED 1 ;; put UPSTREAM_BEGIN_PENDING 0 else pass) ;;
      bridge_v34_rx (drop (Z.to_nat before) samples)
    else bridge_v34_rx samples.

Definition pcmu_decode (code : Z) : Z :=
  let v := u8 (~~~code) in
  let magnitude := ((((v &&& 0x0f) <<< 1) + 33) <<< ((v >>> 4) &&& 7)) - 33 in
  s16 (if tst v 0x80 then - magnitude else magnitude).

(** *** Training events *)
Definition report_event (type : p3_signal_type_t) : B Z :=
  phase ← ask v90_get_tx_phase;
  let event :=
    match type with
    | P3_SIGNAL_S | P3_SIGNAL_S_BAR =>
        if negb (phase =? V90_TX_JD) && negb (phase =? V90_TX_DIL) then None else Some V90_RX_EVENT_S
    | P3_SIGNAL_J => if negb (phase =? V90_TX_WAIT_JA) then None else Some V90_RX_EVENT_J
    | _ => None
    end in
  match event with
  | None => mret 0
  | Some event => ok ← call (v90_handle_rx_event event); mret (b2z ok)
  end.

Definition opaque_type (t : p3_signal_type_t) : bool :=
  match t with
  | P3_SIGNAL_UNKNOWN | P3_SIGNAL_SILENCE | P3_SIGNAL_PP | P3_SIGNAL_TRN | P3_SIGNAL_RU | P3_SIGNAL_UR => true
  | _ => false
  end.
Definition reported_type (t : p3_signal_type_t) : bool :=
  match t with P3_SIGNAL_S | P3_SIGNAL_S_BAR | P3_SIGNAL_J => true | _ => false end.

(** The index of the first entry for a segment. *)
Definition same_event (seg : p3_segment_t) (r : reported_event_t) : bool :=
  (rep_start r =? start_sample seg) && bool_decide (rep_type r = seg_type seg).
Definition find_reported (seg : p3_segment_t) (l : list reported_event_t) : option nat :=
  fst <$> list_find (fun r => same_event seg r = true) l.

(** [reported[j].last_phase = phase; reported[j].accepted = report_event(..)] *)
Definition publish_event (j : nat) (seg : p3_segment_t) (phase : Z) : B unit :=
  acc ← report_event (seg_type seg);
  modify (fun b => with_reported
    (alter (fun r => Reported (rep_start r) (rep_type r) phase acc) j (reported b)) b).

Definition bridge_event (seg : p3_segment_t) : B unit :=
  arm ← get EVENT_ARM_SAMPLE;
  if opaque_type (seg_type seg) then pass
  else if start_sample seg <? arm then pass
  else if reported_type (seg_type seg) then
    table ← gets_ reported;
    phase ← ask v90_get_tx_phase;
    match find_reported seg table with
    | Some j =>
        match table !! j with
        | Some r =>
            if nz (accepted r) || (last_phase r =? phase) then pass else publish_event j seg phase
        | None => pass
        end
    | None =>
        if Z.of_nat (length table) <? MAX_REPORTED_EVENTS then
          modify (with_reported (table ++ [Reported (start_sample seg) (seg_type seg) 0 0])) ;;
          publish_event (length table) seg phase
        else pass
    end
  else pass.

Fixpoint bridge_event_list (segs : list p3_segment_t) : B unit :=
  match segs with [] => pass | seg :: segs => bridge_event seg ;; bridge_event_list segs end.
Definition bridge_events : B unit :=
  segs ← call p3_segment_symbols;
  bridge_event_list segs.

Definition bridge_trim_result : B unit :=
  syms ← ask result_symbols;
  let count := Z.of_nat (length syms) in
  if count <=? RESULT_TAIL_SYMBOLS * 2 then pass
  else act (set_result_symbols (drop (Z.to_nat (count - RESULT_TAIL_SYMBOLS)) syms)).

(** *** CP recovery: the main thread's side *)
Definition live_sample_count : B Z := gets_ (fun b => Z.of_nat (length (live_samples b))).

(** Replay the history from the end of a CP frame. *)
Definition replay_from (last : Z) : B unit :=
  let replay_start := if last <? 0 then 0 else last in
  put UPSTREAM_E_ONES 0 ;;
  put UPSTREAM_E_COMPLETE 0 ;;
  put UPSTREAM_E_POST_BITS 0 ;;
  samples ← gets_ live_samples;
  bridge_v34_rx (drop (Z.to_nat replay_start) samples) ;;
  put UPSTREAM_REPLAYED 1.

(** The data-mode part of [bridge_live_cp_apply]. *)
Definition apply_data_cp (ack : bool) (last : Z) : B unit :=
  put LIVE_DATA_CP_ACCEPTED 1 ;;
  put UPSTREAM_LOOK_FOR_E 1 ;;
  put UPSTREAM_BEGIN_PENDING 1 ;;
  prepared ← get UPSTREAM_PREPARED;
  newly_prepared ← (if nz prepared then mret false
                    else
                      ok ← prepare_upstream;
                      if (ok : bool) then put UPSTREAM_PREPARED 1 ;; mret true else mret false);
  prepared ← get UPSTREAM_PREPARED; prepare_at ← get UPSTREAM_PREPARE_AT;
  (if negb (nz prepared) && (prepare_at <? 0) then put UPSTREAM_PREPARE_AT last else pass) ;;
  count ← live_sample_count;
  (if newly_prepared && (last <? count) then replay_from last else pass) ;;
  if ack then
    put LIVE_CP_DONE 1 ;;
    started ← get UPSTREAM_RX_STARTED;
    if nz started then pass
    else
      ok ← prepare_upstream;
      count ← live_sample_count;
      if (ok : bool) && (last <? count) then
        put UPSTREAM_PREPARED 1 ;;
        put UPSTREAM_LOOK_FOR_E 1 ;;
        replay_from last
      else pass
  else pass.

(** Take a result out of the mailbox. *)
Definition take_result : B (option (bool * Z * vpcm_cp_diag_t * v90_cp_live_meta_t)) :=
  main_lock ;;
  ready ← get LIVE_RESULT_READY;
  if negb (nz ready) then mret None
  else
    found ← get LIVE_RESULT_FOUND; expected ← get LIVE_RESULT_EXPECTED;
    diag ← gets_ live_diag; meta ← gets_ live_meta;
    put LIVE_RESULT_READY 0 ;;
    mret (Some (nz found, expected, diag, meta)).

Definition bridge_live_cp_apply : B unit :=
  live ← get LIVE_ENABLED;
  if negb (nz live) then pass
  else
    r ← take_result;
    match r with
    | Some (true, expected, diag, meta) =>
        data ← get LIVE_DATA_CP_ACCEPTED;
        if nz expected && nz data && negb (diag_acknowledge diag) then pass
        else
          ok ← call (v90_set_phase4_cp diag);
          if negb ok then pass
          else
            put LIVE_CP_ACCEPTED 1 ;;
            (if nz expected then apply_data_cp (diag_acknowledge diag) (last_sample meta) else pass) ;;
            call (v90_handle_rx_event V90_RX_EVENT_CP_VALID) ;;
            pass
    | _ => pass
    end.

Definition bridge_live_cp_try : B unit :=
  live ← get LIVE_ENABLED; done_ ← get LIVE_CP_DONE; hint ← get LIVE_PHASE4_HINT;
  attempts ← get LIVE_ATTEMPTS; next_try ← get LIVE_NEXT_TRY;
  count ← live_sample_count;
  if negb (nz live) || nz done_ || (hint <? 0) || (attempts >=? CP_LIVE_MAX_ATTEMPTS)
     || (count <? next_try) then pass
  else
    accepted ← get LIVE_CP_ACCEPTED;
    let expected := if nz accepted then 1 else 0 in
    main_lock ;;
    job ← get LIVE_JOB; running ← get LIVE_WORKER_RUNNING; ready ← get LIVE_RESULT_READY;
    if nz job || nz running || nz ready then pass
    else
      let offset := if count - CP_LIVE_SEARCH_TAIL <? 0 then 0 else count - CP_LIVE_SEARCH_TAIL in
      ok ← malloc_ok;
      if negb ok then pass
      else
        samples ← gets_ live_samples;
        modify (with_job_samples (Some (drop (Z.to_nat offset) samples))) ;;
        put LIVE_JOB_OFFSET offset ;;
        put LIVE_JOB_HINT 1 ;;
        put LIVE_JOB_EXPECTED expected ;;
        put LIVE_JOB 1 ;;
        put LIVE_ATTEMPTS (attempts + 1) ;;
        put LIVE_NEXT_TRY (count + CP_LIVE_RETRY_SAMPLES).

Definition bridge_note_phase4 : B unit :=
  live ← get LIVE_ENABLED; hint ← get LIVE_PHASE4_HINT;
  if negb (nz live) || (hint >=? 0) then pass
  else
    phase ← ask v90_get_tx_phase;
    if (phase >=? V90_TX_RI) && (phase <=? V90_TX_DATA) then
      count ← live_sample_count;
      put LIVE_PHASE4_HINT count ;;
      put LIVE_NEXT_TRY (count + CP_LIVE_FIRST_TRY_DELAY)
    else pass.

Definition bridge_live_cp_start (thread_ok : bool) : B Z :=
  live ← get LIVE_ENABLED;
  if negb (nz live) then mret 0
  else
    put LIVE_SYNC_INITIALIZED 1 ;;
    if thread_ok then modify (with_worker Waiting) ;; mret 0
    else put LIVE_SYNC_INITIALIZED 0 ;; mret (-1).

(** [pthread_join] lets the worker run until it returns. *)
Fixpoint join_worker (n : nat) : B unit :=
  match n with
  | O => pass
  | S n =>
      w ← gets_ worker;
      match w with Exited | NotStarted => pass | _ => bridge_live_cp_worker ;; join_worker n end
  end.
Definition bridge_live_cp_stop : B unit :=
  sync ← get LIVE_SYNC_INITIALIZED;
  if negb (nz sync) then pass
  else
    main_lock ;;
    put LIVE_STOP 1 ;;
    join_worker 2 ;;
    modify (with_job_samples None) ;;
    put LIVE_SYNC_INITIALIZED 0.

(** *** Transmitting *)
Fixpoint gather_bits (n : nat) (bit byte : Z) : B Z :=
  match n with
  | O => mret byte
  | S n => b ← bridge_get_bit; gather_bits n (bit + 1) (u8 (byte ||| (b <<< bit)))
  end.
(** [data[byte] |= bridge_get_bit(b) << bit] for the [n] bytes that are needed;
    the rest of the eight stays 0. *)
Fixpoint gather_bytes (n : nat) : B (list Z) :=
  match n with
  | O => mret []
  | S n => byte ← gather_bits 8 0 0; rest ← gather_bytes n; mret (byte :: rest)
  end.

Definition repeat_last (n : nat) : B (list Z) :=
  last ← get LAST_CODEWORD; mret (replicate n last).

(** The next data frame, when the current one is used up; [false] when there is none. *)
Definition next_data_frame : B bool :=
  pos ← get DATA_FRAME_POS;
  if pos >=? DATA_FRAME then
    needed ← ask v90_data_input_bytes_needed;
    let needed := if needed >? 8 then 8 else needed in
    data ← gather_bytes (Z.to_nat needed);
    f ← call_back (v90_tx_data_frame_codewords (data ++ replicate (8 - length data) 0) needed);
    match f with
    | None => mret false
    | Some frame =>
        modify (with_data_frame frame) ;;
        put DATA_FRAME_POS 0 ;;
        frames ← get DATA_FRAMES;
        put DATA_FRAMES (frames + 1) ;;
        mret true
    end
  else mret true.

(** The codewords still to be written, [n] of them. *)
Fixpoint tx_loop (n : nat) : B (list Z) :=
  match n with
  | O => mret []
  | S m =>
      complete ← ask v90_training_complete;
      if negb complete then
        c ← call_back v90_phase3_tx_codewords;
        match c with
        | None => repeat_last n
        | Some c => put LAST_CODEWORD c ;; rest ← tx_loop m; mret (u8 c :: rest)
        end
      else
        ok ← next_data_frame;
        if negb ok then repeat_last n
        else
          pos ← get DATA_FRAME_POS; frame ← gets_ data_frame;
          put DATA_FRAME_POS (pos + 1) ;;
          let c := u8 (nth (Z.to_nat pos) frame 0) in
          put LAST_CODEWORD c ;;
          rest ← tx_loop m;
          mret (c :: rest)
  end.
Definition bridge_tx_codewords (count : Z) : B (list Z) := tx_loop (Z.to_nat count).

(** *** Initialisation *)

(** The environment variables, [None] when unset or empty, otherwise what
    [atoi] makes of them; and whether the allocations and the thread succeed. *)
Record env_t := Env {
  e_baud_code : option Z; e_carrier : option Z; e_event_arm : option Z; e_upstream_bps : option Z;
  e_upstream_delay : option Z; e_cp_live : option Z; e_queues_ok : bool; e_thread_ok : bool }.

Definition init_baud (e : env_t) : Z :=
  let baud := default P3_BAUD_3200 (e_baud_code e) in
  if (baud <? 0) || (baud >=? P3_BAUD_COUNT) then P3_BAUD_3200 else baud.
Definition init_carrier (e : env_t) : Z :=
  let carrier := default P3_CARRIER_LOW (e_carrier e) in
  if negb (carrier =? P3_CARRIER_LOW) && negb (carrier =? P3_CARRIER_HIGH) then P3_CARRIER_LOW else carrier.
Definition init_arm (e : env_t) : Z :=
  let arm := default 12000 (e_event_arm e) in if arm <? 0 then 0 else arm.
Definition init_bps (e : env_t) : Z :=
  let bps := default 31200 (e_upstream_bps e) in
  if (bps <? 4800) || (bps >? 33600) || negb (Z.rem bps 2400 =? 0) then 31200 else bps.
Definition init_delay (e : env_t) : Z :=
  let delay := default 0 (e_upstream_delay e) in
  if (delay <? 0) || (delay >? CP_LIVE_SEARCH_TAIL * 2) then 0 else delay.

Definition zeroed (l : L) (s : list nat) (a : list bool) : bridge_t :=
  Bridge (fun _ => 0) l [] [] (replicate 6 0) ∅ ∅ None diag_zero (Meta 0 0) NotStarted s a.

Definition configure (e : env_t) : B unit :=
  put UPSTREAM_PREPARE_AT (-1) ;;
  put UPSTREAM_BEGIN_AT (-1) ;;
  put EVENT_ARM_SAMPLE (init_arm e) ;;
  put BAUD_CODE (init_baud e) ;;
  put HIGH_CARRIER (b2z (init_carrier e =? P3_CARRIER_HIGH)) ;;
  put UPSTREAM_BPS (init_bps e) ;;
  put UPSTREAM_AUDIO_DELAY (init_delay e) ;;
  put LIVE_ENABLED (b2z (match e_cp_live e with Some v => nz v | None => false end)) ;;
  put LIVE_PHASE4_HINT (-1) ;;
  put DATA_FRAME_POS DATA_FRAME ;;
  put LAST_CODEWORD 0xff.

(** [None] stands for the return of -1, after which the program ends. *)
Definition bridge_init (e : env_t) (s : list nat) (a : list bool) : option bridge_t :=
  if negb (e_queues_ok e) then None
  else
    match sibling_init (init_baud e) (init_carrier e) with
    | None => None
    | Some l =>
        let '(r, b) := (configure e ;; bridge_live_cp_start (e_thread_ok e)) (zeroed l s a) in
        if r =? 0 then Some b else None
    end.

(** *** The main loop *)

(** What arrives with one frame: the octets, the payload packet in
    [--data-stream] mode, and the reset file's modification time with the
    environment a reset would read. *)
Record input_t := Input {
  in_frame : list Z; in_packet : option (list Z * list Z); in_mtime : option Z; in_env : env_t }.
Record output_t := Output { out_frame : list Z; out_packet : option (list Z * list Z) }.

Definition bridge_reset_if_requested (i : input_t) (last_mtime : Z) (b : bridge_t) : option (bridge_t * Z) :=
  match in_mtime i with
  | None => Some (b, last_mtime)
  | Some mtime =>
      if mtime =? last_mtime then Some (b, last_mtime)
      else
        let '(_, b) := bridge_live_cp_stop b in
        b ← bridge_init (in_env i) (sched b) (allocs b);
        Some (b, mtime)
  end.

(** Collect the frame for CP recovery. *)
Definition record_history (linear : list Z) : B unit :=
  live ← get LIVE_ENABLED; connected ← get CONNECTED_REPORTED;
  if nz live && negb (nz connected) then
    count ← live_sample_count;
    let copy := if count + FRAME >? CP_LIVE_MAX_SAMPLES then CP_LIVE_MAX_SAMPLES - count else FRAME in
    if copy >? 0 then
      main_lock ;;
      modify (fun b => with_live_samples (live_samples b ++ take (Z.to_nat copy) linear) b)
    else pass
  else pass.

(** The segment demodulator and what the worker has found, until connected. *)
Definition train_frame (linear : list Z) : B unit :=
  connected ← get CONNECTED_REPORTED;
  if nz connected then pass
  else
    offset ← get SAMPLE_OFFSET;
    act (p3_demod_process linear offset) ;;
    bridge_live_cp_apply.

(** The frame as the optionally delayed receiver hears it. *)
Definition delayed_frame (samples : list Z) (delayed_at : Z) : list Z :=
  map (fun i => let at_ := delayed_at + i in
                if (at_ >=? 0) && (at_ <? Z.of_nat (length samples))
                then nth (Z.to_nat at_) samples 0 else 0) (seqZ 0 FRAME).

Definition feed_delayed : B unit :=
  offset ← get SAMPLE_OFFSET; delay ← get UPSTREAM_AUDIO_DELAY;
  let delayed_at := offset - delay in
  prepared ← get UPSTREAM_PREPARED; prepare_at ← get UPSTREAM_PREPARE_AT;
  (if negb (nz prepared) && (prepare_at >=? 0) && (delayed_at + FRAME >=? prepare_at) then
     ok ← prepare_upstream;
     if (ok : bool) then put UPSTREAM_PREPARED 1 else pass
   else pass) ;;
  pending ← get UPSTREAM_BEGIN_PENDING; prepared ← get UPSTREAM_PREPARED;
  started ← get UPSTREAM_RX_STARTED;
  (if nz pending && nz prepared && negb (nz started) then
     r ← bridge_begin_upstream_data;
     if r =? 0 then put UPSTREAM_RX_STARTED 1 ;; put UPSTREAM_BEGIN_PENDING 0 else pass
   else pass) ;;
  samples ← gets_ live_samples;
  bridge_v34_rx (delayed_frame samples delayed_at).

Definition feed_receiver (linear : list Z) : B unit :=
  replayed ← get UPSTREAM_REPLAYED; delay ← get UPSTREAM_AUDIO_DELAY;
  (if nz replayed then put UPSTREAM_REPLAYED 0
   else if delay >? 0 then feed_delayed
   else offset ← get SAMPLE_OFFSET; bridge_feed_upstream linear offset) ;;
  offset ← get SAMPLE_OFFSET;
  put SAMPLE_OFFSET (offset + FRAME).

(** Segment scanning, the CP search and the connected report. *)
Definition scan_events : B unit :=
  connected ← get CONNECTED_REPORTED;
  if nz connected then pass
  else
    n ← get SEGMENT_SCAN;
    put SEGMENT_SCAN (n + 1) ;;
    (if n + 1 >=? SEGMENT_SCAN_FRAMES then put SEGMENT_SCAN 0 ;; bridge_events else pass) ;;
    bridge_note_phase4 ;;
    bridge_live_cp_try ;;
    complete ← ask v90_training_complete; phase ← ask v90_get_tx_phase;
    if complete || (phase >=? V90_TX_DATA) then
      offset ← get SAMPLE_OFFSET;
      put CONNECTED_REPORTED 1 ;;
      put CONNECTED_SAMPLE offset
    else pass.

(** The packet that answers a payload packet. *)
Definition reply_packet : B (list Z * list Z) :=
  '(output_bits, received) ← bridge_pack_output;
  complete ← ask v90_training_complete;
  consumed ← get TX_CONSUMED_FRAME;
  let received := if (complete : bool) then received ||| 0x8000 else received in
  mret ([consumed &&& 0xff; (consumed >>> 8) &&& 0xff; received &&& 0xff; (received >>> 8) &&& 0xff],
        output_bits).

(** A payload packet: a four-byte header and the packed bits. *)
Definition accept_packet (p : option (list Z * list Z)) : B unit :=
  match p with
  | None => pass
  | Some (header, bits) =>
      bridge_queue_input bits (nth 0 header 0 ||| (nth 1 header 0 <<< 8)) ;;
      put TX_CONSUMED_FRAME 0
  end.

Definition process_frame (i : input_t) : B output_t :=
  let linear := map pcmu_decode (in_frame i) in
  record_history linear ;;
  train_frame linear ;;
  feed_receiver linear ;;
  scan_events ;;
  bridge_trim_result ;;
  output ← bridge_tx_codewords FRAME;
  reply ← (match in_packet i with
           | None => mret None
           | Some _ => p ← reply_packet; mret (Some p)
           end);
  mret (Output output reply).

(** One pass of the loop; [None] when a reset fails. *)
Definition bridge_step (i : input_t) (last_mtime : Z) (b : bridge_t) : option (output_t * bridge_t * Z) :=
  let '(_, b) := accept_packet (in_packet i) b in
  '(b, last_mtime) ← bridge_reset_if_requested i last_mtime b;
  let '(o, b) := process_frame i b in
  Some (o, b, last_mtime).

(** The loop over the frames of standard input: the outputs in order, and the
    state at its end unless a reset failed. *)
Fixpoint bridge_loop (is_ : list input_t) (last_mtime : Z) (b : bridge_t) : list output_t * option bridge_t :=
  match is_ with
  | [] => ([], Some b)
  | i :: is_ =>
      match bridge_step i last_mtime b with
      | None => ([], None)
      | Some (o, b, last_mtime) =>
          let '(os, b) := bridge_loop is_ last_mtime b in (o :: os, b)
      end
  end.

Definition main (e : env_t) (s : list nat) (a : list bool) (is_ : list input_t) : option (list output_t) :=
  b ← bridge_init e s a;
  Some (fst (bridge_loop is_ 0 b)).

End Bridge.
