(* ===== verification/BridgeSpec.v ===== *)
(** * Specification of the V.90 digital event bridge

    The two rings are bounded queues of bits; the worker and the main thread
    hand jobs and results over without losing or mixing them; data mode starts
    at the recovered E; a training event is accepted once; and every frame is
    answered in full, with every table within its bounds, whatever the library
    and the scheduler do. *)
From S2P Require Import Prelude Ring Bridge.

Section Spec.
Context {L : Type} {sib : Sibling L}.
Implicit Types b : bridge_t (L := L).

(** ** Definitions *)

(** Running a command. *)
Definition after {A} (m : B (L := L) A) b : bridge_t := snd (m b).
Definition result {A} (m : B (L := L) A) b : A := fst (m b).

(** The queued bits: to be transmitted, and received. *)
Record queues (tx rx : list Z) b : Prop := {
  q_tx : ring_holds DATA_QUEUE_BITS (tx_bits b) (bsc b TX_RD) (bsc b TX_WR) (bsc b TX_COUNT) tx;
  q_rx : ring_holds DATA_QUEUE_BITS (rx_bits b) (bsc b RX_RD) (bsc b RX_WR) (bsc b RX_COUNT) rx;
  q_bits : Forall (fun x => x = 0 \/ x = 1) rx;
}.

(** The operations on the queues and what they return. *)
Inductive qop := QGet | QQueue (packed : list Z) (count : Z) | QPut (bit : Z) | QPack.
Inductive qout := NoOut | OutBit (bit : Z) | OutPacket (packed : list Z) (count : Z).

Definition bridge_op (o : qop) : B (L := L) qout :=
  match o with
  | QGet => x ← bridge_get_bit; mret (OutBit x)
  | QQueue packed count => bridge_queue_input packed count ;; mret NoOut
  | QPut bit => bridge_put_data_bit bit ;; mret NoOut
  | QPack => '(packed, count) ← bridge_pack_output; mret (OutPacket packed count)
  end.
Fixpoint bridge_ops (os : list qop) : B (L := L) (list qout) :=
  match os with [] => mret [] | o :: os => x ← bridge_op o; xs ← bridge_ops os; mret (x :: xs) end.

(** The first [n] bits of a packet, least significant first. *)
Definition packed_bits (packed : list Z) (n : Z) : list Z := map (packed_bit packed) (seqZ 0 n).
(** A packet that carries exactly the bits [l]. *)
Definition carries (packed : list Z) (l : list Z) : Prop :=
  length packed = Z.to_nat DATA_BYTES /\ Forall (fun x => 0 <= x <= 0xff) packed /\
  packed_bits packed DATA_BITS = l ++ replicate (Z.to_nat DATA_BITS - length l) 0.

(** The bounded queues: a bit of idle ones when there is nothing to send, the
    bits that fit when there is much to queue, the oldest received bits. *)
Definition room (q : list Z) : nat := Z.to_nat (DATA_QUEUE_BITS - Z.of_nat (length q)).
Inductive spec_op (acquired : bool) : qop -> list Z * list Z -> qout -> list Z * list Z -> Prop :=
  | SGet x tx rx : spec_op acquired QGet (x :: tx, rx) (OutBit x) (tx, rx)
  | SGetIdle rx : spec_op acquired QGet ([], rx) (OutBit 1) ([], rx)
  | SQueue packed count tx rx :
      spec_op acquired (QQueue packed count) (tx, rx) NoOut
        (tx ++ take (room tx) (packed_bits packed (count `min` DATA_BITS)), rx)
  | SPut bit tx rx : acquired = true -> bit = 0 \/ bit = 1 ->
      spec_op acquired (QPut bit) (tx, rx) NoOut (tx, rx ++ take (room rx) [bit])
  | SPutIgnored bit tx rx : acquired = false \/ (bit <> 0 /\ bit <> 1) ->
      spec_op acquired (QPut bit) (tx, rx) NoOut (tx, rx)
  | SPack packed tx rx : carries packed (take (Z.to_nat DATA_BITS) rx) ->
      spec_op acquired QPack (tx, rx)
        (OutPacket packed (Z.of_nat (length rx) `min` DATA_BITS))
        (tx, drop (Z.to_nat DATA_BITS) rx).
Inductive spec_ops (acquired : bool) : list qop -> list Z * list Z -> list qout -> list Z * list Z -> Prop :=
  | SDone q : spec_ops acquired [] q [] q
  | SStep o os q x q1 xs q2 : spec_op acquired o q x q1 -> spec_ops acquired os q1 xs q2 ->
      spec_ops acquired (o :: os) q (x :: xs) q2.

(** ** Running commands *)
Lemma after_bind {A C} (f : A -> B C) (m : B A) b : after (m ≫= f) b = after (f (result m b)) (after m b).
Proof. unfold after, result. unfold mbind, B_bind. by destruct (m b). Qed.
Lemma result_bind {A C} (f : A -> B C) (m : B A) b : result (m ≫= f) b = result (f (result m b)) (after m b).
Proof. unfold after, result. unfold mbind, B_bind. by destruct (m b). Qed.
Lemma after_get f b : after (get f) b = b. Proof. done. Qed.
Lemma result_get f b : result (get f) b = bsc b f. Proof. done. Qed.
Lemma after_put f v b : after (put f v) b = with_sc f (conv (bty f) v) b. Proof. done. Qed.
Lemma after_gets {A} (p : bridge_t -> A) b : after (gets_ p) b = b. Proof. done. Qed.
Lemma result_gets {A} (p : bridge_t -> A) b : result (gets_ p) b = p b. Proof. done. Qed.
Lemma after_modify f b : after (modify f) b = f b. Proof. done. Qed.
Lemma after_ret {A} (x : A) b : after (mret x) b = b. Proof. done. Qed.
Lemma result_ret {A} (x : A) b : result (mret x) b = x. Proof. done. Qed.
Lemma after_pass b : after pass b = b. Proof. done. Qed.
Lemma after_ask {A} (q : L -> A) b : after (ask q) b = b. Proof. done. Qed.
Lemma result_ask {A} (q : L -> A) b : result (ask q) b = q (lib b). Proof. done. Qed.
Lemma after_if {A} (c : bool) (m m' : B A) b : after (if c then m else m') b = if c then after m b else after m' b.
Proof. by destruct c. Qed.
Lemma result_if {A} (c : bool) (m m' : B A) b : result (if c then m else m') b = if c then result m b else result m' b.
Proof. by destruct c. Qed.
Lemma bsc_with_sc f v b g : bsc (with_sc f v b) g = if decide (g = f) then v else bsc b g.
Proof. done. Qed.
Lemma bsc_eq f v b : bsc (with_sc f v b) f = v.
Proof. rewrite bsc_with_sc. by rewrite decide_True. Qed.
Lemma bsc_ne f g v b : g <> f -> bsc (with_sc f v b) g = bsc b g.
Proof. intros H. rewrite bsc_with_sc. by rewrite decide_False. Qed.
End Spec.

#[export] Hint Rewrite @after_bind @result_bind @after_get @result_get @after_put @after_gets @result_gets
  @after_modify @after_ret @result_ret @after_pass @after_ask @result_ask @after_if @result_if : bridge.
#[export] Hint Rewrite @bsc_eq : bridge.
#[export] Hint Rewrite @bsc_ne using done : bridge.
Ltac brun := repeat (autorewrite with bridge; cbv beta zeta).

Section Queues.
Context {L : Type} {sib : Sibling L}.
Implicit Types b : bridge_t (L := L).

(** ** The queues *)
Lemma queue_size : DATA_QUEUE_BITS <= 2 ^ 31. Proof. done. Qed.
Lemma u32_pos x : 0 <= x < DATA_QUEUE_BITS -> u32 (u32 (x + 1) mod DATA_QUEUE_BITS) = (x + 1) mod DATA_QUEUE_BITS.
Proof.
  intros H. rewrite (u32_succ DATA_QUEUE_BITS) by (done || apply queue_size). apply conv_id.
  pose proof (Z.mod_pos_bound (x + 1) DATA_QUEUE_BITS ltac:(done)) as Hm.
  change DATA_QUEUE_BITS with 67108864 in *. cbn. lia.
Qed.
Lemma u32_cnt x : 0 <= x <= DATA_QUEUE_BITS -> u32 x = x.
Proof. intros H. change DATA_QUEUE_BITS with 67108864 in *. apply conv_id. cbn. lia. Qed.

Lemma room_full q : DATA_QUEUE_BITS <= Z.of_nat (length q) -> room q = 0%nat.
Proof. intros H. unfold room. lia. Qed.
Lemma take_room q x l : Z.of_nat (length q) < DATA_QUEUE_BITS ->
  take (room q) (x :: l) = x :: take (room (q ++ [x])) l.
Proof.
  intros H. unfold room. rewrite length_app. cbn [length].
  replace (Z.to_nat (DATA_QUEUE_BITS - Z.of_nat (length q)))
    with (S (Z.to_nat (DATA_QUEUE_BITS - Z.of_nat (length q + 1)))) by lia. done.
Qed.

Lemma get_bit_queues tx rx b : queues tx rx b ->
  result bridge_get_bit b = hd 1 tx /\ queues (tl tx) rx (after bridge_get_bit b).
Proof.
  intros [Ht Hr Hb]. unfold bridge_get_bit. brun. destruct tx as [|x tx].
  - destruct Ht as [H1 H2 H3 H4 H5]. cbn [length] in H3.
    assert (nz (bsc b TX_COUNT) = false) as -> by (apply nz_false; lia). brun.
    split; [done|]. split; [|done..]. split; try done.
  - pose proof (ring_rd _ _ _ _ _ _ Ht) as Hrd. pose proof (ring_count _ _ _ _ _ _ Ht) as Hc.
    pose proof (ring_room _ _ _ _ _ _ Ht) as Hq. cbn [length] in Hc.
    assert (nz (bsc b TX_COUNT) = true) as -> by (apply nz_true; lia). brun.
    destruct (ring_pop _ _ _ _ _ _ _ Ht) as [Hx Hp].
    split; [done|]. split; [|done..]. cbn [tl tx_bits with_sc]. brun. cbn [bty].
    rewrite u32_pos, u32_cnt by lia. done.
Qed.

Lemma queue_bits_queues n : forall packed i tx rx b, queues tx rx b ->
  queues (tx ++ take (room tx) (map (packed_bit packed) (seqZ i (Z.of_nat n)))) rx (after (queue_bits n packed i) b).
Proof.
  induction n as [|n IH]; intros packed i tx rx b Hq.
  { cbn [queue_bits]. brun. change (seqZ i (Z.of_nat 0)) with (@nil Z). cbn [map]. by rewrite take_nil, app_nil_r. }
  pose proof Hq as [Ht Hr Hb]. pose proof (ring_count _ _ _ _ _ _ Ht) as Hc.
  cbn [queue_bits]. brun. destruct (Z.ltb_spec (bsc b TX_COUNT) DATA_QUEUE_BITS) as [Hlt|Hge]; brun.
  - pose proof (ring_pos _ _ _ _ _ _ Ht) as Hw. pose proof (ring_push _ _ _ _ _ (packed_bit packed i) _ Hlt Ht) as Hp.
    set (b1 := with_sc TX_COUNT _ _).
    assert (queues (tx ++ [packed_bit packed i]) rx b1) as Hq1.
    { unfold b1. split; [|done..]. cbn [tx_bits with_sc with_tx_bits]. brun. cbn [bty bsc with_tx_bits].
      rewrite u32_pos, u32_cnt by lia. done. }
    specialize (IH packed (i + 1) _ _ _ Hq1). rewrite <- app_assoc in IH.
    rewrite (seqZ_cons i) by lia. replace (Z.pred (Z.of_nat (S n))) with (Z.of_nat n) by lia.
    replace (Z.succ i) with (i + 1) by lia. cbn [map].
    rewrite (take_room tx) by lia. done.
  - rewrite (room_full tx) by lia. by rewrite take_0, app_nil_r.
Qed.

Lemma queue_input_queues packed count tx rx b : queues tx rx b ->
  queues (tx ++ take (room tx) (packed_bits packed (count `min` DATA_BITS))) rx
    (after (bridge_queue_input packed count) b).
Proof.
  intros Hq. unfold bridge_queue_input, packed_bits. cbv zeta.
  pose proof (queue_bits_queues (Z.to_nat (count `min` DATA_BITS)) packed 0 tx rx b Hq) as H.
  assert (seqZ 0 (Z.of_nat (Z.to_nat (count `min` DATA_BITS))) = seqZ 0 (count `min` DATA_BITS)) as E.
  { unfold seqZ. by rewrite Nat2Z.id. }
  rewrite E in H. destruct (Z.gtb_spec count DATA_BITS).
  - by rewrite Z.min_r in * by lia.
  - by rewrite Z.min_l in * by lia.
Qed.

Lemma put_data_queues bit tx rx b : queues tx rx b ->
  queues tx (if v34_v90_upstream_rx_acquired (lib b) && ((bit =? 0) || (bit =? 1))
             then rx ++ take (room rx) [bit] else rx) (after (bridge_put_data_bit bit) b).
Proof.
  intros [Ht Hr Hb]. unfold bridge_put_data_bit. brun.
  destruct (v34_v90_upstream_rx_acquired (lib b)); cbn [negb orb andb]; brun; [|done].
  assert ((bit =? 0) || (bit =? 1) = negb (negb (bit =? 0) && negb (bit =? 1))) as ->
    by (by destruct (bit =? 0), (bit =? 1)).
  destruct (negb (bit =? 0) && negb (bit =? 1)) eqn:Eb; cbn [negb orb]; brun; [done|].
  pose proof (ring_count _ _ _ _ _ _ Hr) as Hc.
  destruct (Z.geb_spec (bsc b RX_COUNT) DATA_QUEUE_BITS) as [Hge|Hlt]; brun.
  { rewrite (room_full rx) by lia. by rewrite take_0, app_nil_r. }
  pose proof (ring_pos _ _ _ _ _ _ Hr) as Hw.
  assert (bit &&& 1 = bit) as ->.
  { clear -Eb. apply andb_false_iff in Eb as [E|E]; apply negb_false_iff, Z.eqb_eq in E; by subst. }
  pose proof (ring_push _ _ _ _ _ bit _ Hlt Hr) as Hp.
  rewrite (take_room rx), take_nil by lia.
  split; [done| |].
  - cbn [rx_bits with_sc with_rx_bits]. brun. cbn [bty bsc with_rx_bits].
    rewrite u32_pos, u32_cnt by lia. done.
  - apply Forall_app_2; [done|]. constructor; [|done].
    apply andb_false_iff in Eb as [E|E]; apply negb_false_iff, Z.eqb_eq in E; auto.
Qed.

(** *** Packing *)
Fixpoint or_all (packed : list Z) (i : Z) (l : list Z) : list Z :=
  match l with [] => packed | x :: l => or_all (or_bit packed i x) (i + 1) l end.

Lemma packed_bit_spec packed i : 0 <= i ->
  packed_bit packed i = Z.b2z (Z.testbit (nth (Z.to_nat (i / 8)) packed 0) (i mod 8)).
Proof.
  intros Hi. unfold packed_bit. change 7 with (2 ^ 3 - 1). rewrite land_mask_mod by lia.
  rewrite (Z.shiftr_div_pow2 i 3) by lia. change (2 ^ 3) with 8.
  pose proof (Z.mod_pos_bound i 8 ltac:(lia)). rewrite Z.testbit_spec' by lia.
  rewrite Z.shiftr_div_pow2 by lia. change 1 with (2 ^ 1 - 1). by rewrite land_mask_mod by lia.
Qed.

(** A packet of bytes. *)
Definition bytes_ok (packed : list Z) : Prop :=
  length packed = Z.to_nat DATA_BYTES /\ Forall (fun x => 0 <= x <= 0xff) packed.

Lemma nth_byte packed k : Forall (fun x => 0 <= x <= 0xff) packed -> 0 <= nth k packed 0 < 2 ^ 8.
Proof.
  intros H. destruct (decide (k < length packed)%nat) as [Hk|Hk].
  - rewrite Forall_forall in H. specialize (H (nth k packed 0)).
    specialize (H (nth_In _ _ Hk)). lia.
  - rewrite nth_overflow by lia. done.
Qed.

Lemma or_bit_spec packed i x j : bytes_ok packed -> x = 0 \/ x = 1 -> 0 <= i < DATA_BITS -> 0 <= j < DATA_BITS ->
  bytes_ok (or_bit packed i x) /\
  packed_bit (or_bit packed i x) j = if decide (j = i) then packed_bit packed i ||| x else packed_bit packed j.
Proof.
  intros [Hlen Hb] Hx Hi Hj. change DATA_BITS with 2048 in *. change (Z.to_nat DATA_BYTES) with 256%nat in *.
  unfold or_bit. cbv zeta. rewrite (Z.shiftr_div_pow2 i 3) by lia. change (2 ^ 3) with 8.
  change (i &&& 7) with (i &&& (2 ^ 3 - 1)). rewrite land_mask_mod by lia. change (2 ^ 3) with 8.
  pose proof (Z.mod_pos_bound i 8 ltac:(lia)) as Hm. pose proof (Z.mod_pos_bound j 8 ltac:(lia)) as Hmj.
  pose proof (nth_byte packed (Z.to_nat (i / 8)) Hb) as Hold. set (k := Z.to_nat (i / 8)) in *.
  assert (k < length packed)%nat as Hk by (unfold k; Z.to_euclidean_division_equations; lia).
  set (old := nth k packed 0) in *.
  assert (0 <= old ||| x <<< (i mod 8) <= 2 ^ 8 - 1) as Hnew.
  { apply lor_range; [lia|lia|]. rewrite Z.shiftl_mul_pow2 by lia.
    assert (2 ^ (i mod 8) <= 2 ^ 7) by (apply Z.pow_le_mono_r; lia).
    assert (0 < 2 ^ (i mod 8)) by (apply Z.pow_pos_nonneg; lia). destruct Hx as [-> | ->]; lia. }
  assert (u8 (old ||| x <<< (i mod 8)) = old ||| x <<< (i mod 8)) as -> by (apply conv_id; cbn in *; lia).
  split.
  - split; [by rewrite length_insert|]. apply Forall_insert; [done|]. cbn in Hnew. lia.
  - rewrite !packed_bit_spec by lia. rewrite !nth_lookup.
    destruct (decide (Z.to_nat (j / 8) = k)) as [Ek|Ek].
    + rewrite Ek, list_lookup_insert, decide_True by done. cbn [default from_option].
      assert (j / 8 = i / 8) as Ed by (unfold k in Ek; Z.to_euclidean_division_equations; lia).
      unfold id. rewrite <- !nth_lookup. fold k old. rewrite Z.lor_spec, Z.shiftl_spec by lia.
      destruct (decide (j = i)) as [->|Hne].
      * rewrite Z.sub_diag.
        destruct Hx as [-> | ->]; cbn; by destruct (Z.testbit old _).
      * assert (j mod 8 <> i mod 8) by (Z.to_euclidean_division_equations; lia).
        assert (Z.testbit x (j mod 8 - i mod 8) = false) as ->.
        { destruct (decide (j mod 8 < i mod 8)); [by apply Z.testbit_neg_r; lia|].
          apply (bits_high_0 x 1); lia. }
        by rewrite orb_false_r.
    + rewrite list_lookup_insert_ne by done. rewrite decide_False; [done|]. intros ->. done.
Qed.

(** Packing the bits [l] from position [i] on into a packet that is empty from
    there leaves them there. *)
Lemma or_all_spec l : forall packed i, bytes_ok packed -> Forall (fun x => x = 0 \/ x = 1) l ->
  0 <= i -> i + Z.of_nat (length l) <= DATA_BITS ->
  (forall j, i <= j < DATA_BITS -> packed_bit packed j = 0) ->
  bytes_ok (or_all packed i l) /\
  forall j, 0 <= j < DATA_BITS ->
    packed_bit (or_all packed i l) j =
    if decide (i <= j < i + Z.of_nat (length l)) then nth (Z.to_nat (j - i)) l 0 else packed_bit packed j.
Proof.
  induction l as [|x l IH]; intros packed i Hp Hl Hi Hlen Hz; cbn [or_all length] in *.
  { split; [done|]. intros j Hj. by rewrite decide_False by lia. }
  apply Forall_cons_1 in Hl as [Hx Hl].
  destruct (or_bit_spec packed i x 0 Hp Hx ltac:(lia) ltac:(lia)) as [Hp1 _].
  assert (forall j, 0 <= j < DATA_BITS -> packed_bit (or_bit packed i x) j =
    if decide (j = i) then x else packed_bit packed j) as Hb.
  { intros j Hj. destruct (or_bit_spec packed i x j Hp Hx ltac:(lia) Hj) as [_ ->].
    by rewrite (Hz i) by lia. }
  destruct (IH (or_bit packed i x) (i + 1) Hp1 Hl ltac:(lia) ltac:(lia)) as [Hp2 Hv].
  { intros j Hj. rewrite Hb, decide_False by lia. apply Hz. lia. }
  split; [done|]. intros j Hj. rewrite Hv, Hb by lia. destruct (decide (j = i)) as [->|].
  - rewrite decide_False, decide_True by lia. by rewrite Z.sub_diag.
  - destruct (decide (i + 1 <= j < _)).
    + rewrite decide_True by lia. by replace (Z.to_nat (j - i)) with (S (Z.to_nat (j - (i + 1)))) by lia.
    + by rewrite decide_False by lia.
Qed.

Definition empty_packet : list Z := replicate (Z.to_nat DATA_BYTES) 0.
Lemma empty_packet_ok : bytes_ok empty_packet.
Proof. split; [by vm_compute|]. apply Forall_replicate. lia. Qed.
Lemma empty_packet_bit j : 0 <= j -> packed_bit empty_packet j = 0.
Proof.
  intros Hj. rewrite packed_bit_spec by done. unfold empty_packet.
  assert (nth (Z.to_nat (j / 8)) (replicate (Z.to_nat DATA_BYTES) 0) 0 = 0) as ->.
  { rewrite nth_lookup. destruct (_ !! _) as [y|] eqn:E; [|done].
    apply lookup_replicate in E as [-> _]. done. }
  by rewrite Z.testbit_0_l.
Qed.

Lemma or_all_carries l : Forall (fun x => x = 0 \/ x = 1) l -> Z.of_nat (length l) <= DATA_BITS ->
  carries (or_all empty_packet 0 l) l.
Proof.
  intros Hl Hn.
  destruct (or_all_spec l empty_packet 0 empty_packet_ok Hl ltac:(lia) ltac:(lia)) as [[H1 H2] H3].
  { intros j Hj. apply empty_packet_bit. lia. }
  split; [done|]. split; [done|]. unfold packed_bits. apply list_eq. intros k.
  change (map ?f ?m) with (f <$> m). rewrite list_lookup_fmap.
  destruct (decide (Z.of_nat k < DATA_BITS)) as [Hk|Hk].
  - rewrite (proj2 (lookup_seqZ 0 _ k (Z.of_nat k))) by lia. cbn [fmap option_fmap option_map].
    rewrite H3 by lia. destruct (decide (0 <= Z.of_nat k < _)) as [Hin|Hout].
    + rewrite lookup_app_l by lia. rewrite Z.sub_0_r, Nat2Z.id.
      destruct (lookup_lt_is_Some_2 l k) as [x Ex]; [lia|]. rewrite Ex. f_equal. by apply nth_lookup_Some.
    + rewrite empty_packet_bit by lia. rewrite lookup_app_r by lia. symmetry.
      apply lookup_replicate. split; [done|]. lia.
  - rewrite lookup_seqZ_ge by lia. symmetry. apply lookup_ge_None_2.
    rewrite length_app, length_replicate. lia.
Qed.

Lemma pack_bits_spec n : forall packed i c l b,
  ring_holds DATA_QUEUE_BITS (rx_bits b) (bsc b RX_RD) (bsc b RX_WR) c l -> (n <= length l)%nat ->
  let b' := after (pack_bits n packed i) b in
  result (pack_bits n packed i) b = or_all packed i (take n l) /\
  ring_holds DATA_QUEUE_BITS (rx_bits b') (bsc b' RX_RD) (bsc b' RX_WR) (c - Z.of_nat n) (drop n l) /\
  tx_bits b' = tx_bits b /\ (forall g, g <> RX_RD -> bsc b' g = bsc b g).
Proof.
  induction n as [|n IH]; intros packed i c l b Hr Hn b'; unfold b'; cbn [pack_bits].
  { brun. rewrite take_0, drop_0, Z.sub_0_r. done. }
  destruct l as [|x l]; [cbn in Hn; lia|]. brun. cbn [take drop].
  pose proof (ring_rd _ _ _ _ _ _ Hr) as Hrd. destruct (ring_pop _ _ _ _ _ _ _ Hr) as [Hx Hp].
  cbn [length] in Hn. set (b1 := with_sc RX_RD _ b).
  assert (ring_holds DATA_QUEUE_BITS (rx_bits b1) (bsc b1 RX_RD) (bsc b1 RX_WR) (c - 1) l) as Hr1.
  { unfold b1. cbn [rx_bits with_sc]. brun. cbn [bty]. by rewrite u32_pos. }
  destruct (IH (or_bit packed i x) (i + 1) _ _ _ Hr1 ltac:(lia)) as (I1 & I2 & I3 & I4).
  unfold ring_get. rewrite Hx. split; [done|]. split; [|split].
  - by replace (c - Z.of_nat (S n)) with (c - 1 - Z.of_nat n) by lia.
  - done.
  - intros g Hg. rewrite I4 by done. unfold b1. by brun.
Qed.

Lemma pack_output_queues tx rx b : queues tx rx b ->
  (exists packed, carries packed (take (Z.to_nat DATA_BITS) rx) /\
    result bridge_pack_output b = (packed, Z.of_nat (length rx) `min` DATA_BITS)) /\
  queues tx (drop (Z.to_nat DATA_BITS) rx) (after bridge_pack_output b).
Proof.
  intros [Ht Hr Hb]. pose proof (ring_count _ _ _ _ _ _ Hr) as Hc. unfold bridge_pack_output. brun.
  set (count := if bsc b RX_COUNT <? DATA_BITS then bsc b RX_COUNT else DATA_BITS).
  assert (count = Z.of_nat (length rx) `min` DATA_BITS) as Ecount.
  { unfold count. destruct (Z.ltb_spec (bsc b RX_COUNT) DATA_BITS); lia. }
  assert (0 <= DATA_BITS) as Hpos by done. set (n := Z.to_nat count).
  destruct (pack_bits_spec n empty_packet 0 _ _ _ Hr ltac:(lia)) as (H1 & H2 & H3 & H4).
  assert (take n rx = take (Z.to_nat DATA_BITS) rx /\ drop n rx = drop (Z.to_nat DATA_BITS) rx) as [Et Ed].
  { unfold n. rewrite Ecount. destruct (Z.min_spec (Z.of_nat (length rx)) DATA_BITS) as [[Hlt ->] | [Hge ->]]; [|done].
    rewrite !take_ge, !drop_ge by lia. done. }
  rewrite Et, Ed in *. split.
  - exists (or_all empty_packet 0 (take (Z.to_nat DATA_BITS) rx)). split; [|f_equal; [exact H1|exact Ecount]].
    apply or_all_carries; [by apply Forall_take|]. rewrite length_take. lia.
  - pose proof (ring_room _ _ _ _ _ _ Hr).
    change (replicate (Z.to_nat DATA_BYTES) 0) with empty_packet.
    split; cbn [tx_bits rx_bits with_sc]; brun; [| |by apply Forall_drop].
    + by rewrite H3, (H4 TX_RD), (H4 TX_WR), (H4 TX_COUNT) by done.
    + cbn [bty]. rewrite u32_cnt by lia.
      by replace (bsc b RX_COUNT - count) with (bsc b RX_COUNT - Z.of_nat n) by lia.
Qed.

(** *** Sequences *)
Lemma lib_pack_bits n : forall p i b, lib (after (pack_bits n p i) b) = lib b.
Proof.
  induction n as [|n IH]; intros p i b; cbn [pack_bits]; brun; [done|]. by rewrite IH.
Qed.
Lemma lib_queue_bits n : forall p i b, lib (after (queue_bits n p i) b) = lib b.
Proof.
  induction n as [|n IH]; intros p i b; cbn [queue_bits]; brun; [done|].
  destruct (_ <? _); brun; [|done]. by rewrite IH.
Qed.
Lemma lib_bridge_op o b : lib (after (bridge_op o) b) = lib b.
Proof.
  destruct o; cbn [bridge_op]; brun; try done.
  - unfold bridge_get_bit. brun. by destruct (nz _).
  - apply lib_queue_bits.
  - unfold bridge_put_data_bit. brun. by destruct (_ || _ || _).
  - destruct (result bridge_pack_output b) as [p c]. brun. unfold bridge_pack_output. brun. cbn [lib with_sc].
    apply lib_pack_bits.
Qed.

Lemma bridge_op_refines o tx rx b : queues tx rx b ->
  exists tx' rx', queues tx' rx' (after (bridge_op o) b) /\
    spec_op (v34_v90_upstream_rx_acquired (lib b)) o (tx, rx) (result (bridge_op o) b) (tx', rx').
Proof.
  intros Hq. destruct o as [|packed count|bit|]; cbn [bridge_op]; brun.
  - destruct (get_bit_queues tx rx b Hq) as [-> H]. do 2 eexists. split; [exact H|].
    destruct tx; [apply SGetIdle|apply SGet].
  - do 2 eexists. split; [by apply queue_input_queues|]. apply SQueue.
  - pose proof (put_data_queues bit tx rx b Hq) as H. do 2 eexists. split; [exact H|].
    destruct (v34_v90_upstream_rx_acquired (lib b)); cbn [andb]; [|by apply SPutIgnored; left].
    destruct (Z.eqb_spec bit 0), (Z.eqb_spec bit 1); cbn [orb]; try (apply SPut; auto).
    apply SPutIgnored. by right.
  - destruct (pack_output_queues tx rx b Hq) as [(packed & Hc & E) H].
    rewrite E. brun. do 2 eexists. split; [exact H|]. by apply SPack.
Qed.

(** C20: the bit queues. Whatever sequence of bits requested, packets queued,
    bits received and packets collected: the two rings of [2^26] bits behave
    as bounded lists. A bit requested is the oldest queued one, or an idle one
    when there is none; a packet queues its first bits (2048 at most) in
    order, as far as there is room; a received bit is kept if the receiver is
    in data mode and there is room; a collected packet carries the oldest
    received bits, 2048 at most, and the rest of it is 0. *)
Theorem bit_queues_refine os tx rx b : queues tx rx b ->
  exists tx' rx',
    spec_ops (v34_v90_upstream_rx_acquired (lib b)) os (tx, rx) (result (bridge_ops os) b) (tx', rx') /\
    queues tx' rx' (after (bridge_ops os) b).
Proof.
  revert tx rx b. induction os as [|o os IH]; intros tx rx b Hq; cbn [bridge_ops]; brun.
  { exists tx, rx. split; [constructor|done]. }
  destruct (bridge_op_refines o tx rx b Hq) as (tx1 & rx1 & Hq1 & Ho).
  destruct (IH tx1 rx1 _ Hq1) as (tx2 & rx2 & Hos & Hq2). rewrite lib_bridge_op in Hos.
  exists tx2, rx2. split; [by eapply SStep|done].
Qed.
End Queues.

(** ** A small library

    A transmitter that walks through its phases as events arrive, and a
    receiver that recovers one bit per sample. *)
Record toy_t := Toy { toy_phase : Z; toy_acquired : bool }.
Fixpoint toy_rx (samples : list Z) (l : toy_t) : calls toy_t unit :=
  match samples with
  | [] => Ret tt l
  | x :: samples =>
      if toy_acquired l then PutDataBit (b2z (x >? 0)) l (toy_rx samples)
      else PutBit (b2z (x >? 0)) l (toy_rx samples)
  end.
#[export] Instance toy : Sibling toy_t := {|
  vpcm_cp_diag_t := bool; diag_zero := false; diag_valid := fun _ => true; diag_acknowledge := fun d => d;
  symbol_t := unit;
  V90_TX_WAIT_JA := 1; V90_TX_JD := 2; V90_TX_DIL := 3; V90_TX_RI := 4; V90_TX_DATA := 9;
  P3_BAUD_3200 := 4; P3_BAUD_COUNT := 6; P3_CARRIER_LOW := 0; P3_CARRIER_HIGH := 1;
  sibling_init := fun _ _ => Some (Toy 1 false);
  p3_demod_process := fun _ _ l => l;
  p3_segment_symbols := fun l => ([Segment 13000 P3_SIGNAL_J; Segment 14000 P3_SIGNAL_S;
    Segment 15000 P3_SIGNAL_S_BAR], l);
  result_symbols := fun _ => []; set_result_symbols := fun _ l => l;
  v90_get_tx_phase := toy_phase;
  v90_training_complete := fun l => toy_phase l =? 9;
  v90_handle_rx_event := fun _ l => (true, Toy (toy_phase l + 1) (toy_acquired l));
  v90_set_phase4_cp := fun _ l => (true, l);
  v90_phase3_tx_codewords := fun l => Ret (if toy_phase l <? 7 then Some 0x55 else None) l;
  v90_data_input_bytes_needed := fun _ => 2;
  v90_tx_data_frame_codewords := fun data _ l => Ret (Some (take 6 data)) l;
  v34_rx := toy_rx;
  v34_begin_rx_data := fun l => (0, Toy (toy_phase l) true);
  v34_v90_prepare_upstream_data := fun _ _ _ l => (0, l);
  v34_v90_upstream_rx_acquired := toy_acquired;
  v34_reject_v90_phase4_hypothesis := fun l => l;
  cp_rx_rejected_frames := fun _ => 0;
  v90_cp_rx_put_bit := fun _ l => CpRet l;
  v90_cp_live_recover := fun samples _ _ expected => Some (nz expected, Meta 0 (Z.of_nat (length samples)))
|}.
Definition toy_bridge (phase : Z) (acquired : bool) : bridge_t := zeroed (Toy phase acquired) [] [].

Lemma empty_queues phase acquired : queues [] [] (toy_bridge phase acquired).
Proof. split; [by apply ring_empty..|constructor]. Qed.

Definition toy_ops : list qop := [QQueue [0x0d] 4; QGet; QPut 1; QPut 2; QGet; QPut 0; QGet; QGet; QPut 1; QGet; QPack].
Lemma bit_queues_refine_witness :
  queues [] [] (toy_bridge 9 true) /\
  result (bridge_ops toy_ops) (toy_bridge 9 true) =
    [NoOut; OutBit 1; NoOut; NoOut; OutBit 0; NoOut; OutBit 1; OutBit 1; NoOut; OutBit 1;
     OutPacket (5 :: replicate 255 0) 3] /\
  exists tx' rx', spec_ops true toy_ops ([], []) (result (bridge_ops toy_ops) (toy_bridge 9 true)) (tx', rx') /\
    queues tx' rx' (after (bridge_ops toy_ops) (toy_bridge 9 true)).
Proof.
  split; [apply empty_queues|]. split; [vm_compute; reflexivity|].
  exact (bit_queues_refine toy_ops [] [] _ (empty_queues 9 true)).
Defined.

(** ** Effects

    [keeps R m]: from any state, [m] ends in a state related to it by the
    preorder [R]. *)
Section Effects.
Context {L : Type} {sib : Sibling L}.
Implicit Types b : bridge_t (L := L).

Definition keeps (R : relation (bridge_t (L := L))) {A} (m : B (L := L) A) : Prop := forall b, R b (after m b).
Class CanPut (R : relation (bridge_t (L := L))) (f : bfield) : Prop := can_put b v : R b (with_sc f v b).
Class LibFree (R : relation (bridge_t (L := L))) : Prop := lib_free b l : R b (with_lib l b).

Lemma after_call {A} (q : L -> A * L) b : after (call q) b = with_lib (snd (q (lib b))) b.
Proof. unfold after, call. by destruct (q (lib b)). Qed.
Lemma result_call {A} (q : L -> A * L) b : result (call q) b = fst (q (lib b)).
Proof. unfold result, call. by destruct (q (lib b)). Qed.

Context (R : relation (bridge_t (L := L))) {HR : PreOrder R}.
Lemma keeps_bind {A C} (m : B A) (f : A -> B C) : keeps R m -> (forall x, keeps R (f x)) -> keeps R (m ≫= f).
Proof. intros Hm Hf b. rewrite after_bind. etransitivity; [apply Hm|apply Hf]. Qed.
Lemma keeps_ret {A} (x : A) : keeps R (mret x). Proof. intros b. reflexivity. Qed.
Lemma keeps_pass : keeps R pass. Proof. intros b. reflexivity. Qed.
Lemma keeps_get f : keeps R (get f). Proof. intros b. reflexivity. Qed.
Lemma keeps_gets {A} (p : bridge_t -> A) : keeps R (gets_ p). Proof. intros b. reflexivity. Qed.
Lemma keeps_ask {A} (q : L -> A) : keeps R (ask q). Proof. intros b. reflexivity. Qed.
Lemma keeps_put f v : CanPut R f -> keeps R (put f v). Proof. intros H b. apply H. Qed.
Lemma keeps_call {A} (q : L -> A * L) : LibFree R -> keeps R (call q).
Proof. intros H b. rewrite after_call. apply H. Qed.
Lemma keeps_act (q : L -> L) : LibFree R -> keeps R (act q). Proof. intros H b. apply H. Qed.
Lemma keeps_with_lib l : LibFree R -> keeps R (modify (with_lib l)). Proof. intros H b. apply H. Qed.
Lemma keeps_if {A} (c : bool) (m m' : B A) : keeps R m -> keeps R m' -> keeps R (if c then m else m').
Proof. by destruct c. Qed.
End Effects.
Lemma bsc_with_lib {L} {sib : Sibling L} l (b : bridge_t (L := L)) f : bsc (with_lib l b) f = bsc b f.
Proof. done. Qed.
#[export] Hint Rewrite @after_call @result_call @bsc_with_lib : bridge.
Create HintDb keeps discriminated.
#[export] Hint Resolve keeps_ret keeps_pass keeps_get keeps_gets keeps_ask : keeps.
Ltac keeps_step :=
  match goal with
  | |- forall _, _ => intro
  | |- keeps _ (_ ≫= _) => refine (keeps_bind _ _ _ _ _); [|intro]
  | |- keeps _ (if ?c then _ else _) =>
      lazymatch type of c with bool => refine (keeps_if _ _ _ _ _ _) | _ => destruct c end
  | |- keeps _ (let _ := _ in _) => cbv zeta
  | |- keeps _ (match ?x with _ => _ end) => destruct x
  | |- keeps _ (put _ _) => first [solve [eauto with keeps]|apply keeps_put; typeclasses eauto]
  | |- keeps _ (call _) => apply keeps_call; typeclasses eauto
  | |- keeps _ (act _) => apply keeps_act; typeclasses eauto
  | |- keeps _ (modify (with_lib _)) => apply keeps_with_lib; typeclasses eauto
  | |- keeps _ _ => solve [eauto with keeps typeclass_instances]
  end.
Ltac keeps_auto := repeat keeps_step.

Section Handover.
Context {L : Type} {sib : Sibling L}.
Implicit Types b : bridge_t (L := L).

(** ** The handover at E *)

(** Twenty ones end after the first [q] bits. *)
Definition run_ends (bits : list Z) (q : nat) : Prop :=
  (20 <= q <= length bits)%nat /\ forall i, (q - 20 <= i < q)%nat -> bits !! i = Some 1.

Fixpoint put_bits (bits : list Z) : B (L := L) unit :=
  match bits with [] => pass | x :: bits => bridge_put_bit x ;; put_bits bits end.

(** The members the recognition of E depends on. *)
Record e_state := EState { e_started : bool; e_complete : bool; e_ones : Z; e_post : Z }.
Definition e_of b : e_state :=
  EState (nz (bsc b UPSTREAM_RX_STARTED)) (nz (bsc b UPSTREAM_E_COMPLETE)) (bsc b UPSTREAM_E_ONES)
    (bsc b UPSTREAM_E_POST_BITS).
Definition looking b : Prop := nz (bsc b UPSTREAM_LOOK_FOR_E) = true /\ nz (bsc b UPSTREAM_PREPARED) = true.

Definition e_next (x : Z) (e : e_state) : e_state :=
  if e_started e then e
  else if e_complete e then
    EState (s32 (e_post e + 1) >=? 2) true (e_ones e) (s32 (e_post e + 1))
  else
    let ones := s32 (if nz x then e_ones e + 1 else 0) in
    EState ((ones >=? 20) && (e_post e >=? 2)) (ones >=? 20) ones (e_post e).

(** Callbacks from the CP receiver leave the recognition alone. *)
Definition e_same b b' : Prop := e_of b' = e_of b /\ (looking b -> looking b').
#[local] Instance e_same_pre : PreOrder e_same.
Proof. split; [by split|]. intros b1 b2 b3 [E1 H1] [E2 H2]. split; [congruence|auto]. Qed.
#[local] Instance e_same_lib : LibFree e_same.
Proof. by split. Qed.
Lemma put_look : keeps e_same (put UPSTREAM_LOOK_FOR_E 1).
Proof. intros b. split; [done|]. intros [_ H]. by split. Qed.
Lemma put_prepared : keeps e_same (put UPSTREAM_PREPARED 1).
Proof. intros b. split; [done|]. intros [H _]. by split. Qed.
#[local] Hint Resolve put_look put_prepared : keeps.

Lemma cp_frame_same d : keeps e_same (bridge_cp_frame d).
Proof. unfold bridge_cp_frame, prepare_upstream. keeps_auto. Qed.
Lemma run_cp_same c : keeps e_same (run_cp c).
Proof.
  induction c as [l|d l k IH]; cbn [run_cp]; [keeps_auto|].
  pose proof (cp_frame_same d). keeps_auto.
Qed.

Lemma put_cp_same x : keeps e_same (put_cp_bit x).
Proof. unfold put_cp_bit. keeps_auto. apply run_cp_same. Qed.

(** One bit, when the library starts the data receiver whenever it is asked to. *)
Lemma put_bit_next x b : (forall l : L, fst (v34_begin_rx_data l) = 0) -> looking b -> x = 0 \/ x = 1 ->
  looking (after (bridge_put_bit x) b) /\ e_of (after (bridge_put_bit x) b) = e_next x (e_of b).
Proof.
  intros Hbegin Hlook Hx.
  assert (negb (x =? 0) && negb (x =? 1) = false) as E by (by destruct Hx as [-> | ->]).
  destruct (put_cp_same x b) as [He Hl]. specialize (Hl Hlook). rewrite <- He.
  unfold bridge_put_bit. rewrite E. brun. set (b1 := after (put_cp_bit x) b) in *. clearbody b1.
  clear He Hlook b. destruct Hl as [Hlook Hprep]. unfold e_next, e_of at 2. cbn [e_started e_complete e_ones e_post].
  destruct (nz (bsc b1 UPSTREAM_RX_STARTED)) eqn:Es; brun.
  { split; [done|]. unfold e_of. by rewrite Es. }
  rewrite Hlook. cbn [negb]. brun. unfold count_e, bridge_begin_upstream_data. brun.
  destruct (nz (bsc b1 UPSTREAM_E_COMPLETE)) eqn:Ec; cbn [negb]; brun.
  - cbn [bty]. rewrite Ec, Hprep, Es. cbn [negb andb].
    rewrite !andb_true_r. destruct (s32 _ >=? 2) eqn:Ep; brun; rewrite ?Hbegin, ?Z.eqb_refl; brun;
      unfold looking, e_of; brun; cbn [bty];
      rewrite ?Hlook, ?Hprep, ?Es, ?Ec; done.
  - cbn [bty]. set (ones := s32 (if nz x then _ else 0)).
    destruct (ones >=? 20) eqn:Eo; brun; cbn [bty];
      rewrite ?Hprep, ?Es, ?Ec; cbn [negb andb nz];
      unfold looking, e_of; brun; rewrite ?Hlook, ?Hprep, ?Es, ?Ec; cbn [e_complete e_post e_ones]; rewrite ?Eo; try done.
    change (nz (s32 1)) with true. cbn [andb]. rewrite !andb_true_r.
    destruct (bsc b1 UPSTREAM_E_POST_BITS >=? 2); brun; rewrite ?Hbegin, ?Z.eqb_refl; brun; rewrite ?Hlook, ?Hprep, ?Es; by cbn [e_complete e_post e_ones].
Qed.

(** The recognition after the bits [bits]: still counting a run of ones
    shorter than twenty, or counting bits since the first run of twenty. *)
Inductive e_inv (bits : list Z) : e_state -> Prop :=
  | ECounting (t : nat) :
      (t <= length bits)%nat -> (t < 20)%nat -> (forall q, ~ run_ends bits q) ->
      (forall i, (length bits - t <= i < length bits)%nat -> bits !! i = Some 1) ->
      ((t < length bits)%nat -> bits !! (length bits - t - 1)%nat <> Some 1) ->
      e_inv bits (EState false false (Z.of_nat t) 0)
  | ERun q ones post :
      run_ends bits q -> (forall q', run_ends bits q' -> (q <= q')%nat) ->
      (length bits < q + 2 -> post = Z.of_nat (length bits - q))%nat ->
      e_inv bits (EState (bool_decide (q + 2 <= length bits)%nat) true ones post).

Lemma run_ends_snoc bits x q : run_ends (bits ++ [x]) q <->
  run_ends bits q \/ (q = S (length bits) /\ (20 <= q)%nat /\ x = 1 /\
    forall i, (q - 20 <= i < length bits)%nat -> bits !! i = Some 1).
Proof.
  unfold run_ends. rewrite length_app. cbn [length]. split.
  - intros [Hq H]. destruct (decide (q = S (length bits))) as [->|].
    + right. split; [done|]. split; [lia|]. split.
      * specialize (H (length bits) ltac:(lia)). rewrite lookup_app_r, Nat.sub_diag in H by lia. by injection H.
      * intros i Hi. rewrite <- (lookup_app_l bits [x]) by lia. apply H. lia.
    + left. split; [lia|]. intros i Hi. rewrite <- (lookup_app_l bits [x]) by lia. apply H. lia.
  - intros [[Hq H]|(-> & Hq & -> & H)].
    + split; [lia|]. intros i Hi. rewrite lookup_app_l by lia. by apply H.
    + split; [lia|]. intros i Hi. destruct (decide (i = length bits)) as [->|].
      * by rewrite lookup_app_r, Nat.sub_diag by lia.
      * rewrite lookup_app_l by lia. apply H. lia.
Qed.

Lemma e_inv_next bits x e : x = 0 \/ x = 1 -> e_inv bits e -> e_inv (bits ++ [x]) (e_next x e).
Proof.
  intros Hx [t Ht1 Ht2 Hno Hones Hend|q ones post Hq Hmin Hpost]; unfold e_next; cbn [e_started e_complete e_ones e_post].
  - assert (length (bits ++ [x]) = S (length bits)) as Hlen by (rewrite length_app; cbn; lia).
    cbn [andb]. rewrite andb_false_r. destruct Hx as [-> | ->]; cbn [nz Z.eqb negb].
    + change (s32 0) with 0. cbn. apply (ECounting _ 0); rewrite ?Hlen; try lia.
      * intros q [H|(_ & _ & ? & _)]%run_ends_snoc; [by apply (Hno q)|done].
      * intros _. rewrite lookup_app_r by lia. by replace (S (length bits) - 0 - 1 - length bits)%nat with 0%nat by lia.
    + rewrite (conv_id S32) by (cbn; lia).
      assert (forall i, (length bits - t <= i < S (length bits))%nat -> (bits ++ [1]) !! i = Some 1) as Hones'.
      { intros i Hi. destruct (decide (i = length bits)) as [->|].
        - by rewrite lookup_app_r, Nat.sub_diag by lia.
        - rewrite lookup_app_l by lia. apply Hones. lia. }
      destruct (decide (t = 19%nat)) as [->|Hne].
      * change (Z.of_nat 19 + 1 >=? 20) with true.
        assert (run_ends (bits ++ [1]) (S (length bits))) as Hrun.
        { split; [lia|]. intros i Hi. apply Hones'. lia. }
        replace false with (bool_decide (S (length bits) + 2 <= length (bits ++ [1%Z]))%nat)
          by (apply bool_decide_eq_false; lia).
        apply ERun; [done| |lia].
        intros q' [H|(-> & _)]%run_ends_snoc; [by destruct (Hno q')|done].
      * assert ((Z.of_nat t + 1 >=? 20) = false) as -> by lia.
        replace (Z.of_nat t + 1) with (Z.of_nat (S t)) by lia. apply ECounting; rewrite ?Hlen; try lia.
        -- intros q [H|(-> & Hq & _ & H)]%run_ends_snoc; [by apply (Hno q)|].
           apply Hend; [lia|]. apply H. lia.
        -- intros i Hi. apply Hones'. lia.
        -- intros Hlt. rewrite lookup_app_l by lia.
           replace (S (length bits) - S t - 1)%nat with (length bits - t - 1)%nat by lia. apply Hend. lia.
  - assert (length (bits ++ [x]) = S (length bits)) as Hlen by (rewrite length_app; cbn; lia).
    assert (run_ends (bits ++ [x]) q) as Hq' by (apply run_ends_snoc; by left).
    assert (forall q', run_ends (bits ++ [x]) q' -> (q <= q')%nat) as Hmin'.
    { intros q' [H|(-> & _)]%run_ends_snoc; [by apply Hmin|]. destruct Hq as [? _]. lia. }
    destruct (bool_decide_reflect (q + 2 <= length bits)%nat) as [Hs|Hs].
    + replace true with (bool_decide (q + 2 <= length (bits ++ [x]))%nat) at 1
        by (apply bool_decide_eq_true; lia). apply ERun; [done..|lia].
    + specialize (Hpost ltac:(lia)). destruct Hq as [Hq _]. rewrite (conv_id S32) by (cbn; lia).
      assert ((post + 1 >=? 2) = bool_decide (q + 2 <= length (bits ++ [x]))%nat) as ->.
      { destruct (Z.geb_spec (post + 1) 2); symmetry; [apply bool_decide_eq_true|apply bool_decide_eq_false]; lia. }
      apply ERun; [done..|]. intros _. lia.
Qed.

(** Data mode starts at the recovered E. Once the receiver is prepared and
    a CP frame has told the bridge to look for E, feeding any bits to the
    Phase 4 callback starts the upstream data receiver exactly when twenty
    consecutive ones have been recovered and two more bits after the first
    such run, however long that takes and whatever the CP receiver reports in
    between, provided the library starts data mode when asked. *)
Theorem e_handover bits b : (forall l : L, fst (v34_begin_rx_data l) = 0) -> looking b ->
  e_of b = EState false false 0 0 -> Forall (fun x => x = 0 \/ x = 1) bits ->
  nz (bsc (after (put_bits bits) b) UPSTREAM_RX_STARTED) = true <->
  exists q, run_ends bits q /\ (q + 2 <= length bits)%nat.
Proof.
  intros Hbegin Hlook He Hbits.
  enough (forall rest done_ b, looking b -> e_inv done_ (e_of b) -> Forall (fun x => x = 0 \/ x = 1) rest ->
    e_inv (done_ ++ rest) (e_of (after (put_bits rest) b))) as H.
  { assert (e_inv bits (e_of (after (put_bits bits) b))) as Hinv.
    { apply (H bits []); [done| |done]. rewrite He. apply (ECounting [] 0); cbn; try lia.
      intros q [Hq _]. cbn in Hq. lia. }
    destruct (e_of (after (put_bits bits) b)) as [st co on po] eqn:E.
    assert (nz (bsc (after (put_bits bits) b) UPSTREAM_RX_STARTED) = st) as -> by (by injection E).
    inversion Hinv as [t ? ? Hno ? ?|q ? ? Hq Hmin ?]; subst.
    - split; [done|]. intros (q & Hq & _). by destruct (Hno q).
    - rewrite bool_decide_eq_true. split; [by eauto|]. intros (q' & Hq' & Hl).
      specialize (Hmin q' Hq'). lia. }
  clear - Hbegin. intros rest. induction rest as [|x rest IH]; intros done_ b Hlook Hinv Hbits; cbn [put_bits]; brun.
  { by rewrite app_nil_r. }
  apply Forall_cons_1 in Hbits as [Hx Hbits].
  destruct (put_bit_next x b Hbegin Hlook Hx) as [Hlook' He].
  replace (done_ ++ x :: rest) with ((done_ ++ [x]) ++ rest) by (by rewrite <- app_assoc).
  apply IH; [done| |done]. rewrite He. by apply e_inv_next.
Qed.
End Handover.

Definition toy_listening : bridge_t := with_sc UPSTREAM_LOOK_FOR_E 1 (with_sc UPSTREAM_PREPARED 1 (toy_bridge 5 false)).
Definition toy_e : list Z := [1; 1; 0] ++ replicate 20 1 ++ [0; 1].
Lemma e_handover_witness :
  nz (bsc (after (put_bits (take 24 toy_e)) toy_listening) UPSTREAM_RX_STARTED) = false /\
  (nz (bsc (after (put_bits toy_e) toy_listening) UPSTREAM_RX_STARTED) = true <->
   exists q, run_ends toy_e q /\ (q + 2 <= length toy_e)%nat) /\
  nz (bsc (after (put_bits toy_e) toy_listening) UPSTREAM_RX_STARTED) = true.
Proof.
  split; [vm_compute; reflexivity|]. split; [|vm_compute; reflexivity].
  apply (e_handover toy_e toy_listening).
  - intros l. reflexivity.
  - split; reflexivity.
  - reflexivity.
  - repeat (constructor; [by auto|]). constructor.
Defined.
