(* ===== verification/BridgeSession.v ===== *)
(** * The event bridge over a whole session

    The invariant of the bridge's state: the rings hold queues, the tables are
    within their bounds, and the mailbox between the main thread and the worker
    is in one of four states. It holds after any number of frames, resets and
    interleavings; from it follow that every frame is answered in full, that a
    recovered CP frame is never stale, and that stopping the worker leaves
    nothing behind. *)
From S2P Require Import Prelude Ring Bridge BridgeSpec.

Section Session.
Context {L : Type} {sib : Sibling L}.
Implicit Types b : bridge_t (L := L).

(** ** Definitions *)

(** Whether CP has been accepted, as the search is told. *)
Definition cp_flag b : Z := b2z (nz (bsc b LIVE_CP_ACCEPTED)).

(** [samples] is the part of the recorded history that starts at [offset]. *)
Definition history_part b (samples : list Z) (offset : Z) : Prop :=
  exists n, samples = take n (drop (Z.to_nat offset) (live_samples b)).

(** A job that searches a part of the history with the current flag. *)
Definition job_current b (j : job_t) : Prop :=
  job_hint j = 1 /\ job_expected j = cp_flag b /\ 0 <= job_offset j < 2 ^ 31 /\
  exists samples, job_samples j = Some samples /\ history_part b samples (job_offset j).

(** The mailbox: nothing outstanding, a job posted, a job being worked on, or
    a result waiting. *)
Inductive mailbox b : Prop :=
  | MEmpty : bsc b LIVE_JOB = 0 -> bsc b LIVE_WORKER_RUNNING = 0 -> bsc b LIVE_RESULT_READY = 0 ->
      worker b = NotStarted \/ worker b = Waiting -> live_job_samples b = None -> mailbox b
  | MPosted : nz (bsc b LIVE_JOB) = true -> bsc b LIVE_WORKER_RUNNING = 0 -> bsc b LIVE_RESULT_READY = 0 ->
      worker b = NotStarted \/ worker b = Waiting ->
      job_current b (Job (live_job_samples b) (bsc b LIVE_JOB_OFFSET) (bsc b LIVE_JOB_HINT) (bsc b LIVE_JOB_EXPECTED)) ->
      mailbox b
  | MRunning j : bsc b LIVE_JOB = 0 -> nz (bsc b LIVE_WORKER_RUNNING) = true -> bsc b LIVE_RESULT_READY = 0 ->
      worker b = Recovering j -> live_job_samples b = None -> job_current b j -> mailbox b
  | MReady j : bsc b LIVE_JOB = 0 -> bsc b LIVE_WORKER_RUNNING = 0 -> nz (bsc b LIVE_RESULT_READY) = true ->
      worker b = Waiting -> live_job_samples b = None -> job_current b j ->
      bsc b LIVE_RESULT_EXPECTED = job_expected j ->
      (nz (bsc b LIVE_RESULT_FOUND) = true ->
       worker_recover (bsc b BAUD_CODE) j = Some (live_diag b, live_meta b)) -> mailbox b.

Record inv b : Prop := {
  inv_queues : exists tx rx, queues tx rx b;
  inv_table : Z.of_nat (length (reported b)) <= MAX_REPORTED_EVENTS;
  inv_keys : NoDup (map (fun r => (rep_start r, rep_type r)) (reported b));
  inv_history : Z.of_nat (length (live_samples b)) <= CP_LIVE_MAX_SAMPLES;
  inv_attempts : 0 <= bsc b LIVE_ATTEMPTS <= CP_LIVE_MAX_ATTEMPTS;
  inv_pos : 0 <= bsc b DATA_FRAME_POS <= DATA_FRAME;
  inv_code : 0 <= bsc b LAST_CODEWORD <= 0xff;
  inv_begin : bsc b UPSTREAM_BEGIN_AT = -1;
  inv_stop : bsc b LIVE_STOP = 0;
  inv_mailbox : mailbox b;
}.
Definition pres b b' : Prop := inv b -> inv b'.

(** [n] octets; and the answer to a frame. *)
Definition octets (n : nat) (l : list Z) : Prop := length l = n /\ Forall (fun x => 0 <= x <= 0xff) l.
Definition answered (i : input_t) (o : output_t) : Prop :=
  octets (Z.to_nat FRAME) (out_frame o) /\
  match in_packet i, out_packet o with
  | None, None => True
  | Some _, Some (header, packed) => octets 4 header /\ octets (Z.to_nat DATA_BYTES) packed
  | _, _ => False
  end.
#[export] Instance pres_pre : PreOrder pres.
Proof. split; [intros b H; exact H|]. intros b1 b2 b3 H1 H2 H. apply H2, H1, H. Qed.

(** Members the invariant mentions besides the rings, and the rings'. *)
Definition mentioned (f : bfield) : bool :=
  match f with
  | LIVE_ATTEMPTS | DATA_FRAME_POS | LAST_CODEWORD | UPSTREAM_BEGIN_AT | LIVE_STOP | LIVE_CP_ACCEPTED
  | LIVE_JOB | LIVE_WORKER_RUNNING | LIVE_JOB_OFFSET | LIVE_JOB_HINT | LIVE_JOB_EXPECTED
  | LIVE_RESULT_READY | LIVE_RESULT_FOUND | LIVE_RESULT_EXPECTED | BAUD_CODE => true
  | _ => false
  end.
Definition ring_field (f : bfield) : bool :=
  match f with TX_RD | TX_WR | TX_COUNT | RX_RD | RX_WR | RX_COUNT => true | _ => false end.

(** ** The invariant depends only on what it mentions *)
Record same_view b b' : Prop := {
  sv_queues : (exists tx rx, queues tx rx b) -> exists tx rx, queues tx rx b';
  sv_sc f : mentioned f = true -> bsc b' f = bsc b f;
  sv_tab : reported b' = reported b;
  sv_hist : live_samples b' = live_samples b;
  sv_job : live_job_samples b' = live_job_samples b;
  sv_diag : live_diag b' = live_diag b;
  sv_meta : live_meta b' = live_meta b;
  sv_worker : worker b' = worker b;
}.

Lemma job_same b b' j : live_samples b' = live_samples b -> bsc b' LIVE_CP_ACCEPTED = bsc b LIVE_CP_ACCEPTED ->
  job_current b j -> job_current b' j.
Proof. unfold job_current, cp_flag, history_part. intros -> ->. done. Qed.

Lemma inv_same b b' : same_view b b' -> inv b -> inv b'.
Proof.
  intros [Hq Hs Ht Hh Hj Hd Hm Hw] [Hq0 H1 H2 H3 H4 H5 H6 H7 H8 H9].
  split; rewrite ?Hs, ?Ht, ?Hh by done; try done; [by apply Hq|].
  pose proof (fun j => job_same b b' j Hh (Hs LIVE_CP_ACCEPTED eq_refl)) as Hjob.
  destruct H9 as [E1 E2 E3 E4 E5|E1 E2 E3 E4 E5|j E1 E2 E3 E4 E5 E6|j E1 E2 E3 E4 E5 E6 E7 E8].
  - apply MEmpty; rewrite ?Hs, ?Hw, ?Hj by done; done.
  - apply MPosted; rewrite ?Hs, ?Hw, ?Hj by done; auto.
  - apply (MRunning _ j); rewrite ?Hs, ?Hw, ?Hj by done; auto.
  - apply (MReady _ j); rewrite ?Hs, ?Hw, ?Hj, ?Hd, ?Hm by done; auto.
Qed.

Lemma queues_put tx rx f v b : ring_field f = false -> queues tx rx b -> queues tx rx (with_sc f v b).
Proof.
  intros Hf [H1 H2 H3].
  assert (forall g, ring_field g = true -> bsc (with_sc f v b) g = bsc b g) as Hg
    by (intros g Hg; apply bsc_ne; congruence).
  split; [| |done]; by rewrite !Hg.
Qed.
Lemma pres_plain f v b : mentioned f || ring_field f = false -> pres b (with_sc f v b).
Proof.
  intros [Hf Hr]%orb_false_iff Hi. apply (inv_same b); [|done]. split; try done.
  - intros (tx & rx & Hq). exists tx, rx. by apply queues_put.
  - intros g Hg. apply bsc_ne. congruence.
Qed.
#[export] Instance pres_put f : TCEq (mentioned f || ring_field f) false -> CanPut pres f.
Proof. intros E%TCEq_eq b v. by apply pres_plain. Qed.
#[export] Instance pres_lib : LibFree pres.
Proof.
  intros b l Hi. apply (inv_same b); [|done]. split; try done.
  intros (tx & rx & [H1 H2 H3]). by exists tx, rx.
Qed.

(** ** Every operation keeps it *)

(** *** The rings *)

(** Nothing but the rings changed. *)
Definition ring_only b b' : Prop :=
  (forall f, mentioned f = true -> bsc b' f = bsc b f) /\ reported b' = reported b /\
  live_samples b' = live_samples b /\ live_job_samples b' = live_job_samples b /\
  live_diag b' = live_diag b /\ live_meta b' = live_meta b /\ worker b' = worker b.
#[local] Instance ring_only_pre : PreOrder ring_only.
Proof.
  split; [by intros b|]. intros b1 b2 b3 (H1 & H2 & H3 & H4 & H5 & H6 & H7) (K1 & K2 & K3 & K4 & K5 & K6 & K7).
  split; [|repeat split; congruence]. intros f Hf. by rewrite K1, H1.
Qed.
#[local] Instance ring_only_put f : TCEq (mentioned f) false -> CanPut ring_only f.
Proof.
  intros E%TCEq_eq b v. split; [|done]. intros g Hg. apply bsc_ne. congruence.
Qed.
Lemma ring_only_tx m : keeps ring_only (modify (with_tx_bits m)). Proof. by intros b. Qed.
Lemma ring_only_rx m : keeps ring_only (modify (with_rx_bits m)). Proof. by intros b. Qed.
#[local] Hint Resolve ring_only_tx ring_only_rx : keeps.

Lemma ring_step {A} (m : B A) : keeps ring_only m ->
  (forall tx rx b, queues tx rx b -> exists tx' rx', queues tx' rx' (after m b)) -> keeps pres m.
Proof.
  intros Hr Hq b Hi. destruct (Hr b) as (H1 & H2 & H3 & H4 & H5 & H6 & H7).
  apply (inv_same b); [|done]. split; try done. intros (tx & rx & H). by apply (Hq tx rx).
Qed.

Lemma pres_get_bit : keeps pres bridge_get_bit.
Proof.
  apply ring_step; [unfold bridge_get_bit; keeps_auto|].
  intros tx rx b H. do 2 eexists. exact (proj2 (get_bit_queues tx rx b H)).
Qed.
Lemma pres_put_data bit : keeps pres (bridge_put_data_bit bit).
Proof.
  apply ring_step; [unfold bridge_put_data_bit; keeps_auto|].
  intros tx rx b H. do 2 eexists. exact (put_data_queues bit tx rx b H).
Qed.
Lemma pres_queue_input packed count : keeps pres (bridge_queue_input packed count).
Proof.
  apply ring_step.
  - unfold bridge_queue_input. cbv zeta. generalize 0. generalize (Z.to_nat (if count >? DATA_BITS then DATA_BITS else count)).
    intros n. induction n as [|n IH]; intros i; cbn [queue_bits]; keeps_auto.
  - intros tx rx b H. do 2 eexists. exact (queue_input_queues packed count tx rx b H).
Qed.
Lemma pres_pack_output : keeps pres bridge_pack_output.
Proof.
  apply ring_step.
  - unfold bridge_pack_output. keeps_step; [keeps_auto|]. cbv zeta.
    assert (forall n p i, keeps ring_only (pack_bits n p i)) as H.
    { intros n. induction n as [|n IH]; intros p i; cbn [pack_bits]; keeps_auto. }
    keeps_auto.
  - intros tx rx b H. do 2 eexists. exact (proj2 (pack_output_queues tx rx b H)).
Qed.
#[local] Hint Resolve pres_get_bit pres_put_data pres_queue_input pres_pack_output : keeps.

(** *** Callbacks and library calls *)
Lemma pres_prepare : keeps pres prepare_upstream.
Proof. unfold prepare_upstream. keeps_auto. Qed.
#[local] Hint Resolve pres_prepare : keeps.
Lemma pres_cp_frame d : keeps pres (bridge_cp_frame d).
Proof. unfold bridge_cp_frame. keeps_auto. Qed.
#[local] Hint Resolve pres_cp_frame : keeps.
Lemma pres_run_cp c : keeps pres (run_cp c).
Proof. induction c as [l|d l k IH]; cbn [run_cp]; keeps_auto. Qed.
#[local] Hint Resolve pres_run_cp : keeps.
Lemma pres_put_bit bit : keeps pres (bridge_put_bit bit).
Proof. unfold bridge_put_bit, put_cp_bit, count_e, bridge_begin_upstream_data. keeps_auto. Qed.
#[local] Hint Resolve pres_put_bit : keeps.
Lemma pres_run_calls {A} (c : calls L A) : keeps pres (run_calls c).
Proof. induction c as [x l|bit l k IH|bit l k IH|l k IH]; cbn [run_calls]; keeps_auto. Qed.
Lemma pres_call_back {A} (q : L -> calls L A) : keeps pres (call_back q).
Proof. pose proof (@pres_run_calls A). unfold call_back. keeps_auto. Qed.
#[local] Hint Resolve pres_call_back : keeps.
Lemma pres_v34_rx samples : keeps pres (bridge_v34_rx samples).
Proof.
  unfold bridge_v34_rx. generalize (length samples). intros n. revert samples.
  induction n as [|n IH]; intros samples; cbn [v34_rx_chunks]; keeps_auto.
Qed.
#[local] Hint Resolve pres_v34_rx : keeps.
Lemma pres_feed samples start : keeps pres (bridge_feed_upstream samples start).
Proof. unfold bridge_feed_upstream, bridge_begin_upstream_data. keeps_auto. Qed.
Lemma pres_trim : keeps pres bridge_trim_result.
Proof. unfold bridge_trim_result. keeps_auto. Qed.
Lemma pres_note : keeps pres bridge_note_phase4.
Proof. unfold bridge_note_phase4, live_sample_count. keeps_auto. Qed.
#[local] Hint Resolve pres_feed pres_trim pres_note : keeps.

(** *** The worker and the mailbox *)

(** Members outside the mailbox that the invariant mentions. *)
Definition off_mailbox (f : bfield) : bool :=
  match f with
  | LIVE_ATTEMPTS | DATA_FRAME_POS | LAST_CODEWORD | UPSTREAM_BEGIN_AT | LIVE_STOP => true
  | _ => ring_field f
  end.
Lemma inv_mail b b' : (forall f, off_mailbox f = true -> bsc b' f = bsc b f) -> reported b' = reported b ->
  live_samples b' = live_samples b -> tx_bits b' = tx_bits b -> rx_bits b' = rx_bits b ->
  mailbox b' -> inv b -> inv b'.
Proof.
  intros Hs Ht Hh Hx Hr Hm [(tx & rx & [Q1 Q2 Q3]) H1 H2 H3 H4 H5 H6 H7 H8 _].
  split; rewrite ?Hs, ?Ht, ?Hh by done; try done.
  exists tx, rx. split; rewrite ?Hx, ?Hr, ?Hs by done; done.
Qed.

Ltac mail_fields := let H := fresh in intros [] H; try discriminate H; reflexivity.

Lemma pres_worker : keeps pres bridge_live_cp_worker.
Proof.
  intros b Hi. unfold bridge_live_cp_worker. brun. destruct (worker b) as [| |j|] eqn:Ew; brun; try done.
  - unfold worker_take. brun. rewrite (inv_stop b Hi). cbn [nz Z.eqb negb].
    destruct (inv_mailbox b Hi) as [E1 E2 E3 E4 E5|E1 E2 E3 E4 E5|j E1 E2 E3 E4 E5 E6|j E1 E2 E3 E4 E5 E6 E7 E8];
      try congruence; rewrite E1; cbn [nz Z.eqb negb]; brun; try done.
    apply (inv_mail b); try reflexivity; [mail_fields| |done].
    eapply MRunning; try reflexivity; [exact E3|]. by apply (job_same b).
  - unfold worker_publish. brun. rewrite (inv_stop b Hi). cbn [nz Z.eqb negb].
    destruct (inv_mailbox b Hi) as [E1 E2 E3 [E4|E4] E5|E1 E2 E3 [E4|E4] E5|j' E1 E2 E3 E4 E5 E6|j' E1 E2 E3 E4 E5 E6 E7 E8];
      try congruence. rewrite E4 in Ew. injection Ew as ->.
    assert (s32 (job_expected j) = job_expected j) as Ex.
    { destruct E6 as (_ & -> & _). unfold cp_flag. by destruct (nz (bsc b LIVE_CP_ACCEPTED)). }
    destruct (worker_recover (bsc b BAUD_CODE) j) as [[d m]|] eqn:Er; brun.
    + apply (inv_mail b); try reflexivity; [mail_fields| |done].
      apply (MReady _ j); try reflexivity; [exact E1|exact E5|exact E6|exact Ex|intros _; exact Er].
    + apply (inv_mail b); try reflexivity; [mail_fields| |done].
      apply (MReady _ j); try reflexivity; [exact E1|exact E5|exact E6|exact Ex|intros [=]].
Qed.

Lemma pres_worker_steps n : keeps pres (worker_steps n).
Proof. pose proof pres_worker. induction n as [|n IH]; cbn [worker_steps]; keeps_auto. Qed.
Lemma pres_env s a : keeps pres (modify (with_env s a)).
Proof.
  intros b Hi. apply (inv_same b); [|done]. split; try done.
  intros (tx & rx & [H1 H2 H3]). by exists tx, rx.
Qed.
#[local] Hint Resolve pres_worker_steps pres_env : keeps.
Lemma pres_lock : keeps pres main_lock.
Proof. unfold main_lock. keeps_auto. Qed.
#[local] Hint Resolve pres_lock : keeps.

(** What the worker leaves to the main thread. *)
Definition worker_field (f : bfield) : bool :=
  match f with
  | LIVE_JOB | LIVE_WORKER_RUNNING | LIVE_RESULT_READY | LIVE_RESULT_FOUND | LIVE_RESULT_EXPECTED => true
  | _ => false
  end.
Definition by_worker b b' : Prop :=
  (forall f, worker_field f = false -> bsc b' f = bsc b f) /\ live_samples b' = live_samples b /\
  reported b' = reported b /\ lib b' = lib b.
#[local] Instance by_worker_pre : PreOrder by_worker.
Proof.
  split; [by intros b|]. intros b1 b2 b3 (H1 & H2 & H3 & H4) (K1 & K2 & K3 & K4).
  split; [|repeat split; congruence]. intros f Hf. by rewrite K1, H1.
Qed.
#[local] Instance by_worker_put f : TCEq (worker_field f) true -> CanPut by_worker f.
Proof. intros E%TCEq_eq b v. split; [|done]. intros g Hg. apply bsc_ne. congruence. Qed.
Lemma by_worker_mod f : (forall b, by_worker b (f b)) -> keeps by_worker (modify f).
Proof. intros H b. apply H. Qed.
Lemma by_worker_lock : keeps by_worker main_lock.
Proof.
  assert (forall w, keeps by_worker (modify (with_worker w))) by (intros w b; done).
  assert (forall s, keeps by_worker (modify (with_job_samples s))) by (intros w b; done).
  assert (forall d m, keeps by_worker (modify (with_result d m))) by (intros d m b; done).
  assert (forall s a, keeps by_worker (modify (with_env s a))) by (intros s a b; done).
  assert (keeps by_worker bridge_live_cp_worker)
    by (unfold bridge_live_cp_worker, worker_take, worker_publish; keeps_auto).
  assert (forall n, keeps by_worker (worker_steps n)).
  { intros n. induction n as [|n IH]; cbn [worker_steps]; keeps_auto. }
  unfold main_lock. keeps_auto.
Qed.

(** The scalars with bounds of their own. *)
Lemma inv_bounded f v b :
  match f with
  | LIVE_ATTEMPTS => 0 <= v <= CP_LIVE_MAX_ATTEMPTS
  | DATA_FRAME_POS => 0 <= v <= DATA_FRAME
  | LAST_CODEWORD => 0 <= v <= 0xff
  | _ => False
  end -> inv b -> inv (with_sc f v b).
Proof.
  intros Hv [(tx & rx & Hq) H1 H2 H3 H4 H5 H6 H7 H8 H9].
  assert (mailbox (with_sc f v b)) as Hm.
  { destruct f; try done;
    (destruct H9 as [E1 E2 E3 E4 E5|E1 E2 E3 E4 E5|j E1 E2 E3 E4 E5 E6|j E1 E2 E3 E4 E5 E6 E7 E8];
     [by apply MEmpty|by apply MPosted|by apply (MRunning _ j)|by apply (MReady _ j)]). }
  assert (ring_field f = false) as Hr by (by destruct f).
  split; try done; try (by exists tx, rx; apply queues_put); destruct f; done.
Qed.

(** Posting a job into the empty mailbox. *)
Lemma after_malloc b : exists s a, after malloc_ok b = with_env s a b.
Proof.
  unfold malloc_ok. brun. destruct (allocs b) as [|x a] eqn:E; brun.
  - exists (sched b), (allocs b). by destruct b.
  - by do 2 eexists.
Qed.

Lemma history_tail b offset : history_part b (drop (Z.to_nat offset) (live_samples b)) offset.
Proof. exists (length (live_samples b)). by rewrite take_ge by (rewrite length_drop; lia). Qed.

Lemma pres_try : keeps pres bridge_live_cp_try.
Proof.
  unfold bridge_live_cp_try, live_sample_count.
  intros b Hi. brun. destruct (_ || _ || _ || _ || _) eqn:Eg; brun; [done|].
  apply orb_false_iff in Eg as [[[[_ _]%orb_false_iff _]%orb_false_iff Hatt]%orb_false_iff _].
  pose proof (pres_lock b Hi) as Hl. destruct (by_worker_lock b) as (Hf & Hh & _).
  set (b1 := after main_lock b) in *. clearbody b1.
  destruct (_ || _ || _) eqn:Em; brun; [done|].
  apply orb_false_iff in Em as [[Ej Er]%orb_false_iff Ey].
  destruct (after_malloc b1) as (s & a & Ea).
  pose proof (pres_env s a b1 Hl) as Hi2. change (inv (with_env s a b1)) in Hi2.
  destruct (result malloc_ok b1); cbn [negb]; brun; rewrite Ea; [|done].
  apply nz_false in Ej, Er, Ey. set (offset := if _ <? 0 then 0 else _).
  pose proof (inv_history b Hi) as Hist. change CP_LIVE_MAX_SAMPLES with 480160 in Hist.
  assert (0 <= offset < 2 ^ 31) as Ho.
  { unfold offset, CP_LIVE_SEARCH_TAIL. destruct (Z.ltb_spec (Z.of_nat (length (live_samples b)) - 2000) 0); lia. }
  destruct (inv_mailbox _ Hi2) as [E1 E2 E3 E4 E5|E1|j E1 E2|j E1 E2 E3];
    [|cbn [bsc with_env] in E1; by rewrite Ej in E1|cbn [bsc with_env] in E2; by rewrite Er in E2|cbn [bsc with_env] in E3; by rewrite Ey in E3].
  apply pres_plain; [done|]. apply inv_bounded.
  { rewrite (conv_id S32) by (pose proof (inv_attempts b Hi) as Hb; cbn; change CP_LIVE_MAX_ATTEMPTS with 1024 in *; lia).
    pose proof (inv_attempts b Hi). change CP_LIVE_MAX_ATTEMPTS with 1024 in *. lia. }
  apply (inv_mail (with_env s a b1)); try reflexivity; [mail_fields| |done].
  apply MPosted; try reflexivity; [exact E2|exact E3|exact E4|].
  split; [reflexivity|]. split; [|split].
  - cbn [job_expected]. brun. unfold cp_flag. brun. cbn [bsc with_env with_job_samples].
    rewrite (Hf LIVE_CP_ACCEPTED) by done. by destruct (nz _).
  - cbn [job_offset]. brun. cbn [bty]. rewrite (conv_id S32) by (cbn; lia). done.
  - assert (s32 offset = offset) as Eo by (apply conv_id; cbn; lia).
    eexists. split; [reflexivity|]. destruct (history_tail b1 offset) as [n Hn]. exists n.
    cbn [job_offset]. brun. cbn [bty live_samples with_sc with_job_samples with_env]. rewrite Eo. exact Hn.
Qed.
#[local] Hint Resolve pres_try : keeps.

(** Taking a result out empties the mailbox. *)
Lemma take_result_inv b : inv b ->
  let b1 := after take_result b in
  inv b1 /\ match result take_result b with
  | None => True
  | Some (found, expected, diag, meta) =>
      (bsc b1 LIVE_JOB = 0 /\ bsc b1 LIVE_WORKER_RUNNING = 0 /\ bsc b1 LIVE_RESULT_READY = 0 /\
       worker b1 = Waiting /\ live_job_samples b1 = None) /\
      exists j, job_current b1 j /\ expected = cp_flag b1 /\
        (found = true -> worker_recover (bsc b1 BAUD_CODE) j = Some (diag, meta))
  end.
Proof.
  intros Hi. unfold take_result. brun. pose proof (pres_lock b Hi) as Hl.
  set (b1 := after main_lock b) in *. clearbody b1. clear Hi b.
  destruct (nz (bsc b1 LIVE_RESULT_READY)) eqn:Er; cbn [negb]; brun; [|done].
  destruct (inv_mailbox b1 Hl) as [E1 E2 E3|E1 E2 E3|j E1 E2 E3|j E1 E2 E3 E4 E5 E6 E7 E8];
    try (by rewrite E3 in Er). split.
  - apply (inv_mail b1); try reflexivity; [mail_fields| |done].
    apply MEmpty; try reflexivity; [exact E1|exact E2|by right|exact E5].
  - split; [done|]. exists j. split; [exact E6|]. split; [|exact E8].
    rewrite E7. apply E6.
Qed.

Lemma inv_accept b : bsc b LIVE_JOB = 0 -> bsc b LIVE_WORKER_RUNNING = 0 -> bsc b LIVE_RESULT_READY = 0 ->
  worker b = Waiting -> live_job_samples b = None -> inv b -> inv (after (put LIVE_CP_ACCEPTED 1) b).
Proof.
  intros E1 E2 E3 E4 E5 Hi. brun. apply (inv_mail b); try reflexivity; [mail_fields| |done].
  apply MEmpty; try reflexivity; [exact E1|exact E2|exact E3|by right|exact E5].
Qed.

Lemma pres_data_cp ack last : keeps pres (apply_data_cp ack last).
Proof. unfold apply_data_cp, replay_from, live_sample_count. keeps_auto. Qed.
#[local] Hint Resolve pres_data_cp : keeps.

Lemma pres_apply : keeps pres bridge_live_cp_apply.
Proof.
  intros b Hi. unfold bridge_live_cp_apply. brun. destruct (negb _); brun; [done|].
  destruct (take_result_inv b Hi) as [H1 H2].
  destruct (result take_result b) as [[[[[] expected] diag] meta]|]; brun; [|done..].
  destruct (_ && _ && _); brun; [done|].
  destruct (negb _); brun; [by apply pres_lib|].
  destruct H2 as [(E1 & E2 & E3 & E4 & E5) _].
  set (b1 := after take_result b) in *. clearbody b1.
  set (b2 := with_lib _ b1).
  assert (inv (after (put LIVE_CP_ACCEPTED 1) b2)) as H3.
  { apply inv_accept; try done. by apply pres_lib. }
  change (with_sc LIVE_CP_ACCEPTED _ b2) with (after (put LIVE_CP_ACCEPTED 1) b2).
  set (b3 := after (put LIVE_CP_ACCEPTED 1) b2) in *. clearbody b3.
  assert (keeps pres ((if nz expected then apply_data_cp (diag_acknowledge diag) (last_sample meta) else pass) ;;
    call (v90_handle_rx_event V90_RX_EVENT_CP_VALID) ;; pass)) as Hk by keeps_auto.
  specialize (Hk b3 H3). revert Hk. by brun.
Qed.
#[local] Hint Resolve pres_apply : keeps.

(** *** The event table *)
Definition event_key (r : reported_event_t) : Z * p3_signal_type_t := (rep_start r, rep_type r).

Lemma inv_reported r b : Z.of_nat (length r) <= MAX_REPORTED_EVENTS -> NoDup (map event_key r) -> inv b ->
  inv (with_reported r b).
Proof.
  intros Hl Hn [(tx & rx & [Q1 Q2 Q3]) H1 H2 H3 H4 H5 H6 H7 H8 H9]. split; try done.
  - exists tx, rx. by split.
  - destruct H9 as [E1 E2 E3 E4 E5|E1 E2 E3 E4 E5|j E1 E2 E3 E4 E5 E6|j E1 E2 E3 E4 E5 E6 E7 E8];
      [by apply MEmpty|by apply MPosted|by apply (MRunning _ j)|by apply (MReady _ j)].
Qed.

Lemma report_event_lib type b : exists l, after (report_event type) b = with_lib l b.
Proof.
  unfold report_event. brun.
  assert (b = with_lib (lib b) b) as Eb by by destruct b.
  destruct (match type with P3_SIGNAL_S | P3_SIGNAL_S_BAR => _ | _ => _ end) as [ev|]; brun; by eexists.
Qed.

Lemma after_publish j seg phase b : exists l acc,
  after (publish_event j seg phase) b = with_reported
    (alter (fun r => Reported (rep_start r) (rep_type r) phase acc) j (reported b)) (with_lib l b).
Proof.
  unfold publish_event. brun. destruct (report_event_lib (seg_type seg) b) as [l ->]. by exists l, (result (report_event (seg_type seg)) b).
Qed.

Lemma alter_keys l j f : (forall r, event_key (f r) = event_key r) -> map event_key (alter f j l) = map event_key l.
Proof.
  intros Hf. apply list_eq. intros i. change (map event_key ?x) with (event_key <$> x).
  rewrite !list_lookup_fmap. destruct (decide (i = j)) as [->|].
  - rewrite list_lookup_alter, decide_True by done. destruct (l !! j) as [r|]; [|done]. cbn [fmap option_fmap option_map]. by rewrite Hf.
  - by rewrite list_lookup_alter_ne.
Qed.

Lemma pres_publish j seg phase : keeps pres (publish_event j seg phase).
Proof.
  intros b Hi. destruct (after_publish j seg phase b) as (l & acc & ->).
  apply inv_reported; [|rewrite alter_keys by done; apply (inv_keys b Hi)|by apply pres_lib].
  rewrite length_alter. apply (inv_table b Hi).
Qed.
#[local] Hint Resolve pres_publish : keeps.

Lemma find_reported_none seg l : find_reported seg l = None -> (start_sample seg, seg_type seg) ∉ map event_key l.
Proof.
  unfold find_reported. intros E. apply fmap_None, list_find_None in E. rewrite Forall_forall in E.
  intros Hin. apply list_elem_of_In, in_map_iff in Hin as (r & Hk & Hr).
  apply (E r); [done|]. injection Hk as E1 E2. unfold same_event.
  by rewrite E1, E2, Z.eqb_refl, bool_decide_true.
Qed.

Lemma pres_event seg : keeps pres (bridge_event seg).
Proof.
  intros b Hi. unfold bridge_event. brun.
  destruct (opaque_type _); brun; [done|]. destruct (_ <? _); brun; [done|].
  destruct (reported_type _); brun; [|done].
  destruct (find_reported seg (reported b)) as [j|] eqn:Ef.
  - destruct (reported b !! j); [|done]. destruct (_ || _); [done|]. by apply pres_publish.
  - destruct (Z.ltb_spec (Z.of_nat (length (reported b))) MAX_REPORTED_EVENTS); brun; [|done].
    apply pres_publish, inv_reported; [rewrite length_app; cbn [length]; lia| |done].
    rewrite map_app. apply list.NoDup_app. split; [apply (inv_keys b Hi)|]. split; [|apply NoDup_singleton].
    intros k Hk Hin. apply list_elem_of_singleton in Hin as ->. by apply (find_reported_none seg (reported b)).
Qed.
#[local] Hint Resolve pres_event : keeps.
Lemma pres_events : keeps pres bridge_events.
Proof.
  assert (forall segs, keeps pres (bridge_event_list segs)) as H.
  { intros segs. induction segs as [|seg segs IH]; cbn [bridge_event_list]; keeps_auto. }
  unfold bridge_events. keeps_auto.
Qed.
#[local] Hint Resolve pres_events : keeps.

(** *** One frame *)
Lemma take_prefix {A} n (d x : list A) : take (length (take n d)) (d ++ x) = take n d.
Proof.
  rewrite take_app_le by (rewrite length_take; lia). rewrite length_take.
  destruct (Nat.min_spec n (length d)) as [[Hn ->]|[Hn ->]]; [done|]. by rewrite !take_ge by lia.
Qed.
Lemma history_grows b x j : job_current b j -> job_current (with_live_samples (live_samples b ++ x) b) j.
Proof.
  intros (H1 & H2 & H3 & samples & H4 & n & H5). split; [done|]. split; [done|]. split; [done|].
  exists samples. split; [done|]. exists (length samples). cbn [live_samples with_live_samples].
  destruct (decide (Z.to_nat (job_offset j) <= length (live_samples b))%nat).
  - by rewrite drop_app_le, H5, take_prefix.
  - rewrite drop_ge, take_nil in H5 by lia. by subst samples.
Qed.

Lemma inv_record b x : Z.of_nat (length (live_samples b ++ x)) <= CP_LIVE_MAX_SAMPLES -> inv b ->
  inv (with_live_samples (live_samples b ++ x) b).
Proof.
  intros Hl [(tx & rx & [Q1 Q2 Q3]) H1 H2 H3 H4 H5 H6 H7 H8 H9]. split; try done.
  - exists tx, rx. by split.
  - destruct H9 as [E1 E2 E3 E4 E5|E1 E2 E3 E4 E5|j E1 E2 E3 E4 E5 E6|j E1 E2 E3 E4 E5 E6 E7 E8].
    + by apply MEmpty.
    + apply MPosted; try done. by apply (history_grows b).
    + apply (MRunning _ j); try done. by apply history_grows.
    + apply (MReady _ j); try done. by apply history_grows.
Qed.

Lemma pres_history linear : keeps pres (record_history linear).
Proof.
  unfold record_history, live_sample_count. do 2 (keeps_step; [keeps_auto|]).
  intros b Hi. destruct (_ && _); brun; [|done]. destruct (_ >? 0); brun; [|done].
  pose proof (pres_lock b Hi) as Hl. destruct (by_worker_lock b) as (_ & Hh & _).
  set (b1 := after main_lock b) in *. clearbody b1.
  apply inv_record; [|done]. rewrite length_app, Hh, length_take. pose proof (inv_history b Hi) as Hist.
  change CP_LIVE_MAX_SAMPLES with 480160 in *. change FRAME with 160.
  destruct (Z.gtb_spec (Z.of_nat (length (live_samples b)) + 160) 480160); [lia|].
  change (Z.to_nat 160) with 160%nat. lia.
Qed.
Lemma pres_train linear : keeps pres (train_frame linear).
Proof. unfold train_frame. keeps_auto. Qed.
Lemma pres_feed_receiver linear : keeps pres (feed_receiver linear).
Proof. unfold feed_receiver, feed_delayed, bridge_begin_upstream_data. keeps_auto. Qed.
Lemma pres_scan : keeps pres scan_events.
Proof. unfold scan_events. keeps_auto. Qed.
#[local] Hint Resolve pres_history pres_train pres_feed_receiver pres_scan : keeps.

Lemma octets_cons n x l : 0 <= x <= 0xff -> octets n l -> octets (S n) (x :: l).
Proof. intros Hx [H1 H2]. split; [by cbn; rewrite H1|by constructor]. Qed.
Lemma u8_octet x : 0 <= u8 x <= 0xff.
Proof. exact (conv_range U8 x). Qed.

Lemma repeat_octets n b : inv b -> inv (after (repeat_last n) b) /\ octets n (result (repeat_last n) b).
Proof.
  intros Hi. unfold repeat_last. brun. split; [done|]. split; [apply length_replicate|].
  apply Forall_replicate. apply (inv_code b Hi).
Qed.
Lemma pres_gather n : keeps pres (gather_bytes n).
Proof.
  assert (forall k bit byte, keeps pres (gather_bits k bit byte)) as H.
  { intros k. induction k as [|k IH]; intros bit byte; cbn [gather_bits]; keeps_auto. }
  induction n as [|n IH]; cbn [gather_bytes]; keeps_auto.
Qed.
#[local] Hint Resolve pres_gather : keeps.

(** [m] keeps the invariant and returns [n] octets. *)
Definition gives (n : nat) (m : B (L := L) (list Z)) : Prop :=
  forall b, inv b -> inv (after m b) /\ octets n (result m b).
Lemma gives_bind {A} n (m : B A) f : keeps pres m -> (forall x, gives n (f x)) -> gives n (m ≫= f).
Proof. intros Hm Hf b Hi. rewrite after_bind, result_bind. apply Hf, Hm, Hi. Qed.
Lemma gives_repeat n : gives n (repeat_last n).
Proof. intros b. apply repeat_octets. Qed.
(** A codeword that is stored as the last one. *)
Lemma gives_codeword n c x (m : B (list Z)) : 0 <= x <= 0xff -> gives n m ->
  gives (S n) (put LAST_CODEWORD c ;; rest ← m; mret (x :: rest)).
Proof.
  intros Hx Hm b Hi. brun.
  assert (inv (with_sc LAST_CODEWORD (conv (bty LAST_CODEWORD) c) b)) as H1
    by (apply inv_bounded; [apply u8_octet|done]).
  destruct (Hm _ H1) as [H2 H3]. split; [done|]. by apply octets_cons.
Qed.

Lemma pres_data_frame x : keeps pres (modify (with_data_frame x)).
Proof.
  intros b Hi. apply (inv_same b); [|done]. split; try done. intros (tx & rx & [H1 H2 H3]). by exists tx, rx.
Qed.
#[local] Hint Resolve pres_data_frame : keeps.
Lemma pres_pos_0 : keeps pres (put DATA_FRAME_POS 0).
Proof. intros b Hi. by apply inv_bounded. Qed.
#[local] Hint Resolve pres_pos_0 : keeps.

Lemma next_frame_spec b : inv b -> inv (after next_data_frame b) /\
  (result next_data_frame b = true -> bsc (after next_data_frame b) DATA_FRAME_POS < DATA_FRAME).
Proof.
  intros Hi. split; [unfold next_data_frame; revert b Hi; change (keeps pres next_data_frame); unfold next_data_frame; keeps_auto|].
  unfold next_data_frame. brun. destruct (Z.geb_spec (bsc b DATA_FRAME_POS) DATA_FRAME); brun; [|lia].
  destruct (result (call_back _) _); brun; done.
Qed.

Lemma tx_loop_gives n : gives n (tx_loop n).
Proof.
  induction n as [|n IH]; cbn [tx_loop]; [intros b Hi; split; [done|by split]|].
  apply gives_bind; [keeps_auto|]. intros complete. destruct (negb complete).
  - apply gives_bind; [keeps_auto|]. intros [c|]; [|apply gives_repeat].
    apply gives_codeword; [apply u8_octet|done].
  - intros b Hi. rewrite after_bind, result_bind. destruct (next_frame_spec b Hi) as [H1 H2].
    destruct (result next_data_frame b); cbn [negb]; [|by apply gives_repeat].
    specialize (H2 eq_refl). set (b1 := after next_data_frame b) in *. clearbody b1. brun.
    pose proof (inv_pos b1 H1) as Hp. change DATA_FRAME with 6 in *.
    set (b2 := with_sc DATA_FRAME_POS _ b1). set (c := u8 _).
    assert (inv b2) as Hb2.
    { apply inv_bounded; [|done]. cbn [bty]. rewrite (conv_id S32) by (cbn; lia). change DATA_FRAME with 6. lia. }
    pose proof (gives_codeword n c c (tx_loop n) (u8_octet _) IH b2 Hb2) as H. revert H. by brun.
Qed.

Lemma tx_gives n : gives (Z.to_nat n) (bridge_tx_codewords n).
Proof. apply tx_loop_gives. Qed.

Lemma byte_mask x : 0 <= x &&& 0xff <= 0xff.
Proof.
  change 0xff with (2 ^ 8 - 1). rewrite land_mask_mod by lia. pose proof (Z.mod_pos_bound x (2 ^ 8) ltac:(lia)). lia.
Qed.

Lemma process_frame_spec i b : inv b ->
  inv (after (process_frame i) b) /\
  octets (Z.to_nat FRAME) (out_frame (result (process_frame i) b)) /\
  match in_packet i, out_packet (result (process_frame i) b) with
  | None, None => True
  | Some _, Some (header, packed) => octets 4 header /\ octets (Z.to_nat DATA_BYTES) packed
  | _, _ => False
  end.
Proof.
  intros Hi. unfold process_frame. cbv zeta. set (linear := map pcmu_decode (in_frame i)).
  rewrite !after_bind, !result_bind.
  pose proof (pres_trim _ (pres_scan _ (pres_feed_receiver linear _ (pres_train linear _ (pres_history linear b Hi))))) as H1.
  set (b1 := after bridge_trim_result _) in *. clearbody b1. clear Hi b.
  destruct (tx_gives FRAME b1 H1) as [H2 Ho].
  set (b2 := after (bridge_tx_codewords FRAME) b1) in *. clearbody b2.
  destruct (in_packet i) as [p|]; brun; [|done].
  pose proof (pres_pack_output b2 H2) as H3. destruct (inv_queues b2 H2) as (tx & rx & Hq).
  destruct (pack_output_queues tx rx b2 Hq) as [(packed & (Hc1 & Hc2 & _) & Er) _].
  unfold reply_packet. brun. rewrite Er. brun. split; [done|]. split; [done|]. cbn [out_packet].
  split; [|done]. split; [done|].
  repeat (constructor; [apply byte_mask|]). constructor.
Qed.

(** *** Initialisation and the loop *)
Lemma zeroed_queues l s a : queues [] [] (zeroed l s a).
Proof. split; [by apply ring_empty..|constructor]. Qed.

Lemma configured_inv e l s a w sync : w = NotStarted \/ w = Waiting ->
  inv (with_worker w (after (configure e ;; put LIVE_SYNC_INITIALIZED sync) (zeroed l s a))).
Proof.
  intros Hw. unfold configure. brun.
  split; try (exists [], []; destruct (zeroed_queues l s a) as [H1 H2 H3]; split; done);
    try (cbn; lia); try done; [constructor|].
  by apply MEmpty.
Qed.

Lemma bridge_init_inv e s a b : bridge_init e s a = Some b -> inv b.
Proof.
  unfold bridge_init. destruct (e_queues_ok e); [|done]. destruct (sibling_init _ _) as [l|]; [|done].
  destruct ((configure e ;; bridge_live_cp_start (e_thread_ok e)) (zeroed l s a)) as [r b1] eqn:E.
  assert (r = result (configure e ;; bridge_live_cp_start (e_thread_ok e)) (zeroed l s a)) as -> by (unfold result; by rewrite E).
  assert (b1 = after (configure e ;; bridge_live_cp_start (e_thread_ok e)) (zeroed l s a)) as -> by (unfold after; by rewrite E).
  clear E. unfold bridge_live_cp_start. destruct (_ =? 0) eqn:E; [|done]. intros [= <-]. revert E.
  pose proof (configured_inv e l s a) as H. revert H. brun.
  set (b0 := after (configure e) (zeroed l s a)). intros H.
  destruct (nz (bsc b0 LIVE_ENABLED)); cbn [negb]; brun.
  - destruct (e_thread_ok e); brun; [|done]. intros _. apply H. by right.
  - intros _. specialize (H NotStarted 0 (or_introl eq_refl)).
    apply (inv_same (with_worker NotStarted (with_sc LIVE_SYNC_INITIALIZED 0 b0))); [|done].
    split; try done; [intros (tx & rx & [H1 H2 H3]); by exists tx, rx|].
    intros f Hf. change (bsc b0 f = bsc (with_sc LIVE_SYNC_INITIALIZED 0 b0) f). rewrite bsc_ne; [done|]. by intros ->.
Qed.

Lemma bridge_step_spec i m b o b' m' : inv b -> bridge_step i m b = Some (o, b', m') ->
  inv b' /\ answered i o.
Proof.
  unfold bridge_step. intros Hi.
  assert (keeps pres (accept_packet (in_packet i))) as Ha.
  { unfold accept_packet. destruct (in_packet i) as [[header bits]|]; keeps_auto. }
  specialize (Ha b Hi). unfold after in Ha. destruct (accept_packet (in_packet i) b) as [u b1]. cbn [snd] in Ha.
  destruct (bridge_reset_if_requested i m b1) as [[b2 m2]|] eqn:Er; [|done].
  assert (inv b2) as H2.
  { revert Er. unfold bridge_reset_if_requested. destruct (in_mtime i) as [t|]; [|by intros [= <- <-]].
    destruct (t =? m); [by intros [= <- <-]|]. destruct (bridge_live_cp_stop b1) as [u' b1'].
    destruct (bridge_init _ _ _) as [b3|] eqn:E3; [|done]. intros [= <- <-]. by eapply bridge_init_inv. }
  cbn. destruct (process_frame i b2) as [o2 b3] eqn:Ep. intros [= <- <- <-].
  pose proof (process_frame_spec i b2 H2) as H3. unfold after, result in H3. rewrite Ep in H3. cbn [fst snd] in H3.
  unfold answered. tauto.
Qed.
Lemma bridge_step_reset i m b : bridge_step i m b = None -> in_mtime i <> None.
Proof.
  unfold bridge_step. destruct (accept_packet _ b) as [u b1]. unfold bridge_reset_if_requested.
  destruct (in_mtime i) as [t|]; [done|]. cbn. by destruct (process_frame i b1).
Qed.

Lemma bridge_loop_spec is_ : forall m b os bo, inv b -> bridge_loop is_ m b = (os, bo) ->
  Forall2 answered (take (length os) is_) os /\
  match bo with
  | Some b' => length os = length is_ /\ inv b'
  | None => exists i, is_ !! length os = Some i /\ in_mtime i <> None
  end.
Proof.
  induction is_ as [|i is_ IH]; intros m b os bo Hi; cbn [bridge_loop].
  { intros [= <- <-]. by split; [constructor|]. }
  destruct (bridge_step i m b) as [[[o b1] m1]|] eqn:Es.
  - destruct (bridge_step_spec _ _ _ _ _ _ Hi Es) as [H1 Ho].
    destruct (bridge_loop is_ m1 b1) as [os1 b2] eqn:El. intros [= <- <-].
    destruct (IH _ _ _ _ H1 El) as [H2 H3]. cbn [length take]. split; [by constructor|].
    destruct b2; [|done]. destruct H3. by split; [f_equal|].
  - intros [= <- <-]. split; [constructor|]. exists i. split; [done|]. by eapply bridge_step_reset.
Qed.

(** C19: every frame is answered. In any session, whatever the library answers,
    however the worker is scheduled and whichever allocations fail: each frame
    of 160 octets is answered, in order, with 160 octets, and a payload packet
    with a four-octet header and 256 octets, until a requested reset fails.
    Throughout, the rings hold queues, no more than 128 distinct events are
    recorded, the history stays within its 480160 samples and the searches
    within 1024, the position in the data frame stays in it, and the mailbox
    is in one of its four states. *)
Theorem every_frame_answered e s a is_ b os bo : bridge_init e s a = Some b -> bridge_loop is_ 0 b = (os, bo) ->
  Forall2 answered (take (length os) is_) os /\
  match bo with
  | Some b' => length os = length is_ /\ inv b'
  | None => exists i, is_ !! length os = Some i /\ in_mtime i <> None
  end.
Proof. intros Hb. by apply bridge_loop_spec, (bridge_init_inv e s a). Qed.

(** C21: no stale result. At whatever point of a session the main thread takes
    a result out of the mailbox, it was asked for with the state of CP
    acceptance that still holds, and, when it found a frame, that is what the
    library recovers from a part of the history recorded so far, with the
    frame's positions moved to where that part starts. *)
Theorem results_are_current e s a is_ b os b' linear found expected diag meta :
  bridge_init e s a = Some b -> bridge_loop is_ 0 b = (os, Some b') ->
  let b1 := after (record_history linear ;; act (p3_demod_process linear (bsc b' SAMPLE_OFFSET))) b' in
  let b2 := after take_result b1 in
  result take_result b1 = Some (found, expected, diag, meta) ->
  expected = cp_flag b2 /\
  (found = true -> exists samples offset meta', 0 <= offset < 2 ^ 31 /\ history_part b2 samples offset /\
     v90_cp_live_recover samples 1 (bsc b2 BAUD_CODE) expected = Some (diag, meta') /\
     meta = Meta (s32 (frame_sample meta' + offset)) (s32 (last_sample meta' + offset))).
Proof.
  intros Hb Hl b1 b2 Hr. destruct (bridge_loop_spec _ _ _ _ _ (bridge_init_inv _ _ _ _ Hb) Hl) as [_ [_ Hi]].
  assert (inv b1) as H1.
  { unfold b1. rewrite after_bind. by apply pres_lib, pres_history. }
  destruct (take_result_inv b1 H1) as [H2 H3]. fold b2 in H2, H3. rewrite Hr in H3.
  destruct H3 as (_ & j & (Hh & He & Ho & samples & Hs & Hp) & -> & Hf). split; [done|].
  intros Hfound. specialize (Hf Hfound). unfold worker_recover in Hf. rewrite Hs, Hh, He in Hf. cbn in Hf.
  destruct (v90_cp_live_recover samples 1 _ _) as [[d m]|] eqn:Erec; [|done]. injection Hf as <- <-.
  exists samples, (job_offset j), m. split; [done|]. split; [done|]. by split.
Qed.
End Session.

(** ** A session of the small library *)
Definition toy_env : env_t := Env None None None None None (Some 1) true true.
Definition toy_input (packet : bool) : input_t :=
  Input (replicate 160 0x20) (if packet then Some ([12; 0; 0; 0], [0xff; 0x0f]) else None) None toy_env.
Definition toy_session (n : nat) : list input_t := toy_input true :: replicate n (toy_input false).
Definition toy_start : bridge_t := default (toy_bridge 0 false) (bridge_init toy_env (replicate 50 2%nat) []).
Lemma toy_starts : bridge_init toy_env (replicate 50 2%nat) [] = Some toy_start.
Proof.
  unfold toy_start. destruct (bridge_init toy_env (replicate 50 2%nat) []) as [b|] eqn:E; [exact eq_refl|].
  assert (bool_decide (is_Some (bridge_init toy_env (replicate 50 2%nat) [])) = true) as H by (vm_compute; reflexivity).
  rewrite E in H. discriminate H.
Qed.
Definition toy_end (n : nat) : list output_t * option (bridge_t (L := toy_t)) := bridge_loop (toy_session n) 0 toy_start.
Lemma toy_ends n : bridge_loop (toy_session n) 0 toy_start = (fst (toy_end n), snd (toy_end n)).
Proof. unfold toy_end. apply surjective_pairing. Qed.

#[local] Opaque toy_end.
Definition toy_outs : list output_t := fst (toy_end 9).

Lemma every_frame_answered_witness :
  length toy_outs = 10%nat /\
  map (fun o => match out_packet o with Some (h, p) => h ++ take 2 p | None => [] end) (take 2 toy_outs) =
    [[0; 0; 0; 0; 0; 0]; []] /\
  Forall2 answered (take (length toy_outs) (toy_session 9)) toy_outs /\
  match snd (toy_end 9) with
  | Some b' => length toy_outs = length (toy_session 9) /\ inv b'
  | None => exists i, toy_session 9 !! length toy_outs = Some i /\ in_mtime i <> None
  end.
Proof.
  split; [vm_compute; reflexivity|]. split; [vm_compute; reflexivity|].
  exact (every_frame_answered toy_env (replicate 50 2%nat) [] (toy_session 9) toy_start toy_outs (snd (toy_end 9))
           toy_starts (toy_ends 9)).
Defined.

Definition toy_last : bridge_t := default toy_start (snd (toy_end 8)).
Lemma toy_lasts : snd (toy_end 8) = Some toy_last.
Proof.
  unfold toy_last. destruct (snd (toy_end 8)) as [b|] eqn:E; [exact eq_refl|].
  assert (match snd (toy_end 8) with Some _ => true | None => false end = true) as H by (vm_compute; reflexivity).
  rewrite E in H. discriminate H.
Qed.
Lemma toy_lasting : bridge_loop (toy_session 8) 0 toy_start = (fst (toy_end 8), Some toy_last).
Proof. rewrite <- toy_lasts. apply toy_ends. Qed.
Definition toy_frame : list Z := map pcmu_decode (replicate 160 0x20).
Definition toy_taken : B (option (bool * Z * bool * v90_cp_live_meta_t)) := take_result.
Lemma results_are_current_witness :
  let b1 := after (record_history toy_frame ;; act (p3_demod_process toy_frame (bsc toy_last SAMPLE_OFFSET))) toy_last in
  let b2 := after toy_taken b1 in
  result toy_taken b1 = Some (true, 0, false, Meta 0 1440) /\
  (0 = cp_flag b2 /\
   (true = true -> exists samples offset meta', 0 <= offset < 2 ^ 31 /\ history_part b2 samples offset /\
     v90_cp_live_recover samples 1 (bsc b2 BAUD_CODE) 0 = Some (false, meta') /\
     Meta 0 1440 = Meta (s32 (frame_sample meta' + offset)) (s32 (last_sample meta' + offset)))).
Proof.
  cbv zeta. assert (result toy_taken (after (record_history toy_frame ;; act (p3_demod_process toy_frame (bsc toy_last SAMPLE_OFFSET))) toy_last)
    = Some (true, 0, false, Meta 0 1440)) as Hr by (vm_compute; reflexivity).
  split; [exact Hr|].
  exact (results_are_current toy_env (replicate 50 2%nat) [] (toy_session 8) toy_start (fst (toy_end 8)) toy_last toy_frame
    true 0 false (Meta 0 1440) toy_starts (toy_lasting) Hr).
Defined.

(** ** Events and the worker's end *)
Section Events.
Context {L : Type} {sib : Sibling L}.
Implicit Types b : bridge_t (L := L).

(** Accepted entries stay where and what they are. *)
Definition accepted_kept b b' : Prop :=
  forall j r, reported b !! j = Some r -> nz (accepted r) = true -> reported b' !! j = Some r.
#[local] Instance accepted_kept_pre : PreOrder accepted_kept.
Proof. split; [by intros b j r|]. intros b1 b2 b3 H1 H2 j r Hj Hr. by apply H2; [apply H1|]. Qed.
#[local] Instance accepted_kept_put f : CanPut accepted_kept f.
Proof. by intros b v j r. Qed.
#[local] Instance accepted_kept_lib : LibFree accepted_kept.
Proof. by intros b l j r. Qed.
Lemma kept_modify (f : bridge_t -> bridge_t) : (forall b, reported (f b) = reported b) -> keeps accepted_kept (modify f).
Proof. intros Hf b j r. rewrite after_modify, Hf. done. Qed.
#[local] Hint Extern 1 (keeps accepted_kept (modify _)) => (apply kept_modify; intros; reflexivity) : keeps.

Lemma kept_publish b j r seg phase : reported b !! j = Some r -> nz (accepted r) = false ->
  accepted_kept b (after (publish_event j seg phase) b).
Proof.
  intros Hj Hr. destruct (after_publish j seg phase b) as (l & acc & ->). intros j' r' Hj' Hr'.
  cbn [reported with_reported]. rewrite list_lookup_alter_ne; [done|]. intros ->. congruence.
Qed.
Lemma kept_event seg : keeps accepted_kept (bridge_event seg).
Proof.
  intros b. unfold bridge_event. brun. destruct (opaque_type _); brun; [done|]. destruct (_ <? _); brun; [done|].
  destruct (reported_type _); brun; [|done].
  destruct (find_reported seg (reported b)) as [j|] eqn:Ef.
  - destruct (reported b !! j) as [r|] eqn:Er; [|done].
    destruct (nz (accepted r)) eqn:Ea; cbn [orb]; [done|]. destruct (_ =? _); [done|]. by eapply kept_publish.
  - destruct (_ <? _); brun; [|done]. set (b1 := with_reported _ b).
    transitivity b1.
    + intros j r Hj _. unfold b1. cbn [reported with_reported]. by apply lookup_app_l_Some.
    + apply (kept_publish b1 _ (Reported (start_sample seg) (seg_type seg) 0 0)); [|done]. unfold b1. cbn [reported with_reported].
      by apply list_lookup_middle.
Qed.
Lemma kept_event_list segs : keeps accepted_kept (bridge_event_list segs).
Proof. pose proof kept_event. induction segs as [|seg segs IH]; cbn [bridge_event_list]; keeps_auto. Qed.
#[local] Hint Resolve kept_event_list : keeps.

(** The rest of the bridge does not touch the table. *)
Lemma kept_run_cp c : keeps accepted_kept (run_cp c).
Proof. induction c as [l|d l k IH]; cbn [run_cp]; unfold bridge_cp_frame, prepare_upstream; keeps_auto. Qed.
#[local] Hint Resolve kept_run_cp : keeps.
Lemma kept_get_bit : keeps accepted_kept bridge_get_bit.
Proof. unfold bridge_get_bit. keeps_auto. Qed.
#[local] Hint Resolve kept_get_bit : keeps.
Lemma kept_run_calls {A} (c : calls L A) : keeps accepted_kept (run_calls c).
Proof.
  induction c as [x l|bit l k IH|bit l k IH|l k IH]; cbn [run_calls];
    unfold bridge_put_bit, put_cp_bit, count_e, bridge_begin_upstream_data, bridge_put_data_bit; keeps_auto.
Qed.
Lemma kept_call_back {A} (q : L -> calls L A) : keeps accepted_kept (call_back q).
Proof. pose proof (@kept_run_calls A). unfold call_back. keeps_auto. Qed.
#[local] Hint Resolve kept_call_back : keeps.
Lemma kept_v34_rx samples : keeps accepted_kept (bridge_v34_rx samples).
Proof.
  unfold bridge_v34_rx. generalize (length samples). intros n. revert samples.
  induction n as [|n IH]; intros samples; cbn [v34_rx_chunks]; keeps_auto.
Qed.
#[local] Hint Resolve kept_v34_rx : keeps.
Lemma kept_lock : keeps accepted_kept main_lock.
Proof. intros b j r Hj _. destruct (by_worker_lock b) as (_ & _ & -> & _). done. Qed.
#[local] Hint Resolve kept_lock : keeps.
Lemma kept_malloc : keeps accepted_kept malloc_ok.
Proof. unfold malloc_ok. keeps_auto. Qed.
#[local] Hint Resolve kept_malloc : keeps.
Lemma kept_apply : keeps accepted_kept bridge_live_cp_apply.
Proof.
  unfold bridge_live_cp_apply, take_result, apply_data_cp, replay_from, live_sample_count, prepare_upstream. keeps_auto.
Qed.
Lemma kept_try : keeps accepted_kept bridge_live_cp_try.
Proof. unfold bridge_live_cp_try, live_sample_count. keeps_auto. Qed.
#[local] Hint Resolve kept_apply kept_try : keeps.
Lemma kept_gather n : keeps accepted_kept (gather_bytes n).
Proof.
  assert (forall k bit byte, keeps accepted_kept (gather_bits k bit byte)) as H.
  { intros k. induction k as [|k IH]; intros bit byte; cbn [gather_bits]; keeps_auto. }
  induction n as [|n IH]; cbn [gather_bytes]; keeps_auto.
Qed.
#[local] Hint Resolve kept_gather : keeps.
Lemma kept_tx n : keeps accepted_kept (tx_loop n).
Proof. induction n as [|n IH]; cbn [tx_loop]; unfold next_data_frame, repeat_last; keeps_auto. Qed.
#[local] Hint Resolve kept_tx : keeps.
Lemma kept_queue_bits n : forall packed i, keeps accepted_kept (queue_bits n packed i).
Proof. induction n as [|n IH]; intros packed i; cbn [queue_bits]; keeps_auto. Qed.
Lemma kept_pack_bits n : forall packed i, keeps accepted_kept (pack_bits n packed i).
Proof. induction n as [|n IH]; intros packed i; cbn [pack_bits]; keeps_auto. Qed.
#[local] Hint Resolve kept_queue_bits kept_pack_bits : keeps.

Lemma kept_accept p : keeps accepted_kept (accept_packet p).
Proof. unfold accept_packet, bridge_queue_input. keeps_auto. Qed.
Lemma kept_frame i : keeps accepted_kept (process_frame i).
Proof.
  unfold process_frame, record_history, train_frame, feed_receiver, feed_delayed, bridge_feed_upstream, scan_events,
    bridge_events, bridge_note_phase4, bridge_trim_result, bridge_begin_upstream_data, prepare_upstream,
    bridge_tx_codewords, reply_packet, bridge_pack_output, live_sample_count.
  keeps_auto.
Qed.

Lemma kept_loop is_ : forall m b os b', Forall (fun i => in_mtime i = None) is_ ->
  bridge_loop is_ m b = (os, Some b') -> accepted_kept b b'.
Proof.
  induction is_ as [|i is_ IH]; intros m b os b' Hi; cbn [bridge_loop].
  { intros [= <- <-]. reflexivity. }
  apply Forall_cons_1 in Hi as [Hi His]. unfold bridge_step, bridge_reset_if_requested. rewrite Hi.
  pose proof (kept_accept (in_packet i) b) as H1. unfold after in H1.
  destruct (accept_packet (in_packet i) b) as [u b1]. cbn.
  pose proof (kept_frame i b1) as H2. unfold after in H2.
  destruct (process_frame i b1) as [o b2]. destruct (bridge_loop is_ m b2) as [os2 b3] eqn:E.
  intros [= <- ->]. cbn [snd] in *. etransitivity; [exact H1|]. etransitivity; [exact H2|]. by eapply IH.
Qed.

Lemma find_reported_at seg l j r : NoDup (map event_key l) -> l !! j = Some r -> same_event seg r = true ->
  find_reported seg l = Some j.
Proof.
  intros Hn Hj Hr. unfold find_reported.
  destruct (list_find (fun r => same_event seg r = true) l) as [[j' r']|] eqn:E.
  - apply list_find_Some in E as (Hj' & Hr' & _). cbn. f_equal.
    assert (forall x, same_event seg x = true -> event_key x = (start_sample seg, seg_type seg)) as Hk.
    { intros x [H1%Z.eqb_eq H2%bool_decide_eq_true]%andb_true_iff. unfold event_key. by rewrite H1, H2. }
    apply (NoDup_lookup (map event_key l) _ _ (start_sample seg, seg_type seg)); [done| |];
      change (map event_key l) with (event_key <$> l); rewrite list_lookup_fmap, ?Hj, ?Hj'; cbn; by rewrite Hk.
  - apply list_find_None in E. rewrite Forall_lookup in E. by destruct (E j r Hj).
Qed.

(** A training event is reported once. Once the transmitter has accepted a
    segment's event, its entry of the table stays as it is for the rest of the
    session, or until a reset; and however often the demodulator lists that
    segment again, the bridge does nothing for it: the transmitter is not told
    a second time. *)
Theorem accepted_once e s a is1 b0 os1 b m is2 os2 b' j r seg :
  bridge_init e s a = Some b0 -> bridge_loop is1 0 b0 = (os1, Some b) ->
  Forall (fun i => in_mtime i = None) is2 -> bridge_loop is2 m b = (os2, Some b') ->
  reported b !! j = Some r -> nz (accepted r) = true -> same_event seg r = true ->
  reported b' !! j = Some r /\ bridge_event seg b' = (tt, b').
Proof.
  intros H0 H1 Hn H2 Hj Ha Hs. pose proof (kept_loop is2 m b os2 b' Hn H2 j r Hj Ha) as Hj'. split; [done|].
  destruct (bridge_loop_spec _ _ _ _ _ (bridge_init_inv _ _ _ _ H0) H1) as [_ [_ Hi]].
  destruct (bridge_loop_spec _ _ _ _ _ Hi H2) as [_ [_ Hi']].
  pose proof (find_reported_at seg (reported b') j r (inv_keys b' Hi') Hj' Hs) as Hf.
  unfold bridge_event, get, mbind, B_bind. cbn. destruct (opaque_type _); [done|]. destruct (_ <? _); [done|].
  destruct (reported_type _); [|done]. cbn. by rewrite Hf, Hj', Ha.
Qed.


(** A worker that has been started stays so. *)
Definition still_started b b' : Prop := worker b <> NotStarted -> worker b' <> NotStarted.
#[local] Instance still_started_pre : PreOrder still_started.
Proof. split; [by intros b H|]. intros b1 b2 b3 H1 H2 H. apply H2, H1, H. Qed.
#[local] Instance still_started_put f : CanPut still_started f.
Proof. by intros b v H. Qed.
Lemma started_lock : keeps still_started main_lock.
Proof.
  assert (forall f : bridge_t -> bridge_t, (forall b, worker (f b) = worker b) -> keeps still_started (modify f)) as Hm.
  { intros f Hf b. unfold still_started. by rewrite after_modify, Hf. }
  assert (forall w, w <> NotStarted -> keeps still_started (modify (with_worker w))) as Hw by (intros w Hw b H; done).
  assert (keeps still_started bridge_live_cp_worker) as Hs.
  { unfold bridge_live_cp_worker, worker_take, worker_publish. keeps_auto; first [by apply Hw|by apply Hm]. }
  assert (forall n, keeps still_started (worker_steps n)) as Hn.
  { intros n. induction n as [|n IH]; cbn [worker_steps]; keeps_auto. }
  unfold main_lock. keeps_auto; by apply Hm.
Qed.

(** The join, from where the worker may be. *)
Lemma join_step b n : worker b = Waiting \/ (exists j, worker b = Recovering j) ->
  after (join_worker (S n)) b = after (join_worker n) (after bridge_live_cp_worker b).
Proof. intros [Hw|[j Hw]]; cbn [join_worker]; brun; rewrite Hw; by brun. Qed.
Lemma stopped_waiting b : nz (bsc b LIVE_STOP) = true -> worker b = Waiting ->
  after bridge_live_cp_worker b = with_worker Exited b.
Proof. intros Hs Hw. unfold bridge_live_cp_worker. brun. rewrite Hw. unfold worker_take. brun. by rewrite Hs. Qed.
Lemma stopped_recovering b j : nz (bsc b LIVE_STOP) = true -> worker b = Recovering j ->
  after bridge_live_cp_worker b = with_worker Waiting (with_sc LIVE_WORKER_RUNNING 0 b).
Proof.
  intros Hs Hw. unfold bridge_live_cp_worker. brun. rewrite Hw. unfold worker_publish. brun. rewrite Hs. by brun.
Qed.
Lemma join_exits b : nz (bsc b LIVE_STOP) = true -> worker b = Waiting \/ (exists j, worker b = Recovering j) ->
  worker (after (join_worker 2) b) = Exited /\ bsc (after (join_worker 2) b) LIVE_RESULT_READY = bsc b LIVE_RESULT_READY.
Proof.
  intros Hs Hw. rewrite (join_step b 1 Hw). destruct Hw as [Hw|[j Hw]].
  - rewrite (stopped_waiting b Hs Hw). by split.
  - rewrite (stopped_recovering b j Hs Hw). set (b1 := with_worker _ _).
    rewrite (join_step b1 0) by (by left). rewrite (stopped_waiting b1 Hs eq_refl). by split.
Qed.

(** C22: stopping the worker. Wherever the worker is when the main thread stops
    it, waiting, with a job posted, or in the middle of a recovery, the join
    comes to an end with the worker returned, its samples freed and the
    synchronisation torn down; a recovery still under way is not published. *)
Theorem stop_joins b : inv b -> nz (bsc b LIVE_SYNC_INITIALIZED) = true -> worker b <> NotStarted ->
  let b' := after bridge_live_cp_stop b in
  worker b' = Exited /\ live_job_samples b' = None /\ bsc b' LIVE_SYNC_INITIALIZED = 0 /\
  bsc b' LIVE_RESULT_READY = bsc (after main_lock b) LIVE_RESULT_READY.
Proof.
  intros Hi Hs Hw. unfold bridge_live_cp_stop. brun. rewrite Hs. cbn [negb]. brun.
  pose proof (started_lock b Hw) as Hw1. pose proof (pres_lock b Hi) as H1.
  set (b1 := after main_lock b) in *. clearbody b1.
  assert (worker b1 = Waiting \/ exists j, worker b1 = Recovering j) as Hcase.
  { destruct (inv_mailbox b1 H1) as [? ? ? [?|?]|? ? ? [?|?]|j|j]; eauto; done. }
  destruct (join_exits (with_sc LIVE_STOP (conv (bty LIVE_STOP) 1) b1) eq_refl Hcase) as [H2 H3].
  split; [exact H2|]. split; [done|]. split; [done|]. exact H3.
Qed.
End Events.

Definition toy_j : p3_segment_t := Segment 13000 P3_SIGNAL_J.
Definition toy_first : bridge_t := default toy_start (snd (toy_end 3)).
Lemma toy_firsts : bridge_loop (toy_session 3) 0 toy_start = (fst (toy_end 3), Some toy_first).
Proof.
  assert (snd (toy_end 3) = Some toy_first) as <-; [|apply toy_ends].
  unfold toy_first. destruct (snd (toy_end 3)) as [b|] eqn:E; [exact eq_refl|].
  assert (match snd (toy_end 3) with Some _ => true | None => false end = true) as H by (vm_compute; reflexivity).
  rewrite E in H. discriminate H.
Qed.
Definition toy_more : list input_t := replicate 6 (toy_input false).
Definition toy_later : bridge_t := default toy_start (snd (bridge_loop toy_more 0 toy_first)).
Lemma toy_laters : bridge_loop toy_more 0 toy_first = (fst (bridge_loop toy_more 0 toy_first), Some toy_later).
Proof.
  unfold toy_later. destruct (bridge_loop toy_more 0 toy_first) as [os [b|]] eqn:E; [exact eq_refl|].
  assert (match snd (bridge_loop toy_more 0 toy_first) with Some _ => true | None => false end = true) as H by (vm_compute; reflexivity).
  rewrite E in H. discriminate H.
Qed.
#[local] Opaque toy_first toy_later.

Lemma accepted_once_witness :
  reported toy_first !! 0%nat = Some (Reported 13000 P3_SIGNAL_J 1 1) /\
  reported toy_later !! 0%nat = Some (Reported 13000 P3_SIGNAL_J 1 1) /\ bridge_event toy_j toy_later = (tt, toy_later).
Proof.
  assert (reported toy_first !! 0%nat = Some (Reported 13000 P3_SIGNAL_J 1 1)) as Hr by (vm_compute; reflexivity).
  split; [exact Hr|].
  exact (accepted_once toy_env (replicate 50 2%nat) [] (toy_session 3) toy_start (fst (toy_end 3)) toy_first 0 toy_more
    (fst (bridge_loop toy_more 0 toy_first)) toy_later 0 _ toy_j toy_starts toy_firsts
    (Forall_replicate (fun i => in_mtime i = None) 6 (toy_input false) eq_refl) toy_laters Hr eq_refl eq_refl).
Defined.

(** The worker is in the middle of a recovery when it is stopped. *)
Definition toy_busy : bridge_t := after bridge_live_cp_worker toy_last.
Lemma toy_last_inv : inv toy_last.
Proof. exact (proj2 (proj2 (bridge_loop_spec _ _ _ _ _ (bridge_init_inv _ _ _ _ toy_starts) toy_lasting))). Qed.
Lemma stop_joins_witness :
  (match worker toy_busy with Recovering j => job_offset j = 0 | _ => False end) /\
  let b' := after bridge_live_cp_stop (with_env [] [] toy_busy) in
  worker b' = Exited /\ live_job_samples b' = None /\ bsc b' LIVE_SYNC_INITIALIZED = 0 /\
  bsc b' LIVE_RESULT_READY = bsc (after main_lock (with_env [] [] toy_busy)) LIVE_RESULT_READY.
Proof.
  split; [vm_compute; reflexivity|].
  apply stop_joins.
  - apply pres_env. unfold toy_busy. apply pres_worker, toy_last_inv.
  - vm_compute. reflexivity.
  - vm_compute. discriminate.
Defined.
