(* ===== verification/Probe.v ===== *)
(** * The V.90 analogue bridge

    [v90a_phase3_bridge_probe.c]: the other end of the PCM stream. In stream
    mode it takes downstream octets in frames of 160, hands them to a V.90
    analogue engine, encodes the samples the engine produces as u-law and
    answers each frame with 160 octets; payload bits travel in packets that
    accompany the frames. In offline mode it runs the engine over a capture.

    The engine is not in the repository: it is an instance of [Engine], with a
    state [L] of its own, which may call [get_idle_bit] back. The environment
    variables are given as what [getenv], [atoi] and [strtod] make of them;
    doubles are the standard library's [spec_float] at the format of [double]. *)
From Stdlib Require Import Strings.String Floats.SpecFloat.
From S2P Require Import Prelude.

(** ** The engine *)

(** What a library function does: return, or ask for a bit to transmit. *)
Inductive asks (L A : Type) :=
  | Done (x : A) (l : L)
  | AskBit (l : L) (k : Z -> L -> asks L A).
Arguments Done {L A}. Arguments AskBit {L A}.

Inductive v90_dil_preset_t := V90_DIL_PRESET_DEFAULT_JA | V90_DIL_PRESET_COURIER_STYLE | V90_DIL_PRESET_MEASUREMENT.

(** The members of [v90_analogue_phase3_config_t] that vary. *)
Record config_t (dil : Type) := Config {
  cfg_high_carrier : bool; cfg_dil : dil; cfg_digital_max_tx_dbm0 : spec_float; cfg_upstream_max_n : Z }.
Arguments Config {dil}.

Class Engine (L : Type) := {
  v90_dil_desc_t : Type;
  dil_zero : v90_dil_desc_t;
  v90_dil_preset_load : v90_dil_preset_t -> option v90_dil_desc_t;
  V90A_TX_B1_PENDING : Z;
  V90A4_RX_EVENT_DATA : Z;
  (** whether it succeeds *)
  v34_init : L -> asks L bool;
  v90_analogue_phase3_init : config_t v90_dil_desc_t -> L -> asks L bool;
  v34_free : L -> L;
  v90_analogue_phase3_free : L -> L;
  (** the events *)
  v90_analogue_phase3_rx : list Z -> L -> asks L Z;
  (** the samples produced *)
  v90_analogue_phase3_tx : Z -> L -> asks L (list Z);
  v90_analogue_phase3_tx_stage : L -> Z;
  v90_analogue_phase3_rx_stage : L -> Z;
  (** the symbols the callback gives are (0, 0); whether it succeeds *)
  v34_tx_start_external_symbols : Z -> Z -> spec_float * spec_float -> L -> asks L bool;
  (** at most the given number of bits; [None] when negative is returned *)
  v90_analogue_phase3_get_data_bits : Z -> L -> option (list Z) * L;
  get_data_bits_max n l bits : fst (v90_analogue_phase3_get_data_bits n l) = Some bits -> Z.of_nat (length bits) <= n;
  (** what a conversion gives for a double out of the range of [long] *)
  double_unspecified : spec_float -> Z;
}.

(** ** Definitions *)
Definition DATA_BYTES : Z := 256.
Definition DATA_BITS : Z := DATA_BYTES * 8.
Definition DATA_QUEUE_BITS : Z := 64 * 1024 * 1024.
Definition FRAME_OCTETS : Z := 160.

(** *** u-law *)

(** [for (mask = 0x4000; exponent > 0 && !(magnitude & mask); mask >>= 1) exponent--] *)
Fixpoint find_exponent (n : nat) (magnitude mask exponent : Z) : Z :=
  match n with
  | O => exponent
  | S n =>
      if (exponent >? 0) && negb (tst magnitude mask)
      then find_exponent n magnitude (mask >>> 1) (exponent - 1) else exponent
  end.
Definition pcmu_encode (sample : Z) : Z :=
  let sign := if sample <? 0 then 0x80 else 0 in
  let magnitude := if sample <? 0 then s32 (- sample) else sample in
  let magnitude := if magnitude >? 32635 then 32635 else magnitude in
  let magnitude := magnitude + 0x84 in
  let exponent := find_exponent 7 magnitude 0x4000 7 in
  let mantissa := (magnitude >>> (exponent + 3)) &&& 0x0f in
  u8 (~~~(sign ||| (exponent <<< 4) ||| mantissa)).

(** *** Doubles *)
Definition double_mul : spec_float -> spec_float -> spec_float := SFmul 53 1024.
(** An integer that [double] represents exactly. *)
Definition double_of_int (z : Z) : spec_float := binary_normalize 53 1024 z 0 false.
Definition double_one : spec_float := double_of_int 1.

(** Round to the nearest integer, halves to even. *)
Definition round_even (m : positive) (e : Z) : Z :=
  if e >=? 0 then Z.pos m <<< e
  else
    let d := 2 ^ (- e) in
    let q := Z.pos m / d in
    let r := Z.pos m mod d in
    if (2 * r <? d) || ((2 * r =? d) && Z.even q) then q else q + 1.

(** Drop the fraction. *)
Definition truncate (m : positive) (e : Z) : Z := if e >=? 0 then Z.pos m <<< e else Z.pos m / 2 ^ (- e).

Section Probe.
Context {L : Type} {eng : Engine L}.

(** A double as a [long], its magnitude made an integer by [round]. *)
Definition to_long (round : positive -> Z -> Z) (x : spec_float) : Z :=
  match x with
  | S754_zero _ => 0
  | S754_finite s m e =>
      let v := if s then - round m e else round m e in
      if (v <? - 2 ^ 63) || (v >=? 2 ^ 63) then double_unspecified x else v
  | _ => double_unspecified x
  end.
Definition lrint : spec_float -> Z := to_long round_even.
(** [pcmu_encode((int)lrint((double)linear * tx_gain))] *)
Definition encode_sample (tx_gain : spec_float) (linear : Z) : Z :=
  pcmu_encode (s32 (lrint (double_mul (double_of_int linear) tx_gain))).

(** *** The bit source *)
Record idle_bit_source_t := Source {
  bits : Z; queue : gmap Z Z; rd : Z; wr : Z; count : Z; consumed_frame : Z }.

Definition get_idle_bit (s : idle_bit_source_t) : Z * idle_bit_source_t :=
  let bit := if nz (count s) then default 0 (queue s !! rd s) else 1 in
  (bit,
   Source (u64 (bits s + 1)) (queue s)
     (if nz (count s) then u32 (rd s + 1) mod DATA_QUEUE_BITS else rd s) (wr s)
     (if nz (count s) then u32 (count s - 1) else count s) (u32 (consumed_frame s + 1))).

Definition packed_bit (packed : list Z) (i : Z) : Z :=
  (nth (Z.to_nat (i >>> 3)) packed 0 >>> (i &&& 7)) &&& 1.
(** [n] passes of the loop are left. *)
Fixpoint queue_bits (n : nat) (packed : list Z) (i : Z) (s : idle_bit_source_t) : idle_bit_source_t :=
  match n with
  | O => s
  | S n =>
      if count s <? DATA_QUEUE_BITS then
        queue_bits n packed (i + 1)
          (Source (bits s) (<[wr s := packed_bit packed i]> (queue s)) (rd s)
             (u32 (wr s + 1) mod DATA_QUEUE_BITS) (u32 (count s + 1)) (consumed_frame s))
      else s
  end.
Definition queue_input_bits (packed : list Z) (count : Z) (s : idle_bit_source_t) : idle_bit_source_t :=
  let count := if count >? DATA_BITS then DATA_BITS else count in
  queue_bits (Z.to_nat count) packed 0 s.

(** [packed[i >> 3] |= (bits[i] & 1U) << (i & 7)] over the bits that are left. *)
Definition or_bit (packed : list Z) (i bit : Z) : list Z :=
  let k := Z.to_nat (i >>> 3) in
  <[k := u8 (nth k packed 0 ||| ((bit &&& 1) <<< (i &&& 7)))]> packed.
Fixpoint pack_bits (bits : list Z) (packed : list Z) (i : Z) : list Z :=
  match bits with
  | [] => packed
  | bit :: bits => pack_bits bits (or_bit packed i bit) (i + 1)
  end.
Definition empty_packet : list Z := replicate (Z.to_nat DATA_BYTES) 0.

(** *** The state of stream mode *)

(** [lib] is the engine and the V.34 modem it is built on, [has_phase3] whether
    the pointer to the engine is not null. *)
Record probe_t := Probe {
  source : idle_bit_source_t; lib : L; has_phase3 : bool; start_frames : Z; reset_mtime : Z;
  data_connected : bool; data_carrier_switched : bool }.

Definition with_source (x : idle_bit_source_t) (p : probe_t) : probe_t :=
  Probe x (lib p) (has_phase3 p) (start_frames p) (reset_mtime p) (data_connected p) (data_carrier_switched p).
Definition with_lib (x : L) (p : probe_t) : probe_t :=
  Probe (source p) x (has_phase3 p) (start_frames p) (reset_mtime p) (data_connected p) (data_carrier_switched p).
Definition with_phase3 (x : bool) (p : probe_t) : probe_t :=
  Probe (source p) (lib p) x (start_frames p) (reset_mtime p) (data_connected p) (data_carrier_switched p).
Definition with_start_frames (x : Z) (p : probe_t) : probe_t :=
  Probe (source p) (lib p) (has_phase3 p) x (reset_mtime p) (data_connected p) (data_carrier_switched p).
Definition with_reset_mtime (x : Z) (p : probe_t) : probe_t :=
  Probe (source p) (lib p) (has_phase3 p) (start_frames p) x (data_connected p) (data_carrier_switched p).
Definition with_connected (x : bool) (p : probe_t) : probe_t :=
  Probe (source p) (lib p) (has_phase3 p) (start_frames p) (reset_mtime p) x (data_carrier_switched p).
Definition with_switched (x : bool) (p : probe_t) : probe_t :=
  Probe (source p) (lib p) (has_phase3 p) (start_frames p) (reset_mtime p) (data_connected p) x.

(** Commands: [None] with an exit code ends the program. *)
Definition P (A : Type) : Type := probe_t -> (A + Z) * probe_t.
#[export] Instance P_ret : MRet P := fun _ x p => (inl x, p).
#[export] Instance P_bind : MBind P := fun _ _ f m p =>
  match m p with (inl x, p') => f x p' | (inr code, p') => (inr code, p') end.
Definition gets {A} (f : probe_t -> A) : P A := fun p => (inl (f p), p).
Definition modify (f : probe_t -> probe_t) : P unit := fun p => (inl tt, f p).
Definition exit {A} (code : Z) : P A := fun p => (inr code, p).
Definition pass : P unit := mret tt.

(** A library function, with the bits it asks for. *)
Fixpoint run_asks {A} (c : asks L A) : P A :=
  match c with
  | Done x l => modify (with_lib l) ;; mret x
  | AskBit l k =>
      s ← gets source;
      let '(bit, s) := get_idle_bit s in
      modify (with_source s) ;;
      run_asks (k bit l)
  end.
Definition call {A} (q : L -> asks L A) : P A := l ← gets lib; run_asks (q l).
Definition act (q : L -> L) : P unit := modify (fun p => with_lib (q (lib p)) p).

(** *** Making an engine *)
Record env_t := Env {
  e_profile : option string; e_high_carrier : option Z; e_max_tx_dbm0 : option spec_float;
  e_upstream_max_n : option Z; e_start_s : option spec_float; e_tx_gain : option spec_float;
  e_data_high_carrier : option Z }.

Definition is_set (v : option Z) : bool := match v with Some v => nz v | None => false end.
Definition load_dil (profile : option string) : option v90_dil_desc_t :=
  match profile with
  | None => v90_dil_preset_load V90_DIL_PRESET_DEFAULT_JA
  | Some p =>
      if (p =? "none")%string || (p =? "zero")%string then Some dil_zero
      else if (p =? "courier")%string || (p =? "card")%string then v90_dil_preset_load V90_DIL_PRESET_COURIER_STYLE
      else if (p =? "measurement")%string then v90_dil_preset_load V90_DIL_PRESET_MEASUREMENT
      else v90_dil_preset_load V90_DIL_PRESET_DEFAULT_JA
  end.

(** [memset] of the source, with its queue kept. *)
Definition clear_source (s : idle_bit_source_t) : idle_bit_source_t := Source 0 (queue s) 0 0 0 0.

(** The modem and the engine; whether there is one. *)
Definition start_engine (cfg : config_t v90_dil_desc_t) : P bool :=
  ok ← call v34_init;
  if negb (ok : bool) then mret false
  else
    ok ← call (v90_analogue_phase3_init cfg);
    if negb (ok : bool) then act v34_free ;; mret false else mret true.

Definition new_phase3 (e : env_t) : P unit :=
  ok ← (match load_dil (e_profile e) with
        | None => mret false
        | Some dil =>
            modify (fun p => with_source (clear_source (source p)) p) ;;
            start_engine (Config (is_set (e_high_carrier e)) dil
              (default (S754_zero false) (e_max_tx_dbm0 e)) (default 0 (e_upstream_max_n e)))
        end);
  modify (with_phase3 ok).

(** *** Stream mode *)

(** What arrives: the octets of a frame (none at the end of the input), the packet that goes with it in
    [--data-stream] mode ([None] when it is cut short), and the modification
    time of the reset file, if there is one. *)
Record input_t := Input { in_frame : list Z; in_packet : option (list Z * list Z); in_mtime : option Z }.
Record output_t := Output { out_frame : list Z; out_packet : option (list Z * list Z) }.

Definition accept_packet (data_stream : bool) (i : input_t) : P unit :=
  if data_stream then
    match in_packet i with
    | None => act v90_analogue_phase3_free ;; exit 1
    | Some (header, packed) =>
        modify (fun p =>
          let s := queue_input_bits packed (nth 0 header 0 ||| (nth 1 header 0 <<< 8)) (source p) in
          with_source (Source (bits s) (queue s) (rd s) (wr s) (count s) 0) p)
    end
  else pass.

Definition need_engine : P unit := ok ← gets has_phase3; if (ok : bool) then pass else exit 1.

Definition reset_if_requested (e : env_t) (mtime : option Z) : P unit :=
  match mtime with
  | None => pass
  | Some mtime =>
      last ← gets reset_mtime;
      if mtime >? last then
        act v90_analogue_phase3_free ;;
        act v34_free ;;
        new_phase3 e ;;
        need_engine ;;
        modify (with_reset_mtime mtime) ;;
        modify (with_start_frames 0) ;;
        modify (with_connected false)
      else pass
  end.

Definition pack_output_bits : P (list Z * Z) :=
  l ← gets lib;
  let '(bits, l) := v90_analogue_phase3_get_data_bits DATA_BITS l in
  modify (with_lib l) ;;
  match bits with
  | None => mret (empty_packet, 0)
  | Some bits => mret (pack_bits bits empty_packet 0, Z.of_nat (length bits))
  end.

(** An unsigned count's two low bytes. *)
Definition two_bytes (n : Z) : list Z := [n &&& 0xff; (n >>> 8) &&& 0xff].

Definition reply (data_stream : bool) (upstream : list Z) : P output_t :=
  if data_stream then
    '(packed, received) ← pack_output_bits;
    connected ← gets data_connected;
    s ← gets source;
    let received := if (connected : bool) then received ||| 0x8000 else received in
    mret (Output upstream (Some (two_bytes (consumed_frame s) ++ two_bytes received, packed)))
  else mret (Output upstream None).

(** Switch the upstream carrier at the B1 seam. *)
Definition switch_carrier (e : env_t) : P unit :=
  switched ← gets data_carrier_switched;
  stage ← gets (fun p => v90_analogue_phase3_tx_stage (lib p));
  if is_set (e_data_high_carrier e) && negb (switched : bool) && (stage =? V90A_TX_B1_PENDING) then
    ok ← call (v34_tx_start_external_symbols 4 1 (S754_zero false, S754_zero false));
    if (ok : bool) then modify (with_switched true) else exit 0
  else pass.

Definition run_engine (data_stream : bool) (e : env_t) (downstream : list Z) : P output_t :=
  started ← gets has_phase3;
  (if (started : bool) then pass else new_phase3 e ;; need_engine) ;;
  events ← call (v90_analogue_phase3_rx downstream);
  (if tst events V90A4_RX_EVENT_DATA then modify (with_connected true) else pass) ;;
  switch_carrier e ;;
  samples ← call (v90_analogue_phase3_tx FRAME_OCTETS);
  if negb (Z.of_nat (length samples) =? FRAME_OCTETS) then act v90_analogue_phase3_free ;; exit 1
  else reply data_stream (map (encode_sample (default double_one (e_tx_gain e))) samples).

Definition idle_frame (data_stream : bool) : output_t :=
  Output (replicate (Z.to_nat FRAME_OCTETS) 0xff)
    (if data_stream then Some ([0; 0; 0; 0], empty_packet) else None).

Definition stream_frame (data_stream : bool) (e : env_t) (i : input_t) : P output_t :=
  let got := Z.of_nat (length (in_frame i)) in
  if got =? 0 then exit 0
  else if negb (got =? FRAME_OCTETS) then act v90_analogue_phase3_free ;; exit 1
  else
    accept_packet data_stream i ;;
    reset_if_requested e (in_mtime i) ;;
    waiting ← gets start_frames;
    if waiting >? 0 then modify (with_start_frames (waiting - 1)) ;; mret (idle_frame data_stream)
    else run_engine data_stream e (in_frame i).

(** The frames of standard input up to its end: the answers, and the exit code. *)
Fixpoint stream_loop (data_stream : bool) (e : env_t) (is_ : list input_t) (p : probe_t) : list output_t * Z :=
  match is_ with
  | [] => ([], 0)
  | i :: is_ =>
      match stream_frame data_stream e i p with
      | (inr code, _) => ([], code)
      | (inl o, p) => let '(os, code) := stream_loop data_stream e is_ p in (o :: os, code)
      end
  end.

Definition initial_start (e : env_t) : Z :=
  match e_start_s e with
  | Some seconds => if SFltb (S754_zero false) seconds then to_long truncate (double_mul seconds (double_of_int 50)) else 0
  | None => 0
  end.
Definition empty_source : idle_bit_source_t := Source 0 ∅ 0 0 0 0.
Definition stream_mode (data_stream : bool) (e : env_t) (queue_ok : bool) (l : L) (is_ : list input_t) : list output_t * Z :=
  if negb queue_ok then ([], 1)
  else stream_loop data_stream e is_ (Probe empty_source l false (initial_start e) 0 false false).

(** *** Offline mode *)

(** One pass of the loop over chunks of at most 160 octets: the octets written. *)
Definition offline_chunk (chunk : list Z) : P (list Z) :=
  call (v90_analogue_phase3_rx chunk) ;;
  samples ← call (v90_analogue_phase3_tx (Z.of_nat (length chunk)));
  mret (map pcmu_encode samples).
(** Each pass consumes at least one of the [n] octets left. *)
Fixpoint offline_loop (n : nat) (capture : list Z) : P (list Z) :=
  match n with
  | O => mret []
  | S n =>
      match capture with
      | [] => mret []
      | _ =>
          out ← offline_chunk (take (Z.to_nat FRAME_OCTETS) capture);
          rest ← offline_loop n (drop (Z.to_nat FRAME_OCTETS) capture);
          mret (out ++ rest)
      end
  end.
Definition offline_mode (capture : list Z) (l : L) : list Z * Z :=
  let size := Z.of_nat (length capture) in
  if (size <=? 0) || (size >? 2000000) then ([], 2)
  else
    match v90_dil_preset_load V90_DIL_PRESET_DEFAULT_JA with
    | None => ([], 1)
    | Some dil =>
        let run :=
          ok ← start_engine (Config false dil (S754_zero false) 0);
          if (ok : bool) then offline_loop (length capture) capture else exit 1 in
        match run (Probe empty_source l false 0 0 false false) with
        | (inl out, _) => (out, 0)
        | (inr code, _) => ([], code)
        end
    end.

End Probe.
