(* ===== verification/ProbeSpec.v ===== *)
(** * Specification of the V.90 analogue bridge

    The codewords one bridge sends are the scaled samples the other one hears,
    within a thirty-second of their size plus the u-law's bias; payload crosses in both directions without losing,
    inventing or reordering bits, and the header of an answer says how many
    have been used; every frame is answered until the program ends; and what is
    lost when an engine is made. *)
From Stdlib Require Import Floats.SpecFloat.
From S2P Require Import Prelude Ring Bridge BridgeSpec Probe.

(** ** Definitions *)

(** What the digital bridge's receiver is given for a codeword. *)
Definition level (code : Z) : Z := scale4 (pcmu_decode code).
Definition clip (x : Z) : Z := Z.max (-32635) (Z.min x 32635).
(** The linear sample that is encoded. *)
Definition scaled {L : Type} {eng : Engine L} (tx_gain : spec_float) (linear : Z) : Z :=
  s32 (lrint (double_mul (double_of_int linear) tx_gain)).

(** ** Doubles *)
(** *** Multiplication by one *)
Lemma digits_bounds m : 2 ^ (Z.pos (digits2_pos m) - 1) <= Z.pos m < 2 ^ Z.pos (digits2_pos m).
Proof.
  induction m as [m IH|m IH|]; cbn [digits2_pos]; [| |by cbn].
  all: rewrite Pos2Z.inj_succ; replace (Z.succ (Z.pos (digits2_pos m)) - 1) with (Z.succ (Z.pos (digits2_pos m) - 1)) by lia;
    rewrite !Z.pow_succ_r by lia; lia.
Qed.
Lemma digits_unique m d : 0 < d -> 2 ^ (d - 1) <= Z.pos m < 2 ^ d -> Z.pos (digits2_pos m) = d.
Proof.
  intros Hd H. pose proof (digits_bounds m) as Hm. set (k := Z.pos (digits2_pos m)) in *.
  assert (0 < k) by (unfold k; lia).
  destruct (Z.lt_trichotomy k d) as [Hlt|[->|Hgt]]; [|done|].
  - assert (2 ^ k <= 2 ^ (d - 1)) by (apply Z.pow_le_mono_r; lia). lia.
  - assert (2 ^ d <= 2 ^ (k - 1)) by (apply Z.pow_le_mono_r; lia). lia.
Qed.

Lemma shr_exact p : forall m, SpecFloat.iter_pos shr_1 p (Build_shr_record (Z.pos (m * 2 ^ p)) false false) = Build_shr_record (Z.pos m) false false.
Proof.
  assert (forall m, shr_1 (Build_shr_record (Z.pos (m * 2)) false false) = Build_shr_record (Z.pos m) false false) as H1.
  { intros m. by replace (m * 2)%positive with (xO m) by lia. }
  induction p as [p IH|p IH|]; intros m; cbn [SpecFloat.iter_pos].
  - replace (m * 2 ^ p~1)%positive with ((m * 2 ^ p * 2 ^ p) * 2)%positive by (apply Pos2Z.inj; rewrite ?Pos2Z.inj_mul, ?Pos2Z.inj_pow; change (Z.pos p~1) with (2 * Z.pos p + 1); change (Z.pos p~0) with (2 * Z.pos p); replace (2 * Z.pos p) with (Z.pos p + Z.pos p) by lia; rewrite ?Z.pow_add_r by lia; lia).
    rewrite H1. by rewrite !IH.
  - replace (m * 2 ^ p~0)%positive with (m * 2 ^ p * 2 ^ p)%positive by (apply Pos2Z.inj; rewrite ?Pos2Z.inj_mul, ?Pos2Z.inj_pow; change (Z.pos p~1) with (2 * Z.pos p + 1); change (Z.pos p~0) with (2 * Z.pos p); replace (2 * Z.pos p) with (Z.pos p + Z.pos p) by lia; rewrite ?Z.pow_add_r by lia; lia). by rewrite !IH.
  - apply H1.
Qed.

(** A mantissa of 53 digits, whatever power of two it was multiplied by. *)
Lemma round_exact s m k e : Z.pos (digits2_pos m) = 53 -> 0 <= k -> -1074 <= e <= 971 -> forall p,
  Z.pos p = Z.pos m * 2 ^ k -> binary_round_aux 53 1024 s (Z.pos p) (e - k) loc_Exact = S754_finite s m e.
Proof.
  intros Hm Hk He p Hp. pose proof (digits_bounds m) as Hb. rewrite Hm in Hb.
  assert (Z.pos (digits2_pos p) = 53 + k) as Hd.
  { apply digits_unique; [lia|]. rewrite Hp. replace (53 + k - 1) with (53 - 1 + k) by lia.
    rewrite !Z.pow_add_r by lia. assert (0 < 2 ^ k) by (apply Z.pow_pos_nonneg; lia). nia. }
  assert (forall x, x = 53 + e -> fexp 53 1024 x = e) as Hfe.
  { intros x ->. unfold fexp, emin. lia. }
  unfold binary_round_aux, shr_fexp. cbn [Zdigits2 shr_record_of_loc]. rewrite Hd, Hfe by lia.
  assert (shr (Build_shr_record (Z.pos p) false false) (e - k) (e - (e - k)) = (Build_shr_record (Z.pos m) false false, e)) as ->.
  { replace (e - (e - k)) with k by lia. destruct k as [|q|q]; [| |lia]; cbn [shr].
    - f_equal; [|lia]. do 2 f_equal. lia.
    - replace p with (m * 2 ^ q)%positive by (apply Pos2Z.inj; rewrite Pos2Z.inj_mul, Pos2Z.inj_pow; lia).
      rewrite shr_exact. f_equal. lia. }
  cbn [shr_m loc_of_shr_record round_nearest_even Zdigits2]. rewrite Hm, Hfe by lia. rewrite Z.sub_diag. cbn [shr shr_m].
  rewrite (proj2 (Z.leb_le e (1024 - 53))) by lia. done.
Qed.

(** An integer below [2^31] as a double. *)
Lemma round_int s p : Z.pos p < 2 ^ 31 -> exists m e, binary_round 53 1024 s p 0 = S754_finite s m e /\
  Z.pos (digits2_pos m) = 53 /\ -53 < e < 0 /\ Z.pos m = Z.pos p * 2 ^ (- e).
Proof.
  intros Hp. pose proof (digits_bounds p) as Hb. set (n := Z.pos (digits2_pos p)) in *.
  assert (0 < n <= 31) as Hn.
  { split; [done|]. assert (~ 31 < n); [|lia]. intros H. assert (2 ^ 31 <= 2 ^ (n - 1)) by (apply Z.pow_le_mono_r; lia). lia. }
  unfold binary_round. fold n. rewrite Z.add_0_r. replace (fexp 53 1024 n) with (n - 53) by (unfold fexp, emin; lia).
  unfold shl_align. rewrite Z.sub_0_r. destruct (n - 53) as [|q|q] eqn:Eq; [lia..|].
  set (m := Pos.iter xO p q).
  assert (Z.pos m = Z.pos p * 2 ^ Z.pos q) as Hm.
  { unfold m. clear. induction q as [|q IH] using Pos.peano_ind; [cbn; lia|].
    rewrite Pos.iter_succ, Pos2Z.inj_succ, Z.pow_succ_r by lia. lia. }
  assert (Z.pos (digits2_pos m) = 53) as Hd.
  { apply digits_unique; [lia|]. rewrite Hm. replace 53 with (n + Z.pos q) by lia.
    replace (n + Z.pos q - 1) with (n - 1 + Z.pos q) by lia. rewrite !Z.pow_add_r by lia.
    assert (0 < 2 ^ Z.pos q) by (apply Z.pow_pos_nonneg; lia). nia. }
  exists m, (Z.neg q). split.
  - pose proof (round_exact s m 0 (Z.neg q) Hd ltac:(lia) ltac:(lia) m ltac:(lia)) as H. by rewrite Z.sub_0_r in H.
  - repeat split; try done; try lia.
Qed.

(** Rounding an exact double. *)
Lemma round_even_exact m p e : e < 0 -> Z.pos m = Z.pos p * 2 ^ (- e) -> round_even m e = Z.pos p.
Proof.
  intros He Hm. unfold round_even. destruct (Z.geb_spec e 0); [lia|].
  assert (0 < 2 ^ (- e)) by (apply Z.pow_pos_nonneg; lia).
  rewrite Hm, Z.div_mul, Z_mod_mult by lia. by rewrite (proj2 (Z.ltb_lt (2 * 0) _)) by lia.
Qed.

Section Gain.
Context {L : Type} {eng : Engine L}.
Lemma gain_one x : Z.abs x < 2 ^ 31 -> lrint (double_mul (double_of_int x) double_one) = x.
Proof.
  intros Hx. change double_one with (S754_finite false 4503599627370496 (-52)).
  assert (forall s p, Z.pos p < 2 ^ 31 -> lrint (double_mul (binary_round 53 1024 s p 0) (S754_finite false 4503599627370496 (-52)))
    = if s then Z.neg p else Z.pos p) as H.
  { intros s p Hp. destruct (round_int s p Hp) as (m & e & -> & Hd & He & Hm).
    unfold double_mul. cbn [SFmul]. rewrite xorb_false_r.
    replace (e + -52) with (e - 52) by lia. rewrite (round_exact s m 52 e) by (done || lia).
    unfold lrint. cbn [to_long]. rewrite (round_even_exact m p) by (done || lia).
    assert ((if s then - Z.pos p else Z.pos p) = if s then Z.neg p else Z.pos p) as -> by (by destruct s).
    change (2 ^ 31) with 2147483648 in Hp. change (2 ^ 63) with 9223372036854775808.
    destruct s; (destruct (_ || _) eqn:E; [|done]);
      apply orb_true_iff in E as [E%Z.ltb_lt|E]; try lia; rewrite Z.geb_leb in E; apply Z.leb_le in E; lia. }
  destruct x as [|p|p]; [done| |]; unfold double_of_int; cbn [binary_normalize]; apply H; lia.
Qed.
End Gain.

(** ** Companding *)

(** The decoded value of the code with segment [e] and mantissa [q - 16], the
    sign apart. *)
Definition magnitude_of (e q : Z) : Z := (2 * q + 1) * 2 ^ (e + 2) - 132.
Definition code_of (negative : bool) (e q : Z) : Z := u8 (~~~((if negative then 0x80 else 0) ||| (e <<< 4) ||| (q - 16))).
Definition segments : list Z := [0; 1; 2; 3; 4; 5; 6; 7].

Definition level_ok (negative : bool) (e k : Z) : bool :=
  level (code_of negative e (16 + k)) =? (if negative then - magnitude_of e (16 + k) else magnitude_of e (16 + k)).
Lemma levels_checked :
  forallb (fun e => all_below 16 (fun k => level_ok false e k && level_ok true e k)) segments = true.
Proof. vm_compute. reflexivity. Qed.
Lemma level_code negative e q : 0 <= e <= 7 -> 16 <= q <= 31 ->
  level (code_of negative e q) = if negative then - magnitude_of e q else magnitude_of e q.
Proof.
  intros He Hq. pose proof levels_checked as H. rewrite forallb_forall in H.
  assert (In e segments) as Hin by (cbn; lia). specialize (H e Hin). cbv beta in H.
  pose proof (all_below_spec _ _ H (q - 16) ltac:(lia)) as Hk.
  apply andb_true_iff in Hk as [H1%Z.eqb_eq H2%Z.eqb_eq]. replace (16 + (q - 16)) with q in * by lia.
  by destruct negative.
Qed.

Lemma tst_top m k : 0 <= k -> 0 <= m < 2 ^ (k + 1) -> tst m (2 ^ k) = (2 ^ k <=? m).
Proof.
  intros Hk Hm. rewrite tst_pow2, Z.testbit_eqb by done.
  assert (m / 2 ^ k < 2) by (apply Z.div_lt_upper_bound; rewrite ?Z.pow_add_r in * by lia; lia).
  destruct (Z.leb_spec (2 ^ k) m).
  - assert (1 <= m / 2 ^ k) by (apply Z.div_le_lower_bound; lia). by replace (m / 2 ^ k) with 1 by lia.
  - by rewrite Z.div_small by lia.
Qed.

(** The search for the segment. *)
Lemma find_exponent_spec n m : 0 <= m < 2 ^ (Z.of_nat n + 8) -> 0 <= Z.of_nat n <= 7 -> 128 <= m ->
  let e := find_exponent n m (2 ^ (Z.of_nat n + 7)) (Z.of_nat n) in
  0 <= e <= Z.of_nat n /\ 2 ^ (e + 7) <= m < 2 ^ (e + 8).
Proof.
  induction n as [|n IH]; intros Hm Hn Hlow; [cbn in *; lia|]. cbn [find_exponent]. cbv zeta.
  assert (0 <= m < 2 ^ (Z.of_nat (S n) + 7 + 1)) as Hm' by (rewrite <- Z.add_assoc; exact Hm).
  rewrite (tst_top m (Z.of_nat (S n) + 7) ltac:(lia) Hm').
  rewrite (proj2 (Z.gtb_lt (Z.of_nat (S n)) 0)) by lia.
  destruct (Z.leb_spec (2 ^ (Z.of_nat (S n) + 7)) m) as [Hle|Hlt]; cbn [negb andb].
  - split; [lia|]. split; [done|lia].
  - rewrite Z.shiftr_div_pow2 by lia.
    assert (2 ^ (Z.of_nat (S n) + 7) / 2 ^ 1 = 2 ^ (Z.of_nat n + 7)) as ->.
    { rewrite <- Z.pow_sub_r by lia. f_equal. lia. }
    replace (Z.of_nat (S n) - 1) with (Z.of_nat n) by lia.
    replace (Z.of_nat (S n) + 7) with (Z.of_nat n + 8) in Hlt by lia.
    destruct (IH ltac:(lia) ltac:(lia) Hlow) as [H1 H2]. split; [lia|done].
Qed.

(** The segment and mantissa of a sample. *)
Record coded (x : Z) (e q : Z) : Prop := {
  coded_e : 0 <= e <= 7;
  coded_q : 16 <= q <= 31;
  coded_cell : q * 2 ^ (e + 3) <= Z.abs (clip x) + 132 < (q + 1) * 2 ^ (e + 3);
  coded_code : pcmu_encode x = code_of (x <? 0) e q;
}.
Lemma encode_coded x : - 2 ^ 31 < x < 2 ^ 31 -> exists e q, coded x e q.
Proof.
  intros Hx. set (m := Z.abs (clip x) + 132).
  assert (132 <= m < 2 ^ 15) as Hm by (unfold m, clip; change (2 ^ 15) with 32768; lia).
  destruct (find_exponent_spec 7 m) as [He Hcell]; [change (2 ^ (Z.of_nat 7 + 8)) with (2 ^ 15); lia|lia|lia|].
  change (2 ^ (Z.of_nat 7 + 7)) with 0x4000 in *. change (Z.of_nat 7) with 7 in *.
  set (e := find_exponent 7 m 0x4000 7) in *. exists e, (m / 2 ^ (e + 3)).
  assert (0 < 2 ^ (e + 3)) as Hpos by (apply Z.pow_pos_nonneg; lia).
  assert (16 <= m / 2 ^ (e + 3) <= 31) as Hq.
  { replace (e + 7) with (4 + (e + 3)) in Hcell by lia. replace (e + 8) with (5 + (e + 3)) in Hcell by lia.
    rewrite (Z.pow_add_r 2 4 (e + 3)), (Z.pow_add_r 2 5 (e + 3)) in Hcell by lia.
    change (2 ^ 4) with 16 in Hcell. change (2 ^ 5) with 32 in Hcell. split.
    - apply Z.div_le_lower_bound; lia.
    - assert (m / 2 ^ (e + 3) < 32); [|lia]. apply Z.div_lt_upper_bound; lia. }
  split; [done|done| |].
  - pose proof (Z.div_mod m (2 ^ (e + 3)) ltac:(lia)). pose proof (Z.mod_pos_bound m (2 ^ (e + 3)) Hpos). fold m. nia.
  - unfold pcmu_encode, code_of. cbv zeta.
    assert ((if (if x <? 0 then s32 (- x) else x) >? 32635 then 32635 else if x <? 0 then s32 (- x) else x) + 0x84 = m) as ->.
    { assert ((if x <? 0 then s32 (- x) else x) = Z.abs x) as ->.
      { destruct (Z.ltb_spec x 0); [|lia]. rewrite (conv_id S32) by (change (cmin S32) with (- 2 ^ 31); change (cmax S32) with (2 ^ 31 - 1); lia). lia. }
      unfold m, clip. destruct (Z.gtb_spec (Z.abs x) 32635); lia. }
    fold e. rewrite Z.shiftr_div_pow2 by lia. change 0x0f with (2 ^ 4 - 1). rewrite land_mask_mod by lia.
    replace ((m / 2 ^ (e + 3)) mod 2 ^ 4) with (m / 2 ^ (e + 3) - 16); [done|].
    rewrite <- (Z.mod_small (m / 2 ^ (e + 3) - 16) (2 ^ 4)) by (change (2 ^ 4) with 16; lia).
    replace (m / 2 ^ (e + 3) - 16) with (m / 2 ^ (e + 3) + (-1) * 2 ^ 4) by lia. by rewrite Z_mod_plus_full.
Qed.

(** The level of a coded sample: within half a cell of it, on its side of 0. *)
Lemma coded_level x e q : coded x e q ->
  level (pcmu_encode x) = (if x <? 0 then - magnitude_of e q else magnitude_of e q) /\
  0 <= magnitude_of e q /\ Z.abs (magnitude_of e q - Z.abs (clip x)) <= 2 ^ (e + 2) /\
  32 * 2 ^ (e + 2) <= Z.abs (clip x) + 132.
Proof.
  intros [He Hq Hc ->]. rewrite level_code by done. split; [done|].
  assert (4 <= 2 ^ (e + 2)) by (change 4 with (2 ^ 2); apply Z.pow_le_mono_r; lia).
  unfold magnitude_of. replace (e + 3) with (e + 2 + 1) in Hc by lia. rewrite (Z.pow_add_r 2 (e + 2) 1) in Hc by lia.
  change (2 ^ 1) with 2 in Hc. nia.
Qed.
Lemma magnitude_mono e q e' q' m m' : 0 <= e -> 0 <= e' -> 16 <= q <= 31 -> 16 <= q' <= 31 ->
  q * 2 ^ (e + 3) <= m < (q + 1) * 2 ^ (e + 3) -> q' * 2 ^ (e' + 3) <= m' < (q' + 1) * 2 ^ (e' + 3) -> m <= m' ->
  magnitude_of e q <= magnitude_of e' q'.
Proof.
  intros He He' Hq Hq' Hm Hm' Hle. unfold magnitude_of.
  assert (forall a, 0 <= a -> 2 ^ (a + 3) = 2 * 2 ^ (a + 2) /\ 0 < 2 ^ (a + 2)) as Hp.
  { intros a Ha. split; [|apply Z.pow_pos_nonneg; lia]. replace (a + 3) with (Z.succ (a + 2)) by lia. by rewrite Z.pow_succ_r by lia. }
  destruct (Hp e He) as [E H0], (Hp e' He') as [E' H0']. rewrite E in Hm. rewrite E' in Hm'. clear Hp.
  set (A := 2 ^ (e + 2)) in *. set (A' := 2 ^ (e' + 2)) in *.
  destruct (Z.lt_trichotomy e e') as [Hlt|[->|Hgt]].
  - assert (2 * A <= A') by (unfold A, A'; rewrite <- Z.pow_succ_r by lia; apply Z.pow_le_mono_r; lia).
    assert ((2 * q + 1) * A <= 63 * A) by nia. assert (33 * A' <= (2 * q' + 1) * A') by nia. lia.
  - subst A'. fold A. assert (q <= q') by nia. nia.
  - assert (2 * A' <= A) by (unfold A, A'; rewrite <- Z.pow_succ_r by lia; apply Z.pow_le_mono_r; lia).
    assert (32 * A <= m) by nia. assert (m' < 64 * A') by nia. lia.
Qed.

Lemma levels_mono x x' : - 2 ^ 31 < x -> x <= x' -> x' < 2 ^ 31 -> level (pcmu_encode x) <= level (pcmu_encode x').
Proof.
  intros Hx Hle Hx'. destruct (encode_coded x ltac:(lia)) as (e & q & H), (encode_coded x' ltac:(lia)) as (e' & q' & H').
  destruct (coded_level _ _ _ H) as (-> & Hp & _), (coded_level _ _ _ H') as (-> & Hp' & _).
  destruct H as [He Hq Hc _], H' as [He' Hq' Hc' _].
  destruct (Z.ltb_spec x 0), (Z.ltb_spec x' 0); [|lia..|].
  - assert (magnitude_of e' q' <= magnitude_of e q); [|lia].
    eapply magnitude_mono; try done; try lia; eauto. unfold clip. lia.
  - eapply magnitude_mono; try done; try lia; eauto. unfold clip. lia.
Qed.

Section Heard.
Context {L : Type} {eng : Engine L}.

Lemma scaled_one x : Z.abs x < 2 ^ 31 -> scaled double_one x = x.
Proof.
  intros Hx. unfold scaled. rewrite gain_one by done. apply conv_id.
  change (cmin S32) with (- 2 ^ 31). change (cmax S32) with (2 ^ 31 - 1). lia.
Qed.

End Heard.

Definition code_ok (c : Z) : bool := pcmu_encode (level c) =? (if c =? 0x7f then 0xff else c).
Lemma codes_checked : all_below 256 code_ok = true.
Proof. vm_compute. reflexivity. Qed.

(** A codeword survives the round trip through both bridges: the level
    the digital bridge decodes it to is encoded as the same codeword by the
    analogue bridge, but for the second code of silence, 0x7f, which becomes
    the first, 0xff. *)
Theorem codewords_round_trip code : 0 <= code < 256 -> pcmu_encode (level code) = if code =? 0x7f then 0xff else code.
Proof. intros H. apply Z.eqb_eq. exact (all_below_spec _ _ codes_checked code H). Qed.

(** ** Payload *)

(** The bits a source holds. *)
Definition holds (s : idle_bit_source_t) (q : list Z) : Prop :=
  ring_holds Probe.DATA_QUEUE_BITS (queue s) (rd s) (wr s) (count s) q.

Lemma holds_get s q : holds s q -> fst (get_idle_bit s) = hd 1 q /\ holds (snd (get_idle_bit s)) (tl q) /\
  consumed_frame (snd (get_idle_bit s)) = u32 (consumed_frame s + 1).
Proof.
  intros H. unfold get_idle_bit. cbn [fst snd consumed_frame]. destruct q as [|x q].
  - pose proof (ring_count _ _ _ _ _ _ H) as Hc. cbn [length] in Hc.
    assert (nz (count s) = false) as -> by (apply nz_false; lia). by destruct H.
  - pose proof (ring_rd _ _ _ _ _ _ H) as Hr. pose proof (ring_count _ _ _ _ _ _ H) as Hc. cbn [length] in Hc.
    pose proof (ring_room _ _ _ _ _ _ H) as Hm. destruct (ring_pop _ _ _ _ _ _ _ H) as [Hx Hp].
    assert (nz (count s) = true) as -> by (apply nz_true; lia). split; [done|]. split; [|done].
    unfold holds. cbn [queue rd wr count tl]. rewrite (u32_succ Probe.DATA_QUEUE_BITS) by done.
    rewrite u32_cnt; [done|]. change Bridge.DATA_QUEUE_BITS with Probe.DATA_QUEUE_BITS. lia.
Qed.

Lemma holds_queue n : forall packed i s q, holds s q ->
  holds (Probe.queue_bits n packed i s) (q ++ take (room q) (map (Probe.packed_bit packed) (seqZ i (Z.of_nat n)))) /\
  consumed_frame (Probe.queue_bits n packed i s) = consumed_frame s.
Proof.
  induction n as [|n IH]; intros packed i s q H.
  { change (seqZ i (Z.of_nat 0)) with (@nil Z). cbn [map Probe.queue_bits]. by rewrite take_nil, app_nil_r. }
  pose proof (ring_count _ _ _ _ _ _ H) as Hc. cbn [Probe.queue_bits].
  destruct (Z.ltb_spec (count s) Probe.DATA_QUEUE_BITS) as [Hlt|Hge].
  - pose proof (ring_pos _ _ _ _ _ _ H) as Hw. pose proof (ring_push _ _ _ _ _ (Probe.packed_bit packed i) _ Hlt H) as Hp.
    rewrite (u32_succ Probe.DATA_QUEUE_BITS) by done.
    rewrite (u32_cnt (count s + 1)) by (change Bridge.DATA_QUEUE_BITS with Probe.DATA_QUEUE_BITS; lia).
    destruct (IH packed (i + 1) (Source (bits s) (<[wr s := Probe.packed_bit packed i]> (queue s)) (rd s)
      ((wr s + 1) mod Probe.DATA_QUEUE_BITS) (count s + 1) (consumed_frame s)) _ Hp) as [H1 H2].
    rewrite <- app_assoc in H1. split; [|done].
    rewrite (seqZ_cons i) by lia. replace (Z.pred (Z.of_nat (S n))) with (Z.of_nat n) by lia.
    replace (Z.succ i) with (i + 1) by lia. cbn [map].
    rewrite (take_room q) by (change Bridge.DATA_QUEUE_BITS with Probe.DATA_QUEUE_BITS; lia). done.
  - rewrite (room_full q) by (change Bridge.DATA_QUEUE_BITS with Probe.DATA_QUEUE_BITS; lia). by rewrite take_0, app_nil_r.
Qed.

(** A packet's bits, as many as its header says and as there is room for. *)
Definition accepted_bits (q packed : list Z) (count : Z) : list Z :=
  take (room q) (packed_bits packed (count `min` Bridge.DATA_BITS)).
Lemma holds_input packed n s q : holds s q ->
  holds (queue_input_bits packed n s) (q ++ accepted_bits q packed n) /\
  consumed_frame (queue_input_bits packed n s) = consumed_frame s.
Proof.
  intros H. unfold queue_input_bits, accepted_bits, packed_bits. cbv zeta. change Probe.DATA_BITS with Bridge.DATA_BITS.
  assert ((if n >? Bridge.DATA_BITS then Bridge.DATA_BITS else n) = n `min` Bridge.DATA_BITS) as -> by (destruct (Z.gtb_spec n Bridge.DATA_BITS); lia).
  pose proof (holds_queue (Z.to_nat (n `min` Bridge.DATA_BITS)) packed 0 s q H) as Hq.
  assert (seqZ 0 (Z.of_nat (Z.to_nat (n `min` Bridge.DATA_BITS))) = seqZ 0 (n `min` Bridge.DATA_BITS)) as E by (unfold seqZ; by rewrite Nat2Z.id).
  by rewrite E in Hq.
Qed.

(** The packet the probe makes of an engine's bits is the one the digital
    bridge's packing would make of them. *)
Lemma pack_bits_or_all l : forall packed i, Probe.pack_bits l packed i = or_all packed i (map (fun x => x &&& 1) l).
Proof. induction l as [|x l IH]; intros packed i; [done|]. apply IH. Qed.
Lemma land_1 x : x &&& 1 = 0 \/ x &&& 1 = 1.
Proof.
  assert (x &&& 1 = x mod 2) as -> by exact (land_mask_mod x 1 ltac:(lia)).
  pose proof (Z.mod_pos_bound x 2 ltac:(lia)). lia.
Qed.
Lemma probe_packet l : Z.of_nat (length l) <= Bridge.DATA_BITS ->
  carries (Probe.pack_bits l Probe.empty_packet 0) (map (fun x => x &&& 1) l).
Proof.
  intros Hl. rewrite pack_bits_or_all. apply or_all_carries; [|by rewrite length_map].
  apply Forall_map, Forall_true. intros x. apply land_1.
Qed.
(** The bits in a packet that carries them. *)
Lemma carried packed l : carries packed l -> Z.of_nat (length l) <= Bridge.DATA_BITS -> packed_bits packed (Z.of_nat (length l)) = l.
Proof.
  intros (_ & _ & H) Hl. unfold packed_bits in *. set (n := Z.of_nat (length l)) in *.
  replace Bridge.DATA_BITS with (n + (Bridge.DATA_BITS - n)) in H at 1 by lia.
  rewrite seqZ_app, map_app in H by lia. apply app_inj_1 in H as [H _]; [done|].
  rewrite length_map, length_seqZ. unfold n. lia.
Qed.

Section Crossing.
Context {L LB : Type} {eng : Engine L} {sib : Sibling LB}.
Implicit Types b : bridge_t (L := LB).

(** The bits an engine has for its host, when it has any. *)
Definition engine_bits (p : probe_t (L := L)) : list Z :=
  match fst (v90_analogue_phase3_get_data_bits Probe.DATA_BITS (Probe.lib p)) with
  | Some l => map (fun x => x &&& 1) l
  | None => []
  end.

Lemma pack_output_spec p : exists packed p', Probe.pack_output_bits p = (inl (packed, Z.of_nat (length (engine_bits p))), p') /\
  carries packed (engine_bits p) /\ Z.of_nat (length (engine_bits p)) <= Bridge.DATA_BITS /\ source p' = source p.
Proof.
  unfold Probe.pack_output_bits, engine_bits, gets, mbind, P_bind, modify, mret, P_ret.
  pose proof (get_data_bits_max Probe.DATA_BITS (Probe.lib p)) as Hmax.
  destruct (v90_analogue_phase3_get_data_bits _ _) as [[l|] l']; cbn [fst] in *.
  - specialize (Hmax l eq_refl). rewrite length_map. do 2 eexists. split; [done|]. split; [|by split].
    by apply probe_packet.
  - do 2 eexists. split; [done|]. split; [|by split]. by apply (or_all_carries []).
Qed.

(** C24: payload crosses between the bridges. The packet one bridge packs, the
    analogue one from what its engine received and the digital one from its
    receive ring, is queued by the other as exactly the packed bits, in order,
    behind the bits already waiting and as far as there is room (2048 bits at
    most are packed, the oldest ones). *)
Theorem payload_crosses p b tx rx q : queues tx rx b -> holds (source p) q ->
  (exists packed received p', Probe.pack_output_bits p = (inl (packed, received), p') /\
     queues (tx ++ take (room tx) (engine_bits p)) rx (after (bridge_queue_input packed received) b)) /\
  (exists packed sent, result bridge_pack_output b = (packed, sent) /\
     holds (queue_input_bits packed sent (source p)) (q ++ take (room q) (take (Z.to_nat Bridge.DATA_BITS) rx))).
Proof.
  intros Hb Hs. split.
  - destruct (pack_output_spec p) as (packed & p' & E & Hc & Hn & _). do 3 eexists. split; [exact E|].
    pose proof (queue_input_queues packed (Z.of_nat (length (engine_bits p))) tx rx b Hb) as H.
    rewrite Z.min_l in H by done. by rewrite (carried _ _ Hc Hn) in H.
  - destruct (pack_output_queues tx rx b Hb) as [(packed & Hc & E) _]. do 2 eexists. split; [exact E|].
    destruct (holds_input packed (Z.of_nat (length rx) `min` Bridge.DATA_BITS) _ q Hs) as [H _].
    unfold accepted_bits in H.
    assert (Z.of_nat (length rx) `min` Bridge.DATA_BITS `min` Bridge.DATA_BITS = Z.of_nat (length (take (Z.to_nat Bridge.DATA_BITS) rx))) as En
      by (rewrite length_take; change (Z.to_nat Bridge.DATA_BITS) with 2048%nat; change Bridge.DATA_BITS with 2048; lia).
    rewrite En, (carried _ _ Hc) in H; [done|]. rewrite length_take. change (Z.to_nat Bridge.DATA_BITS) with 2048%nat. change Bridge.DATA_BITS with 2048. lia.
Qed.
End Crossing.

(** ** Sessions *)
Section Stream.
Context {L : Type} {eng : Engine L}.
Implicit Types p : probe_t (L := L).

(** [n] bits have been given to the engine since [p]: the first [n] queued
    ones and, after them, idle ones. *)
Definition gave (n : nat) p p' : Prop :=
  (forall q, holds (source p) q -> holds (source p') (drop n q)) /\
  consumed_frame (source p') mod 2 ^ 32 = (consumed_frame (source p) + Z.of_nat n) mod 2 ^ 32.
Lemma gave_trans n n' p1 p2 p3 : gave n p1 p2 -> gave n' p2 p3 -> gave (n + n') p1 p3.
Proof.
  intros [H1 E1] [H2 E2]. split.
  - intros q Hq. rewrite <- drop_drop. by apply H2, H1.
  - rewrite E2, <- Zplus_mod_idemp_l, E1, Zplus_mod_idemp_l. f_equal. lia.
Qed.
Lemma gave_none p p' : source p' = source p -> gave 0 p p'.
Proof. intros E. split; rewrite E; [by intros q|]. by rewrite Z.add_0_r. Qed.

(** [c] ends with [x], having been answered the bits [given]. *)
Inductive answered {A} : asks L A -> list Z -> A -> L -> Prop :=
  | ADone x l : answered (Done x l) [] x l
  | AAsk l k bit given x l' : answered (k bit l) given x l' -> answered (AskBit l k) (bit :: given) x l'.

(** The first [n] bits of a queue that is idle once it is empty. *)
Definition idle_after (q : list Z) (n : nat) : list Z := take n q ++ replicate (n - length q) 1.

(** Everything a call of the engine asks for is answered from the queue. *)
Lemma run_asks_gives {A} (c : asks L A) : forall p, exists n given x l p',
  run_asks c p = (inl x, p') /\ answered c given x l /\ Probe.lib p' = l /\ length given = n /\ gave n p p' /\
  (forall q, holds (source p) q -> given = idle_after q n) /\
  has_phase3 p' = has_phase3 p /\ start_frames p' = start_frames p /\ reset_mtime p' = reset_mtime p /\
  data_connected p' = data_connected p /\ data_carrier_switched p' = data_carrier_switched p.
Proof.
  induction c as [x l|l k IH]; intros p.
  { exists 0%nat, [], x, l, (with_lib l p). split; [done|]. split; [constructor|]. do 2 (split; [done|]).
    split; [by apply gave_none|]. split; [|done]. intros q _. unfold idle_after. by rewrite take_0. }
  cbn [run_asks]. unfold mbind, P_bind, gets, modify. destruct (get_idle_bit (source p)) as [bit s] eqn:E.
  set (p1 := with_source s p). destruct (IH bit l p1) as (n & given & x & l' & p' & -> & Ha & Hl & Hlen & Hg & Hq & H1 & H2 & H3 & H4 & H5).
  exists (S n), (bit :: given), x, l', p'. split; [done|]. split; [by constructor|]. split; [done|]. split; [by cbn; rewrite Hlen|].
  assert (forall q, holds (source p) q -> bit = hd 1 q /\ holds s (tl q) /\ consumed_frame s = u32 (consumed_frame (source p) + 1)) as Hget.
  { intros q H. pose proof (holds_get _ q H) as Hs. by rewrite E in Hs. }
  split; [|split; [|done]].
  - split.
    + intros q H. destruct (Hget q H) as (_ & H' & _). specialize (proj1 Hg (tl q) H') as Hd. by destruct q; [rewrite drop_nil in *|].
    + rewrite (proj2 Hg). assert (consumed_frame s = u32 (consumed_frame (source p) + 1)) as Hc.
      { unfold get_idle_bit in E. injection E as _ <-. done. }
      unfold p1. cbn [source with_source]. rewrite Hc, conv_unsigned by done. cbn [cbits].
      rewrite Zplus_mod_idemp_l. f_equal. lia.
  - intros q H. destruct (Hget q H) as (-> & H' & _). rewrite (Hq _ H'). unfold idle_after.
    destruct q as [|y q]; [|done]. cbn [hd tl length take]. rewrite !take_nil, !Nat.sub_0_r. done.
Qed.

Lemma run_bind {A C} (m : P A) (f : A -> P C) p y p' : (m ≫= f) p = (inl y, p') ->
  exists x p1, m p = (inl x, p1) /\ f x p1 = (inl y, p').
Proof. unfold mbind, P_bind. destruct (m p) as [[x|code] p1]; [by eauto|done]. Qed.

Lemma two_bytes_mod a b : a mod 2 ^ 32 = b mod 2 ^ 32 -> two_bytes a = two_bytes b.
Proof.
  intros E.
  assert (forall k x, k = 0 \/ k = 8 -> (x >>> k) &&& 0xff = ((x mod 2 ^ 32) >>> k) &&& 0xff) as H.
  { intros k x Hk. apply Z.bits_inj'. intros j Hj. rewrite !Z.land_spec.
    destruct (decide (j < 8)).
    - rewrite !Z.shiftr_spec, Z.mod_pow2_bits_low by lia. done.
    - change 0xff with (Z.ones 8). by rewrite Z.ones_spec_high, !andb_false_r by lia. }
  unfold two_bytes. rewrite (H 8 a), (H 8 b), E by auto.
  pose proof (H 0 a (or_introl eq_refl)) as Ha. pose proof (H 0 b (or_introl eq_refl)) as Hb.
  rewrite !Z.shiftr_0_r in Ha, Hb. by rewrite Ha, Hb, E.
Qed.

Lemma idle_after_app q n n' : idle_after q n ++ idle_after (drop n q) n' = idle_after q (n + n').
Proof.
  unfold idle_after. rewrite length_drop. destruct (decide (n <= length q)%nat).
  - replace (n - length q)%nat with 0%nat by lia. cbn [replicate]. rewrite app_nil_r, app_assoc, take_take_drop.
    do 2 f_equal. lia.
  - rewrite (drop_ge q n), take_nil, (take_ge q n), (take_ge q (n + n')) by lia. cbn [app].
    rewrite <- app_assoc, <- replicate_add. do 2 f_equal. lia.
Qed.

(** The engine runs: it hears the frame, may have its carrier switched, and
    speaks; [given] are the bits it asks for meanwhile. *)
Inductive engine_frame (downstream : list Z) (l : L) : list Z -> list Z -> L -> Prop :=
  | EFrame g1 events l1 g2 l2 g3 samples l3 :
      answered (v90_analogue_phase3_rx downstream l) g1 events l1 ->
      (g2 = [] /\ l2 = l1 \/
       answered (v34_tx_start_external_symbols 4 1 (S754_zero false, S754_zero false) l1) g2 true l2) ->
      answered (v90_analogue_phase3_tx FRAME_OCTETS l2) g3 samples l3 ->
      engine_frame downstream l (g1 ++ g2 ++ g3) samples l3.

(** What a run of the engine does to the source. *)
Definition serves {A} (m : P (L := L) A) p (given : list Z) (x : A) p' : Prop :=
  m p = (inl x, p') /\ gave (length given) p p' /\
  (forall q, holds (source p) q -> given = idle_after q (length given)).
Lemma call_serves {A} (c : L -> asks L A) p x p' : call c p = (inl x, p') ->
  exists given, answered (c (Probe.lib p)) given x (Probe.lib p') /\ serves (call c) p given x p'.
Proof.
  intros E. unfold call, mbind, P_bind, gets in E.
  destruct (run_asks_gives (c (Probe.lib p)) p) as (n & given & x1 & l & p1 & E1 & Ha & <- & <- & Hg & Hq & _).
  rewrite E1 in E. injection E as -> ->. exists given. split; [done|]. by split.
Qed.

Lemma switch_serves e p p' : switch_carrier e p = (inl tt, p') ->
  exists given, (given = [] /\ Probe.lib p' = Probe.lib p \/
     answered (v34_tx_start_external_symbols 4 1 (S754_zero false, S754_zero false) (Probe.lib p)) given true (Probe.lib p')) /\
  gave (length given) p p' /\ (forall q, holds (source p) q -> given = idle_after q (length given)).
Proof.
  unfold switch_carrier. intros E. apply run_bind in E as (sw & p1 & [= <- <-] & E).
  apply run_bind in E as (st & p1 & [= <- <-] & E). destruct (_ && _ && _).
  - apply run_bind in E as (ok & p1 & E1 & E). destruct (call_serves _ _ _ _ E1) as (given & Ha & _ & Hg & Hq).
    destruct ok; [|done]. injection E as <-. exists given. split; [by right|]. by split.
  - injection E as <-. exists []. split; [by left|]. split; [by apply gave_none|]. intros q _. unfold idle_after. by rewrite take_0.
Qed.

Lemma accept_packet_spec i header packed p : in_packet i = Some (header, packed) ->
  exists p', Probe.accept_packet true i p = (inl tt, p') /\ consumed_frame (source p') = 0 /\
  (forall q, holds (source p) q -> holds (source p') (q ++ accepted_bits q packed (nth 0 header 0 ||| (nth 1 header 0 <<< 8)))) /\
  Probe.lib p' = Probe.lib p /\ has_phase3 p' = has_phase3 p /\ start_frames p' = start_frames p /\ reset_mtime p' = reset_mtime p.
Proof.
  intros E. unfold Probe.accept_packet. rewrite E. unfold modify. eexists. split; [done|]. split; [done|]. split; [|done].
  intros q Hq. destruct (holds_input packed (nth 0 header 0 ||| (nth 1 header 0 <<< 8)) _ q Hq) as [H _].
  by destruct H.
Qed.
Lemma no_reset e mtime p : match mtime with Some m => m <= reset_mtime p | None => True end ->
  reset_if_requested e mtime p = (inl tt, p).
Proof.
  intros H. unfold reset_if_requested. destruct mtime as [m|]; [|done]. unfold mbind, P_bind, gets.
  by destruct (Z.gtb_spec m (reset_mtime p)); [lia|].
Qed.

(** The engine's part of a frame. *)
Record frame_served e downstream p q (given samples : list Z) l' o p' : Prop := {
  fs_engine : engine_frame downstream (Probe.lib p) given samples l';
  fs_given : given = idle_after q (length given);
  fs_rest : holds (source p') (drop (length given) q);
  fs_count : length samples = Z.to_nat FRAME_OCTETS;
  fs_octets : Probe.out_frame o = map (encode_sample (default double_one (e_tx_gain e))) samples;
  fs_header : exists received reply_bits,
    Probe.out_packet o = Some (two_bytes (consumed_frame (source p) + Z.of_nat (length given)) ++ two_bytes received, reply_bits);
}.
Lemma run_engine_serves e downstream p q o p' : has_phase3 p = true -> holds (source p) q ->
  run_engine true e downstream p = (inl o, p') -> exists given samples l', frame_served e downstream p q given samples l' o p'.
Proof.
  intros Hph Hq E. unfold run_engine in E. apply run_bind in E as (st & p1 & [= <- <-] & E). rewrite Hph in E.
  apply run_bind in E as (u & p1 & [= <- <-] & E).
  apply run_bind in E as (events & p2 & E2 & E). destruct (call_serves _ _ _ _ E2) as (g1 & Ha1 & _ & Hg1 & Hi1).
  apply run_bind in E as (u & p3 & E3 & E).
  assert (source p3 = source p2 /\ Probe.lib p3 = Probe.lib p2) as [Es3 El3] by (by destruct (tst _ _); injection E3 as _ <-).
  apply run_bind in E as ([] & p4 & E4 & E). destruct (switch_serves e p3 p4 E4) as (g2 & Ha2 & Hg2 & Hi2).
  apply run_bind in E as (samples & p5 & E5 & E). destruct (call_serves _ _ _ _ E5) as (g3 & Ha3 & _ & Hg3 & Hi3).
  destruct (Z.eqb_spec (Z.of_nat (length samples)) FRAME_OCTETS) as [Hsl|]; cbn [negb] in E; [|discriminate E].
  pose proof (gave_trans _ _ _ _ _ Hg1 (gave_trans _ _ _ _ _ (gave_none p2 p3 Es3) (gave_trans _ _ _ _ _ Hg2 Hg3))) as Hall.
  cbn [Nat.add] in Hall. rewrite <- !length_app in Hall. destruct Hall as [Hall Hcount].
  unfold reply in E. apply run_bind in E as ([packed' received] & p6 & E6 & E).
  destruct (pack_output_spec p5) as (pk & p6' & E6' & _ & _ & Es6). rewrite E6 in E6'. injection E6' as -> -> ->.
  apply run_bind in E as (conn & p7 & [= <- <-] & E). apply run_bind in E as (s & p7 & [= <- <-] & E). injection E as <- <-.
  exists (g1 ++ g2 ++ g3), samples, (Probe.lib p5). split.
  - apply (EFrame _ _ g1 events (Probe.lib p2) g2 (Probe.lib p4)); [done| |done]. by rewrite El3 in Ha2.
  - rewrite !length_app, <- !idle_after_app.
    pose proof (proj1 Hg1 q Hq) as Hq2. rewrite <- Es3 in Hq2. pose proof (proj1 Hg2 _ Hq2) as Hq3.
    by rewrite <- (Hi1 q Hq), <- (Hi2 _ Hq2), <- (Hi3 _ Hq3).
  - rewrite Es6. exact (Hall q Hq).
  - rewrite <- Hsl. by rewrite Nat2Z.id.
  - done.
  - do 2 eexists. rewrite <- Es6 in Hcount. rewrite <- (two_bytes_mod _ _ Hcount). done.
Qed.

(** C23: the count in an answer is the payload used. When a frame and its
    packet reach a running engine, and the frame is answered: the packet's bits
    are queued behind those waiting; the engine hears the frame, may have its
    carrier switched and speaks; the bits it asks for meanwhile are the oldest
    queued ones, in order, and idle ones only when none are left; exactly those
    leave the queue; the first two octets of the answer's header say how many
    there were; and its 160 octets are the engine's samples. *)
Theorem consumed_exact e i header packed q p o p' : Z.of_nat (length (in_frame i)) = FRAME_OCTETS ->
  in_packet i = Some (header, packed) -> match in_mtime i with Some m => m <= reset_mtime p | None => True end ->
  start_frames p <= 0 -> has_phase3 p = true -> holds (source p) q ->
  stream_frame true e i p = (inl o, p') ->
  let q' := q ++ accepted_bits q packed (nth 0 header 0 ||| (nth 1 header 0 <<< 8)) in
  exists given samples l', engine_frame (in_frame i) (Probe.lib p) given samples l' /\
    given = idle_after q' (length given) /\ holds (source p') (drop (length given) q') /\
    length samples = Z.to_nat FRAME_OCTETS /\
    Probe.out_frame o = map (encode_sample (default double_one (e_tx_gain e))) samples /\
    exists received reply_bits,
      Probe.out_packet o = Some (two_bytes (Z.of_nat (length given)) ++ two_bytes received, reply_bits).
Proof.
  intros Hlen Hp Hm Hs Hph Hq E q'. unfold stream_frame in E. rewrite Hlen in E. cbv zeta in E.
  change (FRAME_OCTETS =? 0) with false in E. rewrite Z.eqb_refl in E. cbn [negb] in E.
  destruct (accept_packet_spec i header packed p Hp) as (p1 & E1 & Hc1 & Hq1 & Hl1 & Hh1 & Hs1 & Hr1).
  specialize (Hq1 q Hq). fold q' in Hq1.
  apply run_bind in E as (u & p1' & E1' & E). rewrite E1 in E1'. injection E1' as <- <-.
  rewrite <- Hr1 in Hm. apply run_bind in E as (u & p1' & E2 & E). rewrite (no_reset e _ p1 Hm) in E2. injection E2 as <- <-.
  apply run_bind in E as (w & p1' & [= <- <-] & E). rewrite Hs1 in E.
  destruct (Z.gtb_spec (start_frames p) 0); [lia|].
  rewrite <- Hh1 in Hph. destruct (run_engine_serves _ _ _ _ _ _ Hph Hq1 E) as (given & samples & l' & [H1 H2 H3 H4 H5 H6]).
  rewrite Hc1 in H6. rewrite Hl1 in H1. by exists given, samples, l'.
Qed.

(** A new engine starts from an empty queue. *)
Lemma keeps_empty {A} (c : L -> asks L A) p x p' : holds (source p) [] -> call c p = (inl x, p') -> holds (source p') [].
Proof.
  intros H E. destruct (call_serves c p x p' E) as (given & _ & _ & [Hg _] & _).
  specialize (Hg [] H). by rewrite drop_nil in Hg.
Qed.
Lemma start_engine_empty cfg p ok p' : holds (source p) [] -> start_engine cfg p = (inl ok, p') -> holds (source p') [].
Proof.
  intros H E. unfold start_engine in E. apply run_bind in E as (ok1 & p1 & E1 & E). apply (keeps_empty _ _ _ _ H) in E1.
  destruct ok1; cbn [negb] in E; [|by injection E as _ <-].
  apply run_bind in E as (ok2 & p2 & E2 & E). apply (keeps_empty _ _ _ _ E1) in E2.
  destruct ok2; cbn [negb] in E; by injection E as _ <-.
Qed.
Lemma new_phase3_empty e p p' : new_phase3 e p = (inl tt, p') -> has_phase3 p' = true -> holds (source p') [].
Proof.
  unfold new_phase3. intros E Hph. apply run_bind in E as (ok & p1 & E1 & E). injection E as <-. cbn [has_phase3 with_phase3] in Hph. subst ok.
  destruct (load_dil (e_profile e)) as [dil|]; [|done]. apply run_bind in E1 as (u & p2 & E2 & E1).
  injection E2 as _ <-. change (holds (source p1) []). eapply start_engine_empty; [|exact E1]. cbn [source with_source].
  by split.
Qed.

(** Whether a frame makes a new engine. *)
Definition makes_engine (i : input_t) p : Prop :=
  (exists m, in_mtime i = Some m /\ reset_mtime p < m) \/
  (match in_mtime i with Some m => m <= reset_mtime p | None => True end /\ has_phase3 p = false /\ start_frames p <= 0).

Lemma need_engine_spec e p p' : (new_phase3 e ;; need_engine) p = (inl tt, p') -> has_phase3 p' = true /\ holds (source p') [].
Proof.
  intros E. apply run_bind in E as ([] & p1 & E1 & E). apply run_bind in E as (ok & p2 & [= <- <-] & E).
  destruct (has_phase3 p1) eqn:Hph; [|done]. injection E as <-. split; [done|]. by eapply new_phase3_empty.
Qed.
Lemma made_engine ds e i p o p' : makes_engine i p ->
  (reset_if_requested e (in_mtime i) ;;
   waiting ← gets start_frames;
   if waiting >? 0 then modify (with_start_frames (waiting - 1)) ;; mret (idle_frame ds)
   else run_engine ds e (in_frame i)) p = (inl o, p') ->
  exists p1, has_phase3 p1 = true /\ holds (source p1) [] /\ run_engine ds e (in_frame i) p1 = (inl o, p').
Proof.
  intros [(m & Hm & Hlt)|(Hm & Hph & Hs)] E; apply run_bind in E as (u & p1 & E1 & E);
    apply run_bind in E as (w & p1' & [= <- <-] & E).
  - unfold reset_if_requested in E1. rewrite Hm in E1. apply run_bind in E1 as (last & p2 & [= <- <-] & E1).
    rewrite (proj2 (Z.gtb_lt m (reset_mtime p))) in E1 by done.
    apply run_bind in E1 as (u1 & p2 & _ & E1). apply run_bind in E1 as (u2 & p3 & _ & E1).
    assert (exists p4, (new_phase3 e ;; need_engine) p3 = (inl tt, p4) /\
      p1 = with_connected false (with_start_frames 0 (with_reset_mtime m p4))) as (p4 & E4 & ->).
    { apply run_bind in E1 as ([] & p4 & E4 & E1). apply run_bind in E1 as ([] & p5 & E5 & E1).
      exists p5. split; [|by injection E1 as _ <-]. unfold mbind, P_bind. by rewrite E4. }
    destruct (need_engine_spec e p3 p4 E4) as [H1 H2]. eexists. split; [|split; [|exact E]]; done.
  - rewrite (no_reset e _ p Hm) in E1. injection E1 as <- <-. destruct (Z.gtb_spec (start_frames p) 0); [lia|].
    unfold run_engine in E. apply run_bind in E as (st & p1' & [= <- <-] & E). rewrite Hph in E.
    apply run_bind in E as ([] & p1 & E1 & E). destruct (need_engine_spec e p p1 E1) as [H1 H2].
    exists p1. split; [done|]. split; [done|]. unfold run_engine, mbind, P_bind, gets. rewrite H1. exact E.
Qed.

(** C26: payload is lost when an engine is made. Whenever a frame is answered
    by an engine made for it, the first one or after a reset, none of the
    payload that was waiting, nor of the packet that came with the frame,
    reaches the engine: all the bits it is given are idle ones, and nothing is
    left in the queue. *)
Theorem new_engine_drops_payload e i header packed q p o p' : Z.of_nat (length (in_frame i)) = FRAME_OCTETS ->
  in_packet i = Some (header, packed) -> holds (source p) q -> makes_engine i p ->
  stream_frame true e i p = (inl o, p') ->
  holds (source p') [] /\
  exists l given samples l', engine_frame (in_frame i) l given samples l' /\ given = replicate (length given) 1.
Proof.
  intros Hlen Hp Hq Hm E. unfold stream_frame in E. rewrite Hlen in E. cbv zeta in E.
  change (FRAME_OCTETS =? 0) with false in E. rewrite Z.eqb_refl in E. cbn [negb] in E.
  destruct (accept_packet_spec i header packed p Hp) as (p1 & E1 & _ & _ & _ & Hh1 & Hs1 & Hr1).
  apply run_bind in E as (u & p1' & E1' & E). rewrite E1 in E1'. injection E1' as <- <-.
  assert (makes_engine i p1) as Hm1 by (unfold makes_engine; by rewrite Hh1, Hs1, Hr1).
  destruct (made_engine true e i p1 o p' Hm1 E) as (p2 & Hph & H2 & E2).
  destruct (run_engine_serves _ _ _ _ _ _ Hph H2 E2) as (given & samples & l' & [H3 H4 H5 _ _ _]).
  rewrite drop_nil in H5. split; [done|]. exists (Probe.lib p2), given, samples, l'. split; [done|].
  rewrite H4 at 1. unfold idle_after. by rewrite take_nil, Nat.sub_0_r.
Qed.

End Stream.

(** ** Every answer *)
Section Answers.
Context {L : Type} {eng : Engine L}.
Implicit Types p : probe_t (L := L).

Definition octets (n : Z) (l : list Z) : Prop := Z.of_nat (length l) = n /\ Forall (fun x => 0 <= x <= 0xff) l.
Definition answer (data_stream : bool) (o : Probe.output_t) : Prop :=
  octets FRAME_OCTETS (Probe.out_frame o) /\
  match Probe.out_packet o with
  | Some (header, packed) => data_stream = true /\ octets 4 header /\ octets Probe.DATA_BYTES packed
  | None => data_stream = false
  end.

Lemma pcmu_octet x : 0 <= pcmu_encode x <= 0xff.
Proof. exact (conv_range U8 _). Qed.
Lemma two_octets n : Forall (fun x => 0 <= x <= 0xff) (two_bytes n).
Proof.
  assert (forall x, 0 <= x &&& 0xff <= 0xff) as H by (intros x; split; [apply Z.land_nonneg; right; done|apply land_range_r; done]).
  unfold two_bytes. constructor; [apply H|]. constructor; [apply H|constructor].
Qed.
Lemma empty_octets : octets Probe.DATA_BYTES Probe.empty_packet.
Proof. split; [reflexivity|]. apply Forall_replicate. lia. Qed.

Lemma idle_answer ds : answer ds (idle_frame ds).
Proof.
  unfold idle_frame. split.
  - split; [reflexivity|]. cbn [Probe.out_frame]. apply Forall_replicate. lia.
  - destruct ds; [|done]. cbn [Probe.out_packet]. split; [done|]. split; [|apply empty_octets].
    split; [done|]. repeat (constructor; [done|]). constructor.
Qed.
Lemma reply_answer ds upstream p o p' : octets FRAME_OCTETS upstream -> Probe.reply ds upstream p = (inl o, p') -> answer ds o.
Proof.
  intros Hu E. unfold Probe.reply in E. destruct ds; [|by injection E as <- _].
  apply run_bind in E as ([packed received] & p1 & E1 & E).
  destruct (pack_output_spec p) as (pk & p1' & E1' & (Hc1 & Hc2 & _) & _ & _). rewrite E1 in E1'. injection E1' as -> -> ->.
  apply run_bind in E as (conn & p2 & [= <- <-] & E). apply run_bind in E as (s & p2 & [= <- <-] & E). injection E as <- _.
  split; [done|]. cbn [Probe.out_packet]. split; [done|]. split; [split; [done|]|split; [|done]].
  - exact (Forall_app_2 _ _ _ (two_octets _) (two_octets _)).
  - rewrite Hc1. reflexivity.
Qed.

Lemma run_engine_answer ds e downstream p o p' : run_engine ds e downstream p = (inl o, p') -> answer ds o.
Proof.
  intros E. unfold run_engine in E. do 6 (apply run_bind in E as (? & ? & _ & E)).
  match type of E with (if negb (Z.of_nat (length ?s) =? _) then _ else _) _ = _ => rename s into samples end.
  destruct (Z.eqb_spec (Z.of_nat (length samples)) FRAME_OCTETS) as [Hl|]; cbn [negb] in E; [|discriminate E].
  eapply reply_answer; [|exact E]. split; [by rewrite length_map|]. apply Forall_map, Forall_true. intros ?. apply pcmu_octet.
Qed.
Lemma stream_frame_answer ds e i p o p' : stream_frame ds e i p = (inl o, p') -> answer ds o.
Proof.
  intros E. unfold stream_frame in E. cbv zeta in E. destruct (_ =? 0); [discriminate E|]. destruct (negb _); [discriminate E|].
  do 2 (apply run_bind in E as (? & ? & _ & E)). apply run_bind in E as (w & p1 & [= <- <-] & E).
  destruct (_ >? 0); [|by eapply run_engine_answer]. apply run_bind in E as (? & ? & _ & E). injection E as <- _. apply idle_answer.
Qed.

(** The exit code of a command that ends the program. *)
Definition exits_in {A} (K : Z -> Prop) (m : P (L := L) A) : Prop :=
  forall p, match fst (m p) with inl _ => True | inr code => K code end.
Section Exits.
Context (K : Z -> Prop).
Lemma exits_bind {A C} (m : P A) (f : A -> P C) : exits_in K m -> (forall x, exits_in K (f x)) -> exits_in K (m ≫= f).
Proof.
  intros Hm Hf p. unfold mbind, P_bind. specialize (Hm p). destruct (m p) as [[x|code] p1]; [apply Hf|done].
Qed.
Lemma exits_gets {A} (f : probe_t -> A) : exits_in K (gets f). Proof. done. Qed.
Lemma exits_modify f : exits_in K (Probe.modify f). Proof. done. Qed.
Lemma exits_ret {A} (x : A) : exits_in K (mret x). Proof. done. Qed.
Lemma exits_pass : exits_in K Probe.pass. Proof. done. Qed.
Lemma exits_act q : exits_in K (Probe.act q). Proof. done. Qed.
Lemma exits_exit {A} code : K code -> exits_in K (exit (A := A) code). Proof. by intros H p. Qed.
Lemma exits_call {A} (c : L -> asks L A) : exits_in K (Probe.call c).
Proof.
  intros p. unfold Probe.call, mbind, P_bind, gets.
  destruct (run_asks_gives (c (Probe.lib p)) p) as (n & g & x & l & p' & -> & _). done.
Qed.
Lemma exits_if {A} (c : bool) (m m' : P A) : (c = true -> exits_in K m) -> (c = false -> exits_in K m') ->
  exits_in K (if c then m else m').
Proof. destruct c; auto. Qed.
End Exits.
Create HintDb exits discriminated.
#[local] Hint Resolve exits_gets exits_modify exits_ret exits_pass exits_act exits_call : exits.
Ltac exits_auto :=
  repeat match goal with
  | |- forall _, _ => intro
  | |- exits_in _ (_ ≫= _) => apply exits_bind
  | |- exits_in _ (if ?c then _ else _) => apply exits_if
  | |- exits_in _ (let '_ := ?x in _) => destruct x
  | |- exits_in _ (match ?x with _ => _ end) => destruct x
  | |- exits_in _ (exit _) => apply exits_exit
  | |- exits_in _ _ => solve [auto with exits]
  end.

(** A frame ends the program with 1; or with 0, when it is the end of the input
    or switching the carrier, where that is asked for, fails. *)
Lemma exits_frame ds e i : exits_in (fun c => c = 1 \/
    c = 0 /\ (Probe.in_frame i = [] \/ is_set (e_data_high_carrier e) = true)) (stream_frame ds e i).
Proof.
  unfold stream_frame, Probe.accept_packet, reset_if_requested, run_engine, switch_carrier, Probe.reply,
    Probe.pack_output_bits, new_phase3, start_engine, need_engine. cbv zeta.
  exits_auto; try by left.
  - right. split; [done|]. left. apply length_zero_iff_nil.
    match goal with H : (_ =? 0) = true |- _ => apply Z.eqb_eq in H; lia end.
  - right. split; [done|]. right. by repeat match goal with H : _ && _ = true |- _ => apply andb_true_iff in H as [H _] end.
Qed.
Lemma exits_nonempty ds e i : Probe.in_frame i <> [] ->
  exits_in (fun c => c = 1 \/ c = 0 /\ is_set (e_data_high_carrier e) = true) (stream_frame ds e i).
Proof.
  intros Hne p. pose proof (exits_frame ds e i p) as H. destruct (fst _) as [|c]; [done|]. tauto.
Qed.

Lemma stream_loop_answers ds e is_ : forall p, let '(os, code) := stream_loop ds e is_ p in
  Forall (answer ds) os /\ (code = 0 \/ code = 1) /\ (length os <= length is_)%nat /\ (length os = length is_ -> code = 0).
Proof.
  induction is_ as [|i is_ IH]; intros p; cbn [stream_loop]; [by repeat split; auto|].
  pose proof (exits_frame ds e i p) as Hx. destruct (stream_frame ds e i p) as [[o|code] p1] eqn:E.
  - specialize (IH p1). destruct (stream_loop ds e is_ p1) as [os code]. destruct IH as (H1 & H2 & H3 & H4).
    split; [constructor; [by eapply stream_frame_answer|done]|]. split; [done|]. cbn [length]. split; [lia|]. intros H. apply H4. lia.
  - split; [constructor|]. split; [cbn in Hx; tauto|]. cbn [length]. split; lia.
Qed.

(** Every frame is answered. Stream mode answers the frames of its input in
    order, each with 160 octets and, in data-stream mode only, a four-octet
    header and 256 octets, whatever the engine does; it ends with exit code 0
    or 1, and when it has answered them all the code is 0. *)
Theorem stream_answers ds e queue_ok l is_ : let '(os, code) := stream_mode ds e queue_ok l is_ in
  Forall (answer ds) os /\ (code = 0 \/ code = 1) /\ (length os <= length is_)%nat /\
  (queue_ok = true -> length os = length is_ -> code = 0).
Proof.
  unfold stream_mode. destruct queue_ok; cbn [negb]; [|by repeat split; auto; cbn; lia].
  pose proof (stream_loop_answers ds e is_ (Probe empty_source l false (initial_start e) 0 false false)) as H.
  destruct (stream_loop _ _ _ _) as [os code]. destruct H as (H1 & H2 & H3 & H4). by repeat split.
Qed.
End Answers.

(** ** A small engine

    It sends two payload bits with each frame as two pulses, and has three
    bits for its host every time. *)
Definition toy_bits (n : Z) : option (list Z) := if n <? 0 then None else Some (take (Z.to_nat n) [1; 0; 1]).
Lemma toy_bits_max n (l : Z) bits : fst (toy_bits n, l) = Some bits -> Z.of_nat (length bits) <= n.
Proof.
  unfold toy_bits. cbn [fst]. destruct (Z.ltb_spec n 0); [done|]. intros [= <-]. rewrite length_take. lia.
Qed.
#[export] Instance toy_engine : Engine Z := {|
  v90_dil_desc_t := unit; dil_zero := tt; v90_dil_preset_load := fun _ => Some tt;
  V90A_TX_B1_PENDING := 5; V90A4_RX_EVENT_DATA := 0x10;
  v34_init := fun l => Done true l; v90_analogue_phase3_init := fun _ l => AskBit l (fun _ l => Done true l);
  v34_free := fun l => l; v90_analogue_phase3_free := fun l => l;
  v90_analogue_phase3_rx := fun _ l => Done (if l >? 2 then 0x10 else 0) (l + 1);
  v90_analogue_phase3_tx := fun n l =>
    AskBit l (fun a l => AskBit l (fun b l => Done (a * 1000 :: b * 1000 :: replicate (Z.to_nat n - 2) 0) l));
  v90_analogue_phase3_tx_stage := fun l => l; v90_analogue_phase3_rx_stage := fun l => l;
  v34_tx_start_external_symbols := fun _ _ _ l => Done true l;
  v90_analogue_phase3_get_data_bits := fun n l => (toy_bits n, l);
  get_data_bits_max := toy_bits_max;
  double_unspecified := fun _ => 0
|}.
Definition toy_env : Probe.env_t := Env None None None None None None None.
Definition toy_source : idle_bit_source_t := queue_input_bits [0x05] 3 empty_source.
Definition toy_probe (running : bool) : probe_t := Probe toy_source 0 running 0 0 false false.
Definition toy_frame : Probe.input_t := Probe.Input (replicate 160 0xff) (Some ([2; 0; 0; 0], [0x03])) None.
Definition toy_out : Probe.output_t :=
  Probe.Output (pcmu_encode 1000 :: pcmu_encode 0 :: replicate 158 (pcmu_encode 0)) (Some ([2; 0; 3; 0], 5 :: replicate 255 0)).

Lemma toy_source_holds : holds toy_source [1; 0; 1].
Proof.
  destruct (holds_input [0x05] 3 empty_source []) as [H _]; [by apply ring_empty|].
  assert ([] ++ accepted_bits [] [0x05] 3 = [1; 0; 1]) as E; [|by rewrite E in H].
  unfold accepted_bits. change (room []) with (Z.to_nat Bridge.DATA_QUEUE_BITS).
  change (packed_bits [0x05] (3 `min` Bridge.DATA_BITS)) with [1; 0; 1].
  rewrite take_ge; [done|]. cbn [length]. change Bridge.DATA_QUEUE_BITS with 67108864. lia.
Qed.

(** -500 and 1000 with no gain, and 1000 and 30000 at a gain of two. *)
Definition double_two : spec_float := double_of_int 2.

Lemma codewords_round_trip_witness : 0 <= 0x2c < 256 /\ level 0x2c = -4860 /\ pcmu_encode (level 0x2c) = 0x2c.
Proof. split; [lia|]. split; [vm_compute; reflexivity|]. exact (codewords_round_trip 0x2c ltac:(lia)). Defined.

Lemma payload_crosses_witness :
  engine_bits (toy_probe true) = [1; 0; 1] /\
  (exists packed received p', Probe.pack_output_bits (toy_probe true) = (inl (packed, received), p') /\
     queues ([] ++ take (room []) (engine_bits (toy_probe true))) [] (after (bridge_queue_input packed received) (toy_bridge 9 true))) /\
  (exists packed sent, result bridge_pack_output (toy_bridge 9 true) = (packed, sent) /\
     holds (queue_input_bits packed sent toy_source) ([1; 0; 1] ++ take (room [1; 0; 1]) (take (Z.to_nat Bridge.DATA_BITS) []))).
Proof.
  split; [vm_compute; reflexivity|].
  exact (payload_crosses (toy_probe true) (toy_bridge 9 true) [] [] [1; 0; 1] (empty_queues 9 true) toy_source_holds).
Defined.

Definition toy_run (running : bool) : (Probe.output_t + Z) * probe_t := stream_frame true toy_env toy_frame (toy_probe running).
Lemma toy_runs running o : fst (toy_run running) = inl o ->
  stream_frame true toy_env toy_frame (toy_probe running) = (inl o, snd (toy_run running)).
Proof. intros <-. apply surjective_pairing. Qed.

Lemma toy_out_eq : fst (toy_run true) = inl toy_out.
Proof. vm_compute. reflexivity. Qed.
Lemma consumed_exact_witness :
  fst (toy_run true) = inl toy_out /\
  let q' := [1; 0; 1] ++ accepted_bits [1; 0; 1] [0x03] (nth 0 [2; 0; 0; 0] 0 ||| (nth 1 [2; 0; 0; 0] 0 <<< 8)) in
  exists given samples l', engine_frame (in_frame toy_frame) (Probe.lib (toy_probe true)) given samples l' /\
    given = idle_after q' (length given) /\ holds (source (snd (toy_run true))) (drop (length given) q') /\
    length samples = Z.to_nat FRAME_OCTETS /\
    Probe.out_frame toy_out = map (encode_sample (default double_one (e_tx_gain toy_env))) samples /\
    exists received reply_bits,
      Probe.out_packet toy_out = Some (two_bytes (Z.of_nat (length given)) ++ two_bytes received, reply_bits).
Proof.
  split; [exact toy_out_eq|].
  exact (consumed_exact toy_env toy_frame [2; 0; 0; 0] [0x03] [1; 0; 1] (toy_probe true) toy_out (snd (toy_run true))
    eq_refl eq_refl I ltac:(cbn; lia) eq_refl toy_source_holds (toy_runs true toy_out toy_out_eq)).
Defined.

Definition toy_first : Probe.output_t :=
  Probe.Output (pcmu_encode 1000 :: pcmu_encode 1000 :: replicate 158 (pcmu_encode 0)) (Some ([3; 0; 3; 0], 5 :: replicate 255 0)).
Lemma toy_first_eq : fst (toy_run false) = inl toy_first.
Proof. vm_compute. reflexivity. Qed.
Lemma toy_makes_engine : makes_engine toy_frame (toy_probe false).
Proof. right. split; [exact I|]. split; [reflexivity|]. cbn. lia. Qed.
Lemma new_engine_drops_payload_witness :
  fst (toy_run false) = inl toy_first /\ holds (source (snd (toy_run false))) [] /\
  exists l given samples l', engine_frame (in_frame toy_frame) l given samples l' /\ given = replicate (length given) 1.
Proof.
  split; [exact toy_first_eq|].
  exact (new_engine_drops_payload toy_env toy_frame [2; 0; 0; 0] [0x03] [1; 0; 1] (toy_probe false) toy_first (snd (toy_run false))
    eq_refl eq_refl toy_source_holds toy_makes_engine (toy_runs false toy_first toy_first_eq)).
Defined.
