(* ===== verification/StreamBridge.v ===== *)
(** * The stream event bridge

    [v90_stream_event_bridge.c]: a library that hands a media process the
    symbols and segments of the demodulator one call at a time. The
    demodulator is not in the repository: it is an instance of [Demod], with a
    state [D] and a result that holds the symbols so far and the segments.

    The theorem is about what the caller sees: every symbol at most once, in
    order, and none lost as long as there is room for those of each call. *)
From S2P Require Import Prelude.

Class Demod (D : Type) := {
  float_t : Type;
  (** what the bridge reads of a symbol and of a segment *)
  p3_symbol_t : Type;
  sample_index : p3_symbol_t -> Z; dibit : p3_symbol_t -> Z; bit0 : p3_symbol_t -> Z; bit1 : p3_symbol_t -> Z;
  re : p3_symbol_t -> float_t; im : p3_symbol_t -> float_t; magnitude : p3_symbol_t -> float_t;
  p3_segment_t : Type;
  type : p3_segment_t -> Z; start_symbol : p3_segment_t -> Z; length_ : p3_segment_t -> Z;
  start_sample : p3_segment_t -> Z; end_sample : p3_segment_t -> Z; confidence : p3_segment_t -> float_t;
  p3_demod_init : Z -> Z -> Z -> D;
  p3_demod_reset : D -> D;
  (** samples, offset; the symbols of the result before and after *)
  p3_demod_process : list Z -> Z -> D -> list p3_symbol_t -> D * list p3_symbol_t;
  (** the symbols and segments of the result; the value returned and the
      segments of the result afterwards *)
  p3_segment_symbols : list p3_symbol_t -> list p3_segment_t -> Z * list p3_segment_t;
}.

Section StreamBridge.
Context {D : Type} {demod_lib : Demod D}.

(** ** Definitions *)
Record v90_bridge_symbol_t := BridgeSymbol {
  b_sample_index : Z; b_dibit : Z; b_bit0 : Z; b_bit1 : Z; b_re : float_t; b_im : float_t; b_magnitude : float_t }.
Record v90_bridge_segment_t := BridgeSegment {
  b_type : Z; b_start_symbol : Z; b_length : Z; b_start_sample : Z; b_end_sample : Z; b_confidence : float_t }.

Record v90_stream_bridge_t := StreamBridge {
  demod : D; symbols : list p3_symbol_t; segments : list p3_segment_t; emitted_symbols : Z }.

(** The room for symbols [create] asks for. *)
Definition RESULT_SYMBOLS : Z := 32768.

(** [None] is a null pointer: the allocations may fail. *)
Definition v90_stream_bridge_create (baud_code carrier sample_rate : Z) (bridge_ok result_ok : bool) : option v90_stream_bridge_t :=
  if negb bridge_ok then None
  else
    let d := p3_demod_init baud_code carrier sample_rate in
    if negb result_ok then None else Some (StreamBridge d [] [] 0).

Definition v90_stream_bridge_reset (bridge : option v90_stream_bridge_t) : option v90_stream_bridge_t :=
  b ← bridge; Some (StreamBridge (p3_demod_reset (demod b)) [] [] 0).

Definition copy_symbol (src : p3_symbol_t) : v90_bridge_symbol_t :=
  BridgeSymbol (sample_index src) (dibit src) (bit0 src) (bit1 src) (re src) (im src) (magnitude src).
Definition copy_segment (src : p3_segment_t) : v90_bridge_segment_t :=
  BridgeSegment (type src) (start_symbol src) (length_ src) (start_sample src) (end_sample src) (confidence src).

(** What is written to [out], the value returned, and the bridge. A null
    [samples] or [out] is [None]; [out] is given by its capacity. *)
Definition v90_stream_bridge_process (bridge : option v90_stream_bridge_t) (samples : option (list Z)) (sample_offset : Z)
    (out : option Z) : list v90_bridge_symbol_t * Z * option v90_stream_bridge_t :=
  match bridge, samples, out with
  | Some b, Some samples, Some capacity =>
      if capacity <=? 0 then ([], 0, bridge)
      else
        let before := Z.of_nat (length (symbols b)) in
        let '(d, syms) := p3_demod_process samples sample_offset (demod b) (symbols b) in
        let count := s32 (Z.of_nat (length syms) - before) in
        let count := if count >? capacity then capacity else count in
        (map copy_symbol (take (Z.to_nat count) (drop (Z.to_nat before) syms)), count,
         Some (StreamBridge d syms (segments b) (s32 (emitted_symbols b + count))))
  | _, _, _ => ([], 0, bridge)
  end.

Definition v90_stream_bridge_segments (bridge : option v90_stream_bridge_t) (out : option Z) :
    list v90_bridge_segment_t * Z * option v90_stream_bridge_t :=
  match bridge, out with
  | Some b, Some capacity =>
      if capacity <=? 0 then ([], 0, bridge)
      else
        let '(count, segs) := p3_segment_symbols (symbols b) (segments b) in
        let count := if count >? capacity then capacity else count in
        (map copy_segment (take (Z.to_nat count) segs), count,
         Some (StreamBridge (demod b) (symbols b) segs (emitted_symbols b)))
  | _, _ => ([], 0, bridge)
  end.

(** *** A client's calls *)
Inductive scall := SProcess (samples : list Z) (sample_offset capacity : Z) | SSegments (capacity : Z).
Fixpoint client (cs : list scall) (bridge : option v90_stream_bridge_t) : list (list v90_bridge_symbol_t) * option v90_stream_bridge_t :=
  match cs with
  | [] => ([], bridge)
  | SProcess samples offset capacity :: cs =>
      let '(out, _, bridge) := v90_stream_bridge_process bridge (Some samples) offset (Some capacity) in
      let '(outs, bridge) := client cs bridge in (out :: outs, bridge)
  | SSegments capacity :: cs =>
      let '(_, _, bridge) := v90_stream_bridge_segments bridge (Some capacity) in client cs bridge
  end.

(** What the demodulator promises: it adds its symbols to the result, within
    the room the result was allocated with. *)
Definition appends : Prop := forall samples offset d syms, Z.of_nat (length syms) <= RESULT_SYMBOLS ->
  exists new, snd (p3_demod_process samples offset d syms) = syms ++ new /\ Z.of_nat (length (syms ++ new)) <= RESULT_SYMBOLS.

(** The symbols each call of [process] adds. *)
Fixpoint produced (cs : list scall) (d : D) (syms : list p3_symbol_t) : list (list p3_symbol_t) :=
  match cs with
  | [] => []
  | SProcess samples offset capacity :: cs =>
      if capacity <=? 0 then [] :: produced cs d syms
      else
        let '(d', syms') := p3_demod_process samples offset d syms in
        drop (length syms) syms' :: produced cs d' syms'
  | SSegments _ :: cs => produced cs d syms
  end.
Definition capacities (cs : list scall) : list Z :=
  omap (fun c => match c with SProcess _ _ capacity => Some capacity | SSegments _ => None end) cs.

(** ** What a client sees *)
Lemma process_emits (b : v90_stream_bridge_t) samples offset capacity new : 0 < capacity ->
  let r := p3_demod_process samples offset (demod b) (symbols b) in
  snd r = symbols b ++ new -> Z.of_nat (length (symbols b ++ new)) <= RESULT_SYMBOLS ->
  let count := Z.min (Z.of_nat (length new)) capacity in
  v90_stream_bridge_process (Some b) (Some samples) offset (Some capacity) =
    (map copy_symbol (take (Z.to_nat capacity) new), count,
     Some (StreamBridge (fst r) (symbols b ++ new) (segments b) (s32 (emitted_symbols b + count)))).
Proof.
  intros Hc r Hr Hl count. unfold v90_stream_bridge_process. destruct (Z.leb_spec capacity 0); [lia|].
  fold r. destruct r as [d syms] eqn:E. cbn [snd fst] in *. subst syms. rewrite length_app, Nat2Z.inj_add in *.
  replace (Z.of_nat (length (symbols b)) + Z.of_nat (length new) - Z.of_nat (length (symbols b)))
    with (Z.of_nat (length new)) by lia.
  rewrite (conv_id S32) by (change (cmin S32) with (-2147483648); change (cmax S32) with 2147483647; change RESULT_SYMBOLS with 32768 in *; lia).
  assert ((if Z.of_nat (length new) >? capacity then capacity else Z.of_nat (length new)) = count) as ->
    by (unfold count; destruct (Z.gtb_spec (Z.of_nat (length new)) capacity); lia).
  rewrite Nat2Z.id, drop_app_length. do 3 f_equal.
  unfold count. destruct (Z.min_spec (Z.of_nat (length new)) capacity) as [[H1 ->]|[H1 ->]]; [|done].
  rewrite Nat2Z.id. by rewrite !take_ge by lia.
Qed.

(** C32: symbols are emitted once. A client that calls process and segments in
    any order is given, call by call, exactly the symbols that call produced,
    in order, as many as it has room for; so when each call has room for what
    it produces the client has seen every symbol of the stream once. *)
Theorem symbols_emitted_once cs b : appends -> Z.of_nat (length (symbols b)) <= RESULT_SYMBOLS ->
  fst (client cs (Some b)) =
    zip_with (fun capacity new => map copy_symbol (take (Z.to_nat capacity) new)) (capacities cs) (produced cs (demod b) (symbols b)) /\
  (Forall2 (fun capacity new => Z.of_nat (length new) <= capacity) (capacities cs) (produced cs (demod b) (symbols b)) ->
   exists b', snd (client cs (Some b)) = Some b' /\
     map copy_symbol (symbols b') = map copy_symbol (symbols b) ++ concat (fst (client cs (Some b)))).
Proof.
  intros Happ. revert b. induction cs as [|[samples offset capacity|capacity] cs IH]; intros b Hroom; cbn [client produced capacities omap list_omap].
  - split; [done|]. intros _. exists b. split; [done|]. by rewrite app_nil_r.
  - destruct (Z.leb_spec capacity 0) as [Hle|Hlt].
    + unfold v90_stream_bridge_process. rewrite (proj2 (Z.leb_le capacity 0)) by done.
      destruct (IH b Hroom) as [H1 H2]. destruct (client cs (Some b)) as [outs bridge]. cbn [fst snd] in *.
      split; [cbn; by rewrite take_nil, H1|]. intros Hf. apply Forall2_cons_1 in Hf as [_ Hf]. by destruct (H2 Hf) as (b' & E1 & E2); exists b'.
    + destruct (Happ samples offset (demod b) (symbols b) Hroom) as (new & E & Hl).
      rewrite (process_emits b samples offset capacity new Hlt E Hl).
      destruct (p3_demod_process samples offset (demod b) (symbols b)) as [d syms]. cbn [fst snd] in *. subst syms.
      set (b1 := StreamBridge d _ _ _). destruct (IH b1 Hl) as [H1 H2]. cbn [demod symbols] in H1, H2.
      destruct (client cs (Some b1)) as [outs bridge]. cbn [fst snd] in *. rewrite drop_app_length. split.
      * cbn. by rewrite H1.
      * intros Hf. apply Forall2_cons_1 in Hf as [Hcap Hf]. destruct (H2 Hf) as (b' & E1 & E2). exists b'. split; [done|].
        rewrite E2. unfold b1. cbn [symbols concat]. rewrite take_ge by lia. by rewrite map_app, app_assoc.
  - unfold v90_stream_bridge_segments. destruct (capacity <=? 0); [exact (IH b Hroom)|].
    destruct (p3_segment_symbols (symbols b) (segments b)) as [count segs].
    exact (IH (StreamBridge (demod b) (symbols b) segs (emitted_symbols b)) Hroom).
Qed.
End StreamBridge.

(** A demodulator that decides one symbol per sample. *)
#[export] Instance sample_demod : Demod unit := {|
  float_t := unit; p3_symbol_t := Z; sample_index := fun x => x; dibit := fun x => x &&& 3;
  bit0 := fun x => x &&& 1; bit1 := fun x => (x >>> 1) &&& 1; re := fun _ => tt; im := fun _ => tt; magnitude := fun _ => tt;
  p3_segment_t := Z; type := fun x => x; start_symbol := fun x => x; length_ := fun _ => 1; start_sample := fun x => x;
  end_sample := fun x => x; confidence := fun _ => tt;
  p3_demod_init := fun _ _ _ => tt; p3_demod_reset := fun d => d;
  p3_demod_process := fun samples _ d syms => (d, syms ++ take (Z.to_nat (32768 - Z.of_nat (length syms))) samples);
  p3_segment_symbols := fun syms _ => (Z.of_nat (length (take 1 syms)), take 1 syms)
|}.
Lemma room_after_take (syms samples : list Z) (n : Z) : Z.of_nat (length syms) <= n ->
  Z.of_nat (length (syms ++ take (Z.to_nat (n - Z.of_nat (length syms))) samples)) <= n.
Proof. rewrite length_app, length_take. lia. Qed.
Lemma sample_demod_appends : appends.
Proof.
  intros samples offset d syms Hl.
  exists (take (Z.to_nat (32768 - Z.of_nat (length syms))) samples : list Z).
  split; [reflexivity|]. exact (room_after_take syms samples 32768 Hl).
Qed.
Definition sample_bridge : v90_stream_bridge_t := StreamBridge tt [] [] 0.
Definition sample_calls : list scall := [SProcess [7; 8] 0 4; SSegments 2; SProcess [9; 10; 11] 2 2].
Lemma symbols_emitted_once_witness :
  map (map b_sample_index) (fst (client sample_calls (Some sample_bridge))) = [[7; 8]; [9; 10]] /\
  fst (client sample_calls (Some sample_bridge)) =
    zip_with (fun capacity new => map copy_symbol (take (Z.to_nat capacity) new)) (capacities sample_calls)
      (produced sample_calls (demod sample_bridge) (symbols sample_bridge)) /\
  (Forall2 (fun capacity new => Z.of_nat (length new) <= capacity) (capacities sample_calls)
     (produced sample_calls (demod sample_bridge) (symbols sample_bridge)) ->
   exists b', snd (client sample_calls (Some sample_bridge)) = Some b' /\
     map copy_symbol (symbols b') = map copy_symbol (symbols sample_bridge) ++ concat (fst (client sample_calls (Some sample_bridge)))).
Proof.
  split; [vm_compute; reflexivity|].
  exact (symbols_emitted_once sample_calls sample_bridge sample_demod_appends ltac:(vm_compute; discriminate)).
Defined.
