(* ===== verification/CLib.v ===== *)
(** * Numbers in text

    What the tools use of the C library to read numbers: [strtoul], [strtol]
    and [atoi], and the conversions [%x] and [%ld] of [fscanf]. Text is the
    list of its character codes, without the terminating null. [long] has 64
    bits. [print_number] writes a number the way [printf] does; what is
    written can be read back. *)
From Stdlib Require Import Strings.String Strings.Ascii.
From S2P Require Import Prelude.

(** ** Definitions *)

(** The characters of a literal. *)
Definition text (s : string) : list Z := map (fun c => Z.of_nat (nat_of_ascii c)) (list_ascii_of_string s).

(** [strcmp(a, s) == 0] *)
Definition is_arg (a : list Z) (s : string) : bool := bool_decide (a = text s).

Definition isspace (c : Z) : bool := (c =? 32) || ((9 <=? c) && (c <=? 13)).
(** The value of a digit or letter; no base has a digit 36. *)
Definition digit_value (c : Z) : Z :=
  if (48 <=? c) && (c <=? 57) then c - 48
  else if (97 <=? c) && (c <=? 122) then c - 87
  else if (65 <=? c) && (c <=? 90) then c - 55 else 36.
Definition is_digit (base c : Z) : bool := digit_value c <? base.

Fixpoint skip_space (s : list Z) : list Z :=
  match s with
  | c :: s' => if isspace c then skip_space s' else s
  | [] => []
  end.

(** An optional sign: whether it is a minus, and what follows. *)
Definition sign_of (s : list Z) : bool * list Z :=
  match s with
  | c :: s' => if c =? 45 then (true, s') else if c =? 43 then (false, s') else (false, s)
  | [] => (false, [])
  end.

(** The digits at the front of [s] after those that make [acc]; the rest. *)
Fixpoint digits_of (base acc : Z) (s : list Z) : Z * list Z :=
  match s with
  | c :: s' => if is_digit base c then digits_of base (acc * base + digit_value c) s' else (acc, s)
  | [] => (acc, [])
  end.

(** What follows [0x] or [0X]. *)
Definition after_0x (s : list Z) : option (list Z) :=
  match s with
  | z :: x :: s' => if (z =? 48) && ((x =? 120) || (x =? 88)) then Some s' else None
  | _ => None
  end.
Definition starts_digit (base : Z) (s : list Z) : bool :=
  match s with c :: _ => is_digit base c | [] => false end.

(** The digits [strtoul] takes, and the base it takes them in: a prefix [0x]
    counts when a hexadecimal digit follows it. *)
Definition number_base (base : Z) (s : list Z) : Z * list Z :=
  match after_0x s with
  | Some s' =>
      if ((base =? 0) || (base =? 16)) && starts_digit 16 s' then (16, s')
      else (if base =? 0 then 8 else base, s)
  | None => (if base =? 0 then match s with c :: _ => if c =? 48 then 8 else 10 | [] => 10 end else base, s)
  end.

(** The sign, the magnitude and the rest, when there is a number. *)
Definition scan_number (s : list Z) (base : Z) : option (bool * Z * list Z) :=
  let '(neg, s1) := sign_of (skip_space s) in
  let '(base, s2) := number_base base s1 in
  if starts_digit base s2 then let '(v, rest) := digits_of base 0 s2 in Some (neg, v, rest) else None.

Definition ULONG_MAX : Z := 0xffffffffffffffff.
Definition LONG_MAX : Z := 0x7fffffffffffffff.
Definition LONG_MIN : Z := - 0x8000000000000000.

(** The number and what [*end] points to; it is [s] without a number. *)
Definition strtoul (s : list Z) (base : Z) : Z * list Z :=
  match scan_number s base with
  | Some (neg, v, rest) => (if v >? ULONG_MAX then ULONG_MAX else if (neg : bool) then u64 (- v) else v, rest)
  | None => (0, s)
  end.
Definition strtol (s : list Z) (base : Z) : Z * list Z :=
  match scan_number s base with
  | Some (neg, v, rest) =>
      let v := if (neg : bool) then - v else v in
      (if v >? LONG_MAX then LONG_MAX else if v <? LONG_MIN then LONG_MIN else v, rest)
  | None => (0, s)
  end.
Definition atoi (s : list Z) : Z := s32 (fst (strtol s 10)).

(** One numeric conversion of [fscanf]: it fails at the end of the file, or
    on text that is not a number; [0x] counts as read even without a digit. *)
Inductive scanned := ScanEnd | ScanFail | Scan (v : Z) (rest : list Z).
Definition scan_x (s : list Z) : scanned :=
  match skip_space s with
  | [] => ScanEnd
  | s1 =>
      let '(neg, s2) := sign_of s1 in
      let s3 := default s2 (after_0x s2) in
      if starts_digit 16 s3 then
        let '(v, rest) := digits_of 16 0 s3 in
        Scan (u32 (if v >? ULONG_MAX then ULONG_MAX else if (neg : bool) then - v else v)) rest
      else ScanFail
  end.
Definition scan_ld (s : list Z) : scanned :=
  match skip_space s with
  | [] => ScanEnd
  | s1 => match scan_number s1 10 with Some (_, _, rest) => Scan (fst (strtol s1 10)) rest | None => ScanFail end
  end.

(** *** Printing *)
Definition digit_char (d : Z) : Z := if d <? 10 then 48 + d else 87 + d.
(** The digits of [z] in front of [acc], [n] at most. *)
Fixpoint print_digits (n : nat) (base z : Z) (acc : list Z) : list Z :=
  match n with
  | O => acc
  | S n =>
      let acc := digit_char (z mod base) :: acc in
      if z / base =? 0 then acc else print_digits n base (z / base) acc
  end.
(** [%x] of an [unsigned], and [%02x] of a byte. *)
Definition print_x (z : Z) : list Z := print_digits 8 16 (u32 z) [].
Definition print_02x (z : Z) : list Z := [digit_char (z >>> 4); digit_char (z &&& 15)].

(** ** Reading back what was written *)
Lemma digit_char_value d : 0 <= d < 36 -> digit_value (digit_char d) = d.
Proof.
  intros Hd. unfold digit_char, digit_value. destruct (Z.ltb_spec d 10).
  - rewrite (proj2 (andb_true_iff _ _)) by (split; apply Z.leb_le; lia). lia.
  - rewrite (proj2 (andb_false_iff _ _)) by (right; apply Z.leb_gt; lia).
    rewrite (proj2 (andb_true_iff _ _)) by (split; apply Z.leb_le; lia). lia.
Qed.
Lemma digit_char_plain d : 0 <= d < 36 ->
  isspace (digit_char d) = false /\ digit_char d <> 45 /\ digit_char d <> 43 /\ digit_char d <> 88 /\
  (d < 33 -> digit_char d <> 120).
Proof.
  intros Hd. unfold digit_char, isspace.
  destruct (Z.ltb_spec d 10); repeat split; try lia;
    apply orb_false_iff; (split; [apply Z.eqb_neq; lia|]); apply andb_false_iff; right; apply Z.leb_gt; lia.
Qed.

Lemma digits_of_stop base acc s : starts_digit base s = false -> digits_of base acc s = (acc, s).
Proof. destruct s as [|c s]; [done|]. cbn. by intros ->. Qed.
Lemma digits_of_digit base acc d s : 0 <= d < base -> base <= 36 ->
  digits_of base acc (digit_char d :: s) = digits_of base (acc * base + d) s.
Proof.
  intros Hd Hb. cbn. unfold is_digit. rewrite digit_char_value by lia.
  by rewrite (proj2 (Z.ltb_lt d base)) by lia.
Qed.

(** Printing writes the digits the reader takes, whatever was read before. *)
Lemma digits_of_print n base z acc s : 2 <= base <= 36 -> 0 <= z < base ^ Z.of_nat n ->
  exists k, 0 <= k /\ (n = O \/ 1 <= k) /\ z < base ^ k /\
    forall a, digits_of base a (print_digits n base z acc ++ s) = digits_of base (a * base ^ k + z) (acc ++ s).
Proof.
  intros Hb. revert z acc. induction n as [|n IH]; intros z acc Hz.
  - exists 0. change (base ^ Z.of_nat 0) with 1 in Hz. repeat split; [lia|by left|cbn; lia|].
    intros a. cbn [print_digits]. f_equal. rewrite Z.pow_0_r. lia.
  - cbn [print_digits]. pose proof (Z.mod_pos_bound z base ltac:(lia)) as Hm.
    pose proof (Z.div_mod z base ltac:(lia)) as Hdiv.
    destruct (Z.eqb_spec (z / base) 0) as [E|E].
    + exists 1. repeat split; [lia|right; lia|rewrite Z.pow_1_r; lia|].
      intros a. cbn [app]. rewrite digits_of_digit by lia. f_equal. lia.
    + rewrite Nat2Z.inj_succ, Z.pow_succ_r in Hz by lia.
      destruct (IH (z / base) (digit_char (z mod base) :: acc)) as (k & Hk & _ & Hlt & IH').
      { split; [apply Z.div_pos; lia|]. apply Z.div_lt_upper_bound; lia. }
      exists (k + 1). rewrite Z.pow_add_r, Z.pow_1_r by lia. repeat split; [lia|right; lia|nia|].
      intros a. rewrite IH'. cbn [app]. rewrite digits_of_digit by lia. f_equal. nia.
Qed.

Lemma print_digits_head n base z acc : 2 <= base <= 36 -> 0 <= z -> n <> O ->
  exists d s, 0 <= d < base /\ print_digits n base z acc = digit_char d :: s.
Proof.
  intros Hb. revert z acc. induction n as [|n IH]; intros z acc Hz Hn; [done|]. cbn [print_digits].
  pose proof (Z.mod_pos_bound z base ltac:(lia)).
  destruct (z / base =? 0); [by exists (z mod base), acc|].
  destruct n as [|n]; [by exists (z mod base), acc|]. apply IH; [apply Z.div_pos; lia|done].
Qed.

(** The first two characters printed are not [0x]: [x] is no digit below 33. *)
Definition no_0x (s : list Z) : Prop := after_0x s = None.
Lemma print_digits_no_0x n z acc : 0 <= z -> n <> O -> no_0x acc ->
  (forall c s, acc = c :: s -> c <> 120 /\ c <> 88) -> no_0x (print_digits n 16 z acc).
Proof.
  revert z acc. induction n as [|n IH]; intros z acc Hz Hn Hacc Hhd; [done|]. cbn [print_digits].
  pose proof (Z.mod_pos_bound z 16 ltac:(lia)) as Hm.
  assert (no_0x (digit_char (z mod 16) :: acc)) as Hone.
  { unfold no_0x. destruct acc as [|c acc]; [done|]. cbn. destruct (Hhd c acc eq_refl) as [Hx HX].
    rewrite (proj2 (Z.eqb_neq c 120) Hx), (proj2 (Z.eqb_neq c 88) HX). by rewrite andb_false_r. }
  destruct (z / 16 =? 0); [done|]. destruct n as [|n]; [done|].
  apply IH; [apply Z.div_pos; lia|done..|].
  intros c s [= <- _]. pose proof (digit_char_plain (z mod 16) ltac:(lia)). intuition lia.
Qed.

Lemma plain_head d s : 0 <= d < 36 -> skip_space (digit_char d :: s) = digit_char d :: s /\
  sign_of (digit_char d :: s) = (false, digit_char d :: s).
Proof.
  intros Hd. destruct (digit_char_plain d Hd) as (H1 & H2 & H3 & _). cbn. rewrite H1. split; [done|].
  by rewrite (proj2 (Z.eqb_neq _ 45) H2), (proj2 (Z.eqb_neq _ 43) H3).
Qed.

Lemma skip_space_cons c s : isspace c = true -> skip_space (c :: s) = skip_space s.
Proof. intros H. cbn. by rewrite H. Qed.

(** [%x] reads back what [%x] wrote, up to a character that is no digit. *)
Lemma scan_x_print z s : 0 <= z <= 0xffffffff -> starts_digit 16 s = false ->
  (forall c r, s = c :: r -> c <> 120 /\ c <> 88) -> scan_x (print_x z ++ s) = Scan z s.
Proof.
  intros Hz Hs Hx. unfold scan_x, print_x. rewrite (conv_id U32) by (cbn; lia).
  destruct (print_digits_head 8 16 z [] ltac:(lia) ltac:(lia) ltac:(done)) as (d & r & Hd & E).
  destruct (plain_head d (r ++ s) ltac:(lia)) as [H1 H2].
  destruct (digits_of_print 8 16 z [] s ltac:(lia)) as (k & _ & _ & _ & Hk); [cbn; lia|].
  specialize (Hk 0). rewrite Z.mul_0_l, Z.add_0_l, (digits_of_stop 16 z) in Hk by done.
  assert (after_0x (print_digits 8 16 z [] ++ s) = None) as Hno.
  { pose proof (print_digits_no_0x 8 z [] ltac:(lia) ltac:(done) eq_refl ltac:(done)) as Hno. rewrite E in *.
    unfold no_0x in Hno. destruct r as [|c r]; [|clear -Hno; cbn in *; by destruct (_ && _)]. destruct s as [|c s]; [done|]. cbn.
    destruct (Hx c s eq_refl) as [Hx1 Hx2].
    by rewrite (proj2 (Z.eqb_neq c 120) Hx1), (proj2 (Z.eqb_neq c 88) Hx2), andb_false_r. }
  rewrite E in *. cbn [app] in *. rewrite H1. rewrite H2, Hno. cbn [default starts_digit].
  unfold is_digit. rewrite digit_char_value, (proj2 (Z.ltb_lt d 16)), Hk by lia. f_equal.
  unfold ULONG_MAX. destruct (Z.gtb_spec z 0xffffffffffffffff); [lia|]. by rewrite (conv_id U32) by (cbn; lia).
Qed.

(** What is left is the end of what was there. *)
Lemma digits_of_suffix base acc s : exists pre, s = pre ++ snd (digits_of base acc s).
Proof.
  revert acc. induction s as [|c s IH]; intros acc; [by exists []|]. cbn.
  destruct (is_digit base c); [|by exists []]. destruct (IH (acc * base + digit_value c)) as [pre E].
  exists (c :: pre). cbn. by rewrite <- E.
Qed.
Lemma digits_of_length base acc s : (length (snd (digits_of base acc s)) <= length s)%nat.
Proof. destruct (digits_of_suffix base acc s) as [pre E]. rewrite E at 2. rewrite length_app. lia. Qed.
Lemma digits_of_shorter base acc s : starts_digit base s = true ->
  (length (snd (digits_of base acc s)) < length s)%nat.
Proof.
  destruct s as [|c s]; [done|]. cbn. intros ->. pose proof (digits_of_length base (acc * base + digit_value c) s). lia.
Qed.
Lemma skip_space_length s : (length (skip_space s) <= length s)%nat.
Proof. induction s as [|c s IH]; [done|]. cbn. destruct (isspace c); cbn; lia. Qed.
Lemma sign_of_length s : (length (snd (sign_of s)) <= length s)%nat.
Proof. destruct s as [|c s]; [done|]. cbn. destruct (c =? 45), (c =? 43); cbn; lia. Qed.
Lemma after_0x_length s r : after_0x s = Some r -> (length r <= length s)%nat.
Proof. destruct s as [|z [|x s]]; [done..|]. cbn. destruct (_ && _); [intros [= <-]; lia|done]. Qed.
Lemma number_base_length base s : (length (snd (number_base base s)) <= length s)%nat.
Proof.
  unfold number_base. destruct (after_0x s) as [r|] eqn:E; [|done].
  apply after_0x_length in E. destruct (_ && _); cbn; [done|lia].
Qed.

(** A number takes at least a character. *)
Lemma scan_number_shorter s base neg v rest : scan_number s base = Some (neg, v, rest) ->
  (length rest < length s)%nat.
Proof.
  unfold scan_number. pose proof (skip_space_length s). pose proof (sign_of_length (skip_space s)).
  destruct (sign_of (skip_space s)) as [n s1]. cbn [snd] in *.
  pose proof (number_base_length base s1). destruct (number_base base s1) as [b s2]. cbn [snd] in *.
  destruct (starts_digit b s2) eqn:E; [|done]. pose proof (digits_of_shorter b 0 s2 E).
  destruct (digits_of b 0 s2) as [w r]. cbn [snd] in *. intros [= _ _ <-]. lia.
Qed.
Lemma strtoul_end s base : strtoul s base = (0, s) \/ (length (snd (strtoul s base)) < length s)%nat.
Proof.
  unfold strtoul. destruct (scan_number s base) as [[[neg v] rest]|] eqn:E; [|by left].
  right. by apply scan_number_shorter in E.
Qed.
Lemma scan_x_shorter s v rest : scan_x s = Scan v rest -> (length rest < length s)%nat.
Proof.
  unfold scan_x. pose proof (skip_space_length s). destruct (skip_space s) as [|c s1]; [done|].
  pose proof (sign_of_length (c :: s1)). destruct (sign_of (c :: s1)) as [neg s2]. cbn [snd] in *.
  assert (length (default s2 (after_0x s2)) <= length s2)%nat.
  { destruct (after_0x s2) eqn:E; [by apply after_0x_length in E|done]. }
  destruct (starts_digit 16 _) eqn:E; [|done]. pose proof (digits_of_shorter 16 0 _ E).
  destruct (digits_of 16 0 _) as [w r]. cbn [snd] in *. intros [= _ <-]. lia.
Qed.

(** Two hexadecimal digits and what is no digit are read as the byte they are. *)
Lemma strtoul_02x v s : 0 <= v <= 0xff -> starts_digit 16 s = false -> strtoul (print_02x v ++ s) 16 = (v, s).
Proof.
  intros Hv Hs. unfold print_02x. set (a := v >>> 4). set (b := v &&& 15).
  assert (0 <= a < 16 /\ 0 <= b < 16 /\ v = a * 16 + b) as (Ha & Hb & E).
  { unfold a, b. rewrite Z.shiftr_div_pow2 by lia. change 15 with (Z.ones 4). rewrite Z.land_ones by lia.
    pose proof (Z.div_mod v (2 ^ 4) ltac:(lia)). pose proof (Z.mod_pos_bound v (2 ^ 4) ltac:(lia)). nia. }
  unfold strtoul, scan_number. cbn [app]. destruct (plain_head a (digit_char b :: s) ltac:(lia)) as [H1 H2].
  rewrite H1, H2. unfold number_base. cbn [after_0x].
  destruct (digit_char_plain b ltac:(lia)) as (_ & _ & _ & HX & Hx).
  rewrite (proj2 (Z.eqb_neq _ 120)), (proj2 (Z.eqb_neq _ 88)), andb_false_r by (done || lia).
  change (16 =? 0) with false. cbn [starts_digit]. unfold is_digit at 1.
  rewrite digit_char_value, (proj2 (Z.ltb_lt a 16)), !digits_of_digit, digits_of_stop by (done || lia).
  replace ((0 * 16 + a) * 16 + b) with v by lia. unfold ULONG_MAX. by destruct (Z.gtb_spec v 0xffffffffffffffff); [lia|].
Qed.
