(* ===== verification/Pipes.v ===== *)
(** * The two V.90 bridges as processes

    The command lines of [main] in [src/tools/v90_digital_phase3_event_bridge.c]
    and [src/tools/v90a_phase3_bridge_probe.c], and how their loops take
    frames and packets from the octets of standard input and put them on
    standard output. The two programs are run back to back, each reading what
    the other writes: [piped_processes_answer] shows that a frame or packet
    is never split, lost or doubled on the way, which requests are answered,
    and how the exit status follows. *)
From Stdlib Require Import Strings.String.
From S2P Require Import Prelude CLib Ring Bridge BridgeSpec BridgeSession Probe ProbeSpec.

(** ** Definitions *)

(** *** Command lines

    What both programs keep of their options; the arguments follow the
    program's name. *)
Record options_t := Options { reset_file : option (list Z); data_stream : bool }.
Definition no_options : options_t := Options None false.

(** The loop of the digital bridge; [None] is the usage message. *)
Fixpoint bridge_args (argv : list (list Z)) (o : options_t) : option options_t :=
  match argv with
  | [] => Some o
  | a :: rest =>
      let other :=
        if is_arg a "--stream" then bridge_args rest o
        else if is_arg a "--data-stream" then bridge_args rest (Options (reset_file o) true)
        else None in
      match rest with
      | path :: rest' =>
          if is_arg a "--reset-file" then bridge_args rest' (Options (Some path) (data_stream o)) else other
      | [] => other
      end
  end.

(** The loop of the analogue bridge, behind [--stream]; [None] is [return 2]. *)
Fixpoint probe_args (argv : list (list Z)) (o : options_t) : option options_t :=
  match argv with
  | [] => Some o
  | a :: rest =>
      let other :=
        if is_arg a "--data-stream" then probe_args rest (Options (reset_file o) true) else None in
      match rest with
      | path :: rest' =>
          if is_arg a "--reset-file" then probe_args rest' (Options (Some path) (data_stream o)) else other
      | [] => other
      end
  end.

(** *** Standard input *)

(** [fread(buf, 1, n, stdin)]: what it stores, and what is left to read. *)
Definition fread (n : Z) (s : list Z) : list Z * list Z := (take (Z.to_nat n) s, drop (Z.to_nat n) s).
Definition got (n : Z) (l : list Z) : bool := Z.of_nat (length l) =? n.

(** A frame with its packet, in data-stream mode a header and the packed bits;
    or why there is none: nothing is left, or it is cut short. *)
Definition request_t : Type := list Z * option (list Z * list Z).
Inductive ending_t := Ended | ShortFrame (frame : list Z) | ShortPacket (frame : list Z).
Definition next_request (ds : bool) (s : list Z) : request_t * list Z + ending_t :=
  let '(frame, s) := fread Bridge.FRAME s in
  match frame with
  | [] => inr Ended
  | _ =>
      if negb (got Bridge.FRAME frame) then inr (ShortFrame frame)
      else if ds then
        let '(header, s) := fread 4 s in
        let '(packed, s) := fread Bridge.DATA_BYTES s in
        if got 4 header && got Bridge.DATA_BYTES packed
        then inl ((frame, Some (header, packed)), s) else inr (ShortPacket frame)
      else inl ((frame, None), s)
  end.
(** All of them; a pass takes at least an octet of the [n] that are left. *)
Fixpoint requests_of (n : nat) (ds : bool) (s : list Z) : list request_t * ending_t :=
  match n with
  | O => ([], Ended)
  | S n =>
      match next_request ds s with
      | inr e => ([], e)
      | inl (r, s) => let '(rs, e) := requests_of n ds s in (r :: rs, e)
      end
  end.
Definition requests (ds : bool) (s : list Z) : list request_t * ending_t := requests_of (S (length s)) ds s.

(** *** Standard output *)
Definition written (r : request_t) : list Z :=
  fst r ++ match snd r with Some (header, packed) => header ++ packed | None => [] end.

(** *** The digital bridge *)
Section Digital.
Context {L : Type} {sib : Sibling L}.

(** The process's surroundings: its environment at the start and at a reset
    before the given request, what [stat] of the reset file gives there, the
    scheduler and the allocator. The report at the end of [main] asks the
    library about the transmitter and the receiver; after a reset that failed
    before it had both, the pointers are null, and what the library does with
    them, and so how the process ends, is [b_null_status]. *)
Record bridge_world := BridgeWorld {
  b_env : Bridge.env_t; b_reset_env : nat -> Bridge.env_t; b_stat : nat -> option Z;
  b_sched : list nat; b_allocs : list bool; b_null_status : Z }.

Definition bridge_inputs (w : bridge_world) (o : options_t) (rs : list request_t) : list Bridge.input_t :=
  imap (fun k r => Bridge.Input (fst r) (snd r)
                     (if reset_file o then b_stat w k else None) (b_reset_env w k)) rs.
Definition bridge_reply (o : Bridge.output_t) : request_t := (Bridge.out_frame o, Bridge.out_packet o).

(** Whether a failed [bridge_init] leaves the transmitter and the receiver: it
    does when only the worker thread could not be started. *)
Definition handles_left (e : Bridge.env_t) : bool :=
  e_queues_ok e && match sibling_init (init_baud e) (init_carrier e) with Some _ => true | None => false end.
(** How the process ends, after its loop. *)
Definition bridge_status (w : bridge_world) (answered : nat) (end_ : option bridge_t) : Z :=
  match end_ with
  | Some _ => 0
  | None => if handles_left (b_reset_env w answered) then 0 else b_null_status w
  end.

(** Standard output and the exit status. *)
Definition bridge_main (argv : list (list Z)) (w : bridge_world) (stdin : list Z) : list Z * Z :=
  match bridge_args argv no_options with
  | None => ([], 2)
  | Some o =>
      match bridge_init (b_env w) (b_sched w) (b_allocs w) with
      | None => ([], 1)
      | Some b =>
          let is_ := bridge_inputs w o (fst (requests (data_stream o) stdin)) in
          let '(os, end_) := bridge_loop is_ 0 b in
          (flat_map (fun r => written (bridge_reply r)) os, bridge_status w (length os) end_)
      end
  end.
End Digital.

(** *** The analogue bridge *)
Section Analogue.
Context {L : Type} {eng : Engine L}.

(** Its surroundings: the environment, whether [calloc] succeeds, the library,
    what [stat] of the reset file gives at each request, the files that can be
    read and those that can be written. *)
Record probe_world := ProbeWorld {
  p_env : Probe.env_t; p_queue_ok : bool; p_lib : L; p_stat : nat -> option Z;
  p_open : list Z -> option (list Z); p_create : list Z -> bool }.

Definition probe_inputs (w : probe_world) (o : options_t) (rs : list request_t) (e : ending_t) : list Probe.input_t :=
  let mtime k := if reset_file o then p_stat w k else None in
  imap (fun k r => Probe.Input (fst r) (snd r) (mtime k)) rs ++
  match e with
  | Ended => []
  | ShortFrame frame | ShortPacket frame => [Probe.Input frame None (mtime (length rs))]
  end.
Definition probe_reply (o : Probe.output_t) : request_t := (Probe.out_frame o, Probe.out_packet o).

(** Standard output (of offline mode it is a report, which is not modelled),
    the exit code, and the file written. *)
Record exit_t := Exit { stdout : list Z; code : Z; saved : option (list Z * list Z) }.

Definition probe_stream (o : options_t) (w : probe_world) (stdin : list Z) : exit_t :=
  let '(rs, e) := requests (data_stream o) stdin in
  let '(os, code) := stream_mode (data_stream o) (p_env w) (p_queue_ok w) (p_lib w) (probe_inputs w o rs e) in
  Exit (flat_map (fun r => written (probe_reply r)) os) code None.

Definition probe_offline (input : list Z) (output : option (list Z)) (w : probe_world) : exit_t :=
  match p_open w input with
  | None => Exit [] 2 None
  | Some capture =>
      let size := Z.of_nat (length capture) in
      if (size <=? 0) || (size >? 2000000) then Exit [] 2 None
      else
        match output with
        | Some path =>
            if p_create w path
            then let '(out, code) := offline_mode capture (p_lib w) in Exit [] code (Some (path, out))
            else Exit [] 2 None
        | None => let '(_, code) := offline_mode capture (p_lib w) in Exit [] code None
        end
  end.

Definition probe_main (argv : list (list Z)) (w : probe_world) (stdin : list Z) : exit_t :=
  let argc := Z.of_nat (length argv) + 1 in
  match argv with
  | [] => Exit [] 2 None
  | a :: rest =>
      if (argc <=? 5) && is_arg a "--stream" then
        match probe_args rest no_options with
        | Some o => probe_stream o w stdin
        | None => Exit [] 2 None
        end
      else
        match rest with
        | [] => probe_offline a None w
        | [output] => probe_offline a (Some output) w
        | _ => Exit [] 2 None
        end
  end.
End Analogue.

(** ** Command lines *)

(** The options, as they are written and what they do. *)
Inductive option_t := OStream | OResetFile (path : list Z) | ODataStream.
Definition written_option (x : option_t) : list (list Z) :=
  match x with
  | OStream => [text "--stream"]
  | OResetFile path => [text "--reset-file"; path]
  | ODataStream => [text "--data-stream"]
  end.
Definition take_option (o : options_t) (x : option_t) : options_t :=
  match x with
  | OStream => o
  | OResetFile path => Options (Some path) (data_stream o)
  | ODataStream => Options (reset_file o) true
  end.

Lemma is_arg_true a s : is_arg a s = true -> a = text s.
Proof. unfold is_arg. by rewrite bool_decide_eq_true. Qed.

(** A loop over the arguments that takes the options [ok], and no others. *)
Section Grammar.
Context (parse : list (list Z) -> options_t -> option options_t) (ok : option_t -> bool).
Context (parse_nil : forall o, parse [] o = Some o)
  (parse_option : forall x rest o, ok x = true -> parse (written_option x ++ rest) o = parse rest (take_option o x))
  (parse_inv : forall a argv o o', parse (a :: argv) o = Some o' ->
     exists x rest, ok x = true /\ a :: argv = written_option x ++ rest).

Lemma parse_grammar argv o o' : parse argv o = Some o' <->
  exists xs, forallb ok xs = true /\ argv = flat_map written_option xs /\ o' = foldl take_option o xs.
Proof.
  split.
  - remember (length argv) as n eqn:Hn. revert argv o Hn.
    induction (lt_wf n) as [n _ IH]. intros [|a argv] o Hn H.
    { rewrite parse_nil in H. injection H as <-. by exists []. }
    destruct (parse_inv _ _ _ _ H) as (x & rest & Hx & E). rewrite E in *. rewrite parse_option in H by done.
    assert (length rest < n)%nat as Hl by (subst n; destruct x; cbn; lia).
    destruct (IH _ Hl rest _ eq_refl H) as (xs & Hxs & -> & ->).
    exists (x :: xs). split; [by apply andb_true_iff|done].
  - intros (xs & Hxs & -> & ->). revert o. induction xs as [|x xs IH]; intros o; [apply parse_nil|].
    apply andb_true_iff in Hxs as [Hx Hxs]. cbn [flat_map foldl]. rewrite parse_option by done. by apply IH.
Qed.
End Grammar.

(** Which option the first argument is. *)
Ltac find_option H :=
  repeat match type of H with
  | (if is_arg ?a ?s then _ else _) = _ =>
      let E := fresh in destruct (is_arg a s) eqn:E; [apply is_arg_true in E as ->|clear E]
  end; try discriminate H;
  lazymatch goal with
  | |- context [text "--stream" :: ?rest = _] => exists OStream, rest
  | |- context [text "--data-stream" :: ?rest = _] => exists ODataStream, rest
  | |- context [text "--reset-file" :: ?path :: ?rest = _] => exists (OResetFile path), rest
  end; split; reflexivity.

(** The digital bridge takes any options in any order, the last reset file
    counting, and nothing else. *)
Lemma bridge_args_grammar argv o o' : bridge_args argv o = Some o' <->
  exists xs, forallb (fun _ => true) xs = true /\ argv = flat_map written_option xs /\ o' = foldl take_option o xs.
Proof.
  apply parse_grammar; [done| |].
  - intros [|path|] [|a rest] o1 _; done.
  - clear. intros a argv o o' H. destruct argv as [|p rest]; cbn [bridge_args] in H; find_option H.
Qed.
(** So does the analogue bridge, but for a second [--stream]. *)
Lemma probe_args_grammar argv o o' : probe_args argv o = Some o' <->
  exists xs, forallb (fun x => match x with OStream => false | _ => true end) xs = true /\
    argv = flat_map written_option xs /\ o' = foldl take_option o xs.
Proof.
  apply parse_grammar; [done| |].
  - intros [|path|] [|a rest] o1 Hx; done.
  - clear. intros a argv o o' H. destruct argv as [|p rest]; cbn [probe_args] in H; find_option H.
Qed.

(** ** Framing *)
Definition sized (ds : bool) (r : request_t) : Prop :=
  Z.of_nat (length (fst r)) = Bridge.FRAME /\
  match snd r with
  | Some (header, packed) => ds = true /\ Z.of_nat (length header) = 4 /\ Z.of_nat (length packed) = Bridge.DATA_BYTES
  | None => ds = false
  end.

Lemma fread_app n l s : Z.of_nat (length l) = n -> fread n (l ++ s) = (l, s).
Proof. intros <-. unfold fread. by rewrite Nat2Z.id, take_app_length, drop_app_length. Qed.
Lemma got_true n l : got n l = true <-> Z.of_nat (length l) = n.
Proof. apply Z.eqb_eq. Qed.

Lemma next_written ds r s : sized ds r -> next_request ds (written r ++ s) = inl (r, s).
Proof.
  destruct r as [frame packet]. intros [Hf Hp]. cbn [fst snd] in *. unfold next_request, written. cbn [fst snd].
  rewrite <- app_assoc, fread_app by done. destruct frame as [|x frame]; [done|].
  rewrite (proj2 (got_true _ _) Hf). cbn [negb].
  destruct packet as [[header packed]|]; [|by subst ds]. destruct Hp as (-> & Hh & Hd).
  rewrite <- app_assoc, !fread_app by done. by rewrite (proj2 (got_true _ _) Hh), (proj2 (got_true _ _) Hd).
Qed.

Lemma fread_eq n s : fst (fread n s) ++ snd (fread n s) = s.
Proof. apply take_drop. Qed.
Lemma next_read ds s r s' : next_request ds s = inl (r, s') -> sized ds r /\ s = written r ++ s'.
Proof.
  unfold next_request. pose proof (fread_eq Bridge.FRAME s) as E1.
  destruct (fread Bridge.FRAME s) as [frame s1]. cbn [fst snd] in E1. destruct frame as [|x frame]; [done|].
  destruct (got Bridge.FRAME _) eqn:Hf; [|done]. apply got_true in Hf. cbn [negb]. destruct ds.
  2: { intros [= <- <-]. unfold written. cbn [fst snd]. by rewrite app_nil_r. }
  pose proof (fread_eq 4 s1) as E2. destruct (fread 4 s1) as [header s2]. cbn [fst snd] in E2.
  pose proof (fread_eq Bridge.DATA_BYTES s2) as E3. destruct (fread Bridge.DATA_BYTES s2) as [packed s3]. cbn [fst snd] in E3.
  destruct (_ && _) eqn:Hg; [|done]. apply andb_true_iff in Hg as [Hh%got_true Hd%got_true].
  intros [= <- <-]. split; [by repeat split|]. unfold written. cbn [fst snd]. by rewrite <- E1, <- E2, <- E3, <- !app_assoc.
Qed.

Lemma next_nonempty ds s e frame : next_request ds s = inr e -> e = ShortFrame frame \/ e = ShortPacket frame ->
  frame <> [].
Proof.
  unfold next_request. destruct (fread Bridge.FRAME s) as [[|x f] s1]; [by intros [= <-] [|]|].
  destruct (negb _); [by intros [= <-] [[= <-]|]|]. destruct ds; [|done].
  destruct (fread 4 s1) as [h s2], (fread Bridge.DATA_BYTES s2) as [d s3].
  destruct (_ && _); [done|]. by intros [= <-] [|[= <-]].
Qed.

Lemma written_some ds r : sized ds r -> (0 < length (written r))%nat.
Proof. intros [H _]. unfold written. rewrite length_app. change Bridge.FRAME with 160 in H. lia. Qed.

(** What is read is what was written, up to what is cut short. *)
Lemma requests_written ds rs rest e : Forall (sized ds) rs -> next_request ds rest = inr e ->
  requests ds (flat_map written rs ++ rest) = (rs, e).
Proof.
  intros Hrs He. unfold requests. generalize (Nat.lt_succ_diag_r (length (flat_map written rs ++ rest))).
  generalize (S (length (flat_map written rs ++ rest))) as n.
  induction Hrs as [|r rs Hr Hrs IH]; intros [|n] Hn; cbn [flat_map app] in *; [lia| |lia|].
  - cbn [requests_of]. by rewrite He.
  - rewrite <- app_assoc in *. cbn [requests_of]. rewrite next_written by done.
    rewrite IH; [done|]. pose proof (written_some ds r Hr). rewrite length_app in Hn. lia.
Qed.
Lemma requests_read ds s : let '(rs, e) := requests ds s in
  exists rest, s = flat_map written rs ++ rest /\ Forall (sized ds) rs /\ next_request ds rest = inr e.
Proof.
  unfold requests. generalize (Nat.lt_succ_diag_r (length s)). generalize (S (length s)) as n.
  intros n. revert s. induction n as [|n IH]; intros s Hn; [lia|]. cbn [requests_of].
  destruct (next_request ds s) as [[r s']|e] eqn:E; [|by exists s].
  apply next_read in E as [Hr ->]. pose proof (written_some ds r Hr). rewrite length_app in Hn.
  specialize (IH s' ltac:(lia)). destruct (requests_of n ds s') as [rs e]. destruct IH as (rest & -> & Hrs & He).
  exists rest. cbn [flat_map]. rewrite app_assoc. by split; [|split; [constructor|]].
Qed.
Lemma requests_all ds rs : Forall (sized ds) rs -> requests ds (flat_map written rs) = (rs, Ended).
Proof. intros H. rewrite <- (app_nil_r (flat_map written rs)). by apply requests_written. Qed.

(** ** The processes *)

(** The digital bridge: it exits with 2 for a wrong command line, with 1 when
    it cannot start, with 0 having answered its requests in order, or it ends
    at a reset that fails, having answered those before it. *)
Section DigitalProcess.
Context {L : Type} {sib : Sibling L}.

Lemma answered_sized i o : BridgeSession.answered i o -> sized (if Bridge.in_packet i then true else false) (bridge_reply o).
Proof.
  intros [[Hf _] Hp]. split; [cbn; by rewrite Hf|]. unfold bridge_reply. cbn [snd].
  destruct (Bridge.in_packet i), (Bridge.out_packet o) as [[header packed]|]; try done.
  destruct Hp as [[Hh _] [Hd _]]. split; [done|]. by rewrite Hh, Hd.
Qed.

Lemma inputs_lookup w o rs k i : bridge_inputs w o rs !! k = Some i ->
  exists r, rs !! k = Some r /\ Bridge.in_packet i = snd r /\ (reset_file o = None -> Bridge.in_mtime i = None) /\
    Bridge.in_env i = b_reset_env w k.
Proof.
  unfold bridge_inputs. rewrite list_lookup_imap, fmap_Some. intros (r & Hr & ->). exists r.
  split; [done|]. split; [done|]. split; [|done]. cbn [Bridge.in_mtime]. intros Hn. by rewrite Hn.
Qed.

(** The loop stops short only at an input whose reset fails. *)
Lemma bridge_loop_failed is_ : forall m b os, bridge_loop is_ m b = (os, None) ->
  exists i, is_ !! length os = Some i /\ Bridge.in_mtime i <> None /\
    exists s a, bridge_init (Bridge.in_env i) s a = None.
Proof.
  induction is_ as [|i is_ IH]; intros m b os; cbn [bridge_loop]; [done|].
  destruct (bridge_step i m b) as [[[o b1] m1]|] eqn:Es.
  - destruct (bridge_loop is_ m1 b1) as [os1 b2] eqn:El. intros [= <- ->].
    destruct (IH _ _ _ El) as (i' & Hi & H). by exists i'.
  - intros [= <-]. exists i. split; [done|]. unfold bridge_step in Es.
    destruct (Bridge.accept_packet (Bridge.in_packet i) b) as [[] b1].
    unfold Bridge.bridge_reset_if_requested in Es.
    destruct (Bridge.in_mtime i) as [mtime|]; [|cbn in Es; by destruct (process_frame i b1)].
    split; [done|]. destruct (mtime =? m); [cbn in Es; by destruct (process_frame i b1)|].
    destruct (bridge_live_cp_stop b1) as [[] b2]. exists (sched b2), (allocs b2).
    destruct (bridge_init _ _ _) as [b3|] eqn:Eb; [|done]. cbn in Es. by destruct (process_frame i b3).
Qed.

(** How a digital bridge that answered [n] of [m] requests ended. *)
Inductive bridge_ended (w : bridge_world) (o : options_t) (n m : nat) : Z -> Prop :=
  | no_start : bridge_init (b_env w) (b_sched w) (b_allocs w) = None -> n = 0%nat -> bridge_ended w o n m 1
  | all_answered : n = m -> bridge_ended w o n m 0
  | failed_reset s a : reset_file o <> None -> (n < m)%nat ->
      bridge_init (b_reset_env w n) s a = None ->
      bridge_ended w o n m (if handles_left (b_reset_env w n) then 0 else b_null_status w).

Lemma bridge_process argv w stdin o : bridge_args argv no_options = Some o ->
  exists rs, Forall (sized (data_stream o)) rs /\
    (length rs <= length (fst (requests (data_stream o) stdin)))%nat /\
    exists c, bridge_main argv w stdin = (flat_map written rs, c) /\
      bridge_ended w o (length rs) (length (fst (requests (data_stream o) stdin))) c.
Proof.
  intros Ho. unfold bridge_main. rewrite Ho.
  pose proof (requests_read (data_stream o) stdin) as Hr. destruct (requests _ stdin) as [rq e]. cbn [fst].
  destruct Hr as (_ & _ & Hrq & _).
  destruct (bridge_init (b_env w) (b_sched w) (b_allocs w)) as [b|] eqn:Eb.
  2: { exists []. split; [done|]. split; [cbn; lia|]. exists 1. split; [done|]. by apply no_start. }
  destruct (bridge_loop (bridge_inputs w o rq) 0 b) as [os bo] eqn:El. cbn [fst].
  destruct (bridge_loop_spec _ _ _ _ _ (bridge_init_inv _ _ _ _ Eb) El) as [Ha Hb].
  assert (length (bridge_inputs w o rq) = length rq) as Hlen by apply length_imap.
  pose proof (Forall2_length Ha) as Hl. rewrite length_take, Hlen in Hl.
  exists (map bridge_reply os). rewrite length_map. split; [|split; [lia|]].
  - apply Forall_map, Forall_lookup. intros k out Hk.
    destruct (Forall2_lookup_r _ _ _ _ _ Ha Hk) as (i & Hi & Hio). apply lookup_take_Some in Hi as [Hi _].
    apply inputs_lookup in Hi as (r & Hk' & Hp & _ & _). apply answered_sized in Hio. rewrite Hp in Hio.
    pose proof (proj1 (Forall_lookup _ _) Hrq k r Hk') as [_ Hs].
    destruct (snd r) as [[h p]|]; [destruct Hs as (-> & _); done|by rewrite Hs].
  - eexists. split; [f_equal; by rewrite flat_map_concat_map, (flat_map_concat_map written), map_map|].
    unfold bridge_status. destruct bo as [b'|]; [apply all_answered; destruct Hb; lia|].
    destruct (bridge_loop_failed _ _ _ _ El) as (i & Hi & Hm & s' & a' & Hf).
    pose proof (lookup_lt_Some _ _ _ Hi). apply inputs_lookup in Hi as (_ & _ & _ & Hn & He). rewrite He in Hf.
    eapply failed_reset; [|lia|exact Hf]. intros E. by apply Hm, Hn.
Qed.
End DigitalProcess.

(** The analogue bridge in stream mode: it exits with 0 or 1, having answered
    its requests in order; when it got to the end of its input, with 0 if
    nothing was cut short and with 1 otherwise. *)
Section AnalogueProcess.
Context {L : Type} {eng : Engine L}.
Implicit Types p : probe_t (L := L).

Lemma answer_sized ds o : answer ds o -> sized ds (probe_reply o).
Proof.
  intros [[Hf _] Hp]. split; [done|]. unfold probe_reply. cbn [snd].
  destruct (Probe.out_packet o) as [[header packed]|]; [|done]. by destruct Hp as (-> & [Hh _] & [Hd _]).
Qed.

(** An input that ends the program with code 1. *)
Definition refused (ds : bool) (e : Probe.env_t) (i : Probe.input_t) : Prop :=
  forall p, fst (stream_frame ds e i p) = inr 1.
Lemma cut_short ds e rest ending frame mtime : next_request ds rest = inr ending ->
  ending = ShortFrame frame \/ ending = ShortPacket frame -> refused ds e (Probe.Input frame None mtime).
Proof.
  unfold next_request, refused, stream_frame. destruct (fread Bridge.FRAME rest) as [f s1]. cbn [Probe.in_frame].
  change FRAME_OCTETS with Bridge.FRAME. destruct f as [|x f]; [by intros [= <-] [|]|]. unfold got.
  destruct (Z.eqb_spec (Z.of_nat (length (x :: f))) Bridge.FRAME) as [Hf|Hf]; cbn [negb].
  - destruct ds; [|done]. destruct (fread 4 s1) as [h s2], (fread Bridge.DATA_BYTES s2) as [d s3].
    destruct (_ && _); [done|]. intros [= <-] [[=]|[= <-]] p. rewrite Hf. done.
  - intros [= <-] [[= <-]|[=]] p. cbn [length]. destruct (Z.eqb_spec (Z.of_nat (S (length f))) 0); [lia|].
    cbn [length] in Hf. by rewrite (proj2 (Z.eqb_neq _ _) Hf).
Qed.

Lemma stream_loop_refused ds e is_ tail : Forall (refused ds e) tail -> forall p,
  let '(os, code) := stream_loop ds e (is_ ++ tail) p in
  (length os <= length is_)%nat /\ (length os = length is_ -> code = if tail is [] then 0 else 1).
Proof.
  intros Ht. induction is_ as [|i is_ IH]; intros p; cbn [app stream_loop].
  - destruct Ht as [|i tail Hi _]; cbn [stream_loop]; [done|]. specialize (Hi p).
    destruct (stream_frame ds e i p) as [[o|c] p1]; [discriminate Hi|]. by injection Hi as ->.
  - destruct (stream_frame ds e i p) as [[o|c] p1]; [|cbn; lia]. specialize (IH p1).
    destruct (stream_loop ds e (is_ ++ tail) p1) as [os code]. destruct IH as [H1 H2]. cbn [length].
    split; [lia|]. intros H. apply H2. lia.
Qed.

(** With no carrier to switch to, the loop ends with code 0 only at the end of
    its input. *)
Lemma stream_loop_zero ds e is_ : is_set (e_data_high_carrier e) = false ->
  Forall (fun i => Probe.in_frame i <> []) is_ ->
  forall p, let '(os, code) := stream_loop ds e is_ p in code = 0 -> length os = length is_.
Proof.
  intros Hc Hf. induction Hf as [|i is_ Hi Hf IH]; intros p; cbn [stream_loop]; [done|].
  pose proof (exits_nonempty ds e i Hi p) as Hx. destruct (stream_frame ds e i p) as [[o|c] p1].
  - specialize (IH p1). destruct (stream_loop ds e is_ p1) as [os code]. cbn [length]. intros E. by rewrite IH.
  - cbn [fst] in Hx. intros ->. destruct Hx as [|[_ Hx]]; [done|congruence].
Qed.

Lemma probe_process argv w stdin o : probe_args argv no_options = Some o -> (length argv <= 3)%nat ->
  let x := probe_main (text "--stream" :: argv) w stdin in
  let '(rq, e) := requests (data_stream o) stdin in
  exists rs, Forall (sized (data_stream o)) rs /\ stdout x = flat_map written rs /\
    (length rs <= length rq)%nat /\ (code x = 0 \/ code x = 1) /\
    (p_queue_ok w = true -> length rs = length rq -> code x = match e with Ended => 0 | _ => 1 end) /\
    (is_set (e_data_high_carrier (p_env w)) = false -> code x = 0 -> e = Ended /\ length rs = length rq).
Proof.
  intros Ho Hl. cbv zeta. unfold probe_main.
  replace (Z.of_nat (length (text "--stream" :: argv)) + 1 <=? 5) with true by (cbn [length]; symmetry; apply Z.leb_le; lia).
  replace (is_arg (text "--stream") "--stream") with true by (by unfold is_arg; rewrite bool_decide_eq_true_2).
  cbn [andb]. rewrite Ho. unfold probe_stream.
  pose proof (requests_read (data_stream o) stdin) as Hr. destruct (requests _ stdin) as [rq e].
  destruct Hr as (rest & _ & Hrq & He). set (is_ := probe_inputs w o rq e).
  pose proof (stream_answers (data_stream o) (p_env w) (p_queue_ok w) (p_lib w) is_) as Ha.
  assert (let '(os, code) := stream_mode (data_stream o) (p_env w) (p_queue_ok w) (p_lib w) is_ in
    (length os <= length rq)%nat /\
    (p_queue_ok w = true -> length os = length rq -> code = match e with Ended => 0 | _ => 1 end) /\
    (is_set (e_data_high_carrier (p_env w)) = false -> code = 0 -> e = Ended /\ length os = length rq)) as Hm.
  { unfold stream_mode. destruct (p_queue_ok w); cbn [negb]; [|by split; [cbn; lia|]; split].
    unfold is_, probe_inputs. cbv zeta. set (input := fun k : nat => _).
    set (tail := match e with Ended => [] | _ => _ end).
    assert (Forall (refused (data_stream o) (p_env w)) tail) as Ht.
    { unfold tail. destruct e; constructor; [|done| |done]; (eapply cut_short; [exact He|auto]). }
    assert (length (imap input rq) = length rq) as <- by apply length_imap. set (ready := imap input rq).
    pose proof (stream_loop_refused _ _ ready tail Ht (Probe empty_source (p_lib w) false (initial_start (p_env w)) 0 false false)) as H.
    assert (Forall (fun i => Probe.in_frame i <> []) (ready ++ tail)) as Hne.
    { apply Forall_app. split.
      - apply Forall_lookup. intros k i Hk. unfold ready in Hk. rewrite list_lookup_imap in Hk.
        apply fmap_Some in Hk as (r & Hr & ->). destruct (proj1 (Forall_lookup _ _) Hrq k r Hr) as [Hsz _].
        cbn. intros Hnil. rewrite Hnil in Hsz. by cbn in Hsz.
      - unfold tail. destruct e; constructor; try done; cbn [Probe.in_frame]; (eapply next_nonempty; [exact He|auto]). }
    pose proof (fun Hc => stream_loop_zero (data_stream o) (p_env w) _ Hc Hne
      (Probe empty_source (p_lib w) false (initial_start (p_env w)) 0 false false)) as H0.
    destruct (stream_loop _ _ _ _) as [os code]. destruct H as [H1 H2]. split; [done|]. split.
    - intros _ Hlen. rewrite (H2 Hlen). unfold tail. by destruct e.
    - intros Hc Hz. specialize (H0 Hc Hz). rewrite length_app in H0.
      assert (tail = []) as Et by (destruct tail; [done|cbn [length] in H0; lia]).
      rewrite Et in H0. cbn [length] in H0. unfold tail in Et. split; [by destruct e|lia]. }
  destruct (stream_mode _ _ _ _ _) as [os c]. destruct Ha as (Ha & Hc & _), Hm as (Hm & Hx & Hz). cbn [stdout code].
  exists (map probe_reply os). rewrite length_map. split_and!; try done.
  - apply Forall_map. eapply Forall_impl; [|exact Ha]. intros out. apply answer_sized.
  - by rewrite flat_map_concat_map, (flat_map_concat_map written), map_map.
Qed.
End AnalogueProcess.

(** ** Back to back *)
Section Piped.
Context {L LB : Type} {eng : Engine L} {sib : Sibling LB}.

(** C27: two processes joined by a pipe. Start the analogue bridge in stream
    mode on any standard input, and the digital bridge on what it writes, both
    with data-stream or both without. The analogue bridge answers its requests
    in order, all of them or a first part, and exits with 0 or 1; its output is
    read by the digital bridge as exactly the frames and packets it wrote, none
    of them cut short. When it has answered all its requests (and its queue
    was allocated), the exit code says whether its input ended in the middle of
    a request; conversely, with no carrier to switch to at the B1 seam, code 0
    means that it answered every request and its input ended between two. The
    digital bridge exits with 1 if it could not start, with 0 having answered
    every frame it was sent, or, given a reset file, it answers those before a
    reset that fails and then ends with 0 or as querying null handles makes it
    ([bridge_ended]); its output in turn is read by an analogue bridge as the
    frames and packets it wrote. *)
Theorem piped_processes_answer pargs pw bargs (bw : bridge_world) stdin o ob :
  probe_args pargs no_options = Some o -> (length pargs <= 3)%nat ->
  bridge_args bargs no_options = Some ob -> data_stream o = data_stream ob ->
  let x := probe_main (text "--stream" :: pargs) pw stdin in
  let '(rq, e) := requests (data_stream o) stdin in
  let '(out, c) := bridge_main bargs bw (stdout x) in
  exists rs rs',
    requests (data_stream ob) (stdout x) = (rs, Ended) /\ stdout x = flat_map written rs /\
    (length rs <= length rq)%nat /\ (code x = 0 \/ code x = 1) /\
    (p_queue_ok pw = true -> length rs = length rq -> code x = match e with Ended => 0 | _ => 1 end) /\
    (is_set (e_data_high_carrier (p_env pw)) = false -> code x = 0 -> e = Ended /\ length rs = length rq) /\
    requests (data_stream o) out = (rs', Ended) /\ out = flat_map written rs' /\
    (length rs' <= length rs)%nat /\ bridge_ended bw ob (length rs') (length rs) c.
Proof.
  intros Ho Hl Hob Eds. cbv zeta. pose proof (probe_process pargs pw stdin o Ho Hl) as Hp. cbv zeta in Hp.
  destruct (requests _ stdin) as [rq e]. destruct Hp as (rs & Hrs & Hx & Hle & Hc & He & Hz).
  pose proof (bridge_process bargs bw (stdout (probe_main (text "--stream" :: pargs) pw stdin)) ob Hob)
    as (rs' & Hrs' & Hle' & c & Hb & Hend).
  rewrite Hx, <- Eds, (requests_all _ rs Hrs) in *. cbn [fst] in *. rewrite Hb.
  exists rs, rs'. rewrite (requests_all _ rs' Hrs'). split_and!; auto.
Qed.
End Piped.

(** ** Witness *)

(** One request of 160, 4 and 256 octets, and a packet cut short behind it. *)
Definition toy_stdin : list Z :=
  replicate 160 0xff ++ [2; 0; 0; 0] ++ replicate 256 0x03 ++ replicate 160 0xff ++ [1; 0].
Definition toy_probe_world : probe_world :=
  ProbeWorld ProbeSpec.toy_env true 0 (fun _ => Some 7) (fun _ => None) (fun _ => false).
Definition toy_bridge_world : bridge_world :=
  BridgeWorld BridgeSession.toy_env (fun _ => BridgeSession.toy_env) (fun _ => None) (replicate 20 2%nat) [] 139.
Definition toy_pargs : list (list Z) := [text "--reset-file"; text "/tmp/r"; text "--data-stream"].
Definition toy_bargs : list (list Z) := [text "--stream"; text "--data-stream"].
Definition toy_exit : exit_t := probe_main (text "--stream" :: toy_pargs) toy_probe_world toy_stdin.
Definition toy_exit' : list Z * Z := bridge_main toy_bargs toy_bridge_world (stdout toy_exit).

#[local] Opaque toy_stdin requests bridge_main probe_main.
Lemma piped_processes_answer_witness :
  (code toy_exit = 1 /\ length (stdout toy_exit) = 420%nat /\ snd toy_exit' = 0 /\ length (fst toy_exit') = 420%nat) /\
  let x := probe_main (text "--stream" :: toy_pargs) toy_probe_world toy_stdin in
  let '(rq, e) := requests true toy_stdin in
  let '(out, c) := bridge_main toy_bargs toy_bridge_world (stdout x) in
  exists rs rs',
    requests true (stdout x) = (rs, Ended) /\ stdout x = flat_map written rs /\
    (length rs <= length rq)%nat /\ (code x = 0 \/ code x = 1) /\
    (true = true -> length rs = length rq -> code x = match e with Ended => 0 | _ => 1 end) /\
    (is_set (e_data_high_carrier ProbeSpec.toy_env) = false -> code x = 0 -> e = Ended /\ length rs = length rq) /\
    requests true out = (rs', Ended) /\ out = flat_map written rs' /\
    (length rs' <= length rs)%nat /\ bridge_ended toy_bridge_world (Options None true) (length rs') (length rs) c.
Proof.
  split; [vm_compute; repeat split|].
  exact (piped_processes_answer toy_pargs toy_probe_world toy_bargs toy_bridge_world toy_stdin
    (Options (Some (text "/tmp/r")) true) (Options None true) eq_refl ltac:(cbn; lia) eq_refl eq_refl).
Defined.
