(* ===== verification/Pm3.v ===== *)
(** * The PM3 board probe

    [pm3_z180_harness.c]: a Z180 core runs a firmware image on a board that
    consists of memory, a receive and a transmit FIFO behind one port, and a
    few status ports; interrupts are raised at fixed intervals, and what the
    program did is reported.

    The core is not in the repository: it is an instance of [Z180], whose
    entry points may access memory and ports through the callbacks any number
    of times before they return ([bus]). What is printed is a list of [line]s,
    one constructor per message; the numbers in it are those the message
    shows. Opening the image gives its bytes, or fails. *)
From Stdlib Require Import Strings.String.
From S2P Require Import Prelude CLib.

(** ** The core *)

(** What an entry point of the core does: return, or call one of the four
    functions the machine installs. Port accesses come with [cpu->old_pc]. *)
Inductive bus (A : Type) :=
  | BusDone (x : A)
  | ReadByte (address : Z) (k : Z -> bus A)
  | WriteByte (address value : Z) (k : bus A)
  | InputByte (port old_pc : Z) (k : Z -> bus A)
  | OutputByte (port value old_pc : Z) (k : bus A).
Arguments BusDone {A}. Arguments ReadByte {A}. Arguments WriteByte {A}. Arguments InputByte {A}. Arguments OutputByte {A}.

(** The members of [x80_state_t] the harness reads. *)
Inductive cpu_reg := R_pc | R_sp | R_af | R_bc | R_de | R_hl | R_ir | R_ie1 | R_ie2.

Class Z180 (C : Type) := {
  (** [{0}] with the type and the callbacks set *)
  cpu_zero : C;
  cpu_get : cpu_reg -> C -> Z;
  (** [cpu.z180.ior[k]] *)
  cpu_ior : Z -> C -> Z;
  X80_Z180_IOR_TCR : Z; X80_Z180_IOR_IL : Z; X80_Z180_IOR_CBR : Z; X80_Z180_IOR_BBR : Z; X80_Z180_IOR_CBAR : Z;
  X80_Z180_TCR_TDE0 : Z; X80_Z180_INT_PRT0 : Z;
  z180_reset : C -> bus C;
  (** whether the core goes on *)
  z180_step : C -> bus (bool * C);
  z180_exception_intint : Z -> C -> bus C;
  (** the line and the byte of data *)
  z180_exception_extint : Z -> Z -> C -> bus C;
  z180_get_address : Z -> C -> Z;
}.

(** ** Definitions *)
Definition PHYS_SIZE : Z := 1 <<< 20.
Definition FIFO_SIZE : Z := 256.

Inductive line :=
  | In (port value pc asic : Z) | Out (port value pc : Z)
  | InvalidByteList (s : list Z) | InvalidSeparator | InvalidNumber (s : list Z) | Usage
  | BadImageSize (size : Z) | CoreStopped (step : Z)
  | ShowRegisters (values : list Z) | ShowInterrupts (values : list Z) | ShowMmu (values : list Z)
  | ShowCounts (executed reads writes inputs outputs : Z)
  | ShowFifo (rx_pos rx_len : Z) (tx : list Z) | ShowRing (values : list Z) | Hot (address count : Z).

(** [memory] and [coverage] have no key for an element that was never
    stored: 0xff after the [memset], 0 after the [calloc]. [rx_fifo] and
    [tx_fifo] hold [rx_len] and [tx_len] bytes. *)
Record pm3_t := Pm3 {
  memory : gmap Z Z;
  reads : Z; writes : Z; inputs : Z; outputs : Z;
  coverage : gmap Z Z;
  asic_index : Z; port_fe : Z;
  rx_fifo : list Z; tx_fifo : list Z; rx_pos : Z;
  trace_io : bool;
  (** what was printed, oldest first *)
  printed : list line }.

Definition rx_len (m : pm3_t) : Z := Z.of_nat (length (rx_fifo m)).
Definition tx_len (m : pm3_t) : Z := Z.of_nat (length (tx_fifo m)).
Definition memory_at (m : pm3_t) (a : Z) : Z := default 0xff (memory m !! a).
Definition coverage_at (cov : gmap Z Z) (a : Z) : Z := default 0 (cov !! a).

(** Assignments to the members. *)
Definition set_memory f m := Pm3 (f (memory m)) (reads m) (writes m) (inputs m) (outputs m) (coverage m) (asic_index m) (port_fe m) (rx_fifo m) (tx_fifo m) (rx_pos m) (trace_io m) (printed m).
Definition set_reads v m := Pm3 (memory m) (u64 v) (writes m) (inputs m) (outputs m) (coverage m) (asic_index m) (port_fe m) (rx_fifo m) (tx_fifo m) (rx_pos m) (trace_io m) (printed m).
Definition set_writes v m := Pm3 (memory m) (reads m) (u64 v) (inputs m) (outputs m) (coverage m) (asic_index m) (port_fe m) (rx_fifo m) (tx_fifo m) (rx_pos m) (trace_io m) (printed m).
Definition set_inputs v m := Pm3 (memory m) (reads m) (writes m) (u64 v) (outputs m) (coverage m) (asic_index m) (port_fe m) (rx_fifo m) (tx_fifo m) (rx_pos m) (trace_io m) (printed m).
Definition set_outputs v m := Pm3 (memory m) (reads m) (writes m) (inputs m) (u64 v) (coverage m) (asic_index m) (port_fe m) (rx_fifo m) (tx_fifo m) (rx_pos m) (trace_io m) (printed m).
Definition set_coverage f m := Pm3 (memory m) (reads m) (writes m) (inputs m) (outputs m) (f (coverage m)) (asic_index m) (port_fe m) (rx_fifo m) (tx_fifo m) (rx_pos m) (trace_io m) (printed m).
Definition set_asic v m := Pm3 (memory m) (reads m) (writes m) (inputs m) (outputs m) (coverage m) (u8 v) (port_fe m) (rx_fifo m) (tx_fifo m) (rx_pos m) (trace_io m) (printed m).
Definition set_port_fe v m := Pm3 (memory m) (reads m) (writes m) (inputs m) (outputs m) (coverage m) (asic_index m) (u8 v) (rx_fifo m) (tx_fifo m) (rx_pos m) (trace_io m) (printed m).
Definition set_rx_fifo l m := Pm3 (memory m) (reads m) (writes m) (inputs m) (outputs m) (coverage m) (asic_index m) (port_fe m) l (tx_fifo m) (rx_pos m) (trace_io m) (printed m).
Definition set_tx_fifo l m := Pm3 (memory m) (reads m) (writes m) (inputs m) (outputs m) (coverage m) (asic_index m) (port_fe m) (rx_fifo m) l (rx_pos m) (trace_io m) (printed m).
Definition set_rx_pos v m := Pm3 (memory m) (reads m) (writes m) (inputs m) (outputs m) (coverage m) (asic_index m) (port_fe m) (rx_fifo m) (tx_fifo m) (u32 v) (trace_io m) (printed m).
Definition print (l : line) m := Pm3 (memory m) (reads m) (writes m) (inputs m) (outputs m) (coverage m) (asic_index m) (port_fe m) (rx_fifo m) (tx_fifo m) (rx_pos m) (trace_io m) (printed m ++ [l]).

(** [calloc], [memset] of the memory, [m->trace_io = trace_io]. *)
Definition machine_init (trace : bool) : pm3_t := Pm3 ∅ 0 0 0 0 ∅ 0 0 [] [] 0 trace [].

(** *** The callbacks *)
Definition memory_read (address : Z) (m : pm3_t) : Z * pm3_t :=
  let m := set_reads (reads m + 1) m in
  (memory_at m (address &&& (PHYS_SIZE - 1)), m).
Definition memory_write (address value : Z) (m : pm3_t) : pm3_t :=
  let m := set_writes (writes m + 1) m in
  set_memory <[address &&& (PHYS_SIZE - 1) := u8 value]> m.

Definition port_read (port old_pc : Z) (m : pm3_t) : Z * pm3_t :=
  let m := set_inputs (inputs m + 1) m in
  let value := 0 in
  let '(value, m) :=
    if (port &&& 0xffff) =? 0x00fe then (port_fe m, set_port_fe 0 m) else (value, m) in
  let value :=
    if (port &&& 0xffff) =? 0x00f5 then (if rx_pos m <? rx_len m then 0 else 0x20) else value in
  let '(value, m) :=
    if ((port &&& 0xff) =? 0xf0) && (rx_pos m <? rx_len m)
    then (default 0 (rx_fifo m !! Z.to_nat (rx_pos m)), set_rx_pos (rx_pos m + 1) m) else (value, m) in
  let m := if trace_io m then print (In (u32 port) value (u32 old_pc) (asic_index m)) m else m in
  (value, m).

Definition port_write (port value old_pc : Z) (m : pm3_t) : pm3_t :=
  let value := u8 value in
  let m := set_outputs (outputs m + 1) m in
  let m := if ((port &&& 0xffff) =? 0x00c0) || ((port &&& 0xffff) =? 0x00c2) then set_asic value m else m in
  let m := if ((port &&& 0xff) =? 0xf0) && (tx_len m <? FIFO_SIZE) then set_tx_fifo (tx_fifo m ++ [value]) m else m in
  if trace_io m then print (Out (u32 port) value (u32 old_pc)) m else m.

(** An entry point of the core, with its callbacks answered. *)
Fixpoint serve {A} (b : bus A) (m : pm3_t) : A * pm3_t :=
  match b with
  | BusDone x => (x, m)
  | ReadByte a k => let '(v, m) := memory_read a m in serve (k v) m
  | WriteByte a v k => serve k (memory_write a v m)
  | InputByte p pc k => let '(v, m) := port_read p pc m in serve (k v) m
  | OutputByte p v pc k => serve k (port_write p v pc m)
  end.

(** *** Arguments *)

(** The list of bytes, or the message before [exit(2)]. Every pass takes a
    character at least, so the length of the text is fuel enough. *)
Definition is_separator (c : Z) : bool := (c =? 44) || (c =? 58) || (c =? 32).
Fixpoint parse_bytes (fuel : nat) (s : list Z) (out : list Z) (capacity : Z) : option (line + list Z) :=
  match fuel with
  | O => None
  | S fuel =>
      match s with
      | [] => Some (inr out)
      | _ =>
          let '(value, e) := strtoul s 16 in
          if (length e =? length s)%nat || (value >? 0xff) || (Z.of_nat (length out) =? capacity)
          then Some (inl (InvalidByteList s))
          else
            let out := out ++ [u8 value] in
            match e with
            | [] => parse_bytes fuel [] out capacity
            | c :: e' => if is_separator c then parse_bytes fuel e' out capacity else Some (inl InvalidSeparator)
            end
      end
  end.
Definition parse_hex_bytes (s : list Z) (capacity : Z) : option (line + list Z) :=
  parse_bytes (S (length s)) s [] capacity.

Definition number (s : list Z) : line + Z :=
  let '(value, e) := strtoul s 0 in
  match s, e with
  | _ :: _, [] => inr value
  | _, _ => inl (InvalidNumber s)
  end.

Record options_t := Options {
  o_steps : Z; o_timer_every : Z; o_extint_every : Z; o_rx_at : Z; o_extint : Z; o_extint_data : Z; o_port_fe : Z;
  o_rx_hex : option (list Z); o_trace_io : bool; o_image : option (list Z) }.
Definition default_options : options_t := Options 10000000 0 0 200000 0 0 0 None false None.

(** The loop over [argv]; the message before the exit with code 2. *)
Definition set_number (a : list Z) (o : options_t) : option (Z -> options_t) :=
  let '(Options steps timer extev rxat ext extd fe rx tr im) := o in
  if is_arg a "--steps" then Some (fun v => Options v timer extev rxat ext extd fe rx tr im)
  else if is_arg a "--timer-every" then Some (fun v => Options steps v extev rxat ext extd fe rx tr im)
  else if is_arg a "--extint-every" then Some (fun v => Options steps timer v rxat ext extd fe rx tr im)
  else if is_arg a "--extint" then Some (fun v => Options steps timer extev rxat (u32 v) extd fe rx tr im)
  else if is_arg a "--extint-data" then Some (fun v => Options steps timer extev rxat ext (u32 v) fe rx tr im)
  else if is_arg a "--port-fe" then Some (fun v => Options steps timer extev rxat ext extd (u32 v) rx tr im)
  else if is_arg a "--rx-at" then Some (fun v => Options steps timer extev v ext extd fe rx tr im)
  else None.
Definition set_trace_io o := Options (o_steps o) (o_timer_every o) (o_extint_every o) (o_rx_at o) (o_extint o) (o_extint_data o) (o_port_fe o) (o_rx_hex o) true (o_image o).
Definition set_rx_hex s o := Options (o_steps o) (o_timer_every o) (o_extint_every o) (o_rx_at o) (o_extint o) (o_extint_data o) (o_port_fe o) (Some s) (o_trace_io o) (o_image o).
Definition set_image s o := Options (o_steps o) (o_timer_every o) (o_extint_every o) (o_rx_at o) (o_extint o) (o_extint_data o) (o_port_fe o) (o_rx_hex o) (o_trace_io o) (Some s).
(** [argv[i][0] != '-'] *)
Definition is_plain (a : list Z) : bool := match a with c :: _ => negb (c =? 45) | [] => true end.

Fixpoint parse_args (argv : list (list Z)) (o : options_t) : line + options_t :=
  match argv with
  | [] => inr o
  | a :: rest =>
      let plain := if is_plain a then parse_args rest (set_image a o) else inl Usage in
      if is_arg a "--trace-io" then parse_args rest (set_trace_io o)
      else
        match rest with
        | [] => plain
        | v :: rest' =>
            match set_number a o with
            | Some set => match number v with inl e => inl e | inr n => parse_args rest' (set n) end
            | None => if is_arg a "--rx-hex" then parse_args rest' (set_rx_hex v o) else plain
            end
        end
  end.

(** *** The run *)
Section Run.
Context {C : Type} {core : Z180 C}.

Definition logical_byte (m : pm3_t) (cpu : C) (address : Z) : Z :=
  memory_at m (z180_get_address (u16 address) cpu &&& (PHYS_SIZE - 1)).
Definition logical_word (m : pm3_t) (cpu : C) (address : Z) : Z :=
  u16 (logical_byte m cpu address ||| u16 (logical_byte m cpu (address + 1) <<< 8)).

(** [x && i && !(i % x)] *)
Definition every (x i : Z) : bool := nz x && nz i && (i mod x =? 0).

Definition cover (pc : Z) (m : pm3_t) : pm3_t :=
  set_coverage (fun cov => <[pc &&& 0xffff := u64 (coverage_at cov (pc &&& 0xffff) + 1)]> cov) m.

(** The three interrupt sources, after a step. *)
Definition timer_source (o : options_t) (i : Z) (cpu : C) (m : pm3_t) : C * pm3_t :=
  if every (o_timer_every o) i && nz (cpu_get R_ie1 cpu) && tst (cpu_ior X80_Z180_IOR_TCR cpu) X80_Z180_TCR_TDE0
  then serve (z180_exception_intint X80_Z180_INT_PRT0 cpu) m else (cpu, m).
Definition extint_source (o : options_t) (i : Z) (cpu : C) (m : pm3_t) : C * pm3_t :=
  if every (o_extint_every o) i && nz (cpu_get R_ie1 cpu)
  then serve (z180_exception_extint (s32 (o_extint o)) (u8 (o_extint_data o)) cpu) (set_port_fe (o_port_fe o) m) else (cpu, m).
Definition rx_source (o : options_t) (i : Z) (cpu : C) (m : pm3_t) : C * pm3_t :=
  if bool_decide (is_Some (o_rx_hex o)) && (i >=? o_rx_at o) && (i mod 10000 =? 0) && (rx_pos m <? rx_len m) && nz (cpu_get R_ie1 cpu)
  then serve (z180_exception_extint 0 0 cpu) (set_port_fe 0xa0 m) else (cpu, m).

(** [for (i = 0; i < steps; i++)]; [n] passes are left. *)
Fixpoint run_steps (n : nat) (i : Z) (o : options_t) (cpu : C) (m : pm3_t) : C * pm3_t :=
  match n with
  | O => (cpu, m)
  | S n =>
      let m := cover (cpu_get R_pc cpu) m in
      let '((go, cpu), m) := serve (z180_step cpu) m in
      if negb go then (cpu, print (CoreStopped i) m)
      else
        let '(cpu, m) := timer_source o i cpu m in
        let '(cpu, m) := extint_source o i cpu m in
        let '(cpu, m) := rx_source o i cpu m in
        run_steps n (i + 1) o cpu m
  end.

(** *** The report *)
Definition pcs : list Z := seqZ 0 65536.
Definition executed (cov : gmap Z Z) : Z := foldl (fun distinct a => distinct + b2z (nz (coverage_at cov a))) 0 pcs.

(** The address executed most often among [addrs], and how often. *)
Definition busiest (cov : gmap Z Z) (addrs : list Z) : Z * Z :=
  foldl (fun '(best, address) a => if coverage_at cov a >? best then (coverage_at cov a, a) else (best, address)) (0, 0) addrs.
Fixpoint rank_hot (n : nat) (cov : gmap Z Z) : list (Z * Z) :=
  match n with
  | O => []
  | S n =>
      let '(best, address) := busiest cov pcs in
      if best =? 0 then [] else (address, best) :: rank_hot n (<[address := 0]> cov)
  end.

Definition report (o : options_t) (cpu : C) (m : pm3_t) : list line :=
  let r x := cpu_get x cpu in
  [ShowRegisters [r R_pc; r R_sp; r R_af; r R_bc; r R_de; r R_hl];
   ShowInterrupts [r R_ir >>> 8; cpu_ior X80_Z180_IOR_IL cpu; cpu_ior X80_Z180_IOR_TCR cpu; r R_ie1; r R_ie2];
   ShowMmu ([cpu_ior X80_Z180_IOR_CBR cpu; cpu_ior X80_Z180_IOR_BBR cpu; cpu_ior X80_Z180_IOR_CBAR cpu] ++
            map (memory_at m) [0x245; 0x244; 0x247; 0x246; 0x807c; 0x807b]);
   ShowCounts (executed (coverage m)) (reads m) (writes m) (inputs m) (outputs m)] ++
  (if o_rx_hex o then
     [ShowFifo (rx_pos m) (rx_len m) (tx_fifo m);
      ShowRing (map (logical_word m cpu) [0x818e; 0xc865; 0xc867; 0xc869; 0xc86b])] else []) ++
  map (fun '(a, n) => Hot a n) (rank_hot 12 (coverage m)).

(** [fread] of at most [PHYS_SIZE] bytes into the memory. *)
Definition load_image (bytes : list Z) (m : pm3_t) : pm3_t :=
  set_memory (fun mem => list_to_map (zip (seqZ 0 (Z.of_nat (length bytes))) bytes) ∪ mem) m.

(** The exit code and what was printed; [open] gives the bytes of a file. *)
Definition main (open : list Z -> option (list Z)) (argv : list (list Z)) (alloc_ok : bool) : option (Z * list line) :=
  match parse_args argv default_options with
  | inl e => Some (2, [e])
  | inr o =>
      match o_image o with
      | None => Some (2, [Usage])
      | Some image =>
          if negb alloc_ok then Some (2, [])
          else
            let m := machine_init (o_trace_io o) in
            rx ← (match o_rx_hex o with Some s => parse_hex_bytes s FIFO_SIZE | None => Some (inr []) end);
            match rx with
            | inl e => Some (2, [e])
            | inr bytes =>
                let m := set_rx_fifo bytes m in
                match open image with
                | None => Some (2, [])
                | Some contents =>
                    let data := take (Z.to_nat PHYS_SIZE) contents in
                    let size := Z.of_nat (length data) in
                    let m := load_image data m in
                    if (size <? 255 * 1024) || (size >? 256 * 1024) then Some (2, [BadImageSize size])
                    else
                      let '(cpu, m) := serve (z180_reset cpu_zero) m in
                      let '(cpu, m) := run_steps (Z.to_nat (o_steps o)) 0 o cpu m in
                      Some (0, printed m ++ report o cpu m)
                end
            end
      end
  end.
End Run.
