(* ===== verification/Pm3Spec.v ===== *)
(** * The PM3 board probe: correctness

    What the firmware sees of the FIFOs and what the report says, whatever the
    core does between its port accesses. *)
From stdpp Require Import sorting.
From Stdlib Require Import Sorting.Sorted.
From S2P Require Import Prelude CLib Pm3.

(** ** Definitions *)

(** The FIFO device the board promises: bytes still to be received, and the
    bytes transmitted (no more than the FIFO holds). It answers a read of port
    [f0] with the next byte, or 0 when there is none, and a read of port [f5]
    with bit 5 set exactly when none is left. [None]: not an access of this
    device. *)
Definition fifo_step (q : list Z * list Z) (l : line) : option (list Z * list Z) :=
  let '(todo, sent) := q in
  match l with
  | In port value _ _ =>
      if (port &&& 0xff) =? 0xf0 then
        match todo with
        | x :: todo => if value =? x then Some (todo, sent) else None
        | [] => if value =? 0 then Some ([], sent) else None
        end
      else if (port &&& 0xffff) =? 0xf5 then
        if value =? (match todo with [] => 0x20 | _ => 0 end) then Some (todo, sent) else None
      else Some (todo, sent)
  | Out port value _ =>
      if (port &&& 0xff) =? 0xf0 then Some (todo, if Z.of_nat (length sent) <? FIFO_SIZE then sent ++ [value] else sent)
      else Some (todo, sent)
  | _ => Some (todo, sent)
  end.
Fixpoint fifo_run (q : list Z * list Z) (ls : list line) : option (list Z * list Z) :=
  match ls with
  | [] => Some q
  | l :: ls => q ← fifo_step q l; fifo_run q ls
  end.

Definition is_in (l : line) : bool := match l with In _ _ _ _ => true | _ => false end.
Definition is_out (l : line) : bool := match l with Out _ _ _ => true | _ => false end.
Definition count (p : line -> bool) (ls : list line) : Z := Z.of_nat (length (List.filter p ls)).

(** What a machine with its accesses printed has done to the FIFOs. *)
Record Served (rx : list Z) (m : pm3_t) : Prop := {
  served_trace : trace_io m = true;
  served_rx : rx_fifo m = rx;
  served_pos : 0 <= rx_pos m <= Z.of_nat (length rx);
  served_fifo : fifo_run (rx, []) (printed m) = Some (drop (Z.to_nat (rx_pos m)) rx, tx_fifo m);
  served_in : inputs m = u64 (count is_in (printed m));
  served_out : outputs m = u64 (count is_out (printed m));
}.

(** ** What the core can do to the machine *)

(** An invariant of the callbacks is one of every entry point. *)
Record Callback (I : pm3_t -> Prop) : Prop := {
  cb_read a m : I m -> I (snd (memory_read a m));
  cb_write a v m : I m -> I (memory_write a v m);
  cb_in p pc m : I m -> I (snd (port_read p pc m));
  cb_out p v pc m : I m -> I (port_write p v pc m);
}.
Lemma serve_inv {A} I (b : bus A) m : Callback I -> I m -> I (snd (serve b m)).
Proof.
  intros Hcb. revert m. induction b as [x|a k IH|a v k IH|p pc k IH|p v pc k IH]; intros m Hm; cbn [serve].
  - done.
  - pose proof (cb_read I Hcb a m Hm) as H. destruct (memory_read a m) as [x m']. by apply IH.
  - by apply IH, cb_write.
  - pose proof (cb_in I Hcb p pc m Hm) as H. destruct (port_read p pc m) as [x m']. by apply IH.
  - by apply IH, cb_out.
Qed.

(** An invariant that the loop's own stores keep as well is one of the run. *)
Record RunInv (I : pm3_t -> Prop) : Prop := {
  ri_callback : Callback I;
  ri_cover pc m : I m -> I (cover pc m);
  ri_port_fe v m : I m -> I (set_port_fe v m);
  ri_stop i m : I m -> I (print (CoreStopped i) m);
}.
Section Run.
Context {C : Type} {core : Z180 C}.

Lemma timer_source_inv I o i (cpu : C) m : RunInv I -> I m -> I (snd (timer_source o i cpu m)).
Proof. intros HI Hm. unfold timer_source. destruct (_ && _); [apply serve_inv; [apply HI|done]|done]. Qed.
Lemma extint_source_inv I o i (cpu : C) m : RunInv I -> I m -> I (snd (extint_source o i cpu m)).
Proof. intros HI Hm. unfold extint_source. destruct (_ && _); [apply serve_inv; [apply HI|by apply ri_port_fe]|done]. Qed.
Lemma rx_source_inv I o i (cpu : C) m : RunInv I -> I m -> I (snd (rx_source o i cpu m)).
Proof. intros HI Hm. unfold rx_source. destruct (_ && _); [apply serve_inv; [apply HI|by apply ri_port_fe]|done]. Qed.
Lemma sources_inv I o i (cpu : C) m : RunInv I -> I m ->
  I (snd (let '(cpu, m) := timer_source o i cpu m in let '(cpu, m) := extint_source o i cpu m in rx_source o i cpu m)).
Proof.
  intros HI Hm. pose proof (timer_source_inv I o i cpu m HI Hm) as H1. destruct (timer_source o i cpu m) as [c1 m1].
  pose proof (extint_source_inv I o i c1 m1 HI H1) as H2. destruct (extint_source o i c1 m1) as [c2 m2].
  by apply rx_source_inv.
Qed.
Lemma run_steps_inv I n i o (cpu : C) m : RunInv I -> I m -> I (snd (run_steps n i o cpu m)).
Proof.
  intros HI. revert i cpu m. induction n as [|n IH]; intros i cpu m Hm; [done|]. cbn [run_steps]. cbv zeta.
  assert (I (snd (serve (z180_step cpu) (cover (cpu_get R_pc cpu) m)))) as H
    by (apply serve_inv; [apply HI|by apply ri_cover]).
  destruct (serve _ _) as [[go cpu'] m']. cbn [snd] in H. destruct (negb go); [by apply ri_stop|].
  pose proof (sources_inv I o i cpu' m' HI H) as Hs.
  destruct (timer_source o i cpu' m') as [c1 m1], (extint_source o i c1 m1) as [c2 m2], (rx_source o i c2 m2) as [c3 m3].
  by apply IH.
Qed.
End Run.

(** ** The FIFOs *)
Lemma fifo_run_app q l1 l2 : fifo_run q (l1 ++ l2) = (q ← fifo_run q l1; fifo_run q l2).
Proof. revert q. induction l1 as [|l l1 IH]; intros q; [done|]. cbn. destruct (fifo_step q l); [apply IH|done]. Qed.
Lemma fifo_run_snoc q l e : fifo_run q (l ++ [e]) = (q ← fifo_run q l; fifo_step q e).
Proof. rewrite fifo_run_app. destruct (fifo_run q l) as [q'|]; [|done]. cbn. by destruct (fifo_step q' e). Qed.
Lemma count_snoc p l e : count p (l ++ [e]) = count p l + b2z (p e).
Proof. unfold count. rewrite List.filter_app, length_app. cbn [List.filter]. destruct (p e); cbn; lia. Qed.
Lemma u64_count n b : u64 (u64 n + b2z b) = u64 (n + b2z b).
Proof. unfold conv. cbn. unfold wrapu. by rewrite Zplus_mod_idemp_l. Qed.
Lemma u32_low p k : 0 <= k <= 32 -> u32 p &&& (2 ^ k - 1) = p &&& (2 ^ k - 1).
Proof.
  intros Hk. rewrite !land_mask_mod by lia.
  unfold conv; cbn; unfold wrapu. replace 32 with (k + (32 - k)) by lia. rewrite Z.pow_add_r by lia.
  by rewrite Z.rem_mul_r, (Z.mul_comm (2 ^ k)), Z.mod_add, Z.mod_mod by lia.
Qed.

(** The steps of the device for the lines the two port functions print. *)
Lemma fifo_step_data p v pc asic q sent : (p &&& 0xff) =? 0xf0 = true ->
  fifo_step (q, sent) (In p v pc asic) =
    match q with x :: q => if v =? x then Some (q, sent) else None | [] => if v =? 0 then Some ([], sent) else None end.
Proof. intros H. cbn. by rewrite H. Qed.

Lemma port_of_data p : (p &&& 0xff) =? 0xf0 = true -> (p &&& 0xffff) =? 0xf5 = false /\ (p &&& 0xffff) =? 0xfe = false.
Proof.
  intros H%Z.eqb_eq. assert ((p &&& 0xffff) &&& 0xff = 0xf0) as E by (by rewrite <- Z.land_assoc).
  split; apply Z.eqb_neq; intros E'; rewrite E' in E; discriminate.
Qed.

Lemma u32_port p : (u32 p &&& 0xff) = (p &&& 0xff) /\ (u32 p &&& 0xffff) = (p &&& 0xffff).
Proof. split; [exact (u32_low p 8 ltac:(lia))|exact (u32_low p 16 ltac:(lia))]. Qed.

Section Fifo.
Context (rx : list Z) (room : Z.of_nat (length rx) <= FIFO_SIZE).

Lemma fe_not_data p : (p &&& 0xffff) =? 0xfe = true -> (p &&& 0xff) =? 0xf0 = false /\ (p &&& 0xffff) =? 0xf5 = false.
Proof using Type.
  intros H. destruct ((p &&& 0xff) =? 0xf0) eqn:E; [by destruct (port_of_data p E) as [_ E2]; rewrite H in E2|].
  split; [done|]. apply Z.eqb_eq in H. by rewrite H.
Qed.
Lemma status_not_data p : (p &&& 0xffff) =? 0xf5 = true -> (p &&& 0xff) =? 0xf0 = false.
Proof using Type. intros H. destruct ((p &&& 0xff) =? 0xf0) eqn:E; [|done]. by destruct (port_of_data p E) as [E2 _]; rewrite H in E2. Qed.

(** What is left of the receive queue is empty when the position is its end. *)
Lemma left_at_end m : Served rx m -> rx_pos m <? rx_len m = false -> drop (Z.to_nat (rx_pos m)) rx = [].
Proof using Type.
  intros [_ Hrx Hp _ _ _] H%Z.ltb_ge. unfold rx_len in H. rewrite Hrx in H. apply drop_ge. lia.
Qed.
Lemma left_before_end m : Served rx m -> rx_pos m <? rx_len m = true ->
  drop (Z.to_nat (rx_pos m)) rx =
    default 0 (rx_fifo m !! Z.to_nat (rx_pos m)) :: drop (Z.to_nat (rx_pos m + 1)) rx.
Proof using Type.
  intros [_ Hrx Hp _ _ _] H%Z.ltb_lt. unfold rx_len in H. rewrite Hrx in *.
  destruct (lookup_lt_is_Some_2 rx (Z.to_nat (rx_pos m))) as [x Hx]; [lia|].
  rewrite Hx. cbn. rewrite (drop_S rx x) by done. do 2 f_equal. lia.
Qed.

Lemma served_in_line p v pc m m1 :
  Served rx m -> m1 = set_inputs (inputs m + 1) m \/ (exists n, m1 = set_rx_pos n (set_inputs (inputs m + 1) m)) \/
    m1 = set_port_fe 0 (set_inputs (inputs m + 1) m) ->
  0 <= rx_pos m1 <= Z.of_nat (length rx) ->
  fifo_step (drop (Z.to_nat (rx_pos m)) rx, tx_fifo m) (In (u32 p) v (u32 pc) (asic_index m1)) =
    Some (drop (Z.to_nat (rx_pos m1)) rx, tx_fifo m) ->
  Served rx (print (In (u32 p) v (u32 pc) (asic_index m1)) m1).
Proof using Type.
  intros [H1 H2 H3 H4 H5 H6] Hm1 Hpos Hstep.
  assert (trace_io m1 = true /\ rx_fifo m1 = rx /\ tx_fifo m1 = tx_fifo m /\ printed m1 = printed m /\
    inputs m1 = u64 (inputs m + 1) /\ outputs m1 = outputs m) as (E1 & E2 & E3 & E4 & E5 & E6)
    by (destruct Hm1 as [->|[[n ->]| ->]]; done).
  constructor; [done..| | |].
  - cbn [printed print tx_fifo rx_pos]. rewrite fifo_run_snoc, E3, E4, H4. exact Hstep.
  - cbn [printed print inputs]. rewrite E4, E5, count_snoc, H5. apply (u64_count _ true).
  - cbn [printed print outputs]. rewrite E4, E6, count_snoc, H6. cbn. by rewrite Z.add_0_r.
Qed.
Lemma served_read p pc m : Served rx m -> Served rx (snd (port_read p pc m)).
Proof.
  intros H. pose proof H as [Ht Hrx Hp _ _ _]. unfold port_read. destruct (u32_port p) as [E8 E16].
  destruct ((p &&& 0xffff) =? 0xfe) eqn:Efe; [|destruct ((p &&& 0xff) =? 0xf0) eqn:Edata].
  - destruct (fe_not_data p Efe) as [-> ->]. cbn [andb]. cbv zeta iota.
    change (trace_io (set_port_fe 0 _)) with (trace_io m). rewrite Ht. apply (served_in_line p _ pc m); [done|auto|done|].
    cbn [fifo_step]. rewrite E8, E16. by destruct (fe_not_data p Efe) as [-> ->].
  - destruct (port_of_data p Edata) as [-> _]. cbv zeta iota.
    change (rx_pos (set_inputs _ _)) with (rx_pos m). change (rx_len (set_inputs _ _)) with (rx_len m).
    change (rx_fifo (set_inputs _ _)) with (rx_fifo m).
    destruct (rx_pos m <? rx_len m) eqn:E; cbn [andb].
    + change (trace_io (set_rx_pos _ _)) with (trace_io m). rewrite Ht.
      pose proof E as E'%Z.ltb_lt. unfold rx_len in E'. rewrite Hrx in E'. unfold FIFO_SIZE in room.
      assert (u32 (rx_pos m + 1) = rx_pos m + 1) as Eu by (apply (conv_id U32); cbn; lia).
      apply (served_in_line p _ pc m); [done|right; left; by eexists|change (rx_pos (set_rx_pos _ _)) with (u32 (rx_pos m + 1)); rewrite Eu; lia|].
      change (rx_pos (set_rx_pos _ _)) with (u32 (rx_pos m + 1)). rewrite Eu.
      rewrite (left_before_end m H E), fifo_step_data by (by rewrite E8). by rewrite Z.eqb_refl.
    + change (trace_io (set_inputs _ _)) with (trace_io m). rewrite Ht. apply (served_in_line p _ pc m); [done|auto|done|].
      cbn [rx_pos set_inputs]. rewrite (left_at_end m H E), fifo_step_data by (by rewrite E8). done.
  - cbn [andb]. cbv zeta iota. change (trace_io (set_inputs _ _)) with (trace_io m). rewrite Ht.
    change (rx_pos (set_inputs _ _)) with (rx_pos m). change (rx_len (set_inputs _ _)) with (rx_len m).
    apply (served_in_line p _ pc m); [done|auto|done|]. cbn [fifo_step]. rewrite E8, E16, Edata.
    change (rx_pos (set_inputs _ _)) with (rx_pos m).
    destruct ((p &&& 0xffff) =? 0xf5); [|done].
    destruct (rx_pos m <? rx_len m) eqn:E; [by rewrite (left_before_end m H E)|by rewrite (left_at_end m H E)].
Qed.

Lemma served_write p v pc m : Served rx m -> Served rx (port_write p v pc m).
Proof using Type.
  intros [Ht Hrx Hp Hf Hi Ho]. unfold port_write. destruct (u32_port p) as [E8 _]. cbv zeta.
  set (m1 := set_outputs (outputs m + 1) m). set (m2 := if _ || _ then set_asic (u8 v) m1 else m1).
  assert (trace_io m2 = true /\ rx_fifo m2 = rx /\ rx_pos m2 = rx_pos m /\ tx_fifo m2 = tx_fifo m /\ printed m2 = printed m /\
    inputs m2 = inputs m /\ outputs m2 = u64 (outputs m + 1)) as (T & E1 & E2 & E3 & E4 & E5 & E6)
    by (unfold m2; by destruct (_ || _)).
  set (tx := if ((p &&& 0xff) =? 0xf0) && (Z.of_nat (length (tx_fifo m)) <? FIFO_SIZE) then tx_fifo m ++ [u8 v] else tx_fifo m).
  set (m3 := if ((p &&& 0xff) =? 0xf0) && (tx_len m2 <? FIFO_SIZE) then set_tx_fifo (tx_fifo m2 ++ [u8 v]) m2 else m2).
  assert (trace_io m3 = true /\ rx_fifo m3 = rx /\ rx_pos m3 = rx_pos m /\ tx_fifo m3 = tx /\ printed m3 = printed m /\
    inputs m3 = inputs m /\ outputs m3 = u64 (outputs m + 1)) as (T' & F1 & F2 & F3 & F4 & F5 & F6)
    by (unfold m3, tx, tx_len; rewrite E3; by destruct (_ && _)).
  rewrite T'. constructor; cbn [print trace_io rx_fifo rx_pos tx_fifo printed inputs outputs].
  - done.
  - done.
  - by rewrite F2.
  - rewrite fifo_run_snoc, F2, F3, F4, Hf. cbn [mbind option_bind fifo_step]. rewrite E8. unfold tx.
    destruct ((p &&& 0xff) =? 0xf0); [|done]. cbn [andb]. by destruct (_ <? FIFO_SIZE).
  - rewrite F4, F5, count_snoc, Hi. cbn. by rewrite Z.add_0_r.
  - rewrite F4, F6, count_snoc, Ho. apply (u64_count _ true).
Qed.

Lemma served_run : RunInv (Served rx).
Proof.
  constructor.
  - constructor; [by intros a m []|by intros a v m []|apply served_read|apply served_write].
  - by intros pc m [].
  - by intros v m [].
  - intros i m [H1 H2 H3 H4 H5 H6]. constructor; [done..| | |]; cbn [print printed inputs outputs tx_fifo rx_pos].
    + by rewrite fifo_run_snoc, H4.
    + rewrite count_snoc, H5. cbn. by rewrite Z.add_0_r.
    + rewrite count_snoc, H6. cbn. by rewrite Z.add_0_r.
Qed.
End Fifo.

(** C33: the board's ports are the two FIFOs. Whatever core runs on the board,
    with whatever options and for however many steps, what it printed of its
    port accesses is a run of the FIFO device on the bytes given: every byte
    is received once, in order; the status port says empty exactly when none
    is left; the transmit FIFO holds the first 256 bytes sent; and the
    counters of the report count the accesses. *)
Theorem board_is_fifo_device {C} {core : Z180 C} (rx : list Z) (o : options_t) (steps : nat) :
  Z.of_nat (length rx) <= FIFO_SIZE ->
  let '(cpu, m) := serve (z180_reset cpu_zero) (set_rx_fifo rx (machine_init true)) in
  let m' := snd (run_steps steps 0 o cpu m) in
  fifo_run (rx, []) (printed m') = Some (drop (Z.to_nat (rx_pos m')) rx, tx_fifo m') /\
  0 <= rx_pos m' <= rx_len m' /\ rx_fifo m' = rx /\
  inputs m' = u64 (count is_in (printed m')) /\ outputs m' = u64 (count is_out (printed m')).
Proof.
  intros Hroom. assert (Served rx (set_rx_fifo rx (machine_init true))) as H0.
  { constructor; try done. cbn. split; [lia|]. apply Nat2Z.is_nonneg. }
  pose proof (serve_inv (Served rx) (z180_reset cpu_zero) _ (ri_callback _ (served_run rx Hroom)) H0) as H.
  destruct (serve _ _) as [cpu m]. cbn [snd] in H. cbv zeta.
  destruct (run_steps_inv (Served rx) steps 0 o cpu m (served_run rx Hroom) H) as [_ Hrx Hp Hf Hi Ho].
  unfold rx_len. by rewrite Hrx.
Qed.

(** ** The byte list of the command line *)

(** The text of a list of bytes, each followed by a separator. *)
Definition byte_list (bytes seps : list Z) : list Z :=
  concat (zip_with (fun b c => print_02x b ++ [c]) bytes seps).

Lemma separator_ends c s : is_separator c = true -> starts_digit 16 (c :: s) = false.
Proof.
  unfold is_separator. rewrite !orb_true_iff, !Z.eqb_eq. by intros [[->| ->]| ->].
Qed.
Lemma parse_byte fuel v c s out capacity : 0 <= v <= 0xff -> is_separator c = true ->
  Z.of_nat (length out) < capacity ->
  parse_bytes (S fuel) (print_02x v ++ c :: s) out capacity = parse_bytes fuel s (out ++ [v]) capacity.
Proof.
  intros Hv Hc Hn. cbn [parse_bytes].
  rewrite (strtoul_02x v (c :: s)) by (done || by apply separator_ends).
  assert ((length (c :: s) =? length (print_02x v ++ c :: s))%nat = false) as -> by (apply Nat.eqb_neq; cbn; lia).
  assert ((v >? 0xff) = false) as -> by (destruct (Z.gtb_spec v 0xff); lia).
  rewrite (proj2 (Z.eqb_neq _ capacity)) by lia. cbn [orb print_02x app].
  by rewrite Hc, (conv_id U8) by (cbn; lia).
Qed.

(** The parser takes a character at least in every pass, and never writes
    past the array. *)
Lemma parse_bytes_total fuel s out : (length s < fuel)%nat -> Z.of_nat (length out) <= FIFO_SIZE ->
  exists r, parse_bytes fuel s out FIFO_SIZE = Some r /\
    forall bytes, r = inr bytes -> Z.of_nat (length bytes) <= FIFO_SIZE /\ out `prefix_of` bytes.
Proof.
  revert s out. induction fuel as [|fuel IH]; intros s out Hs Hout; [lia|]. cbn [parse_bytes].
  destruct s as [|x s]; [eexists; split; [done|]; by intros bytes [= <-]|].
  destruct (strtoul_end (x :: s) 16) as [E|Hlt].
  - rewrite E, Nat.eqb_refl. by eexists.
  - destruct (strtoul (x :: s) 16) as [v e]. cbn [snd] in Hlt.
    destruct (_ || (Z.of_nat (length out) =? FIFO_SIZE)) eqn:E; [by eexists|].
    apply orb_false_iff in E as [_ E%Z.eqb_neq].
    assert (Z.of_nat (length (out ++ [u8 v])) <= FIFO_SIZE) as Hout' by (rewrite length_app; cbn; lia).
    assert (forall s', (length s' < fuel)%nat -> exists r, parse_bytes fuel s' (out ++ [u8 v]) FIFO_SIZE = Some r /\
      forall bytes, r = inr bytes -> Z.of_nat (length bytes) <= FIFO_SIZE /\ out `prefix_of` bytes) as IH'.
    { intros s' Hs'. destruct (IH s' _ Hs' Hout') as (r & Hr & Hb). exists r. split; [done|].
      intros bytes Eb. destruct (Hb bytes Eb) as [H1 H2]. split; [done|].
      etransitivity; [|done]. by apply prefix_app_r. }
    cbn [length] in *. destruct e as [|c e]; cbn [length] in *; [apply IH'; cbn; lia|].
    destruct (is_separator c); [apply IH'; lia|by eexists].
Qed.

(** The receive bytes of the command line are read back as written. A
    list of up to 256 bytes printed as two hexadecimal digits each, with any
    mix of the three separators, parses to those bytes; and no text at all
    makes the parser loop or write more than the FIFO holds. *)
Theorem byte_list_round_trip bytes seps :
  Forall (fun b => 0 <= b <= 0xff) bytes -> Forall (fun c => is_separator c = true) seps ->
  length seps = length bytes -> Z.of_nat (length bytes) <= FIFO_SIZE ->
  parse_hex_bytes (byte_list bytes seps) FIFO_SIZE = Some (inr bytes) /\
  forall s, exists r, parse_hex_bytes s FIFO_SIZE = Some r /\
    forall out, r = inr out -> Z.of_nat (length out) <= FIFO_SIZE.
Proof.
  intros Hb Hc Hlen Hroom. split.
  - unfold parse_hex_bytes. change bytes with ([] ++ bytes) at 3.
    assert (Z.of_nat (length (@nil Z)) + Z.of_nat (length bytes) <= FIFO_SIZE) as Hout by (cbn; lia).
    assert (length (byte_list bytes seps) < S (length (byte_list bytes seps)))%nat as Hf by lia.
    revert Hout Hf. generalize (@nil Z) as out, (S (length (byte_list bytes seps))) as fuel.
    clear Hroom. revert seps Hc Hlen. induction Hb as [|b bytes Hb _ IH]; intros [|c seps] Hc Hlen out fuel Hout Hf; try done.
    + destruct fuel as [|fuel]; [lia|]. cbn. by rewrite app_nil_r.
    + apply Forall_cons_1 in Hc as [Hc Hcs]. destruct fuel as [|fuel]; [lia|].
      unfold byte_list in *. cbn [zip_with concat] in *. rewrite <- app_assoc. cbn [app length] in *.
      rewrite !length_app in Hf. cbn [length print_02x] in Hf.
      rewrite parse_byte by (done || lia). rewrite IH; [by rewrite <- app_assoc|done|lia|rewrite length_app; cbn; lia|lia].
  - intros s. destruct (parse_bytes_total (S (length s)) s [] ltac:(lia) ltac:(done)) as (r & Hr & Hbound).
    exists r. split; [done|]. intros out E. by destruct (Hbound out E).
Qed.

(** ** Coverage *)
Fixpoint zsum (f : Z -> Z) (l : list Z) : Z := match l with [] => 0 | a :: l => f a + zsum f l end.
Definition total (cov : gmap Z Z) : Z := zsum (coverage_at cov) pcs.

Lemma foldl_zsum f l t : foldl (fun t a => t + f a) t l = t + zsum f l.
Proof. revert t. induction l as [|a l IH]; intros t; cbn; [lia|]. rewrite IH. lia. Qed.
Lemma zsum_ext f g l : (forall a, a ∈ l -> f a = g a) -> zsum f l = zsum g l.
Proof. induction l as [|a l IH]; intros H; [done|]. cbn. rewrite (H a), IH; [done| |by left]. intros b Hb. apply H. by right. Qed.
Lemma zsum_le f g l : (forall a, f a <= g a) -> zsum f l <= zsum g l.
Proof. intros H. induction l as [|a l IH]; cbn; [lia|]. specialize (H a). lia. Qed.
Lemma zsum_0 l : zsum (fun _ => 0) l = 0.
Proof. induction l as [|a l IH]; [done|]. cbn. lia. Qed.
Lemma zsum_elem f l a : (forall x, 0 <= f x) -> a ∈ l -> f a <= zsum f l.
Proof.
  intros Hf. induction l as [|b l IH]; intros Ha; [by apply not_elem_of_nil in Ha|]. cbn.
  assert (0 <= zsum f l) by (rewrite <- (zsum_0 l); by apply zsum_le).
  apply elem_of_cons in Ha as [->|Ha]; [lia|]. specialize (IH Ha). specialize (Hf b). lia.
Qed.
Lemma zsum_bump f g l a : NoDup l -> a ∈ l -> g a = f a + 1 -> (forall b, b <> a -> g b = f b) ->
  zsum g l = zsum f l + 1.
Proof.
  intros Hn Ha Hg Hne. induction Hn as [|b l Hb _ IH]; [by apply not_elem_of_nil in Ha|]. cbn.
  apply elem_of_cons in Ha as [->|Ha].
  - rewrite (zsum_ext g f l), Hg by (intros c Hc; apply Hne; set_solver). lia.
  - rewrite IH, (Hne b) by (done || set_solver). lia.
Qed.

Lemma pcs_elem a : a ∈ pcs <-> 0 <= a < 65536.
Proof. unfold pcs. rewrite elem_of_seqZ. lia. Qed.
Lemma coverage_insert cov a v b : coverage_at (<[a := v]> cov) b = if b =? a then v else coverage_at cov b.
Proof.
  unfold coverage_at. destruct (Z.eqb_spec b a) as [->|]; [by rewrite lookup_insert_eq|by rewrite lookup_insert_ne].
Qed.
Lemma total_bump cov a v : 0 <= a < 65536 -> v = coverage_at cov a + 1 ->
  total (<[a := v]> cov) = total cov + 1.
Proof.
  intros Ha ->. apply (zsum_bump _ _ _ a); [apply NoDup_seqZ|by apply pcs_elem| |].
  - by rewrite coverage_insert, Z.eqb_refl.
  - intros b Hb. rewrite coverage_insert. by rewrite (proj2 (Z.eqb_neq b a)).
Qed.
Lemma executed_sum cov : executed cov = zsum (fun a => b2z (nz (coverage_at cov a))) pcs.
Proof. unfold executed. rewrite foldl_zsum. lia. Qed.

Definition counts_nonneg (cov : gmap Z Z) : Prop := forall a, 0 <= coverage_at cov a.

Section Coverage.
Context {C : Type} {core : Z180 C}.
Lemma callbacks_coverage cov : Callback (fun m => coverage m = cov).
Proof.
  constructor; [done..| |].
  - intros p pc m H. unfold port_read. destruct (_ =? 0xfe); cbv zeta iota;
      destruct (_ && _); cbv zeta iota; by destruct (trace_io _).
  - intros p v pc m H. unfold port_write. cbv zeta. by destruct (_ || _), (_ && _); cbn; destruct (trace_io m).
Qed.
Lemma coverage_serve {A} (b : bus A) m : coverage (snd (serve b m)) = coverage m.
Proof. by apply (serve_inv (fun m' => coverage m' = coverage m)); [apply callbacks_coverage|]. Qed.
Lemma sources_coverage o i (cpu : C) m :
  coverage (snd (let '(cpu, m) := timer_source o i cpu m in let '(cpu, m) := extint_source o i cpu m in rx_source o i cpu m)) = coverage m.
Proof.
  assert (coverage (snd (timer_source o i cpu m)) = coverage m) as H1.
  { unfold timer_source. destruct (_ && _); [apply coverage_serve|done]. }
  destruct (timer_source o i cpu m) as [c1 m1]. cbn [snd] in H1.
  assert (coverage (snd (extint_source o i c1 m1)) = coverage m1) as H2.
  { unfold extint_source. destruct (_ && _); [by rewrite coverage_serve|done]. }
  destruct (extint_source o i c1 m1) as [c2 m2]. cbn [snd] in H2. rewrite <- H1, <- H2.
  unfold rx_source. destruct (_ && _); [by rewrite coverage_serve|done].
Qed.

Lemma steps_counted n i o (cpu : C) m : counts_nonneg (coverage m) -> total (coverage m) = i ->
  i + Z.of_nat n < 2 ^ 64 ->
  let m' := snd (run_steps n i o cpu m) in
  counts_nonneg (coverage m') /\ exists k, i <= k <= i + Z.of_nat n /\ total (coverage m') = k /\
    (k = i + Z.of_nat n \/ list.last (printed m') = Some (CoreStopped (k - 1))).
Proof.
  revert i cpu m. induction n as [|n IH]; intros i cpu m Hnn Htot Hn; cbv zeta.
  - split; [done|]. exists i. cbn. lia.
  - cbn [run_steps]. cbv zeta. pose proof (coverage_serve (z180_step cpu) (cover (cpu_get R_pc cpu) m)) as Hcov.
    destruct (serve _ _) as [[go cpu'] m1]. cbn [snd] in Hcov.
    set (a := cpu_get R_pc cpu &&& 0xffff) in *.
    assert (0 <= a < 65536) as Ha by (unfold a; pose proof (land_range_r (cpu_get R_pc cpu) 0xffff); lia).
    assert (coverage_at (coverage m) a <= i) as Hle.
    { rewrite <- Htot. apply (zsum_elem (coverage_at (coverage m))); [apply Hnn|by apply pcs_elem]. }
    assert (u64 (coverage_at (coverage m) a + 1) = coverage_at (coverage m) a + 1) as Eu.
    { apply (conv_id U64). cbn. specialize (Hnn a). lia. }
    assert (total (coverage m1) = i + 1 /\ counts_nonneg (coverage m1)) as [Ht1 Hn1].
    { rewrite Hcov. unfold cover. cbn [coverage set_coverage]. fold a. rewrite Eu. split.
      - rewrite <- Htot. by apply total_bump.
      - intros b. rewrite coverage_insert. pose proof (Hnn a). pose proof (Hnn b). destruct (b =? a); lia. }
    destruct (negb go).
    + split; [done|]. exists (i + 1). split; [lia|]. split; [done|]. right. cbn [snd printed print].
      rewrite list.last_snoc. do 2 f_equal. lia.
    + pose proof (sources_coverage o i cpu' m1) as Hs.
      destruct (timer_source o i cpu' m1) as [c1 m2], (extint_source o i c1 m2) as [c2 m3], (rx_source o i c2 m3) as [c3 m4].
      cbn [snd] in Hs. rewrite <- Hs in Ht1, Hn1.
      destruct (IH (i + 1) c3 m4 Hn1 Ht1 ltac:(lia)) as (H1 & k & Hk & H2 & H3).
      split; [done|]. exists k. split; [lia|]. split; [done|]. destruct H3; [left; lia|by right].
Qed.

(** The coverage map counts every step once. After a run of at most [n]
    steps the counts add up to the number of steps begun, which is [n] unless
    the core stopped, and then the message names the last step; the number of
    distinct addresses reported lies between 1 and that. *)
Theorem coverage_counts_steps (n : nat) (o : options_t) (cpu : C) (m : pm3_t) :
  0 < Z.of_nat n < 2 ^ 64 -> coverage m = ∅ ->
  let m' := snd (run_steps n 0 o cpu m) in
  exists k, 0 <= k <= Z.of_nat n /\ total (coverage m') = k /\
    (k = Z.of_nat n \/ list.last (printed m') = Some (CoreStopped (k - 1))) /\
    executed (coverage m') <= k /\ (0 < k -> 0 < executed (coverage m')).
Proof.
  intros Hn H0. assert (forall a, coverage_at (coverage m) a = 0) as Hz by (intros a; by rewrite H0).
  assert (total (coverage m) = 0) as Ht.
  { unfold total. rewrite (zsum_ext _ (fun _ => 0)) by done. apply zsum_0. }
  destruct (steps_counted n 0 o cpu m) as (Hnn & k & Hk & Htot & Hend); [intros a; by rewrite Hz|done|lia|].
  cbv zeta. set (cov := coverage (snd _)) in *.
  exists k. split; [lia|]. split; [done|]. split; [destruct Hend; [left; lia|by right]|]. rewrite executed_sum. split.
  - rewrite <- Htot. apply zsum_le. intros a. specialize (Hnn a). unfold nz. destruct (Z.eqb_spec (coverage_at cov a) 0); cbn; lia.
  - intros Hpos. destruct (Z.ltb_spec 0 (zsum (fun a => b2z (nz (coverage_at cov a))) pcs)) as [|Hle]; [done|].
    assert (total cov <= 0); [|lia]. unfold total. rewrite <- (zsum_0 pcs). rewrite (zsum_ext _ (fun _ => 0)); [done|].
    intros a Ha. pose proof (zsum_elem (fun a => b2z (nz (coverage_at cov a))) pcs a (fun x => proj1 (b2z_range _)) Ha) as H.
    cbv beta in H. destruct (coverage_at cov a =? 0) eqn:E; [by apply Z.eqb_eq in E|].
    assert (nz (coverage_at cov a) = true) as Enz by (unfold nz; by rewrite E). rewrite Enz in H. cbn in H. lia.
Qed.
End Coverage.

(** ** The busiest addresses *)

(** The order of the report: more executions first, then the lower address. *)
Definition hotter (x y : Z * Z) : Prop := snd x > snd y \/ snd x = snd y /\ fst x < fst y.

Lemma busiest_spec cov addrs : counts_nonneg cov -> StronglySorted Z.lt addrs ->
  let '(best, address) := busiest cov addrs in
  (best = 0 /\ forall a, a ∈ addrs -> coverage_at cov a = 0) \/
  (0 < best /\ address ∈ addrs /\ coverage_at cov address = best /\
   forall a, a ∈ addrs -> a <> address -> hotter (address, best) (a, coverage_at cov a)).
Proof.
  intros Hnn. unfold busiest. induction addrs as [|x addrs IH] using rev_ind; intros Hs.
  - left. split; [done|]. intros a Ha. by apply not_elem_of_nil in Ha.
  - apply StronglySorted_app in Hs as (Hlt & Hs & _). specialize (IH Hs). rewrite foldl_app. cbn [foldl].
    destruct (foldl _ _ addrs) as [best address]. pose proof (Hnn x) as Hx.
    destruct (Z.gtb_spec (coverage_at cov x) best) as [Hgt|Hle].
    + right. assert (forall a, a ∈ addrs -> coverage_at cov a <= best) as Hbest.
      { intros a Ha. destruct IH as [[-> H0]|(_ & Hin & Hb & H)]; [by rewrite H0|].
        destruct (decide (a = address)) as [->|Hne]; [lia|]. destruct (H a Ha Hne) as [?|[? _]]; cbn in *; lia. }
      assert (0 <= best) by (destruct IH as [[-> _]|[? _]]; lia).
      split; [lia|]. split; [set_solver|]. split; [done|]. intros a Ha Hne. left. cbn.
      apply elem_of_app in Ha as [Ha|Ha%list_elem_of_singleton]; [specialize (Hbest a Ha); lia|done].
    + destruct IH as [[-> H0]|(Hpos & Hin & Hb & H)].
      * left. split; [done|]. intros a [Ha|Ha%list_elem_of_singleton]%elem_of_app; [by apply H0|subst; lia].
      * right. split; [done|]. split; [set_solver|]. split; [done|]. intros a Ha Hne.
        apply elem_of_app in Ha as [Ha|Ha%list_elem_of_singleton]; [by apply H|]. subst a.
        destruct (Z.eq_dec (coverage_at cov x) best); [right; cbn; split; [lia|]|left; cbn; lia].
        apply Hlt; [done|by left].
Qed.

Lemma pcs_sorted : StronglySorted Z.lt pcs.
Proof.
  unfold pcs. rewrite <- (Z2Nat.id 65536) by lia. generalize (Z.to_nat 65536) as n, 0 as i. induction n as [|n IH]; intros i.
  - rewrite seqZ_nil by lia. constructor.
  - rewrite seqZ_cons by lia. constructor.
    + replace (Z.pred (Z.of_nat (S n))) with (Z.of_nat n) by lia. apply IH.
    + apply Forall_forall. intros x Hx%list_elem_of_In%elem_of_seqZ. lia.
Qed.

Lemma rank_hot_spec n cov : counts_nonneg cov ->
  let hot := rank_hot n cov in
  StronglySorted hotter hot /\
  Forall (fun x => fst x ∈ pcs /\ snd x = coverage_at cov (fst x) /\ 0 < snd x) hot /\
  (length hot <= n)%nat /\
  forall a, a ∈ pcs -> 0 < coverage_at cov a ->
    a ∈ map fst hot \/ length hot = n /\ Forall (fun x => hotter x (a, coverage_at cov a)) hot.
Proof.
  revert cov. induction n as [|n IH]; intros cov Hnn; cbv zeta.
  - repeat split; [constructor..|cbn; lia|]. intros a _ _. by right.
  - cbn [rank_hot]. pose proof (busiest_spec cov pcs Hnn pcs_sorted) as Hb.
    destruct (busiest cov pcs) as [best address].
    destruct Hb as [[-> H0]|(Hpos & Hin & Hat & Hmax)].
    + rewrite Z.eqb_refl. repeat split; [constructor..|cbn; lia|]. intros a Ha. rewrite H0 by done. lia.
    + rewrite (proj2 (Z.eqb_neq best 0)) by lia. set (cov' := <[address := 0]> cov).
      assert (forall a, coverage_at cov' a = if a =? address then 0 else coverage_at cov a) as Hc'
        by (intros a; apply coverage_insert).
      destruct (IH cov') as (Hsort & Hall & Hlen & Hrest).
      { intros a. rewrite Hc'. destruct (a =? address); [lia|apply Hnn]. }
      assert (Forall (fun x => fst x ∈ pcs /\ snd x = coverage_at cov (fst x) /\ 0 < snd x /\ fst x <> address) (rank_hot n cov')) as Hall'.
      { eapply Forall_impl; [|exact Hall]. intros [a c] (H1 & H2 & H3). cbn [fst snd] in *. rewrite Hc' in H2.
        destruct (Z.eqb_spec a address); [lia|done]. }
      repeat split.
      * constructor; [done|]. eapply Forall_impl; [|exact Hall']. intros [a c] (H1 & H2 & H3 & H4). cbn [fst snd] in *.
        rewrite H2. by apply Hmax.
      * constructor; [done|]. eapply Forall_impl; [|exact Hall']. intros [a c]. tauto.
      * cbn. lia.
      * intros a Ha Hpa. destruct (decide (a = address)) as [->|Hne]; [left; by left|].
        destruct (Hrest a Ha) as [H|[H1 H2]]; [by rewrite Hc', (proj2 (Z.eqb_neq a address)) by done|left; by right|].
        right. split; [cbn; by rewrite H1|]. constructor; [by apply Hmax|].
        by rewrite Hc', (proj2 (Z.eqb_neq a address)) in H2 by done.
Qed.

(** C34: the report lists the busiest addresses. The lines [hot] are at most
    twelve, in decreasing order of count and, for equal counts, increasing
    address; each shows the count of its address; and an executed address
    that is not listed comes after twelve that are. *)
Theorem hot_list_is_top_twelve cov : counts_nonneg cov ->
  let hot := rank_hot 12 cov in
  StronglySorted hotter hot /\
  Forall (fun x => fst x ∈ pcs /\ snd x = coverage_at cov (fst x) /\ 0 < snd x) hot /\
  (length hot <= 12)%nat /\
  forall a, a ∈ pcs -> 0 < coverage_at cov a ->
    a ∈ map fst hot \/ length hot = 12%nat /\ Forall (fun x => hotter x (a, coverage_at cov a)) hot.
Proof. apply rank_hot_spec. Qed.

(** ** Witnesses *)

(** A core that echoes its receive FIFO and stops after six steps. *)
#[export] Instance echo_core : Z180 Z := {|
  cpu_zero := 0; cpu_get := fun r c => match r with R_pc => c mod 3 | _ => 1 end; cpu_ior := fun _ _ => 0;
  X80_Z180_IOR_TCR := 0; X80_Z180_IOR_IL := 1; X80_Z180_IOR_CBR := 2; X80_Z180_IOR_BBR := 3; X80_Z180_IOR_CBAR := 4;
  X80_Z180_TCR_TDE0 := 1; X80_Z180_INT_PRT0 := 2;
  z180_reset := fun c => BusDone c;
  z180_step := fun c => InputByte 0xf0 c (fun v => InputByte 0xf5 c (fun _ => OutputByte 0xf0 v c (BusDone (c <? 5, c + 1))));
  z180_exception_intint := fun _ c => BusDone c;
  z180_exception_extint := fun _ _ c => InputByte 0xfe c (fun _ => BusDone c);
  z180_get_address := fun a _ => a
|}.
Definition echo_options : options_t := Options 10 0 2 0 0 0 7 (Some [49]) true None.
Definition echo_rx : list Z := [0x7e; 0x21; 0x0d].

Lemma board_is_fifo_device_witness :
  Z.of_nat (length echo_rx) <= FIFO_SIZE /\
  let '(cpu, m) := serve (z180_reset (Z180 := echo_core) cpu_zero) (set_rx_fifo echo_rx (machine_init true)) in
  let m' := snd (run_steps 10 0 echo_options cpu m) in
  fifo_run (echo_rx, []) (printed m') = Some (drop (Z.to_nat (rx_pos m')) echo_rx, tx_fifo m') /\
  0 <= rx_pos m' <= rx_len m' /\ rx_fifo m' = echo_rx /\
  inputs m' = u64 (count is_in (printed m')) /\ outputs m' = u64 (count is_out (printed m')).
Proof. split; [discriminate|]. apply (board_is_fifo_device echo_rx echo_options 10). discriminate. Defined.

Lemma byte_list_round_trip_witness :
  parse_hex_bytes (byte_list [0x7e; 0x00; 0xff] [44; 58; 32]) FIFO_SIZE = Some (inr [0x7e; 0x00; 0xff]) /\
  forall s, exists r, parse_hex_bytes s FIFO_SIZE = Some r /\ forall out, r = inr out -> Z.of_nat (length out) <= FIFO_SIZE.
Proof.
  apply (byte_list_round_trip [0x7e; 0x00; 0xff] [44; 58; 32]);
    [repeat constructor; lia|repeat constructor|reflexivity|discriminate].
Defined.

Lemma coverage_counts_steps_witness :
  let m' := snd (run_steps 10 0 echo_options 0 (machine_init true)) in
  exists k, 0 <= k <= Z.of_nat 10 /\ total (coverage m') = k /\
    (k = Z.of_nat 10 \/ list.last (printed m') = Some (CoreStopped (k - 1))) /\
    executed (coverage m') <= k /\ (0 < k -> 0 < executed (coverage m')).
Proof. apply (coverage_counts_steps 10 echo_options 0 (machine_init true)); [split; reflexivity|reflexivity]. Defined.

Definition some_coverage : gmap Z Z := {[ 0x100 := 3; 0x38 := 9; 0x200 := 3 ]}.
Lemma some_coverage_nonneg : counts_nonneg some_coverage.
Proof.
  intros a. unfold coverage_at, some_coverage.
  destruct (decide (a = 0x100)) as [->|]; [done|]. rewrite lookup_insert_ne by done.
  destruct (decide (a = 0x38)) as [->|]; [done|]. rewrite lookup_insert_ne by done.
  destruct (decide (a = 0x200)) as [->|]; [done|]. by rewrite lookup_singleton_ne by done.
Qed.
Lemma hot_list_is_top_twelve_witness :
  let hot := rank_hot 12 some_coverage in
  StronglySorted hotter hot /\
  Forall (fun x => fst x ∈ pcs /\ snd x = coverage_at some_coverage (fst x) /\ 0 < snd x) hot /\
  (length hot <= 12)%nat /\
  forall a, a ∈ pcs -> 0 < coverage_at some_coverage a ->
    a ∈ map fst hot \/ length hot = 12%nat /\ Forall (fun x => hotter x (a, coverage_at some_coverage a)) hot.
Proof. apply (hot_list_is_top_twelve some_coverage), some_coverage_nonneg. Defined.
