(* ===== verification/Runner.v ===== *)
(** * The ADSP runner

    [eicon_adsp_run.c]: a program that loads a dump of program and data memory
    into the emulator, stages further words, injects calls and host writes,
    runs it with interrupts, and dumps data memory. Everything is asked for
    through environment variables.

    The process environment and the file system are an instance of [Env]. A
    file opened for reading is the list of its bytes. The SPORT callbacks keep
    counters, the last words transmitted and the files in static variables,
    while the emulator's callbacks only have the emulator's state; here the
    callbacks log their calls in it ([EvSportRx], [EvSportTx]), and the static
    variables are what the calls logged so far make of their initial values
    ([statics]). Messages are not modelled. *)
From Stdlib Require Import Strings.String.
From S2P Require Import Prelude State Tables Memory Stacks Regs Alu Mac Shift Exec Api CLib.

Class Env := {
  (** the text of a variable *)
  getenv : string -> option (list Z);
  (** the bytes of a file; [None] when it cannot be opened *)
  fopen_r : list Z -> option (list Z);
  (** whether a file can be created *)
  fopen_w : list Z -> bool;
  fopen_r_bytes path s : fopen_r path = Some s -> Forall (fun b => 0 <= b <= 0xff) s;
}.

(** ** Definitions *)

(** *** The SPORT callbacks *)

(** The static variables of one port. The files are what is left to read of
    the input and what was written to the output. *)
Record port_t := Port {
  rx_reads : Z; tx_writes : Z; last_tx : Z; rx_file : option (list Z); tx_file : option (list Z);
  loopback_sport : bool }.

(** [fread] of a sample: a short read takes what is left. *)
Definition read_sample (file : list Z) : option Z * list Z :=
  match file with
  | a :: b :: file => (Some (s16 (a ||| (b <<< 8))), file)
  | _ => (None, [])
  end.

Definition port_rx (p : port_t) : Z * port_t :=
  let value := if loopback_sport p then last_tx p else 0 in
  let reads := u64 (rx_reads p + 1) in
  match rx_file p with
  | Some file =>
      let '(sample, file) := read_sample file in
      (default value sample, Port reads (tx_writes p) (last_tx p) (Some file) (tx_file p) (loopback_sport p))
  | None => (value, Port reads (tx_writes p) (last_tx p) None (tx_file p) (loopback_sport p))
  end.
Definition port_tx (value : Z) (p : port_t) : port_t :=
  let bytes := [u8 value; u8 (u32 value >>> 8)] in
  Port (rx_reads p) (u64 (tx_writes p + 1)) (s16 value) (rx_file p)
    (match tx_file p with Some file => Some (file ++ bytes) | None => None end) (loopback_sport p).

(** The two ports after the calls logged, newest first. *)
Definition apply_event (e : event) (ports : list port_t) : list port_t :=
  match e with
  | EvSportRx port => alter (fun p => snd (port_rx p)) (Z.to_nat port) ports
  | EvSportTx port value => alter (port_tx value) (Z.to_nat port) ports
  | _ => ports
  end.

Section Callbacks.
(** The two ports before the emulator runs. *)
Context (ports : list port_t).
Definition statics (log : list event) : list port_t := foldr apply_event ports log.

Definition sport_rx (port : Z) : M Z := fun s =>
  if u32 port <? 2 then
    (match statics (events s) !! Z.to_nat port with Some p => fst (port_rx p) | None => 0 end,
     add_event (EvSportRx port) s)
  else (0, s).
Definition sport_tx (port value : Z) : M unit := fun s =>
  if u32 port <? 2 then (tt, add_event (EvSportTx port value) s) else (tt, s).
Definition timer_changed (enabled : Z) : M unit := logerror (EvTimer enabled).
End Callbacks.

(** The host the emulator runs under once the callbacks are set; without
    them, before. The rest of the host is given. *)
Definition adsp2181_set_callbacks (base : Host) (rx : option (Z -> M Z)) (tx : option (Z -> Z -> M unit))
    (timer : option (Z -> M unit)) : Host := {|
  sport_rx_callback := rx;
  sport_tx_callback := tx;
  timer_fired := timer;
  env_ym1_mame_all := env_ym1_mame_all (Host := base);
  env_ym1_mame_pcs := env_ym1_mame_pcs (Host := base);
  env_ym1_log := env_ym1_log (Host := base);
  env_sport_full_tdm := env_sport_full_tdm (Host := base);
  undefined_shift := undefined_shift (Host := base);
|}.
Definition bare_host (base : Host) : Host := adsp2181_set_callbacks base None None None.
Definition runner_host (base : Host) (ports : list port_t) : Host :=
  adsp2181_set_callbacks base (Some (sport_rx ports)) (Some sport_tx) (Some timer_changed).

(** *** Images and word maps *)

(** The little-endian value of bytes. *)
Fixpoint le_word (bytes : list Z) : Z :=
  match bytes with [] => 0 | b :: bytes => b ||| (le_word bytes <<< 8) end.
(** The bytes of a value, low byte first. *)
Fixpoint le_bytes (n : nat) (v : Z) : list Z :=
  match n with O => [] | S n => u8 v :: le_bytes n (v >>> 8) end.

Definition MAP_WORDS : Z := 0x10000.
Definition CORE_WORDS : Z := 0x4000.

(** The loop over the words of a memory image; the rest of the file, or
    [None] when it ends too soon. Only the core's own words are kept. *)
Fixpoint load_words (n : nat) (size : nat) (a : arr) (address : Z) (file : list Z) : M (option (list Z)) :=
  match n with
  | O => mret (Some file)
  | S n =>
      let word := take size file in
      if (length word <? size)%nat then mret None
      else
        when (address <? CORE_WORDS) (awr a address (le_word word)) ;;
        load_words n size a (address + 1) (drop size file)
  end.
(** Whether the file was refused: missing, too short, or too long. *)
Definition load_image (size : nat) (a : arr) (file : option (list Z)) : M bool :=
  match file with
  | None => mret true
  | Some file =>
      rest ← load_words (Z.to_nat MAP_WORDS) size a 0 file;
      mret (match rest with Some [] => false | _ => true end)
  end.
Definition load_pm : option (list Z) -> M bool := load_image 3 PROGRAM.
Definition load_dm : option (list Z) -> M bool := load_image 2 DATA.

(** [load_word_map]: pairs of an address and a word until the end of the
    file. Every pair takes a character at least. *)
Definition word_limit (a : arr) : Z := match a with PROGRAM => 0xffffff | _ => 0xffff end.
Fixpoint word_map_loop (fuel : nat) (a : arr) (s : list Z) : M bool :=
  match fuel with
  | O => mret true
  | S fuel =>
      match scan_x s with
      | ScanEnd => mret false
      | ScanFail => mret true
      | Scan address s =>
          match scan_x s with
          | ScanEnd | ScanFail => mret true
          | Scan value s =>
              if (address >=? MAP_WORDS) || (value >? word_limit a) then mret true
              else awr a address value ;; word_map_loop fuel a s
          end
      end
  end.
Definition load_word_map (a : arr) (file : option (list Z)) : M bool :=
  match file with
  | None => mret true
  | Some s => word_map_loop (S (length s)) a s
  end.

(** *** Host scripts and address lists *)
Definition HOST_SCRIPT_MAX : Z := 4096.
Definition HOST_POLL_MAX : Z := 64.
Record host_poke := Poke { index : Z; addr : Z; value : Z }.

Fixpoint host_script_loop (fuel : nat) (s : list Z) (script : list host_poke) : option (list host_poke) :=
  match fuel with
  | O => Some script
  | S fuel =>
      if Z.of_nat (length script) <? HOST_SCRIPT_MAX then
        match scan_ld s with
        | Scan index s =>
            match scan_x s with
            | Scan addr s =>
                match scan_x s with
                | Scan value s =>
                    if (addr >? 0x7fff) || (value >? 0xffff) then None
                    else host_script_loop fuel s (script ++ [Poke index (u16 addr) (u16 value)])
                | _ => Some script
                end
            | _ => Some script
            end
        | _ => Some script
        end
      else Some script
  end.
(** [None] is the return value -1. *)
Definition load_host_script (file : option (list Z)) : option (list host_poke) :=
  s ← file; host_script_loop (S (length s)) s [].

(** [strtok_r(text, ",")]: the tokens that are not empty. *)
Fixpoint tokens (s : list Z) (token : list Z) : list (list Z) :=
  let out := match token with [] => [] | _ => [token] end in
  match s with
  | [] => out
  | c :: s => if c =? 44 then out ++ tokens s [] else tokens s (token ++ [c])
  end.
Definition parse_addr (token : list Z) : option Z :=
  let '(addr, e) := strtoul token 0 in
  match e with [] => if addr >? 0x3fff then None else Some addr | _ => None end.
Definition parse_addr_list (text : list Z) (max : Z) : option (list Z) :=
  mapM parse_addr (take (Z.to_nat max) (tokens text [])).

(** *** The program *)

(** A command that may end the program with an exit code. *)
Definition X (A : Type) : Type := state -> (Z + A) * state.
#[export] Instance X_ret : MRet X := fun _ x s => (inr x, s).
#[export] Instance X_bind : MBind X := fun _ _ f m s =>
  match m s with (inl code, s) => (inl code, s) | (inr x, s) => f x s end.
Definition exit_ {A} (code : Z) : X A := fun s => (inl code, s).
Definition lift {A} (m : M A) : X A := fun s => let '(x, s) := m s in (inr x, s).
Definition xskip : X unit := mret tt.
(** [if (m) return code;] *)
Definition or_exit (m : M bool) (code : Z) : X unit := failed ← lift m; if (failed : bool) then exit_ code else xskip.
Fixpoint x_each {A} (l : list A) (body : A -> X unit) : X unit :=
  match l with [] => xskip | x :: l => body x ;; x_each l body end.

(** The number a text is, which must be followed by nothing. *)
Definition whole (r : Z * list Z) : option Z := match r with (v, []) => Some v | _ => None end.

Section Main.
Context {env : Env}.
Open Scope string_scope.
Open Scope Z_scope.
Open Scope c_scope.

Definition is_set (name : string) : bool := bool_decide (is_Some (getenv name)).
(** [strtol(getenv(name), NULL, 0)] of a variable that is set. *)
Definition env_number (name : string) : Z := match getenv name with Some s => fst (strtol s 0) | None => 0 end.
(** [load_...(getenv(name))] *)
Definition env_file (name : string) : option (list Z) := path ← getenv name; fopen_r path.

(** The files of one port, the output before the input is asked for. *)
Definition open_port (rx tx loopback : string) : option port_t :=
  rx ← (match getenv rx with None => Some None | Some path => Some <$> fopen_r path end);
  tx ← (match getenv tx with None => Some None | Some path => if fopen_w path then Some (Some []) else None end);
  Some (Port 0 0 0 rx tx (is_set loopback)).
Definition open_ports : option (list port_t) :=
  p0 ← open_port "ADSP_RX0" "ADSP_TX0" "ADSP_LOOPBACK_SPORT0";
  p1 ← open_port "ADSP_RX1" "ADSP_TX1" "ADSP_LOOPBACK_SPORT1";
  Some [p0; p1].

(** The number of cycles, if the arguments are right. *)
Definition parse_cycles (args : list (list Z)) : option Z :=
  match args with
  | [_; _] => Some 100000
  | [_; _; s] => cycles ← whole (strtol s 0); if (cycles <=? 0) || (cycles >? 1000000000) then None else Some cycles
  | _ => None
  end.

Section Running.
Context {host : Host}.

Definition watch_list (name : string) (watch : Z -> Z -> M unit) : X unit :=
  match getenv name with
  | None => xskip
  | Some text =>
      match parse_addr_list text 256 with
      | None => exit_ 2
      | Some addrs => x_each addrs (fun a => lift (watch a 1))
      end
  end.

Definition start_pc : X unit :=
  match getenv "ADSP_START_PC" with
  | None => xskip
  | Some s =>
      match whole (strtoul s 0) with
      | Some pc => if pc >? 0x3fff then exit_ 2 else lift (adsp2181_set_pc (u16 pc))
      | None => exit_ 2
      end
  end.

(** The instruction at the PC, which a message shows. *)
Definition show_op : X unit := lift (pc ← adsp2181_pc; ard PROGRAM pc ;; skip).

Definition call_entry (entry : Z) : X unit := lift (adsp2181_call (u16 entry) 0x02a8 ;; adsp2181_run 1000000 ;; skip).
Definition stage_entry (name : string) : X unit :=
  match getenv name with
  | None => xskip
  | Some s =>
      match whole (strtoul s 0) with
      | Some entry => if entry >? 0x3fff then exit_ 2 else call_entry entry
      | None => exit_ 2
      end
  end.
Definition stage_words (name : string) (a : arr) : X unit :=
  if is_set name then or_exit (load_word_map a (env_file name)) 1 else xskip.

Definition host_irq : X Z :=
  match getenv "ADSP_HOST_IRQ" with
  | None => mret (-1)
  | Some s =>
      match whole (strtol s 0) with
      | Some irq => if (irq <? 0) || (irq >=? ADSP2181_IRQ_COUNT) then exit_ 2 else mret irq
      | None => exit_ 2
      end
  end.

Definition watch_all : X unit :=
  if is_set "ADSP_WATCH_ALL"
  then x_each (seqZ 0 0x4000) (fun a => lift (adsp2181_watch_dm (u16 a) 1 ;; adsp2181_watch_pm (u16 a) 1)) else xskip.
Definition trace_host : X unit := lift (adsp2181_trace_budget (env_number "ADSP_TRACE_HOST")).

(** The stage-2 entry of a given word; it is parsed again, and not checked. *)
Definition late_entry (entry2_at word : Z) : X Z :=
  match getenv "ADSP_STAGE_ENTRY2" with
  | Some s => if entry2_at =? word then call_entry (fst (strtoul s 16)) ;; mret (-2) else mret entry2_at
  | None => mret entry2_at
  end.

Definition run_word (irq force_imask : Z) : X unit :=
  lift (
    adsp2181_set_irq ADSP2181_SPORT0_RX 1 ;;
    adsp2181_set_irq ADSP2181_SPORT0_RX 0 ;;
    when (nz force_imask) (imask ← adsp2181_imask; adsp2181_set_imask (u16 (force_imask ||| imask))) ;;
    if irq >=? 0 then
      adsp2181_set_irq irq 1 ;;
      adsp2181_run 5000 ;;
      adsp2181_run 5000 ;;
      adsp2181_set_irq irq 0
    else adsp2181_run 10000 ;; skip).

(** The polled words now, for the comparison with the last ones. *)
Fixpoint poll (addrs : list Z) : X (list Z) :=
  match addrs with
  | [] => mret []
  | a :: addrs => now ← lift (adsp2181_host_read a); rest ← poll addrs; mret (now :: rest)
  end.

(** One pass per word; what the polls saw, in order. *)
Fixpoint host_words (n : nat) (word trace_at entry2_at irq force_imask : Z) (script : list host_poke) (polled : list Z) : X (list (list Z)) :=
  match n with
  | O => mret []
  | S n =>
      (if is_set "ADSP_TRACE_HOST" && (word =? trace_at) && (trace_at >? 0) then trace_host else xskip) ;;
      entry2_at ← late_entry entry2_at word;
      x_each script (fun p => if index p =? word then lift (adsp2181_host_write (addr p) (value p)) else xskip) ;;
      run_word irq force_imask ;;
      seen ← poll polled;
      rest ← host_words n (word + 1) trace_at entry2_at irq force_imask script polled;
      mret (seen :: rest)
  end.

Definition host_session (text : list Z) (script : list host_poke) (polled : list Z) : X (list (list Z)) :=
  match whole (strtol text 0) with
  | None => exit_ 2
  | Some words =>
      if (words <? 0) || (words >? 1000000) then exit_ 2
      else
        lift (adsp2181_run 1000) ;;
        stage_words "ADSP_STAGE_PM_WORDS" PROGRAM ;;
        stage_words "ADSP_STAGE_DM_WORDS" DATA ;;
        stage_entry "ADSP_STAGE_ENTRY" ;;
        let entry2_at := if is_set "ADSP_STAGE_ENTRY2_AT" then env_number "ADSP_STAGE_ENTRY2_AT" else -1 in
        (if entry2_at <? 0 then stage_entry "ADSP_STAGE_ENTRY2" else xskip) ;;
        stage_words "ADSP_POST_DM_WORDS" DATA ;;
        irq ← host_irq;
        let force_imask := if is_set "ADSP_FORCE_IMASK" then env_number "ADSP_FORCE_IMASK" else 0 in
        watch_all ;;
        let trace_at := if is_set "ADSP_TRACE_AT_WORD" then env_number "ADSP_TRACE_AT_WORD" else 0 in
        (if is_set "ADSP_TRACE_HOST" && (trace_at =? 0) then trace_host else xskip) ;;
        host_words (Z.to_nat words) 0 trace_at entry2_at irq force_imask script polled
  end.

Definition wake_irq (text : list Z) : X unit :=
  match whole (strtol text 0) with
  | None => exit_ 2
  | Some irq =>
      if (irq <? 0) || (irq >=? ADSP2181_IRQ_COUNT) then exit_ 2
      else lift (adsp2181_run 1000 ;; adsp2181_set_irq irq 1 ;; adsp2181_set_irq irq 0)
  end.

(** The final run: single steps with a trace, then the rest of the cycles. *)
Fixpoint trace_steps (n : nat) : X unit :=
  match n with
  | O => xskip
  | S n => show_op ;; lift (adsp2181_run 1) ;; trace_steps n
  end.
Definition final_run (trace cycles : Z) : X Z :=
  if trace >? 0 then
    let limit := if trace <? cycles then trace else cycles in
    trace_steps (Z.to_nat limit) ;;
    if limit <? cycles then n ← lift (adsp2181_run (cycles - limit)); mret (s32 (limit + n)) else mret limit
  else lift (adsp2181_run cycles).

(** The data memory, two bytes per word, if it is asked for. *)
Fixpoint dump_words (n : nat) (address : Z) : M (list Z) :=
  match n with
  | O => mret []
  | S n => v ← ard DATA address; rest ← dump_words n (address + 1); mret (u8 v :: u8 (v >>> 8) :: rest)
  end.
Definition dump_dm : X (option (list Z)) :=
  match getenv "ADSP_DUMP_DM" with
  | Some path => if fopen_w path then bytes ← lift (dump_words (Z.to_nat CORE_WORDS) 0); mret (Some bytes) else mret None
  | None => mret None
  end.

(** What the program leaves behind: the instructions run, what the polls saw,
    the dump. *)
Record outcome := Outcome { ran : Z; seen : list (list Z); dump : option (list Z) }.

(** [main] from [adsp2181_reset] on. *)
Definition session (cycles : Z) : X outcome :=
  lift adsp2181_reset ;;
  watch_list "ADSP_WATCH_DM" adsp2181_watch_dm ;;
  watch_list "ADSP_WATCH_PM" adsp2181_watch_pm ;;
  script ← (if is_set "ADSP_HOST_SCRIPT" then
              match load_host_script (env_file "ADSP_HOST_SCRIPT") with Some l => mret l | None => exit_ 1 end
            else mret []);
  polled ← (match getenv "ADSP_HOST_POLL" with
            | Some text => match parse_addr_list text HOST_POLL_MAX with Some l => mret l | None => exit_ 2 end
            | None => mret [] end);
  start_pc ;;
  show_op ;;
  seen ← (match getenv "ADSP_HOST_WORDS", getenv "ADSP_WAKE_IRQ" with
          | Some text, _ => host_session text script polled
          | None, Some text => wake_irq text ;; mret []
          | None, None => mret []
          end);
  ran ← final_run (match getenv "ADSP_TRACE" with Some s => atoi s | None => 0 end) cycles;
  show_op ;;
  dump ← dump_dm;
  mret (Outcome ran seen dump).
End Running.

(** The exit code or the outcome (exit code 0), and the emulator. *)
Definition main (base : Host) (args : list (list Z)) (alloc_ok : bool) : (Z + outcome) * state :=
  match open_ports, parse_cycles args, args with
  | None, _, _ => (inl 1, calloc_state)
  | Some ports, Some cycles, pm :: dm :: _ =>
      if negb alloc_ok then (inl 1, calloc_state)
      else
        (or_exit (load_pm (fopen_r pm)) 1 ;;
         or_exit (load_dm (fopen_r dm)) 1 ;;
         session (host := runner_host base ports) cycles) (adsp2181_create (host := bare_host base))
  | _, _, _ => (inl 2, calloc_state)
  end.
End Main.
