(* ===== verification/RunnerSpec.v ===== *)
(** * The ADSP runner: correctness

    The program as a whole keeps the emulator within bounds; images, dumps,
    word maps and sample files carry their words unchanged. *)
From Stdlib Require Import Strings.String.
From S2P Require Import Prelude State Tables Memory Stacks Regs Alu Mac Shift Exec Api Effects EffectsOps EffectsExec Invariants Safety CLib Runner.
Open Scope Z_scope.
Open Scope c_scope.

(** ** Definitions *)

(** What is kept of a part of the program: the emulator stays well-formed, and
    the exit codes are those the program documents. *)
Definition survives {A} (m : X A) : Prop := forall s, Wf s ->
  Wf (snd (m s)) /\ forall code, fst (m s) = inl code -> code = 1 \/ code = 2.

(** The addresses a word map names before it is refused or ends, all within
    the core's own memory. *)
Fixpoint map_fits (fuel : nat) (a : arr) (s : list Z) : bool :=
  match fuel with
  | O => true
  | S fuel =>
      match scan_x s with
      | Scan address s =>
          match scan_x s with
          | Scan value s =>
              if (address >=? MAP_WORDS) || (value >? word_limit a) then true
              else (address <? CORE_WORDS) && map_fits fuel a s
          | _ => true
          end
      | _ => true
      end
  end.
Definition staged_map_fits {env : Env} (name : string) (a : arr) : Prop :=
  forall s, env_file name = Some s -> map_fits (S (length s)) a s = true.

(** The text of a word map. *)
Definition map_text (words : list (Z * Z)) : list Z :=
  concat (map (fun '(k, v) => print_x k ++ [32] ++ print_x v ++ [10]) words).

(** The bytes of an image. *)
Definition image (size : nat) (words : list Z) : list Z := concat (map (le_bytes size) words).

(** ** The emulator's own operations *)
Section Kept.
Context {host : Host} {hok : HostOk host}.
Lemma survives_ret {A} (x : A) : survives (mret x).
Proof using Type. intros s Hs. by split. Qed.
Lemma survives_exit {A} code : code = 1 \/ code = 2 -> survives (exit_ (A := A) code).
Proof using Type. intros Hc s Hs. split; [done|]. by intros c [= <-]. Qed.
Lemma survives_lift {A} (m : M A) Q : hoare kept m Q -> survives (lift m).
Proof using Type.
  intros H s Hs. destruct (H s Hs) as [Hk _]. unfold lift, exec in *. destruct (m s) as [x s']. split; [by apply Hk|done].
Qed.
Lemma survives_bind {A B} (m : X A) (f : A -> X B) : survives m -> (forall x, survives (f x)) -> survives (m ≫= f).
Proof using Type.
  intros Hm Hf s Hs. destruct (Hm s Hs) as [Hw Hc]. unfold mbind, X_bind.
  destruct (m s) as [[code|x] s']; cbn [fst snd] in *; [|by apply Hf].
  split; [done|]. intros c [= <-]. by apply Hc.
Qed.
Lemma survives_each {A} (l : list A) body : (forall x, survives (body x)) -> survives (x_each l body).
Proof using Type. intros H. induction l as [|x l IH]; [apply survives_ret|]. apply survives_bind; [apply H|done]. Qed.
Lemma survives_or_exit (m : M bool) code Q : hoare kept m Q -> code = 1 \/ code = 2 -> survives (or_exit m code).
Proof using Type.
  intros Hm Hc. apply survives_bind; [by eapply survives_lift|]. intros [|]; [by apply survives_exit|apply survives_ret].
Qed.

(** *** Exported calls, by what [Safety] shows of them *)
Lemma kept_set_imask v : hoare kept (adsp2181_set_imask v) any.
Proof using Type. unfold adsp2181_set_imask. hoare_auto. Qed.
Lemma kept_pc : hoare kept adsp2181_pc (fun v => 0 <= v <= 0x3fff).
Proof using Type.
  unfold adsp2181_pc. eapply hoare_bind; [apply hoare_rd|]. intros v _. apply hoare_ret. apply land_range_r. lia.
Qed.
Lemma kept_host_read a : hoare kept (adsp2181_host_read a) any.
Proof using Type. unfold adsp2181_host_read. hoare_auto. Qed.
End Kept.

Ltac survives_step :=
  match goal with
  | |- forall _, _ => intros ?
  | |- survives (mret _) => apply survives_ret
  | |- survives xskip => apply survives_ret
  | |- survives (exit_ _) => apply survives_exit; lia
  | |- survives (_ ≫= _) => apply survives_bind
  | |- survives (x_each _ _) => apply survives_each
  | |- survives (lift _) => eapply survives_lift; hoare_auto
  | |- survives (let _ := _ in _) => cbv zeta
  | |- survives (if ?b then _ else _) => destruct b eqn:?
  | |- survives (match ?x with _ => _ end) => destruct x eqn:?
  | |- survives _ => solve [auto with survives_db nocore]
  end.
Ltac survives_auto := repeat survives_step.
Create HintDb survives_db discriminated.
#[export] Hint Constants Opaque : survives_db.

Section Program.
Context {env : Env} {host : Host} {hok : HostOk host}.
#[local] Hint Resolve kept_run kept_set_imask kept_pc kept_host_read kept_set_irq kept_adsp2181_call kept_reset : hoare_db.

Lemma kept_host_write a v : hoare kept (adsp2181_host_write a v) any.
Proof using Type. unfold adsp2181_host_write. hoare_auto. Qed.
Lemma kept_watch_dm a on : hoare kept (adsp2181_watch_dm a on) any.
Proof using Type. unfold adsp2181_watch_dm. hoare_auto. Qed.
Lemma kept_watch_pm a on : hoare kept (adsp2181_watch_pm a on) any.
Proof using Type. unfold adsp2181_watch_pm. hoare_auto. Qed.
Lemma kept_set_pc a : hoare kept (adsp2181_set_pc a) any.
Proof using Type. unfold adsp2181_set_pc. hoare_auto. Qed.
Lemma kept_trace_budget a : hoare kept (adsp2181_trace_budget a) any.
Proof using Type. unfold adsp2181_trace_budget. hoare_auto. Qed.
#[local] Hint Resolve kept_host_write kept_watch_dm kept_watch_pm kept_set_pc kept_trace_budget : hoare_db.

Lemma survives_watch_list name watch : (forall a, hoare kept (watch a 1) any) -> survives (watch_list name watch).
Proof using Type. intros H. unfold watch_list. survives_auto. Qed.
Lemma survives_start_pc : survives start_pc.
Proof. unfold start_pc. survives_auto. Qed.
Lemma survives_show_op : survives show_op.
Proof. unfold show_op. survives_auto. Qed.
Lemma survives_call_entry entry : survives (call_entry entry).
Proof. unfold call_entry. survives_auto. Qed.
#[local] Hint Resolve survives_start_pc survives_show_op survives_call_entry : survives_db.
Lemma survives_stage_entry name : survives (stage_entry name).
Proof. unfold stage_entry. survives_auto. Qed.
Lemma survives_host_irq : survives host_irq.
Proof using Type. unfold host_irq. survives_auto. Qed.
Lemma survives_watch_all : survives watch_all.
Proof. unfold watch_all. survives_auto. Qed.
Lemma survives_trace_host : survives trace_host.
Proof. unfold trace_host. survives_auto. Qed.
Lemma survives_late_entry at_ word : survives (late_entry at_ word).
Proof. unfold late_entry. survives_auto. Qed.
Lemma survives_run_word irq mask : survives (run_word irq mask).
Proof. unfold run_word. survives_auto. Qed.
Lemma survives_poll addrs : survives (poll addrs).
Proof. induction addrs as [|a addrs IH]; cbn [poll]; survives_auto. Qed.
#[local] Hint Resolve survives_stage_entry survives_host_irq survives_watch_all survives_trace_host survives_late_entry survives_run_word survives_poll : survives_db.
Lemma survives_host_words n word trace_at at_ irq mask script polled :
  survives (host_words n word trace_at at_ irq mask script polled).
Proof. revert word at_. induction n as [|n IH]; intros word at_; cbn [host_words]; survives_auto. Qed.
#[local] Hint Resolve survives_host_words : survives_db.

(** *** Word maps and images *)
Lemma scan_x_range s v rest : scan_x s = Scan v rest -> 0 <= v <= 0xffffffff.
Proof using Type.
  unfold scan_x. destruct (skip_space s) as [|c s1]; [done|]. destruct (sign_of _) as [neg s2].
  destruct (starts_digit 16 _); [|done]. destruct (digits_of 16 0 _) as [w r]. intros [= <- _]. exact (conv_range U32 _).
Qed.
Lemma kept_word_map fuel a s : a = PROGRAM \/ a = DATA -> map_fits fuel a s = true ->
  hoare kept (word_map_loop fuel a s) any.
Proof using Type.
  intros Ha. revert s. induction fuel as [|fuel IH]; intros s Hfit; [by apply hoare_ret|].
  cbn [word_map_loop map_fits] in *. destruct (scan_x s) as [| |address s1] eqn:E1; [by apply hoare_ret..|].
  destruct (scan_x s1) as [| |v s2] eqn:E2; [by apply hoare_ret..|].
  destruct (_ || _) eqn:Er; [by apply hoare_ret|].
  apply andb_true_iff in Hfit as [Hlt%Z.ltb_lt Hfit]. apply orb_false_iff in Er as [_ Hv].
  pose proof (scan_x_range s address s1 E1). pose proof (scan_x_range s1 v s2 E2).
  assert (v <= word_limit a) by (destruct (Z.gtb_spec v (word_limit a)); lia).
  eapply (hoare_bind _ _ any); [|intros _ _; by apply IH]. unfold CORE_WORDS in Hlt.
  destruct Ha as [-> | ->]; (apply hoare_awr_in; [apply _|cbn; lia|cbn in *; lia]).
Qed.
Lemma survives_stage_words name a : a = PROGRAM \/ a = DATA -> staged_map_fits name a -> survives (stage_words name a).
Proof using Type.
  intros Ha Hfit. unfold stage_words. destruct (is_set name); [|apply survives_ret].
  apply (survives_or_exit _ _ any); [|by left]. unfold load_word_map. destruct (env_file name) as [s|] eqn:E; [|by apply hoare_ret].
  apply kept_word_map; [done|]. by apply Hfit.
Qed.

Lemma le_word_range bytes n : Forall (fun b => 0 <= b <= 0xff) bytes -> length bytes = n ->
  0 <= le_word bytes < 2 ^ (8 * Z.of_nat n).
Proof using Type.
  intros Hb. revert n. induction Hb as [|b bytes Hb _ IH]; intros n <-; [done|]. cbn [le_word length].
  specialize (IH (length bytes) eq_refl).
  assert (0 <= 8 * Z.of_nat (length bytes)) as Hn by lia. revert IH Hn.
  replace (8 * Z.of_nat (S (length bytes))) with (8 * Z.of_nat (length bytes) + 8) by lia.
  generalize (8 * Z.of_nat (length bytes)) as k, (le_word bytes) as w. intros k w Hw Hk.
  rewrite Z.shiftl_mul_pow2 by lia. rewrite (lor_add b w 8) by lia.
  rewrite Z.pow_add_r by lia. nia.
Qed.
Lemma kept_load_words n size a address file : (size, a) = (3%nat, PROGRAM) \/ (size, a) = (2%nat, DATA) ->
  Forall (fun b => 0 <= b <= 0xff) file -> 0 <= address -> hoare kept (load_words n size a address file) any.
Proof using Type.
  intros Ha. revert address file. induction n as [|n IH]; intros address file Hf Haddr; [by apply hoare_ret|].
  cbn [load_words]. cbv zeta. destruct (Nat.ltb_spec (length (take size file)) size) as [|Hlen]; [by apply hoare_ret|].
  pose proof (le_word_range (take size file) size (Forall_take _ _ _ Hf)) as Hw.
  rewrite length_take in Hw, Hlen. specialize (Hw ltac:(lia)).
  eapply (hoare_bind _ _ any); [|intros _ _; apply IH; [by apply Forall_drop|lia]].
  apply hoare_when. intros Hlt%Z.ltb_lt. unfold CORE_WORDS in Hlt.
  destruct Ha as [[= -> ->]|[= -> ->]];
    (apply hoare_awr_in; [apply _|cbn [alen]; lia|];
     unfold arange; cbn [cmin cmax aty csigned cbits fst snd]; change (2 ^ (8 * Z.of_nat 3)) with 0x1000000 in Hw;
     change (2 ^ (8 * Z.of_nat 2)) with 0x10000 in Hw; change (2 ^ 16) with 0x10000; lia).
Qed.
Lemma kept_load_image size a path : (size, a) = (3%nat, PROGRAM) \/ (size, a) = (2%nat, DATA) ->
  hoare kept (load_image size a (fopen_r path)) any.
Proof using Type.
  intros Ha. unfold load_image. destruct (fopen_r path) as [file|] eqn:E; [|by apply hoare_ret].
  eapply (hoare_bind _ _ any); [apply kept_load_words; [done|by eapply fopen_r_bytes|lia]|]. intros. by apply hoare_ret.
Qed.

(** *** The program *)
Context (fits_pm : staged_map_fits "ADSP_STAGE_PM_WORDS" PROGRAM)
  (fits_dm : staged_map_fits "ADSP_STAGE_DM_WORDS" DATA) (fits_post : staged_map_fits "ADSP_POST_DM_WORDS" DATA).
#[local] Opaque watch_all stage_words dump_dm.
Lemma survives_host_session text script polled : survives (host_session text script polled).
Proof.
  unfold host_session. survives_auto; apply survives_stage_words; auto.
Qed.
Lemma survives_wake_irq text : survives (wake_irq text).
Proof using hok. unfold wake_irq. survives_auto. Qed.
Lemma survives_trace_steps n : survives (trace_steps n).
Proof using hok. induction n as [|n IH]; cbn [trace_steps]; survives_auto. Qed.
#[local] Hint Resolve survives_host_session survives_wake_irq survives_trace_steps : survives_db.
Lemma survives_final_run trace cycles : survives (final_run trace cycles).
Proof using hok. unfold final_run. survives_auto. Qed.
Lemma kept_dump_words n address : 0 <= address -> address + Z.of_nat n <= CORE_WORDS ->
  hoare kept (dump_words n address) any.
Proof using Type.
  revert address. induction n as [|n IH]; intros address H1 H2; [by apply hoare_ret|]. cbn [dump_words].
  unfold CORE_WORDS in *. eapply hoare_bind; [apply hoare_ard; cbn [alen]; lia|]. intros v _.
  eapply (hoare_bind _ _ any); [apply IH; lia|]. intros. by apply hoare_ret.
Qed.
#[local] Transparent dump_dm.
Lemma survives_dump : survives dump_dm.
Proof using Type.
  unfold dump_dm. destruct (getenv _); [|apply survives_ret]. destruct (fopen_w _); [|apply survives_ret].
  apply survives_bind; [eapply survives_lift, kept_dump_words; unfold CORE_WORDS; lia|]. intros. apply survives_ret.
Qed.
#[local] Hint Resolve survives_final_run survives_dump : survives_db.
#[local] Opaque dump_dm host_session final_run.
Lemma survives_session cycles : survives (session cycles).
Proof.
  unfold session. survives_auto.
  - exact (survives_watch_list "ADSP_WATCH_DM" adsp2181_watch_dm (fun a => kept_watch_dm a 1)).
  - exact (survives_watch_list "ADSP_WATCH_PM" adsp2181_watch_pm (fun a => kept_watch_pm a 1)).
Qed.
End Program.

(** The callbacks only log. *)
#[export] Instance runner_host_ok base ports : HostOk (runner_host base ports).
Proof.
  assert (forall (b : bool) (v : Z) e, ok (fun s => if b then (v, add_event e s) else (0, s)) any) as Hrx.
  { intros b v e s Hs. split; [|done]. unfold exec. destruct b; [|done]. apply rtc_once. constructor. }
  split; cbn [runner_host adsp2181_set_callbacks sport_rx_callback sport_tx_callback timer_fired].
  - intros f port [= <-] s Hs. split; [|done]. unfold exec, sport_rx. destruct (_ <? 2); [|done].
    apply rtc_once. constructor.
  - intros f port v [= <-] s Hs. split; [|done]. unfold exec, sport_tx. destruct (_ <? 2); [|done].
    apply rtc_once. constructor.
  - intros f on [= <-]. apply hoare_logerror.
  - by intros f on s [= <-].
Qed.
#[export] Instance bare_host_ok base : HostOk (bare_host base).
Proof. by split. Qed.

(** C28: the program keeps the emulator safe. Whatever the arguments, the
    environment variables, the images, scripts and address lists, and the
    program in them, the runner ends with exit code 0, 1 or 2, and unless it
    stopped before it created the emulator the emulator is well-formed and no
    array was indexed out of bounds; this needs the addresses of the staged
    word maps to be below 0x4000. *)
Theorem runner_safe {env : Env} (base : Host) args :
  staged_map_fits "ADSP_STAGE_PM_WORDS" PROGRAM -> staged_map_fits "ADSP_STAGE_DM_WORDS" DATA ->
  staged_map_fits "ADSP_POST_DM_WORDS" DATA ->
  let '(result, s) := main base args true in
  (forall code, result = inl code -> code = 1 \/ code = 2) /\
  s.[FAULT] = 0 /\ (open_ports <> None -> parse_cycles args <> None -> Wf s).
Proof.
  intros H1 H2 H3. unfold main. destruct open_ports as [ports|]; [|split; [by intros c [= <-]; left|done]].
  destruct (parse_cycles args) as [cycles|] eqn:E; [|split; [by intros c [= <-]; right|done]].
  destruct args as [|pm [|dm rest]]; [done..|]. cbn [negb].
  assert (survives (or_exit (load_pm (fopen_r pm)) 1 ;; or_exit (load_dm (fopen_r dm)) 1 ;;
    session (host := runner_host base ports) cycles)) as Hk.
  { apply survives_bind; [eapply survives_or_exit; [apply kept_load_image; by left|by left]|]. intros _.
    apply survives_bind; [eapply survives_or_exit; [apply kept_load_image; by right|by left]|]. intros _.
    by apply survives_session. }
  destruct (Hk (adsp2181_create (host := bare_host base)) (create_wf (host := bare_host base))) as [Hw Hc].
  destruct (mbind _ (or_exit (load_pm _) _) _) as [result s]. cbn [fst snd] in *.
  split; [done|]. split; [by apply wf_fault|done].
Qed.

(** ** Word maps *)
Definition stage (a : arr) (s : state) (w : Z * Z) : state := exec (awr a (fst w) (snd w)) s.

Lemma scan_x_space c s : isspace c = true -> scan_x (c :: s) = scan_x s.
Proof. intros H. unfold scan_x. by rewrite skip_space_cons. Qed.
Lemma word_map_newline fuel a s : word_map_loop (S fuel) a (10 :: s) = word_map_loop (S fuel) a s.
Proof. cbn [word_map_loop]. by rewrite (scan_x_space 10). Qed.

Lemma word_limit_range a : a = PROGRAM \/ a = DATA -> 0 <= word_limit a <= 0xffffff.
Proof. by intros [-> | ->]. Qed.
Lemma word_map_step fuel a k v s : a = PROGRAM \/ a = DATA -> 0 <= k < MAP_WORDS -> 0 <= v <= word_limit a ->
  word_map_loop (S (S fuel)) a (print_x k ++ [32] ++ print_x v ++ [10] ++ s) =
    (awr a k v ;; word_map_loop (S fuel) a s).
Proof.
  intros Ha Hk Hv. pose proof (word_limit_range a Ha). unfold MAP_WORDS in Hk.
  rewrite <- (word_map_newline fuel a s). change ([10] ++ s) with (10 :: s). change ([32] ++ ?l) with (32 :: l).
  cbn [word_map_loop]. rewrite scan_x_print; [|lia|done|by intros c r [= <- _]].
  rewrite (scan_x_space 32), scan_x_print; [|lia|done|by intros c r [= <- _]|done]. unfold MAP_WORDS.
  destruct (Z.geb_spec k 0x10000); [lia|]. destruct (Z.gtb_spec v (word_limit a)); [lia|]. done.
Qed.

Lemma word_map_all a words fuel s : a = PROGRAM \/ a = DATA ->
  Forall (fun w => 0 <= fst w < MAP_WORDS /\ 0 <= snd w <= word_limit a) words -> (length words < fuel)%nat ->
  word_map_loop fuel a (map_text words) s = (false, foldl (stage a) s words).
Proof.
  intros Ha Hw. revert fuel s. induction Hw as [|[k v] words [Hk Hv] Hw IH]; intros fuel s Hf;
    (destruct fuel as [|fuel]; [cbn in Hf; lia|]); [done|].
  destruct fuel as [|fuel]; [cbn in Hf; lia|]. cbn [length fst snd] in *.
  unfold map_text. cbn [map concat]. rewrite <- !app_assoc, word_map_step by done.
  rewrite exec_bind_unit, IH by lia. done.
Qed.

Lemma stage_in a k v s : 0 <= k < alen a -> in_arange a v -> stage a s (k, v) = aset a k v s.
Proof. intros Hk Hv. unfold stage. cbn [fst snd]. by rewrite exec_awr, in_arange_conv. Qed.
Lemma stage_out a k v s : alen a <= k -> stage a s (k, v) = set FAULT 1 s.
Proof.
  intros Hk. unfold stage, exec, awr, in_bounds. cbn [fst snd].
  by rewrite (proj2 (Z.ltb_ge k (alen a))), andb_false_r by lia.
Qed.
Lemma stage_fault a w s : 0 <= fst w ->
  (stage a s w).[FAULT] = if fst w <? alen a then s.[FAULT] else 1.
Proof.
  destruct w as [k v]. cbn [fst]. intros Hk. destruct (Z.ltb_spec k (alen a)).
  - unfold stage. cbn [fst snd]. by rewrite exec_awr by lia.
  - rewrite stage_out by lia. apply get_set_eq.
Qed.
Lemma stage_all_fault a words s : Forall (fun w => 0 <= fst w) words -> s.[FAULT] = 0 \/ s.[FAULT] = 1 ->
  (foldl (stage a) s words).[FAULT] = 1 <-> s.[FAULT] = 1 \/ Exists (fun w => alen a <= fst w) words.
Proof.
  intros Hw. revert s. induction Hw as [|w words Hk Hw IH]; intros s Hs; cbn [foldl].
  - rewrite Exists_nil. tauto.
  - rewrite IH, stage_fault by (done || (rewrite stage_fault by done; destruct (_ <? _); tauto)).
    rewrite Exists_cons. destruct (Z.ltb_spec (fst w) (alen a)); [|tauto]. split; [tauto|]. intros [?|[?|?]]; [tauto|lia|tauto].
Qed.
Lemma core_words a : a = PROGRAM \/ a = DATA -> alen a = CORE_WORDS.
Proof. by intros [-> | ->]. Qed.
Lemma limit_arange a v : a = PROGRAM \/ a = DATA -> 0 <= v <= word_limit a -> in_arange a v.
Proof. by intros [-> | ->]. Qed.

(** C29: word maps stage what they say, without a bound. A map written as
    pairs of hexadecimal numbers, with 16-bit addresses and words in range, is
    accepted; when every address is below 0x4000 the memory afterwards is that
    with the words stored in order and nothing else changed; and an address
    from 0x4000 on, which the check lets pass, is exactly what makes the
    loader write outside the array of the core. *)
Theorem word_map_staged a words s : a = PROGRAM \/ a = DATA ->
  Forall (fun w => 0 <= fst w < MAP_WORDS /\ 0 <= snd w <= word_limit a) words -> s.[FAULT] = 0 ->
  let '(refused, s') := load_word_map a (Some (map_text words)) s in
  refused = false /\
  (Forall (fun w => fst w < CORE_WORDS) words -> s' = foldl (fun s w => aset a (fst w) (snd w) s) s words) /\
  (s'.[FAULT] = 1 <-> Exists (fun w => CORE_WORDS <= fst w) words).
Proof.
  intros Ha Hw H0. unfold load_word_map. rewrite word_map_all; [|done..|].
  - split; [done|]. rewrite <- (core_words a Ha). split.
    + clear H0. revert s. induction Hw as [|[k v] words [Hk Hv] Hw IH]; intros s Hall; [done|].
      apply Forall_cons_1 in Hall as [Hlt Hall]. cbn [foldl fst snd] in *.
      rewrite stage_in by (lia || by apply limit_arange). by apply IH.
    + rewrite stage_all_fault, H0; [|eapply Forall_impl; [|exact Hw]; cbn; lia|by left]. split; [intros [?|?]; [lia|done]|by right].
  - clear. unfold map_text. induction words as [|[k v] words IH]; cbn [map concat length]; [lia|].
    rewrite !length_app in *. cbn [length]. lia.
Qed.

(** ** Images *)
Lemma le_word_bytes n v : 0 <= v < 2 ^ (8 * Z.of_nat n) -> le_word (le_bytes n v) = v.
Proof.
  revert v. induction n as [|n IH]; intros v Hv; [change (2 ^ (8 * Z.of_nat 0)) with 1 in Hv; cbn; lia|].
  cbn [le_bytes le_word]. rewrite Nat2Z.inj_succ, Z.mul_succ_r, Z.pow_add_r in Hv by lia.
  rewrite IH.
  - rewrite Z.shiftl_mul_pow2, Z.shiftr_div_pow2 by lia. pose proof (conv_range U8 v) as Hr. cbn [cmin cmax csigned cbits] in Hr.
    rewrite (lor_add _ _ 8) by (change (2 ^ 8) with 256 in *; lia). rewrite (conv_unsigned U8) by done. cbn [cbits].
    pose proof (Z.div_mod v (2 ^ 8) ltac:(lia)). lia.
  - rewrite Z.shiftr_div_pow2 by lia. split; [apply Z.div_pos; lia|]. apply Z.div_lt_upper_bound; lia.
Qed.
Lemma le_bytes_length n v : length (le_bytes n v) = n.
Proof. revert v. induction n as [|n IH]; intros v; [done|]. cbn. by rewrite IH. Qed.
Lemma image_length size words : length (image size words) = (size * length words)%nat.
Proof.
  unfold image. induction words as [|w words IH]; cbn [map concat length]; [lia|].
  rewrite length_app, le_bytes_length, IH. lia.
Qed.

(** A file is accepted by its length alone. *)
Lemma load_words_result n size a address file s : (0 < size)%nat ->
  eval (load_words n size a address file) s =
    if (length file <? n * size)%nat then None else Some (drop (n * size) file).
Proof.
  intros Hs. revert address file s. induction n as [|n IH]; intros address file s; [by rewrite Nat.mul_0_l|].
  cbn [load_words]. cbv zeta. rewrite length_take.
  destruct (Nat.ltb_spec (size `min` length file) size).
  - rewrite (proj2 (Nat.ltb_lt _ _)) by lia. done.
  - rewrite eval_bind, IH, length_drop.
    destruct (Nat.ltb_spec (length file - size) (n * size)), (Nat.ltb_spec (length file) (S n * size)); try lia; [done|].
    rewrite drop_drop. done.
Qed.

(** What loading words does to the memory, and to nothing else. *)
Lemma load_words_memory size a words address rest s : (size, a) = (3%nat, PROGRAM) \/ (size, a) = (2%nat, DATA) ->
  Forall (fun w => 0 <= w < 2 ^ (8 * Z.of_nat size)) words -> 0 <= address ->
  let s' := exec (load_words (length words) size a address (image size words ++ rest)) s in
  (forall k, s'.{a, k} = if (k <? CORE_WORDS) && (address <=? k) then default (s.{a, k}) (words !! Z.to_nat (k - address)) else s.{a, k}) /\
  (forall f, s'.[f] = s.[f]) /\ (forall b, b <> a -> ars s' b = ars s b).
Proof.
  intros Ha Hw. revert address s. induction Hw as [|w words Hw _ IH]; intros address s Hadr; cbv zeta.
  - split; [|done]. intros k. cbn [length load_words]. rewrite exec_ret. by destruct (_ && _).
  - cbn [length load_words]. cbv zeta. unfold image in *. cbn [map concat]. rewrite <- app_assoc.
    rewrite take_app_length', drop_app_length' by (by rewrite le_bytes_length).
    rewrite le_bytes_length, Nat.ltb_irrefl, exec_bind, le_word_bytes, exec_when by done.
    set (s1 := if address <? CORE_WORDS then exec (awr a address w) s else s).
    destruct (IH (address + 1) s1 ltac:(lia)) as (H1 & H2 & H3).
    assert (s1 = if address <? CORE_WORDS then aset a address w s else s) as E1.
    { unfold s1. destruct (Z.ltb_spec address CORE_WORDS); [|done]. unfold CORE_WORDS in *.
      destruct Ha as [[= -> ->]|[= -> ->]];
        (rewrite exec_awr by (cbn; lia); rewrite (conv_id (aty _)); [done|]);
        cbn [aty cmin cmax csigned cbits]; change (8 * Z.of_nat 3) with 24 in Hw; change (8 * Z.of_nat 2) with 16 in Hw; lia. }
    split; [|split].
    + intros k. rewrite H1, E1.
      destruct (Z.ltb_spec k CORE_WORDS), (Z.leb_spec (address + 1) k), (Z.leb_spec address k), (Z.ltb_spec address CORE_WORDS);
        cbn [andb]; try lia; try done;
        [|replace k with address by lia; rewrite aget_aset_eq, Z.sub_diag; done|by rewrite aget_aset_ne by lia..].
      rewrite aget_aset_ne by lia. f_equal.
      replace (Z.to_nat (k - address)) with (S (Z.to_nat (k - (address + 1)))) by lia. done.
    + intros f. rewrite H2, E1. by destruct (address <? CORE_WORDS).
    + intros b Hb. rewrite H3, E1 by done. destruct (address <? CORE_WORDS); [|done]. unfold aset. by apply ars_aput_ne.
Qed.

(** C30: memory images arrive as they were written. An image of 65536 words of
    three (program) or two (data) bytes, low byte first, is accepted, its
    first 0x4000 words are the memory afterwards, and nothing else changes; a
    file of any other length is refused. *)
Theorem image_round_trip size a words s : (size, a) = (3%nat, PROGRAM) \/ (size, a) = (2%nat, DATA) ->
  Forall (fun w => 0 <= w < 2 ^ (8 * Z.of_nat size)) words -> Z.of_nat (length words) = MAP_WORDS ->
  eval (load_image size a (Some (image size words))) s = false /\
  (let s' := exec (load_image size a (Some (image size words))) s in
   (forall k, 0 <= k < CORE_WORDS -> words !! Z.to_nat k = Some (s'.{a, k})) /\
   (forall f, s'.[f] = s.[f]) /\ (forall b, b <> a -> ars s' b = ars s b)) /\
  forall file, Z.of_nat (length file) <> Z.of_nat size * MAP_WORDS -> eval (load_image size a (Some file)) s = true.
Proof.
  intros Ha Hw Hlen. assert (0 < size)%nat as Hs by (destruct Ha as [[= -> _]|[= -> _]]; lia).
  assert (Z.to_nat MAP_WORDS = length words) as En by lia. unfold load_image. rewrite En. split; [|split].
  - rewrite eval_bind, load_words_result, image_length, Nat.mul_comm, Nat.ltb_irrefl by done.
    rewrite drop_ge by (rewrite image_length; lia). done.
  - cbv zeta. destruct (load_words_memory size a words 0 [] s Ha Hw ltac:(lia)) as (H1 & H2 & H3).
    rewrite app_nil_r in *. rewrite exec_bind.
    set (s1 := exec (load_words _ _ _ _ _) s) in *. rewrite exec_ret. split; [|done].
    intros k Hk. rewrite H1, (proj2 (Z.ltb_lt k CORE_WORDS)), (proj2 (Z.leb_le 0 k)), Z.sub_0_r by lia. cbn [andb].
    destruct (lookup_lt_is_Some_2 words (Z.to_nat k)) as [w Hwk]; [unfold CORE_WORDS, MAP_WORDS in *; lia|]. by rewrite Hwk.
  - intros file Hf. rewrite eval_bind, load_words_result by done.
    destruct (Nat.ltb_spec (length file) (length words * size)); [done|].
    destruct (drop (length words * size) file) eqn:E; [|done].
    apply (f_equal length) in E. rewrite length_drop in E. cbn in E. lia.
Qed.

Lemma dump_words_image n address s : 0 <= address -> address + Z.of_nat n <= CORE_WORDS ->
  eval (dump_words n address) s = image 2 (map (fun k => s.{DATA, k}) (seqZ address (Z.of_nat n))).
Proof.
  unfold CORE_WORDS. revert address. induction n as [|n IH]; intros address H1 H2; [done|]. cbn [dump_words].
  rewrite seqZ_cons by lia. replace (Z.pred (Z.of_nat (S n))) with (Z.of_nat n) by lia.
  unfold image in *. cbn [map concat le_bytes]. rewrite eval_bind, eval_ard, exec_ard by (cbn [alen]; lia).
  rewrite eval_bind, IH by lia. done.
Qed.

Lemma lookup_map_seqZ (f : Z -> Z) n k : 0 <= k < n -> map f (seqZ 0 n) !! Z.to_nat k = Some (f k).
Proof.
  intros Hk. change (map f (seqZ 0 n)) with (f <$> seqZ 0 n). rewrite list_lookup_fmap, lookup_seqZ_lt by lia.
  cbn. do 2 f_equal. lia.
Qed.

(** A dump can be loaded again. The dump of a well-formed emulator's data
    memory, followed by the words a full image has beyond 0x4000, loads into
    any emulator as the same data memory. *)
Theorem dump_reloads s t beyond : Wf s -> Z.of_nat (length beyond) = MAP_WORDS - CORE_WORDS ->
  Forall (fun w => 0 <= w <= 0xffff) beyond ->
  let file := eval (dump_words (Z.to_nat CORE_WORDS) 0) s ++ image 2 beyond in
  eval (load_dm (Some file)) t = false /\
  forall k, 0 <= k < CORE_WORDS -> (exec (load_dm (Some file)) t).{DATA, k} = s.{DATA, k}.
Proof.
  intros Hs Hlen Hb. cbv zeta. rewrite dump_words_image by (unfold CORE_WORDS; lia).
  rewrite Z2Nat.id by (unfold CORE_WORDS; lia).
  set (words := map (fun k => s.{DATA, k}) (seqZ 0 CORE_WORDS)).
  assert (image 2 words ++ image 2 beyond = image 2 (words ++ beyond)) as -> by (unfold image; by rewrite map_app, concat_app).
  assert (length words = Z.to_nat CORE_WORDS) as Hwl by (unfold words; by rewrite length_map, length_seqZ).
  destruct (image_round_trip 2 DATA (words ++ beyond) t) as (H1 & (H2 & _) & _); [by right| | |].
  - apply Forall_app. split; [|eapply Forall_impl; [|exact Hb]; cbn; lia]. unfold words. apply Forall_map.
    apply Forall_forall. intros k _. pose proof (wf_elem s Hs DATA k) as H. unfold in_arange in H. cbn in *. lia.
  - rewrite length_app, Hwl. unfold CORE_WORDS in *. lia.
  - split; [exact H1|]. intros k Hk. specialize (H2 k Hk).
    rewrite lookup_app_l in H2 by (unfold CORE_WORDS in *; lia). unfold words in H2. rewrite lookup_map_seqZ in H2 by done.
    apply (inj Some) in H2. unfold load_dm. symmetry. exact H2.
Qed.

(** ** Sample files *)

(** The words the emulator transmitted on a port, oldest first, and how often
    it asked for a word, by the log of the callbacks. *)
Definition sent (port : Z) (log : list event) : list Z :=
  foldr (fun e l => match e with EvSportTx p v => if u32 p =? port then l ++ [v] else l | _ => l end) [] log.
Definition asked (port : Z) (log : list event) : nat :=
  foldr (fun e n => match e with EvSportRx p => if u32 p =? port then S n else n | _ => n end) 0%nat log.

Definition sample_bytes (v : Z) : list Z := [u8 v; u8 (u32 v >>> 8)].

(** The callbacks log only calls of the two ports. *)
Definition ports_ok (log : list event) : Prop :=
  Forall (fun e => match e with EvSportTx p _ | EvSportRx p => p = 0 \/ p = 1 | _ => True end) log.

Lemma samples_bytes_app l v : concat (map sample_bytes (l ++ [v])) = concat (map sample_bytes l) ++ sample_bytes v.
Proof. rewrite map_app, concat_app. cbn. done. Qed.

(** What a read does to the variables of its port. *)
Lemma port_rx_ports p : tx_file (snd (port_rx p)) = tx_file p /\ rx_file (snd (port_rx p)) = drop 2 <$> rx_file p /\
  last_tx (snd (port_rx p)) = last_tx p /\ loopback_sport (snd (port_rx p)) = loopback_sport p.
Proof. unfold port_rx. destruct (rx_file p) as [[|a [|b f]]|]; done. Qed.

(** One port of the static variables after the calls logged. *)
Lemma statics_tx ports port p0 log : port = 0 \/ port = 1 -> ports_ok log -> ports !! Z.to_nat port = Some p0 ->
  exists p, statics ports log !! Z.to_nat port = Some p /\
    tx_file p = (f ← tx_file p0; Some (f ++ concat (map sample_bytes (sent port log)))) /\
    rx_file p = (f ← rx_file p0; Some (drop (2 * asked port log) f)) /\
    last_tx p = default (last_tx p0) (s16 <$> list.last (sent port log)) /\
    loopback_sport p = loopback_sport p0.
Proof.
  intros Hport Hlog H0. induction Hlog as [|e log He Hlog IH]; cbn [statics foldr sent asked].
  - exists p0. split; [done|]. destruct (tx_file p0), (rx_file p0); cbn; by rewrite ?app_nil_r.
  - fold (statics ports log) (sent port log) (asked port log).
    destruct IH as (p & Hp & Htx & Hrx & Hlast & Hlb).
    destruct e as [| | | | | | | | | | | | |q|q v|]; try (by exists p).
    + cbn [apply_event]. destruct (Z.eq_dec q port) as [->|Hne].
      * exists (snd (port_rx p)). rewrite list_lookup_alter_eq, Hp. split; [done|].
        assert (u32 port =? port = true) as -> by (by destruct Hport as [-> | ->]).
        destruct (port_rx_ports p) as (-> & -> & -> & ->). split; [done|]. split; [|done].
        rewrite Hrx. destruct (rx_file p0) as [f|]; [|done]. cbn [mbind option_bind fmap option_fmap option_map].
        rewrite drop_drop. do 2 f_equal. lia.
      * exists p. assert (u32 q =? port = false) as -> by (destruct He as [-> | ->], Hport as [-> | ->]; done).
        split; [|done]. rewrite list_lookup_alter_ne; [done|]. destruct He as [-> | ->], Hport as [-> | ->]; done.
    + cbn [apply_event]. destruct (Z.eq_dec q port) as [->|Hne].
      * exists (port_tx v p). rewrite list_lookup_alter_eq, Hp. split; [done|].
        assert (u32 port =? port = true) as -> by (by destruct Hport as [-> | ->]).
        unfold port_tx. cbn [tx_file rx_file last_tx loopback_sport]. rewrite list.last_snoc, samples_bytes_app. cbn [fmap option_fmap option_map default].
        rewrite Htx. split; [|done]. destruct (tx_file p0) as [f|]; [|done]. cbn. by rewrite <- app_assoc.
      * exists p. assert (u32 q =? port = false) as -> by (destruct He as [-> | ->], Hport as [-> | ->]; done).
        split; [|done]. rewrite list_lookup_alter_ne; [done|]. destruct He as [-> | ->], Hport as [-> | ->]; done.
Qed.

Lemma samples_drop k l v : l !! k = Some v ->
  exists rest, drop (2 * k) (concat (map sample_bytes l)) = sample_bytes v ++ rest.
Proof.
  revert l. induction k as [|k IH]; intros [|w l] H; try done; cbn [map concat] in *.
  - injection H as ->. eexists. rewrite Nat.mul_0_r. done.
  - replace (2 * S k)%nat with (S (S (2 * k))) by lia. cbn. by apply IH.
Qed.

(** A sample survives being split into two bytes. *)
Lemma sample_value v : s16 (u8 v ||| (u8 (u32 v >>> 8) <<< 8)) = s16 v.
Proof.
  rewrite Z.shiftl_mul_pow2, Z.shiftr_div_pow2 by lia. rewrite !(conv_unsigned U8) by done. cbn [cbits].
  pose proof (Z.mod_pos_bound v (2 ^ 8) ltac:(lia)).
  rewrite (lor_add _ _ 8) by lia. rewrite (conv_unsigned U32) by done. cbn [cbits].
  rewrite <- (conv_mod S16 v). f_equal. cbn [cbits].
  replace 32 with (8 + 24) by lia. rewrite Z.pow_add_r, Z.rem_mul_r by lia.
  rewrite (Z.mul_comm (2 ^ 8) (_ mod _)), Z.div_add, (Z.div_small (v mod 2 ^ 8)), Z.add_0_l by lia.
  replace 24 with (8 + 16) by lia. rewrite Z.pow_add_r, Z.rem_mul_r by lia.
  rewrite (Z.mul_comm (2 ^ 8) (_ mod _)), Z.mod_add, Z.mod_mod by lia.
  replace 16 with (8 + 8) by lia. rewrite Z.pow_add_r, (Z.rem_mul_r v (2 ^ 8) (2 ^ 8)) by lia. lia.
Qed.

Lemma eval_sport_rx readers port s : port = 0 \/ port = 1 ->
  eval (sport_rx readers port) s = match statics readers (events s) !! Z.to_nat port with Some p => fst (port_rx p) | None => 0 end.
Proof.
  intros Hp. unfold eval, sport_rx. assert (u32 port <? 2 = true) as -> by (by destruct Hp as [-> | ->]). done.
Qed.

(** C31: sample files connect two runs. Whatever the two emulators did in
    between, the k-th word one run reads on a port from the file another run
    wrote on a port is the k-th word that was written, as a signed 16-bit
    sample. *)
Theorem sample_file_round_trip writers readers wport rport wlog s pw pr k v :
  wport = 0 \/ wport = 1 -> rport = 0 \/ rport = 1 -> ports_ok wlog -> ports_ok (events s) ->
  writers !! Z.to_nat wport = Some pw -> tx_file pw = Some [] ->
  readers !! Z.to_nat rport = Some pr -> rx_file pr = (p ← statics writers wlog !! Z.to_nat wport; tx_file p) ->
  asked rport (events s) = k -> sent wport wlog !! k = Some v ->
  eval (sport_rx readers rport) s = s16 v.
Proof.
  intros Hwp Hrp Hwl Hrl Hpw Htx Hpr E Hk Hv.
  destruct (statics_tx writers wport pw wlog Hwp Hwl Hpw) as (qw & Hqw & Hfw & _).
  rewrite eval_sport_rx by done.
  destruct (statics_tx readers rport pr (events s) Hrp Hrl Hpr) as (qr & Hqr & _ & Hfr & _).
  rewrite Hqr. unfold port_rx. rewrite Hqw in E. cbn [mbind option_bind] in E. rewrite Hfw, Htx in E.
  rewrite E in Hfr. cbn [mbind option_bind] in Hfr. rewrite Hk in Hfr.
  destruct (samples_drop k (sent wport wlog) v Hv) as [rest Erest]. cbn [app] in Hfr. rewrite Erest in Hfr.
  rewrite Hfr. cbn [app sample_bytes read_sample fst default]. apply sample_value.
Qed.

(** Without a file, a port in loopback reads the last word it wrote. *)
Lemma loopback_reads_last readers port s p : port = 0 \/ port = 1 -> ports_ok (events s) ->
  readers !! Z.to_nat port = Some p -> rx_file p = None -> loopback_sport p = true ->
  eval (sport_rx readers port) s = default (last_tx p) (s16 <$> list.last (sent port (events s))).
Proof.
  intros Hport Hl Hp Hf Hlb. rewrite eval_sport_rx by done.
  destruct (statics_tx readers port p (events s) Hport Hl Hp) as (q & -> & _ & Hfr & Hlast & Hlbq).
  rewrite Hf in Hfr. unfold port_rx. rewrite Hfr, Hlbq, Hlb. exact Hlast.
Qed.

(** ** Witnesses *)
Open Scope string_scope.
Open Scope Z_scope.
Open Scope c_scope.

(** An environment that stages two words, injects a call, sends two words and
    dumps data memory; both images are zero. *)
Definition staged_words : list (Z * Z) := [(0, 0x3c0005); (0x672, 0x0a000f)].
Definition bench_file (path : list Z) : option (list Z) :=
  if bool_decide (path = text "pm.bin") then Some (replicate (3 * Z.to_nat MAP_WORDS) 0)
  else if bool_decide (path = text "dm.bin") then Some (replicate (2 * Z.to_nat MAP_WORDS) 0)
  else if bool_decide (path = text "stage.txt") then Some (text "0 3c0005 672 0a000f") else None.
Definition bench_var (name : string) : option (list Z) :=
  if String.eqb name "ADSP_STAGE_PM_WORDS" then Some (text "stage.txt")
  else if String.eqb name "ADSP_STAGE_ENTRY" then Some (text "0x672")
  else if String.eqb name "ADSP_HOST_WORDS" then Some (text "2")
  else if String.eqb name "ADSP_DUMP_DM" then Some (text "out.bin") else None.
Lemma bench_file_bytes path s : bench_file path = Some s -> Forall (fun b => 0 <= b <= 0xff) s.
Proof.
  unfold bench_file. destruct (bool_decide _); [|destruct (bool_decide _); [|destruct (bool_decide _); [|done]]];
    (intros E; apply (inj Some) in E; rewrite <- E).
  - apply Forall_replicate. lia.
  - apply Forall_replicate. lia.
  - repeat constructor; vm_compute; discriminate.
Qed.
#[export] Instance bench_env : Env := {|
  getenv := bench_var; fopen_r := bench_file; fopen_w := fun _ => true; fopen_r_bytes := bench_file_bytes |}.

Lemma bench_map_fits name a :
  name <> "ADSP_STAGE_PM_WORDS" -> name <> "ADSP_STAGE_ENTRY" -> name <> "ADSP_HOST_WORDS" -> name <> "ADSP_DUMP_DM" ->
  staged_map_fits (env := bench_env) name a.
Proof.
  intros H1 H2 H3 H4 s. unfold env_file. cbn [getenv bench_env]. unfold bench_var.
  by rewrite !(proj2 (String.eqb_neq _ _)) by done.
Qed.
Lemma bench_pm_fits : staged_map_fits (env := bench_env) "ADSP_STAGE_PM_WORDS" PROGRAM.
Proof. intros s E. vm_compute in E. apply (inj Some) in E. rewrite <- E. vm_compute. done. Qed.

Lemma runner_safe_witness :
  let '(result, s) := main (env := bench_env) null_host [text "pm.bin"; text "dm.bin"] true in
  (forall code, result = inl code -> code = 1 \/ code = 2) /\
  s.[FAULT] = 0 /\
  (open_ports (env := bench_env) <> None -> parse_cycles [text "pm.bin"; text "dm.bin"] <> None -> Wf s).
Proof.
  apply (runner_safe (env := bench_env) null_host [text "pm.bin"; text "dm.bin"]).
  - apply bench_pm_fits.
  - apply bench_map_fits; discriminate.
  - apply bench_map_fits; discriminate.
Defined.

Lemma word_map_staged_witness :
  let '(refused, s') := load_word_map PROGRAM (Some (map_text [(0x10, 0x3c0005); (0x4000, 1)])) calloc_state in
  refused = false /\
  (Forall (fun w => fst w < CORE_WORDS) [(0x10, 0x3c0005); (0x4000, 1)] ->
    s' = foldl (fun s w => aset PROGRAM (fst w) (snd w) s) calloc_state [(0x10, 0x3c0005); (0x4000, 1)]) /\
  (s'.[FAULT] = 1 <-> Exists (fun w => CORE_WORDS <= fst w) [(0x10, 0x3c0005); (0x4000, 1)]).
Proof.
  apply (word_map_staged PROGRAM [(0x10, 0x3c0005); (0x4000, 1)] calloc_state);
    [by left|repeat constructor; cbn; (lia || discriminate)|reflexivity].
Defined.

Definition test_words : list Z := replicate (Z.to_nat MAP_WORDS) 0xbeef.
Lemma test_words_length : Z.of_nat (length test_words) = MAP_WORDS.
Proof. unfold test_words. rewrite length_replicate. apply Z2Nat.id. discriminate. Qed.
Lemma image_round_trip_witness :
  eval (load_image 2 DATA (Some (image 2 test_words))) calloc_state = false /\
  (let s' := exec (load_image 2 DATA (Some (image 2 test_words))) calloc_state in
   (forall k, 0 <= k < CORE_WORDS -> test_words !! Z.to_nat k = Some (s'.{DATA, k})) /\
   (forall f, s'.[f] = calloc_state.[f]) /\ (forall b, b <> DATA -> ars s' b = ars calloc_state b)) /\
  forall file, Z.of_nat (length file) <> Z.of_nat 2 * MAP_WORDS -> eval (load_image 2 DATA (Some file)) calloc_state = true.
Proof.
  apply (image_round_trip 2 DATA test_words calloc_state);
    [by right|apply Forall_replicate; split; [discriminate|reflexivity]|apply test_words_length].
Defined.

Definition beyond_words : list Z := replicate (Z.to_nat (MAP_WORDS - CORE_WORDS)) 0.
Lemma beyond_words_length : Z.of_nat (length beyond_words) = MAP_WORDS - CORE_WORDS.
Proof. unfold beyond_words. rewrite length_replicate. apply Z2Nat.id. discriminate. Qed.
Lemma dump_reloads_witness :
  let file := (eval (dump_words (Z.to_nat CORE_WORDS) 0) demo ++ image 2 beyond_words)%list in
  eval (load_dm (Some file)) calloc_state = false /\
  forall k, 0 <= k < CORE_WORDS -> (exec (load_dm (Some file)) calloc_state).{DATA, k} = demo.{DATA, k}.
Proof.
  apply (dump_reloads demo calloc_state beyond_words);
    [apply demo_wf|apply beyond_words_length|apply Forall_replicate; split; discriminate].
Defined.

(** Port 1 of one run wrote two words; port 0 of another reads the second. *)
Definition writer_log : list event := [EvSportTx 1 (-2); EvSportRx 0; EvSportTx 1 0x1234].
Definition writer_ports : list port_t := [Port 0 0 0 None None false; Port 0 0 0 None (Some []) false].
Definition reader_ports : list port_t := [Port 0 0 0 (Some [0x34; 0x12; 0xfe; 0xff]) None false; Port 0 0 0 None None false].
Definition reader_state : state := add_event (EvSportRx 0) calloc_state.
Lemma sample_file_round_trip_witness : eval (sport_rx reader_ports 0) reader_state = s16 (-2).
Proof.
  apply (sample_file_round_trip writer_ports reader_ports 1 0 writer_log reader_state
    (Port 0 0 0 None (Some []) false) (Port 0 0 0 (Some [0x34; 0x12; 0xfe; 0xff]) None false) 1 (-2));
    [by right|by left|by repeat (constructor; [auto|])|by repeat (constructor; [auto|])|reflexivity..].
Defined.
