(* ===== verification/Tools.v ===== *)
(** * The small programs

    The segment probe [p3_segment_probe.c], the reference transmitter
    [v34_b1_reference.c] and the [main] of the listing program
    [dasm/dasm_main.cpp]: arguments, files and the loops around a library.
    The libraries (the streaming demodulator, spandsp's V.34) are not in the
    repository and are parameters. Files are the lists of their bytes. *)
From Stdlib Require Import Strings.String.
From S2P Require Import Prelude CLib.
From S2P Require Bridge Dasm DasmSpec.

(** ** p3_segment_probe.c *)
Inductive p3_signal_type_t :=
  | P3_SIGNAL_S | P3_SIGNAL_S_BAR | P3_SIGNAL_PP | P3_SIGNAL_TRN | P3_SIGNAL_J | P3_SIGNAL_J_PRIME
  | P3_SIGNAL_RU | P3_SIGNAL_UR | P3_SIGNAL_SILENCE | P3_SIGNAL_UNKNOWN | P3_SIGNAL_OTHER (code : Z).
#[export] Instance signal_eq_dec : EqDecision p3_signal_type_t.
Proof. solve_decision. Defined.

Definition pcmu (code : Z) : Z :=
  let v := u8 (~~~code) in
  let magnitude := (((v &&& 0x0f) <<< 1) + 33) <<< ((v >>> 4) &&& 7) in
  let magnitude := magnitude - 33 in
  s16 (if tst v 0x80 then - magnitude else magnitude).

Definition signal_name (type : p3_signal_type_t) : string :=
  match type with
  | P3_SIGNAL_S => "S" | P3_SIGNAL_S_BAR => "S-bar" | P3_SIGNAL_PP => "PP" | P3_SIGNAL_TRN => "TRN"
  | P3_SIGNAL_J => "J" | P3_SIGNAL_J_PRIME => "J-prime" | P3_SIGNAL_RU => "Ru" | P3_SIGNAL_UR => "uR"
  | P3_SIGNAL_SILENCE => "silence" | _ => "unknown"
  end.

(** The members of the result that are printed; [float_t] is the type of the
    estimates. *)
Record p3_segment_t (float_t : Type) := Segment {
  type : p3_signal_type_t; start_sample : Z; length_ : Z; confidence : float_t }.
Record p3_result_t (float_t : Type) := Result {
  symbol_count : Z; locked : Z; estimates : list float_t; segments : list (p3_segment_t float_t) }.
Arguments type {float_t}. Arguments start_sample {float_t}. Arguments length_ {float_t}. Arguments confidence {float_t}.
Arguments symbol_count {float_t}. Arguments locked {float_t}. Arguments estimates {float_t}. Arguments segments {float_t}.

Section Probe.
(** [p3_demod_run(samples, count, from, P3_BAUD_3200, P3_CARRIER_LOW, 8000)] *)
Context {float_t : Type} (p3_demod_run : list Z -> Z -> Z -> option (p3_result_t float_t)).

Inductive probe_line := Header (symbols segments locked : Z) (estimates : list float_t)
  | SegmentLine (i : Z) (name : string) (start length : Z) (confidence : float_t).

(** [strtol(text, NULL, 10) * 8000L] *)
Definition seconds (s : list Z) : Z := s64 (fst (strtol s 10) * 8000).

(** The window of samples asked for, if it lies in a file of [size] bytes. *)
Definition window (args : list (list Z)) (size : Z) : option (Z * Z) :=
  let from := match args with _ :: s :: _ => seconds s | _ => 0 end in
  let to := match args with [_; _; s] => seconds s | _ => -1 end in
  let to := if (to <? 0) || (to >? size) then size else to in
  if (from <? 0) || (from >=? to) then None else Some (from, to).

Fixpoint segment_lines (i : Z) (l : list (p3_segment_t float_t)) : list probe_line :=
  match l with
  | [] => []
  | s :: l =>
      let rest := segment_lines (i + 1) l in
      if bool_decide (type s = P3_SIGNAL_UNKNOWN) || bool_decide (type s = P3_SIGNAL_SILENCE) then rest
      else SegmentLine i (signal_name (type s)) (start_sample s) (length_ s) (confidence s) :: rest
  end.

(** The exit code and what is printed. *)
Definition segment_probe_main (open : list Z -> option (list Z)) (args : list (list Z)) (alloc_ok : bool) : Z * list probe_line :=
  match args with
  | path :: rest =>
      if (3 <? length args)%nat then (2, [])
      else
        match open path with
        | None => (2, [])
        | Some file =>
            match window args (Z.of_nat (length file)) with
            | None => (2, [])
            | Some (from, to) =>
                if negb alloc_ok then (2, [])
                else
                  let encoded := take (Z.to_nat (to - from)) (drop (Z.to_nat from) file) in
                  if negb (Z.of_nat (length encoded) =? to - from) then (2, [])
                  else
                    match p3_demod_run (map pcmu encoded) (s32 (to - from)) (s32 from) with
                    | None => (1, [])
                    | Some result =>
                        (0, Header (symbol_count result) (Z.of_nat (length (segments result))) (locked result) (estimates result)
                            :: segment_lines 0 (segments result))
                    end
            end
        end
  | [] => (2, [])
  end.
End Probe.
(** ** v34_b1_reference.c *)
(** spandsp: a state [L]; [v34_tx] gives the samples it produced. *)
Class V34 (L : Type) := {
  v34_init : Z -> Z -> (unit -> Z) -> option L;
  v34_tx_start_external_symbols : L -> L * Z;
  v34_v90_begin_tx_data : Z -> L -> L * Z;
  v34_seed_tx_data : Z -> L -> L * Z;
  v34_tx : Z -> L -> L * list Z;
  (** the members of [tx->tx] that the program sets *)
  set_scrambler_tap : Z -> L -> L; set_super_frame : Z -> L -> L; set_v0_pattern : Z -> L -> L;
  parms_j : L -> Z; parms_p : L -> Z;
  v34_get_mapping_frame_state : L -> L * list Z;
  linear_to_ulaw : Z -> Z;
}.

Definition get_one (_ : unit) : Z := 1.

Section Program.
Context {L : Type} {lib : V34 L}.

(** The blocks of the stream, from [block] on: the bytes written, or [None]
    for the exit with code 1. *)
Fixpoint stream (n : nat) (block bit_rate_n : Z) (tx : L) : option (list Z) :=
  match n with
  | O => Some []
  | S n =>
      '(tx, r) ← Some (if block =? 50 then v34_v90_begin_tx_data bit_rate_n tx else (tx, 0));
      if negb (r =? 0) then None
      else
        let '(tx, amp) := v34_tx 160 tx in
        if negb (length amp =? 160)%nat then None
        else rest ← stream n (block + 1) bit_rate_n tx; Some (map linear_to_ulaw amp ++ rest)
  end.

(** The mapping frames, as little-endian bytes. *)
Definition le16 (v : Z) : list Z := [u8 v; u8 (u16 v >>> 8)].
Fixpoint frames (n : nat) (tx : L) : option (list Z) :=
  match n with
  | O => Some []
  | S n =>
      let '(tx, frame) := v34_get_mapping_frame_state tx in
      if negb (length frame =? 16)%nat then None
      else rest ← frames n tx; Some (concat (map le16 frame) ++ rest)
  end.

(** The bytes on the standard output; [None] is the exit code 1. *)
Definition b1_reference_main (args : list (list Z)) : option (list Z) :=
  let bit_rate := match args with _ :: s :: _ => atoi s | _ => 31200 end in
  let bit_rate_n := bit_rate ÷ 2400 in
  tx ← v34_init 3200 bit_rate get_one;
  match args with
  | _ :: _ =>
      let '(tx, r) := v34_tx_start_external_symbols tx in
      if negb (r =? 0) then None else stream 500 0 bit_rate_n tx
  | [] =>
      let '(tx, r) := v34_seed_tx_data bit_rate_n tx in
      if negb (r =? 0) then None
      else
        let tx := set_scrambler_tap 4 tx in
        let tx := set_super_frame (parms_j tx - 1) tx in
        let tx := set_v0_pattern (u16 (2 * (parms_j tx - 1))) tx in
        frames (Z.to_nat (parms_p tx)) tx
  end.
End Program.
(** ** dasm/dasm_main.cpp *)
(** The exit code and the lines; [None] where the program reads outside the
    memory array. *)
Definition listing_main (open : list Z -> option (list Z)) (args : list (list Z)) : option (Z * list (Z * Z * string)) :=
  match args with
  | path :: s :: e :: _ =>
      match open path with
      | None => Some (1, [])
      | Some file =>
          let pm := Dasm.load_image (Z.to_nat 0x4000) file in
          let start := fst (strtol s 0) in
          let end_ := fst (strtol e 0) in
          lines ← Dasm.listing pm start (Z.to_nat (end_ - start));
          Some (0, lines)
      end
  | _ => Some (2, [])
  end.
(** ** What the programs do *)

(** The probe and the bridge decode a codeword alike. *)
Lemma pcmu_is_bridge_decode code : pcmu code = Bridge.pcmu_decode code.
Proof. done. Qed.

Lemma window_in_file args size from to : window args size = Some (from, to) -> 0 <= from < to /\ to <= size.
Proof.
  unfold window. cbv zeta. generalize (match args with [_; _; s] => seconds s | _ => -1 end) as t.
  generalize (match args with _ :: s :: _ => seconds s | _ => 0 end) as f. intros f t.
  destruct ((t <? 0) || (t >? size)) eqn:E;
    [|apply orb_false_iff in E as [E1 E2]; rewrite Z.gtb_ltb in E2; apply Z.ltb_ge in E2].
  all: destruct ((f <? 0) || _) eqn:F; [done|]; apply orb_false_iff in F as [F1%Z.ltb_ge F2];
    rewrite Z.geb_leb in F2; apply Z.leb_gt in F2; intros [= <- <-]; lia.
Qed.

(** The position, among all segments, of the lines printed. *)
Lemma segment_lines_spec {F} i (l : list (p3_segment_t F)) x :
  In x (segment_lines i l) <->
  exists k s, l !! k = Some s /\ type s <> P3_SIGNAL_UNKNOWN /\
    type s <> P3_SIGNAL_SILENCE /\
    x = SegmentLine (i + Z.of_nat k) (signal_name (type s))
          (start_sample s) (length_ s) (confidence s).
Proof.
  revert i. induction l as [|s l IH]; intros i; cbn [segment_lines].
  - split; [done|]. by intros (k & s & H & _).
  - assert (In x (segment_lines (i + 1) l) <-> exists k s', (s :: l) !! S k = Some s' /\
      type s' <> P3_SIGNAL_UNKNOWN /\ type s' <> P3_SIGNAL_SILENCE /\
      x = SegmentLine (i + Z.of_nat (S k)) (signal_name (type s'))
          (start_sample s') (length_ s') (confidence s')) as Hrest.
    { rewrite IH. split; intros (k & s' & H1 & H2 & H3 & ->); exists k, s'; (split; [done|split; [done|split; [done|]]]);
        f_equal; lia. }
    destruct (bool_decide (type s = _) || _) eqn:E.
    + apply orb_true_iff in E. rewrite Hrest. split.
      * intros (k & s' & H). by exists (S k), s'.
      * intros ([|k] & s' & H & H1 & H2 & ->); [|by exists k, s'].
        injection H as <-. destruct E as [E|E]; by apply bool_decide_eq_true in E.
    + apply orb_false_iff in E as [E1%bool_decide_eq_false E2%bool_decide_eq_false]. cbn [In]. rewrite Hrest. split.
      * intros [<-|(k & s' & H)]; [|by exists (S k), s']. exists 0%nat, s. by rewrite Z.add_0_r.
      * intros ([|k] & s' & H & H1 & H2 & ->); [|right; by exists k, s'].
        injection H as <-. left. by rewrite Z.add_0_r.
Qed.

(** The segment probe shows the window it was asked for. When it ends with
    exit code 0 the demodulator was given exactly the decoded samples of a
    non-empty window inside the file, and the lines after the header are the
    segments found that are neither unknown nor silence, with their index. *)
Theorem probe_shows_window {F} run open args alloc out :
  segment_probe_main (float_t := F) run open args alloc = (0, out) ->
  exists path rest file from to result,
    args = path :: rest /\ open path = Some file /\ 0 <= from < to /\ to <= Z.of_nat (length file) /\
    run (map pcmu (take (Z.to_nat (to - from)) (drop (Z.to_nat from) file))) (s32 (to - from)) (s32 from) = Some result /\
    out = Header (symbol_count result) (Z.of_nat (length (segments result)))
            (locked result) (estimates result)
          :: segment_lines 0 (segments result).
Proof.
  unfold segment_probe_main. destruct args as [|path rest]; [done|]. destruct (_ <? _)%nat; [done|].
  destruct (open path) as [file|] eqn:Ef; [|done].
  destruct (window _ _) as [[from to]|] eqn:Ew; [|done]. destruct alloc; [|done]. cbn [negb].
  destruct (negb _); [done|]. destruct (run _ _ _) as [result|] eqn:Er; [|done]. intros [= <-].
  apply window_in_file in Ew as [H1 H2]. by exists path, rest, file, from, to, result.
Qed.

(** A stream of the reference transmitter is five hundred blocks long. *)
Lemma stream_length {L} {lib : V34 L} n block rate tx out :
  stream n block rate tx = Some out -> length out = (n * 160)%nat.
Proof.
  revert block tx out. induction n as [|n IH]; intros block tx out; cbn [stream]; [by intros [= <-]|].
  destruct (if block =? 50 then _ else _) as [tx1 r]. cbn [mbind option_bind]. destruct (negb _); [done|].
  destruct (v34_tx 160 tx1) as [tx2 amp]. destruct (length amp =? 160)%nat eqn:E; [|done]. cbn [negb].
  destruct (stream n _ _ tx2) as [rest|] eqn:Es; [|done]. cbn. intros [= <-].
  apply Nat.eqb_eq in E. rewrite length_app, length_map, E, (IH _ _ _ Es). lia.
Qed.
Theorem reference_stream_length {L} {lib : V34 L} path rest out :
  b1_reference_main (path :: rest) = Some out -> length out = (500 * 160)%nat.
Proof.
  unfold b1_reference_main. destruct (v34_init _ _ _) as [tx|]; [|done]. cbn [mbind option_bind].
  destruct (v34_tx_start_external_symbols tx) as [tx1 r]. destruct (negb _); [done|]. apply stream_length.
Qed.
